(** * JSON <-> TOON converter: a shallow embedding of [toonUtils.ts],
      [jsonUtils.ts] and [jsonRepairUtils.ts]

    The development follows the TypeScript sources function by function.

    Modelling conventions.
    - A JavaScript string is a [list ascii]: the embedding covers the code
      units 0..255.  Within that range the white space of [String.trim] and
      of the regular expression classes [\s]/[\S] is
      U+0009..U+000D, U+0020 and U+00A0.
    - A thrown exception is the outcome [Throw msg]; [try]/[catch] is a match
      on the outcome.
    - Where the source leaves the fragment of JavaScript that is modelled
      (see [Unmodelled] below) the embedding stops with the outcome
      [Unmodelled] instead of guessing a result. *)

From Stdlib Require Import Ascii String.
From Stdlib Require Import List ZArith Bool Lia Arith.
Import ListNotations.

Local Open Scope Z_scope.

#[local] Arguments Ascii.eqb : simpl never.

(** ** Strings *)

Definition str := list ascii.

Definition lit (s : string) : str := list_ascii_of_string s.

Definition DQUOTE : ascii := "034"%char.
Definition SQUOTE : ascii := "039"%char.
Definition BSLASH : ascii := "092"%char.
Definition LF : ascii := "010"%char.

(** [dq] reads a literal in which the apostrophe stands for the double
    quote, as JSON texts are written below. *)
Definition dq (s : string) : str :=
  map (fun c => if Ascii.eqb c SQUOTE then DQUOTE else c) (lit s).

Fixpoint str_eqb (a b : str) : bool :=
  match a, b with
  | [], [] => true
  | x :: a', y :: b' => Ascii.eqb x y && str_eqb a' b'
  | _, _ => false
  end.

Definition code (c : ascii) : N := N_of_ascii c.

Definition between (lo hi : N) (c : ascii) : bool :=
  ((lo <=? code c) && (code c <=? hi))%N.

(** [\s]: WhiteSpace and LineTerminator code units below 256. *)
Definition isSpace (c : ascii) : bool :=
  between 9 13 c || (code c =? 32)%N || (code c =? 160)%N.

Definition isDigit (c : ascii) : bool := between 48 57 c.
Definition isUpper (c : ascii) : bool := between 65 90 c.
Definition isLower (c : ascii) : bool := between 97 122 c.

(** [\w], which is also [[a-zA-Z0-9_]]. *)
Definition isWord (c : ascii) : bool :=
  isLower c || isUpper c || isDigit c || (code c =? 95)%N.

(** [[a-zA-Z0-9_.]] *)
Definition isWordOrDot (c : ascii) : bool :=
  isWord c || (code c =? 46)%N.

Definition isQuoteChar (c : ascii) : bool :=
  Ascii.eqb c DQUOTE || Ascii.eqb c SQUOTE.

Fixpoint trimStart (s : str) : str :=
  match s with
  | [] => []
  | c :: r => if isSpace c then trimStart r else s
  end.

Definition trimEnd (s : str) : str := rev (trimStart (rev s)).

Definition trim (s : str) : str := trimEnd (trimStart s).

(** [s.search(/\S/)]: index of the first character that is not white space,
    [-1] when there is none. *)
Fixpoint searchNonSpace (s : str) : Z :=
  match s with
  | [] => -1
  | c :: r =>
      if isSpace c
      then (let k := searchNonSpace r in if k <? 0 then -1 else k + 1)
      else 0
  end.

Fixpoint startsWith (p s : str) : bool :=
  match p, s with
  | [], _ => true
  | x :: p', y :: s' => Ascii.eqb x y && startsWith p' s'
  | _ :: _, [] => false
  end.

Definition endsWith (p s : str) : bool := startsWith (rev p) (rev s).

Definition includes (c : ascii) (s : str) : bool := existsb (Ascii.eqb c) s.

Fixpoint indexOf (c : ascii) (s : str) : Z :=
  match s with
  | [] => -1
  | x :: r =>
      if Ascii.eqb c x then 0
      else (let k := indexOf c r in if k <? 0 then -1 else k + 1)
  end.

Definition len (s : str) : Z := Z.of_nat (length s).

(** [s.substring(a, b)]: both ends are clamped to [0, length] and swapped
    when [a > b]. *)
Definition substring (a b : Z) (s : str) : str :=
  let clamp x := Z.max 0 (Z.min x (len s)) in
  let lo := Z.min (clamp a) (clamp b) in
  let hi := Z.max (clamp a) (clamp b) in
  firstn (Z.to_nat (hi - lo)) (skipn (Z.to_nat lo) s).

(** [s.substring(a)] *)
Definition substringFrom (a : Z) (s : str) : str := substring a (len s) s.

Fixpoint join (sep : str) (l : list str) : str :=
  match l with
  | [] => []
  | [x] => x
  | x :: r => x ++ sep ++ join sep r
  end.

Definition repeatStr (s : str) (n : nat) : str := concat (repeat s n).

(** [s.split('\n')] *)
Fixpoint splitLines (s : str) : list str :=
  match s with
  | [] => [[]]
  | c :: r =>
      if Ascii.eqb c LF then [] :: splitLines r
      else match splitLines r with
           | l :: ls => (c :: l) :: ls
           | [] => [[c]]
           end
  end.

(** ** Outcomes *)

Inductive outcome (A : Type) : Type :=
| Ok (a : A)
| Throw (msg : str)
| Unmodelled.

Arguments Ok {A} a.
Arguments Throw {A} msg.
Arguments Unmodelled {A}.

Definition bind {A B} (x : outcome A) (k : A -> outcome B) : outcome B :=
  match x with
  | Ok a => k a
  | Throw m => Throw m
  | Unmodelled => Unmodelled
  end.

Notation "'let*' x ':=' c 'in' k" := (bind c (fun x => k))
  (at level 10, x pattern, c at level 100, k at level 200).

(** [try { body } catch { throw new Error(msg) }] *)
Definition rethrow {A} (msg : str) (body : outcome A) : outcome A :=
  match body with
  | Ok a => Ok a
  | Throw _ => Throw msg
  | Unmodelled => Unmodelled
  end.

(** ** validateToon *)

Fixpoint validateToon_lines (lines : list str) : bool :=
  match lines with
  | [] => true
  | line :: rest =>
      if str_eqb (trim line) [] then validateToon_lines rest
      else
        let indent := searchNonSpace line in
        if indent =? -1 then validateToon_lines rest
        else if negb (Z.rem indent 2 =? 0) then false
        else
          let content := trim line in
          if negb (startsWith (lit "- ") content) && negb (includes ":" content)
          then false
          else validateToon_lines rest
  end.

Definition validateToon (toonString : str) : bool :=
  validateToon_lines (splitLines toonString).

(** ** balanceBrackets *)

(** The counting loop of [balanceBrackets], threading both counters. *)
Fixpoint countBrackets (s : str) (openBraces openBrackets : Z) : Z * Z :=
  match s with
  | [] => (openBraces, openBrackets)
  | c :: r =>
      let openBraces := if Ascii.eqb c "{" then openBraces + 1 else openBraces in
      let openBraces := if Ascii.eqb c "}" then openBraces - 1 else openBraces in
      let openBrackets := if Ascii.eqb c "[" then openBrackets + 1 else openBrackets in
      let openBrackets := if Ascii.eqb c "]" then openBrackets - 1 else openBrackets in
      countBrackets r openBraces openBrackets
  end.

(** [while (n > 0) { result += c; n--; }] *)
Definition appendWhilePositive (result : str) (c : ascii) (n : Z) : str :=
  result ++ repeat c (Z.to_nat n).

Definition balanceBrackets (s : str) : str :=
  let '(openBraces, openBrackets) := countBrackets s 0 0 in
  let result := s in
  let result := appendWhilePositive result "}" openBraces in
  let result := appendWhilePositive result "]" openBrackets in
  result.

(** ** Numbers

    A JavaScript number is an IEEE-754 double.  The embedding keeps the
    doubles that are the nearest double of a decimal with at most 15
    significant digits and magnitude between 1e-290 and 1e290 (and zero),
    each represented by that decimal: [Finite m scale] is [m / 10^scale].
    On these, reading a literal and [Number.prototype.toString] are exact
    and distinct decimals are distinct doubles.  [-0] is identified with [0]
    (both print as [0]).  A literal outside this range is [Inexact], and the
    operation that met it is [Unmodelled]. *)

Inductive number : Type :=
| Finite (m : Z) (scale : nat)
| Infinity (negative : bool).

(** Result of [Number(s)]. *)
Inductive numeric : Type :=
| NaN
| Num (n : number)
| Inexact.

Definition digitVal (c : ascii) : Z := Z.of_N (code c) - 48.

Definition digitChar (d : Z) : ascii := ascii_of_N (Z.to_N (d + 48)).

Definition digitsValue (ds : str) : Z :=
  fold_left (fun acc c => acc * 10 + digitVal c) ds 0.

Fixpoint digitsOf (fuel : nat) (n : Z) (acc : str) : str :=
  match fuel with
  | O => acc
  | S f =>
      let acc' := digitChar (n mod 10) :: acc in
      if n <? 10 then acc' else digitsOf f (n / 10) acc'
  end.

(** Decimal digits of a non-negative integer, most significant first. *)
Definition decimal (n : Z) : str := digitsOf (S (Z.to_nat (Z.log2 n))) n [].

Fixpoint spanDigits (s : str) : str * str :=
  match s with
  | c :: r =>
      if isDigit c then (let '(ds, rest) := spanDigits r in (c :: ds, rest))
      else ([], s)
  | [] => ([], [])
  end.

(** Drop factors of ten from [m] while [scale] allows it. *)
Fixpoint normalize (m : Z) (scale : nat) : Z * nat :=
  match scale with
  | O => (m, O)
  | S s' => if m mod 10 =? 0 then normalize (m / 10) s' else (m, scale)
  end.

Definition stripTrailingZeros (ds : str) : str :=
  rev ((fix strip (r : str) : str :=
          match r with
          | c :: r' => if Ascii.eqb c "0" then strip r' else r
          | [] => []
          end) (rev ds)).

(** At most 15 significant digits, magnitude within 1e-290 .. 1e290. *)
Definition inRange (m : Z) (scale : nat) : bool :=
  (len (stripTrailingZeros (decimal (Z.abs m))) <=? 15)
  && (Z.abs m <? 10 ^ 290) && (Z.of_nat scale <=? 290).

(** The number [M * 10^e10] for a literal with digits [M]. *)
Definition makeFinite (negative : bool) (M e10 : Z) : numeric :=
  if M =? 0 then Num (Finite 0 0)
  else if (e10 >? 400) || (e10 <? -400) then Inexact
  else
    let '(m, scale) :=
      if 0 <=? e10 then (M * 10 ^ e10, O) else normalize M (Z.to_nat (- e10)) in
    if inRange m scale
    then Num (Finite (if negative then - m else m) scale)
    else Inexact.

Definition parseExponent (s : str) : option Z :=
  match s with
  | [] => Some 0
  | c :: r =>
      if Ascii.eqb c "e" || Ascii.eqb c "E" then
        let '(negative, r') :=
          match r with
          | x :: t => if Ascii.eqb x "+" then (false, t)
                      else if Ascii.eqb x "-" then (true, t) else (false, r)
          | [] => (false, r)
          end in
        let '(ds, rest) := spanDigits r' in
        match ds, rest with
        | _ :: _, [] => Some (if negative then - digitsValue ds else digitsValue ds)
        | _, _ => None
        end
      else None
  end.

(** StrUnsignedDecimalLiteral without [Infinity]: mantissa digits and the
    power of ten. *)
Definition parseUnsignedDecimal (s : str) : option (Z * Z) :=
  let '(ip, s1) := spanDigits s in
  let '(fp, s2) :=
    match s1 with
    | c :: t => if Ascii.eqb c "." then spanDigits t else ([], s1)
    | [] => ([], s1)
    end in
  match ip ++ fp with
  | [] => None
  | _ =>
      match parseExponent s2 with
      | Some e => Some (digitsValue (ip ++ fp), e - len fp)
      | None => None
      end
  end.

Definition radixDigit (radix : Z) (c : ascii) : option Z :=
  let v :=
    if isDigit c then digitVal c
    else if between 97 102 c then Z.of_N (code c) - 87
    else if between 65 70 c then Z.of_N (code c) - 55
    else 99 in
  if v <? radix then Some v else None.

Fixpoint radixValue (radix : Z) (s : str) (acc : Z) : option Z :=
  match s with
  | [] => Some acc
  | c :: r =>
      match radixDigit radix c with
      | Some v => radixValue radix r (acc * radix + v)
      | None => None
      end
  end.

(** NonDecimalIntegerLiteral: [0x..], [0o..], [0b..]. *)
Definition parseNonDecimal (s : str) : option Z :=
  match s with
  | z :: p :: (d :: _) as ds =>
      if Ascii.eqb z "0" then
        if Ascii.eqb p "x" || Ascii.eqb p "X" then radixValue 16 ds 0
        else if Ascii.eqb p "o" || Ascii.eqb p "O" then radixValue 8 ds 0
        else if Ascii.eqb p "b" || Ascii.eqb p "B" then radixValue 2 ds 0
        else None
      else None
  | _ => None
  end.

(** [Number(s)] for a string [s] (StringToNumber). *)
Definition NumberOf (s : str) : numeric :=
  let t := trim s in
  match t with
  | [] => Num (Finite 0 0)
  | c :: r =>
      match parseNonDecimal t with
      | Some v => makeFinite false v 0
      | None =>
          let '(negative, u) :=
            if Ascii.eqb c "+" then (false, r)
            else if Ascii.eqb c "-" then (true, r) else (false, t) in
          if str_eqb u (lit "Infinity") then Num (Infinity negative)
          else match parseUnsignedDecimal u with
               | Some (M, e10) => makeFinite negative M e10
               | None => NaN
               end
      end
  end.

Definition isNaN (x : numeric) : bool :=
  match x with NaN => true | _ => false end.

(** [Number.prototype.toString] (radix 10). *)
Definition numberToString (x : number) : str :=
  match x with
  | Infinity negative => (if negative then lit "-" else []) ++ lit "Infinity"
  | Finite m scale =>
      if m =? 0 then lit "0"
      else
        let D := decimal (Z.abs m) in
        let ds := stripTrailingZeros D in
        let k := len ds in
        let n := len D - Z.of_nat scale in
        (if m <? 0 then lit "-" else []) ++
        (if (k <=? n) && (n <=? 21) then ds ++ repeat "0"%char (Z.to_nat (n - k))
         else if (0 <? n) && (n <=? 21)
              then firstn (Z.to_nat n) ds ++ lit "." ++ skipn (Z.to_nat n) ds
         else if (-6 <? n) && (n <=? 0)
              then lit "0." ++ repeat "0"%char (Z.to_nat (- n)) ++ ds
         else
           let e := n - 1 in
           let es := (if e <? 0 then lit "-" else lit "+") ++ decimal (Z.abs e) in
           match ds with
           | [d] => d :: lit "e" ++ es
           | d :: rest => d :: lit "." ++ rest ++ lit "e" ++ es
           | [] => []
           end)
  end.

(** ** Values

    The data of [JSON.parse] and of the parser.  An object is the list of
    its own properties in the order of [Object.keys]; an array is the list
    of its elements (a hole of a sparse array is [VNull], as [JSON.stringify]
    prints it). *)

Unset Elimination Schemes.
Inductive Value : Type :=
| VNull
| VBool (b : bool)
| VNum (n : number)
| VStr (s : str)
| VArr (items : list Value)
| VObj (fields : list (str * Value)).
Set Elimination Schemes.

(** [Array.isArray(v)] *)
Definition isArray (v : Value) : bool :=
  match v with VArr _ => true | _ => false end.

(** [typeof v === 'object' && v !== null] *)
Definition isObjectLike (v : Value) : bool :=
  match v with VArr _ | VObj _ => true | _ => false end.

(** A canonical array index: [0], or digits without a leading zero, at most
    2^32 - 2.  Such property keys come first in [Object.keys], in ascending
    order. *)
Definition arrayIndex (k : str) : option Z :=
  match k with
  | [] => None
  | c :: r =>
      if forallb isDigit k && (negb (Ascii.eqb c "0") || str_eqb r [])
         && (len k <=? 10) && (digitsValue k <=? 4294967294)
      then Some (digitsValue k) else None
  end.

Fixpoint hasKey (fields : list (str * Value)) (key : str) : bool :=
  match fields with
  | [] => false
  | (k, _) :: r => str_eqb k key || hasKey r key
  end.

Fixpoint getKey (fields : list (str * Value)) (key : str) : option Value :=
  match fields with
  | [] => None
  | (k, v) :: r => if str_eqb k key then Some v else getKey r key
  end.

Fixpoint replaceKey (fields : list (str * Value)) (key : str) (v : Value)
  : list (str * Value) :=
  match fields with
  | [] => []
  | (k, w) :: r =>
      if str_eqb k key then (k, v) :: r else (k, w) :: replaceKey r key v
  end.

(** Position of a new array-index key [i]: before the first key that is not
    an index or is a larger index. *)
Fixpoint insertIndexKey (fields : list (str * Value)) (i : Z) (key : str)
         (v : Value) : list (str * Value) :=
  match fields with
  | [] => [(key, v)]
  | (k, w) :: r =>
      match arrayIndex k with
      | Some j => if j <? i then (k, w) :: insertIndexKey r i key v
                  else (key, v) :: fields
      | None => (key, v) :: fields
      end
  end.

(** The own properties after [obj[key] = v] on a plain object, for a key
    other than [__proto__]. *)
Definition objPut (fields : list (str * Value)) (key : str) (v : Value)
  : list (str * Value) :=
  if hasKey fields key then replaceKey fields key v
  else match arrayIndex key with
       | Some i => insertIndexKey fields i key v
       | None => fields ++ [(key, v)]
       end.

(** ** JSON.stringify *)

Definition hexDigitChar (n : N) : ascii :=
  nth (N.to_nat n) (lit "0123456789abcdef") "0"%char.

(** QuoteJSONString, one code unit. *)
Definition quoteChar (c : ascii) : str :=
  let n := code c in
  if (n =? 8)%N then lit "\b"
  else if (n =? 9)%N then lit "\t"
  else if (n =? 10)%N then lit "\n"
  else if (n =? 12)%N then lit "\f"
  else if (n =? 13)%N then lit "\r"
  else if (n =? 34)%N then [BSLASH; DQUOTE]
  else if (n =? 92)%N then [BSLASH; BSLASH]
  else if (n <? 32)%N
       then lit "\u00" ++ [hexDigitChar (n / 16); hexDigitChar (n mod 16)]
  else [c].

(** [JSON.stringify(s)] for a string [s]. *)
Definition quoteJSONString (s : str) : str :=
  DQUOTE :: flat_map quoteChar s ++ [DQUOTE].

Definition stringifyNumber (n : number) : str :=
  match n with
  | Finite _ _ => numberToString n
  | Infinity _ => lit "null"
  end.

(** [JSON.stringify(v, null, 2)] at the current indentation [indent]. *)
Fixpoint stringifyAt (v : Value) (indent : str) : str :=
  let stepback := indent in
  let indent := indent ++ lit "  " in
  match v with
  | VNull => lit "null"
  | VBool b => if b then lit "true" else lit "false"
  | VNum n => stringifyNumber n
  | VStr s => quoteJSONString s
  | VArr items =>
      match items with
      | [] => lit "[]"
      | _ =>
          lit "[" ++ [LF] ++ indent
          ++ join (lit "," ++ [LF] ++ indent)
                  (map (fun item => stringifyAt item indent) items)
          ++ [LF] ++ stepback ++ lit "]"
      end
  | VObj fields =>
      match fields with
      | [] => lit "{}"
      | _ =>
          lit "{" ++ [LF] ++ indent
          ++ join (lit "," ++ [LF] ++ indent)
                  (map (fun '(k, w) =>
                          quoteJSONString k ++ lit ": " ++ stringifyAt w indent)
                       fields)
          ++ [LF] ++ stepback ++ lit "}"
      end
  end.

Definition JSON_stringify (v : Value) : str := stringifyAt v [].

(** ** JSON.parse *)

Definition syntaxError : str := lit "SyntaxError".

Definition isJsonSpace (c : ascii) : bool :=
  let n := code c in ((n =? 32) || (n =? 9) || (n =? 10) || (n =? 13))%N.

Fixpoint skipWs (s : str) : str :=
  match s with
  | c :: r => if isJsonSpace c then skipWs r else s
  | [] => []
  end.

Definition hexVal (c : ascii) : option Z := radixDigit 16 c.

(** The characters of a JSON string after its opening quote, and the rest
    of the text after its closing quote.  An escape [\uXXXX] above U+00FF
    leaves the modelled code units. *)
Fixpoint parseStringBody (s : str) : outcome (str * str) :=
  match s with
  | [] => Throw syntaxError
  | c :: r =>
      if Ascii.eqb c DQUOTE then Ok ([], r)
      else if Ascii.eqb c BSLASH then
        match r with
        | [] => Throw syntaxError
        | e :: r' =>
            let simple (x : ascii) :=
              let* (body, rest) := parseStringBody r' in Ok (x :: body, rest) in
            if Ascii.eqb e DQUOTE then simple DQUOTE
            else if Ascii.eqb e BSLASH then simple BSLASH
            else if Ascii.eqb e "/" then simple "/"%char
            else if Ascii.eqb e "b" then simple "008"%char
            else if Ascii.eqb e "f" then simple "012"%char
            else if Ascii.eqb e "n" then simple "010"%char
            else if Ascii.eqb e "r" then simple "013"%char
            else if Ascii.eqb e "t" then simple "009"%char
            else if Ascii.eqb e "u" then
              match r' with
              | h1 :: h2 :: h3 :: h4 :: r'' =>
                  match hexVal h1, hexVal h2, hexVal h3, hexVal h4 with
                  | Some a, Some b, Some c', Some d =>
                      let n := ((a * 16 + b) * 16 + c') * 16 + d in
                      if n <? 256 then
                        let* (body, rest) := parseStringBody r'' in
                        Ok (ascii_of_N (Z.to_N n) :: body, rest)
                      else Unmodelled
                  | _, _, _, _ => Throw syntaxError
                  end
              | _ => Throw syntaxError
              end
            else Throw syntaxError
        end
      else if (code c <? 32)%N then Throw syntaxError
      else let* (body, rest) := parseStringBody r in Ok (c :: body, rest)
  end.

(** A JSON number at the head of [s]: the literal and the rest. *)
Definition spanJsonNumber (s : str) : option (str * str) :=
  let '(sign, s0) :=
    match s with
    | c :: r => if Ascii.eqb c "-" then ([c], r) else ([], s)
    | [] => ([], s)
    end in
  let '(ip, s1) := spanDigits s0 in
  let okInt :=
    match ip with
    | [] => false
    | c :: r => negb (Ascii.eqb c "0") || str_eqb r []
    end in
  if negb okInt then None
  else
    let frac :=
      match s1 with
      | c :: t =>
          if Ascii.eqb c "." then
            let '(fp, s2) := spanDigits t in
            match fp with [] => None | _ => Some (c :: fp, s2) end
          else Some ([], s1)
      | [] => Some ([], s1)
      end in
    match frac with
    | None => None
    | Some (fp, s2) =>
        let ex :=
          match s2 with
          | c :: t =>
              if Ascii.eqb c "e" || Ascii.eqb c "E" then
                let '(sg, t') :=
                  match t with
                  | x :: t0 => if Ascii.eqb x "+" || Ascii.eqb x "-"
                               then ([x], t0) else ([], t)
                  | [] => ([], t)
                  end in
                let '(ds, s3) := spanDigits t' in
                match ds with [] => None | _ => Some (c :: sg ++ ds, s3) end
              else Some ([], s2)
          | [] => Some ([], s2)
          end in
        match ex with
        | None => None
        | Some (ep, s3) => Some (sign ++ ip ++ fp ++ ep, s3)
        end
    end.

Fixpoint parseJsonValue (fuel : nat) (s : str) {struct fuel}
  : outcome (Value * str) :=
  match fuel with
  | O => Unmodelled
  | S f =>
      match skipWs s with
      | [] => Throw syntaxError
      | c :: r =>
          let t := c :: r in
          if Ascii.eqb c "{" then
            match skipWs r with
            | x :: r' => if Ascii.eqb x "}" then Ok (VObj [], r')
                         else parseJsonMembers f r []
            | [] => Throw syntaxError
            end
          else if Ascii.eqb c "[" then
            match skipWs r with
            | x :: r' => if Ascii.eqb x "]" then Ok (VArr [], r')
                         else parseJsonElements f r []
            | [] => Throw syntaxError
            end
          else if Ascii.eqb c DQUOTE then
            let* (x, r') := parseStringBody r in Ok (VStr x, r')
          else if startsWith (lit "true") t then Ok (VBool true, skipn 4 t)
          else if startsWith (lit "false") t then Ok (VBool false, skipn 5 t)
          else if startsWith (lit "null") t then Ok (VNull, skipn 4 t)
          else
            match spanJsonNumber t with
            | None => Throw syntaxError
            | Some (literal, r') =>
                match NumberOf literal with
                | Num n => Ok (VNum n, r')
                | _ => Unmodelled
                end
            end
      end
  end
with parseJsonElements (fuel : nat) (s : str) (acc : list Value) {struct fuel}
  : outcome (Value * str) :=
  match fuel with
  | O => Unmodelled
  | S f =>
      let* (v, r) := parseJsonValue f s in
      match skipWs r with
      | x :: r' =>
          if Ascii.eqb x "," then parseJsonElements f r' (acc ++ [v])
          else if Ascii.eqb x "]" then Ok (VArr (acc ++ [v]), r')
          else Throw syntaxError
      | [] => Throw syntaxError
      end
  end
with parseJsonMembers (fuel : nat) (s : str) (acc : list (str * Value))
       {struct fuel} : outcome (Value * str) :=
  match fuel with
  | O => Unmodelled
  | S f =>
      match skipWs s with
      | q :: r =>
          if Ascii.eqb q DQUOTE then
            let* (k, r1) := parseStringBody r in
            match skipWs r1 with
            | x :: r2 =>
                if Ascii.eqb x ":" then
                  let* (v, r3) := parseJsonValue f r2 in
                  let acc' := objPut acc k v in
                  match skipWs r3 with
                  | y :: r4 =>
                      if Ascii.eqb y "," then parseJsonMembers f r4 acc'
                      else if Ascii.eqb y "}" then Ok (VObj acc', r4)
                      else Throw syntaxError
                  | [] => Throw syntaxError
                  end
                else Throw syntaxError
            | [] => Throw syntaxError
            end
          else Throw syntaxError
      | [] => Throw syntaxError
      end
  end.

(** [JSON.parse(text)]; the fuel is the length of the text, which bounds the
    nesting depth and the number of elements. *)
Definition JSON_parse (text : str) : outcome Value :=
  let* (v, r) := parseJsonValue (S (length text)) text in
  match skipWs r with
  | [] => Ok v
  | _ => Throw syntaxError
  end.

(** ** toToon *)

(** [/^[a-zA-Z0-9_.]+$/.test(s)] *)
Definition testWordDot (s : str) : bool :=
  negb (str_eqb s []) && forallb isWordOrDot s.

(** [/^[a-zA-Z0-9_]+$/.test(s)] *)
Definition testWord (s : str) : bool :=
  negb (str_eqb s []) && forallb isWord s.

(** [items.every(item => typeof item !== 'object' || item === null)] *)
Definition isSimple (items : list Value) : bool :=
  forallb (fun item => negb (isObjectLike item)) items.

(** [s.replace(new RegExp('^' + prefix), target)] for a [prefix] of spaces. *)
Definition replacePrefix (prefix target s : str) : str :=
  if startsWith prefix s then target ++ skipn (length prefix) s else s.

Definition lengthSuffix (items : list Value) : str :=
  lit "[" ++ decimal (Z.of_nat (length items)) ++ lit "]".

Fixpoint toToon (data : Value) (indentLevel : nat) {struct data} : str :=
  let indent := repeatStr (lit "  ") indentLevel in
  match data with
  | VNull => lit "null"
  | VBool b => if b then lit "true" else lit "false"
  | VNum n => numberToString n
  | VStr s =>
      if str_eqb s (lit "true") || str_eqb s (lit "false")
         || str_eqb s (lit "null") || negb (isNaN (NumberOf s))
      then quoteJSONString s
      else if testWordDot s then s
      else quoteJSONString s
  | VArr items =>
      match items with
      | [] => lit "[]"
      | _ =>
          if isSimple items
          then join (lit ",") (map (fun item => toToon item 0) items)
          else
            join [LF]
              (map (fun item =>
                      match item with
                      | VObj _ =>
                          let objStr := toToon item (S indentLevel) in
                          let itemIndent := repeatStr (lit "  ") (S indentLevel) in
                          replacePrefix itemIndent (indent ++ lit "- ") objStr
                      | _ => indent ++ lit "- " ++ toToon item 0
                      end) items)
      end
  | VObj fields =>
      match fields with
      | [] => lit "{}"
      | _ =>
          join [LF]
            (map (fun '(key, value) =>
                    let formattedKey :=
                      if testWord key then key else quoteJSONString key in
                    match value with
                    | VArr vitems =>
                        if isSimple vitems then
                          match vitems with
                          | [] => indent ++ formattedKey ++ lengthSuffix vitems
                                  ++ lit ": []"
                          | _ => indent ++ formattedKey ++ lengthSuffix vitems
                                 ++ lit ": " ++ toToon value 0 ++ lit " "
                          end
                        else
                          match vitems with
                          | [] => indent ++ formattedKey ++ lengthSuffix vitems
                                  ++ lit ": []"
                          | _ => indent ++ formattedKey ++ lengthSuffix vitems
                                 ++ lit ":" ++ [LF] ++ toToon value (S indentLevel)
                          end
                    | VObj vfields =>
                        match vfields with
                        | [] => indent ++ formattedKey ++ lit ": { } "
                        | _ => indent ++ formattedKey ++ lit ": " ++ [LF]
                               ++ toToon value (S indentLevel) ++ lit " "
                        end
                    | _ => indent ++ formattedKey ++ lit ": " ++ toToon value 0
                           ++ lit " "
                    end) fields)
      end
  end.

Definition convertToToon (jsonString : str) : outcome str :=
  rethrow (lit "Failed to convert to TOON")
    (let* data := JSON_parse jsonString in Ok (toToon data 0)).

(** ** formatJson, validateJson *)

Definition formatJson (jsonString : str) : outcome str :=
  rethrow (lit "Invalid JSON")
    (let* parsed := JSON_parse jsonString in Ok (JSON_stringify parsed)).

Definition validateJson (jsonString : str) : outcome bool :=
  match JSON_parse jsonString with
  | Ok _ => Ok true
  | Throw _ => Ok false
  | Unmodelled => Unmodelled
  end.

(** ** repairJson

    [jsonrepair] is the external package of that name; it is a parameter. *)

Section Repair.

Variable jsonrepair : str -> outcome str.

(** [const repaired = jsonrepair(x); return formatJson(repaired);] *)
Definition repairAttempt (x : str) : outcome str :=
  let* repaired := jsonrepair x in formatJson repaired.

Definition repairJson (jsonString : str) : outcome str :=
  rethrow (lit "Unable to repair JSON")
    match repairAttempt jsonString with
    | Ok r => Ok r
    | Throw _ =>
        let balanced := balanceBrackets jsonString in
        repairAttempt balanced
    | Unmodelled => Unmodelled
    end.

End Repair.

(** ** convertToJson

    The parser mutates containers that are shared between the result and
    the frames of its stack.  The embedding keeps one store, the value under
    construction at [stack[0].obj], and a frame refers to its container by
    the path that leads to it from the root.  A container that the source
    creates without linking it into the result is [Detached]: writes to it
    are lost, only its kind is observed.

    [Unmodelled]: a change of the prototype of a container (an Object, an
    Array or [null] assigned to [__proto__]); an own property [push] on an
    Array, which hides the method of later items; a literal outside the
    modelled numbers or characters. *)

Inductive step : Type :=
| SKey (k : str)
| SIdx (i : nat).

Inductive ref : Type :=
| Attached (p : list step)
| Detached (isArr : bool).

Record frame : Type := mkFrame { obj : ref; indent : Z; key : option str }.

Record pstate : Type := mkState { root : Value; stack : list frame }.

(** [stack[0]]; [stack] holds the frames above it, the top first. *)
Definition rootFrame : frame :=
  {| obj := Attached []; indent := -1; key := None |}.

Definition top (stack : list frame) : frame :=
  match stack with f :: _ => f | [] => rootFrame end.

Fixpoint getAt (v : Value) (p : list step) {struct p} : option Value :=
  match p with
  | [] => Some v
  | SKey k :: p' =>
      match v with
      | VObj fields =>
          match getKey fields k with Some w => getAt w p' | None => None end
      | _ => None
      end
  | SIdx i :: p' =>
      match v with
      | VArr items =>
          match nth_error items i with Some w => getAt w p' | None => None end
      | _ => None
      end
  end.

Fixpoint mapKey (g : Value -> Value) (fields : list (str * Value)) (k : str)
  : list (str * Value) :=
  match fields with
  | [] => []
  | (k', w) :: r =>
      if str_eqb k' k then (k', g w) :: r else (k', w) :: mapKey g r k
  end.

Fixpoint mapNth (g : Value -> Value) (items : list Value) (i : nat)
  : list Value :=
  match items, i with
  | [], _ => []
  | w :: r, O => g w :: r
  | w :: r, S i' => w :: mapNth g r i'
  end.

Fixpoint updateAt (v : Value) (p : list step) (g : Value -> Value) {struct p}
  : Value :=
  match p with
  | [] => g v
  | SKey k :: p' =>
      match v with
      | VObj fields => VObj (mapKey (fun w => updateAt w p' g) fields k)
      | _ => v
      end
  | SIdx i :: p' =>
      match v with
      | VArr items => VArr (mapNth (fun w => updateAt w p' g) items i)
      | _ => v
      end
  end.

(** [Array.isArray(r)] for a reference. *)
Definition isArrayRef (root : Value) (r : ref) : bool :=
  match r with
  | Attached p => match getAt root p with Some v => isArray v | None => false end
  | Detached isArr => isArr
  end.

(** [Object.keys(r).length === 0] for a reference to a plain object. *)
Definition keysEmpty (root : Value) (r : ref) : bool :=
  match r with
  | Attached p => match getAt root p with Some (VObj []) => true | _ => false end
  | Detached _ => false
  end.

(** [items[i] = v] on an array, filling a gap with holes. *)
Definition arrPut (items : list Value) (i : nat) (v : Value) : list Value :=
  if (i <? length items)%nat then mapNth (fun _ => v) items i
  else items ++ repeat VNull (i - length items) ++ [v].

(** [String(v)]; the elements of an Array are joined by commas, [null]
    and a hole as the empty string. *)
Fixpoint toStringValue (v : Value) : str :=
  match v with
  | VNull => lit "null"
  | VBool b => if b then lit "true" else lit "false"
  | VNum x => numberToString x
  | VStr s => s
  | VArr items =>
      join (lit ",")
           (map (fun item =>
                   match item with
                   | VNull => []
                   | _ => toStringValue item
                   end) items)
  | VObj _ => lit "[object Object]"
  end.

(** [Number(v)] *)
Definition toNumberValue (v : Value) : numeric :=
  match v with
  | VNull => Num (Finite 0 0)
  | VBool b => Num (Finite (if b then 1 else 0) 0)
  | VNum x => Num x
  | VStr s => NumberOf s
  | _ => NumberOf (toStringValue v)
  end.

(** The length that [arr.length = v] sets: [Number(v)] when it is an
    integer from 0 to 2^32 - 1, a RangeError otherwise. *)
Definition toArrayLength (v : Value) : outcome nat :=
  match toNumberValue v with
  | Num (Finite m scale) =>
      let d := 10 ^ Z.of_nat scale in
      if (m mod d =? 0) && (0 <=? m / d) && (m / d <=? 4294967295)
      then Ok (Z.to_nat (m / d))
      else Throw (lit "Invalid array length")
  | Num (Infinity _) => Throw (lit "Invalid array length")
  | NaN => Throw (lit "Invalid array length")
  | Inexact => Unmodelled
  end.

(** [items.length = n]: the array is cut, or filled with holes. *)
Definition setLength (items : list Value) (n : nat) : list Value :=
  firstn n items ++ repeat VNull (n - length items).

(** [container[key] = value]: the new store and the reference under which
    [value] is reachable afterwards.  The setter of [__proto__] ignores a
    value that is neither an object nor [null]; [length] of an Array is
    set through [toArrayLength]; another property of an Array that is not
    an index does not show in the result. *)
Definition assign (root : Value) (container : ref) (key : str) (value : Value)
  : outcome (Value * ref) :=
  if str_eqb key (lit "__proto__") then
    match value with
    | VBool _ | VNum _ | VStr _ => Ok (root, Detached false)
    | _ => Unmodelled
    end
  else
    match container with
    | Detached isArr =>
        if isArr && str_eqb key (lit "length") then
          let* _ := toArrayLength value in
          Ok (root, Detached (isArray value))
        else if isArr && str_eqb key (lit "push") then Unmodelled
        else Ok (root, Detached (isArray value))
    | Attached p =>
        match getAt root p with
        | Some (VObj fields) =>
            Ok (updateAt root p (fun _ => VObj (objPut fields key value)),
                Attached (p ++ [SKey key]))
        | Some (VArr items) =>
            match arrayIndex key with
            | Some i =>
                Ok (updateAt root p
                      (fun _ => VArr (arrPut items (Z.to_nat i) value)),
                    Attached (p ++ [SIdx (Z.to_nat i)]))
            | None =>
                if str_eqb key (lit "length") then
                  let* n := toArrayLength value in
                  Ok (updateAt root p (fun _ => VArr (setLength items n)),
                      Detached (isArray value))
                else if str_eqb key (lit "push") then Unmodelled
                else Ok (root, Detached (isArray value))
            end
        | _ => Unmodelled
        end
    end.

(** [if (Array.isArray(parent.obj)) parent.obj.push(value);] *)
Definition pushIfArray (root : Value) (parent : ref) (value : Value)
  : outcome (Value * ref) :=
  if isArrayRef root parent then
    match parent with
    | Detached _ => Ok (root, Detached (isArray value))
    | Attached p =>
        match getAt root p with
        | Some (VArr items) =>
            Ok (updateAt root p (fun _ => VArr (items ++ [value])),
                Attached (p ++ [SIdx (length items)]))
        | _ => Unmodelled
        end
    end
  else Ok (root, Detached (isArray value)).

Definition isQuotedBy (q : ascii) (s : str) : bool :=
  startsWith [q] s && endsWith [q] s.

Definition parseValue (valueStr : str) : outcome Value :=
  if str_eqb valueStr (lit "true") then Ok (VBool true)
  else if str_eqb valueStr (lit "false") then Ok (VBool false)
  else if str_eqb valueStr (lit "null") then Ok VNull
  else if str_eqb valueStr (lit "[]") then Ok (VArr [])
  else if str_eqb valueStr (lit "{}") then Ok (VObj [])
  else if negb (isNaN (NumberOf valueStr)) && negb (startsWith [DQUOTE] valueStr)
          && negb (startsWith [SQUOTE] valueStr) && negb (str_eqb valueStr [])
  then match NumberOf valueStr with
       | Num n => Ok (VNum n)
       | _ => Unmodelled
       end
  else if isQuotedBy DQUOTE valueStr || isQuotedBy SQUOTE valueStr then
    if startsWith [DQUOTE] valueStr then
      match JSON_parse valueStr with
      | Ok v => Ok v
      | Throw _ => Ok (VStr (substring 1 (len valueStr - 1) valueStr))
      | Unmodelled => Unmodelled
      end
    else Ok (VStr (substring 1 (len valueStr - 1) valueStr))
  else Ok (VStr valueStr).

(** The loop of [splitByComma]; [prev] is [str[i - 1]] and [quoteChar] is
    the empty string until a quote opens. *)
Fixpoint splitByComma_loop (s : str) (prev : option ascii) (result : list str)
         (current : str) (inQuote : bool) (quoteChar : str) : list str :=
  match s with
  | [] => result ++ [trim current]
  | char :: rest =>
      let '(inQuote, quoteChar) :=
        if isQuoteChar char
           && match prev with
              | None => true
              | Some b => negb (Ascii.eqb b BSLASH)
              end
        then
          if negb inQuote then (true, [char])
          else if str_eqb [char] quoteChar then (false, quoteChar)
          else (inQuote, quoteChar)
        else (inQuote, quoteChar) in
      if Ascii.eqb char "," && negb inQuote
      then splitByComma_loop rest (Some char) (result ++ [trim current]) []
                             inQuote quoteChar
      else splitByComma_loop rest (Some char) result (current ++ [char])
                             inQuote quoteChar
  end.

Definition splitByComma (s : str) : list str :=
  splitByComma_loop s None [] [] false [].

(** The look-ahead of [processValue]: [isNextArray] after the [if] on
    [currentIndex + 1 < lines.length]. *)
Definition peekNextArray (lines : list str) (currentIndex : nat) (indent : Z)
  : bool :=
  match nth_error lines (S currentIndex) with
  | Some nextLine =>
      let nextIndent := searchNonSpace nextLine in
      (indent <=? nextIndent) && startsWith (lit "- ") (trim nextLine)
  | None => false
  end.

Definition processValue (st : pstate) (container : ref) (key valueStr : str)
           (indent : Z) (lines : list str) (currentIndex : nat)
  : outcome pstate :=
  if str_eqb valueStr [] then
    let isNextArray := peekNextArray lines currentIndex indent in
    let newContainer := if isNextArray then VArr [] else VObj [] in
    let* (root', r) := assign (root st) container key newContainer in
    Ok {| root := root';
          stack := {| obj := r; indent := indent; key := Some key |}
                   :: stack st |}
  else if str_eqb valueStr (lit "[]") then
    let* (root', _) := assign (root st) container key (VArr []) in
    Ok {| root := root'; stack := stack st |}
  else if str_eqb valueStr (lit "{}") then
    let* (root', _) := assign (root st) container key (VObj []) in
    Ok {| root := root'; stack := stack st |}
  else
    let isQuoted := isQuotedBy DQUOTE valueStr || isQuotedBy SQUOTE valueStr in
    let* value :=
      if includes "," valueStr then
        let* isSingleString :=
          if isQuoted then
            match JSON_parse valueStr with
            | Ok _ => Ok true
            | Throw _ => Ok false
            | Unmodelled => Unmodelled
            end
          else Ok false in
        if isSingleString : bool then parseValue valueStr
        else
          let parts := splitByComma valueStr in
          let* values :=
            fold_right (fun part acc =>
                          let* v := parseValue part in
                          let* vs := acc in Ok (v :: vs))
                       (Ok []) parts in
          Ok (VArr values)
      else parseValue valueStr in
    let* (root', _) := assign (root st) container key value in
    Ok {| root := root'; stack := stack st |}.

(** The first test of [keyPart]: an optional quote character (double or
    single), one or more of [\w\d_], an optional quote character. *)
Definition testKeyLike (s : str) : bool :=
  let s1 := match s with
            | c :: r => if isQuoteChar c then r else s
            | [] => s
            end in
  let s2 := match rev s1 with
            | c :: r => if isQuoteChar c then rev r else s1
            | [] => s1
            end in
  negb (str_eqb s2 []) && forallb isWord s2.

(** The second test of [keyPart]: a double quote, one or more characters
    other than the double quote, a double quote. *)
Definition testQuotedKey (s : str) : bool :=
  match s with
  | c :: r =>
      Ascii.eqb c DQUOTE
      && match rev r with
         | d :: m => Ascii.eqb d DQUOTE && negb (str_eqb m [])
                     && forallb (fun x => negb (Ascii.eqb x DQUOTE)) m
         | [] => false
         end
  | [] => false
  end.

(** [key.replace(/\[\d+\]$/, '')] *)
Definition stripLengthSuffix (key : str) : str :=
  match rev key with
  | c :: r =>
      if Ascii.eqb c "]" then
        let '(ds, rest) := spanDigits r in
        match ds, rest with
        | _ :: _, b :: before =>
            if Ascii.eqb b "[" then rev before else key
        | _, _ => key
        end
      else key
  | [] => key
  end.

(** The second [replace] of [cleanKey]: a quote character (double or
    single) is removed at the start and at the end. *)
Definition stripQuotes (s : str) : str :=
  let s1 := match s with
            | c :: r => if isQuoteChar c then r else s
            | [] => s
            end in
  match rev s1 with
  | c :: r => if isQuoteChar c then rev r else s1
  | [] => s1
  end.

(** The [while (stack.length > 1)] loop that finds the parent. *)
Fixpoint popFrames (root : Value) (stack : list frame) (lineIndent : Z)
         (content : str) : list frame :=
  match stack with
  | [] => []
  | top :: below =>
      if indent top <? lineIndent then stack
      else if (indent top =? lineIndent) && isArrayRef root (obj top)
              && startsWith (lit "- ") content then stack
      else popFrames root below lineIndent content
  end.

(** The body of the [for] loop for [lines[i]], after [indent] and [content]
    are computed. *)
Definition processContent (lines : list str) (i : nat) (lineIndent : Z)
           (content : str) (st : pstate) : outcome pstate :=
  let stack1 := popFrames (root st) (stack st) lineIndent content in
  let parent := top stack1 in
  if startsWith (lit "- ") content then
    let valueStr := trim (substringFrom 2 content) in
    let root1 :=
      if negb (isArrayRef (root st) (obj parent))
         && (indent parent =? -1) && keysEmpty (root st) (obj parent)
      then VArr [] else root st in
    if str_eqb valueStr [] then
      let* (root2, r) := pushIfArray root1 (obj parent) (VObj []) in
      Ok {| root := root2;
            stack := {| obj := r; indent := lineIndent; key := None |}
                     :: stack1 |}
    else
      let colonIndex := indexOf ":" valueStr in
      let isKeyValue :=
        negb (colonIndex =? -1)
        && (let keyPart := substring 0 colonIndex valueStr in
            testKeyLike keyPart || testQuotedKey keyPart) in
      if isKeyValue then
        let* (root2, r) := pushIfArray root1 (obj parent) (VObj []) in
        let st2 :=
          {| root := root2;
             stack := {| obj := r; indent := lineIndent; key := None |}
                      :: stack1 |} in
        let key := trim (substring 0 colonIndex valueStr) in
        let valStr := trim (substringFrom (colonIndex + 1) valueStr) in
        let cleanKey := stripQuotes (stripLengthSuffix key) in
        processValue st2 r cleanKey valStr (lineIndent + 2) lines i
      else
        let* value := parseValue valueStr in
        let* (root2, _) := pushIfArray root1 (obj parent) value in
        Ok {| root := root2; stack := stack1 |}
  else
    let colonIndex := indexOf ":" content in
    if colonIndex =? -1 then Ok {| root := root st; stack := stack1 |}
    else
      let key := trim (substring 0 colonIndex content) in
      let valueStr := trim (substringFrom (colonIndex + 1) content) in
      let cleanKey := stripLengthSuffix key in
      let* finalKey :=
        if startsWith [DQUOTE] cleanKey && endsWith [DQUOTE] cleanKey then
          match JSON_parse cleanKey with
          | Ok (VStr k) => Ok k
          | Ok _ => Unmodelled
          | Throw m => Throw m
          | Unmodelled => Unmodelled
          end
        else Ok cleanKey in
      processValue {| root := root st; stack := stack1 |} (obj parent)
                   finalKey valueStr lineIndent lines i.

(** The body of the [for] loop for [lines[i]]. *)
Definition processLine (lines : list str) (i : nat) (line : str) (st : pstate)
  : outcome pstate :=
  let lineIndent := searchNonSpace line in
  let content := trim line in
  processContent lines i lineIndent content st.

Fixpoint convertLoop (lines todo : list str) (i : nat) (st : pstate)
  : outcome pstate :=
  match todo with
  | [] => Ok st
  | line :: rest =>
      let* st' := processLine lines i line st in
      convertLoop lines rest (S i) st'
  end.

(** [line => line.trim() !== ''] *)
Definition nonBlank (line : str) : bool := negb (str_eqb (trim line) []).

Definition nonBlankLines (toonString : str) : list str :=
  filter nonBlank (splitLines toonString).

(** The value at [stack[0].obj] when the loop of [convertToJson] ends. *)
Definition parseLines (lines : list str) : outcome Value :=
  let* st := convertLoop lines lines 0 {| root := VObj []; stack := [] |} in
  Ok (root st).

Definition convertToJson (toonString : str) : outcome str :=
  rethrow (lit "Failed to convert to JSON")
    (let lines := nonBlankLines toonString in
     match lines with
     | [] => Ok (lit "{}")
     | _ => let* v := parseLines lines in Ok (JSON_stringify v)
     end).

(** ** The App component

    The React state of the component is a record, and a handler is a
    function on it: a handler reads the state of the render that created
    it and calls the setters, so that the state after the handler is the
    old state with the last value written by each setter.  Of the editor
    widget the state records only whether [editorRef.current] is set (the
    widget keeps its own buffer, and the change callback that [setValue]
    triggers writes what the handler writes itself).  [window.location.href]
    is the last address that a handler assigned.  An exception that a
    handler catches becomes the error message of the [catch] block. *)

Inductive Theme : Type := ThemeSystem | ThemeLight | ThemeDark | ThemeSpace.

Inductive ViewMode : Type := EditorView | PreviewView.

Inductive ConversionMode : Type := JsonToToon | ToonToJson.

Record Contact : Type := mkContact { email : str; message : str }.

Record AppState : Type := mkAppState {
  inputContent : str;
  outputContent : str;
  error : option str;
  theme : Theme;
  viewMode : ViewMode;
  parsedPreview : Value;
  conversionMode : ConversionMode;
  isModalOpen : bool;
  contactForm : Contact;
  formErrors : Contact;
  editorRef : bool;
  locationHref : option str
}.

Definition setInputContent (v : str) (st : AppState) : AppState :=
  mkAppState v (outputContent st) (error st) (theme st) (viewMode st)
             (parsedPreview st) (conversionMode st) (isModalOpen st)
             (contactForm st) (formErrors st) (editorRef st) (locationHref st).

Definition setOutputContent (v : str) (st : AppState) : AppState :=
  mkAppState (inputContent st) v (error st) (theme st) (viewMode st)
             (parsedPreview st) (conversionMode st) (isModalOpen st)
             (contactForm st) (formErrors st) (editorRef st) (locationHref st).

Definition setError (v : option str) (st : AppState) : AppState :=
  mkAppState (inputContent st) (outputContent st) v (theme st) (viewMode st)
             (parsedPreview st) (conversionMode st) (isModalOpen st)
             (contactForm st) (formErrors st) (editorRef st) (locationHref st).

Definition setTheme (v : Theme) (st : AppState) : AppState :=
  mkAppState (inputContent st) (outputContent st) (error st) v (viewMode st)
             (parsedPreview st) (conversionMode st) (isModalOpen st)
             (contactForm st) (formErrors st) (editorRef st) (locationHref st).

Definition setViewMode (v : ViewMode) (st : AppState) : AppState :=
  mkAppState (inputContent st) (outputContent st) (error st) (theme st) v
             (parsedPreview st) (conversionMode st) (isModalOpen st)
             (contactForm st) (formErrors st) (editorRef st) (locationHref st).

Definition setParsedPreview (v : Value) (st : AppState) : AppState :=
  mkAppState (inputContent st) (outputContent st) (error st) (theme st)
             (viewMode st) v (conversionMode st) (isModalOpen st)
             (contactForm st) (formErrors st) (editorRef st) (locationHref st).

Definition setConversionMode (v : ConversionMode) (st : AppState) : AppState :=
  mkAppState (inputContent st) (outputContent st) (error st) (theme st)
             (viewMode st) (parsedPreview st) v (isModalOpen st)
             (contactForm st) (formErrors st) (editorRef st) (locationHref st).

Definition setIsModalOpen (v : bool) (st : AppState) : AppState :=
  mkAppState (inputContent st) (outputContent st) (error st) (theme st)
             (viewMode st) (parsedPreview st) (conversionMode st) v
             (contactForm st) (formErrors st) (editorRef st) (locationHref st).

Definition setContactForm (v : Contact) (st : AppState) : AppState :=
  mkAppState (inputContent st) (outputContent st) (error st) (theme st)
             (viewMode st) (parsedPreview st) (conversionMode st)
             (isModalOpen st) v (formErrors st) (editorRef st) (locationHref st).

Definition setFormErrors (v : Contact) (st : AppState) : AppState :=
  mkAppState (inputContent st) (outputContent st) (error st) (theme st)
             (viewMode st) (parsedPreview st) (conversionMode st)
             (isModalOpen st) (contactForm st) v (editorRef st) (locationHref st).

Definition setLocationHref (v : str) (st : AppState) : AppState :=
  mkAppState (inputContent st) (outputContent st) (error st) (theme st)
             (viewMode st) (parsedPreview st) (conversionMode st)
             (isModalOpen st) (contactForm st) (formErrors st) (editorRef st)
             (Some v).

(** [try { body } catch (err) { handler(err.message) }] *)
Definition catching (handler : str -> AppState) (body : outcome AppState)
  : outcome AppState :=
  match body with
  | Ok st => Ok st
  | Throw m => Ok (handler m)
  | Unmodelled => Unmodelled
  end.

(** [!s.trim()] *)
Definition isBlank (s : str) : bool := str_eqb (trim s) [].

Definition Theme_eqb (a b : Theme) : bool :=
  match a, b with
  | ThemeSystem, ThemeSystem | ThemeLight, ThemeLight
  | ThemeDark, ThemeDark | ThemeSpace, ThemeSpace => true
  | _, _ => false
  end.

Definition themes : list Theme := [ThemeSystem; ThemeLight; ThemeDark; ThemeSpace].

(** [themes.indexOf(t)] *)
Fixpoint themeIndexOf (l : list Theme) (t : Theme) (i : nat) : nat :=
  match l with
  | [] => O
  | x :: r => if Theme_eqb x t then i else themeIndexOf r t (S i)
  end.

Definition toggleTheme (st : AppState) : AppState :=
  let nextIndex := ((themeIndexOf themes (theme st) 0 + 1) mod length themes)%nat in
  setTheme (nth nextIndex themes ThemeSystem) st.

Definition invalidToonMessage : str :=
  lit "Invalid TOON format: Check indentation (2 spaces) and syntax (key: value or - item)".

Definition looksLikeJsonMessage : str :=
  dq "Input appears to be JSON. Switch to 'JSON to TOON' mode to format.".

Section Handlers.

Variable jsonrepair : str -> outcome str.

Definition handleFormat (st : AppState) : outcome AppState :=
  catching (fun m => setError (Some (lit "Unable to format: " ++ m)) st)
    (if isBlank (inputContent st) then Ok st
     else
       match conversionMode st with
       | JsonToToon =>
           let* formatted := formatJson (inputContent st) in
           Ok (setError None (setInputContent formatted st))
       | ToonToJson =>
           let* isJson := validateJson (inputContent st) in
           if isJson : bool then Ok (setError (Some looksLikeJsonMessage) st)
           else if negb (validateToon (inputContent st))
           then Ok (setError (Some invalidToonMessage) st)
           else
             let* json := convertToJson (inputContent st) in
             let* toon := convertToToon json in
             Ok (setError None (setInputContent toon st))
       end).

Definition handleRepair (st : AppState) : outcome AppState :=
  match conversionMode st with
  | ToonToJson => Ok st
  | JsonToToon =>
      catching (fun _ => setError (Some (lit "Repair Failed: Unable to fix JSON")) st)
        (if isBlank (inputContent st) then Ok st
         else
           let* repaired := repairJson jsonrepair (inputContent st) in
           Ok (setError None (setInputContent repaired st)))
  end.

Definition handleConvert (st : AppState) : outcome AppState :=
  catching (fun m => setError (Some (lit "Conversion Failed: " ++ m)) st)
    (if isBlank (inputContent st) then Ok st
     else
       match conversionMode st with
       | JsonToToon =>
           let* valid := validateJson (inputContent st) in
           let* inputToConvert :=
             if negb valid then
               match repairJson jsonrepair (inputContent st) with
               | Ok repaired => Ok (Some repaired)
               | Throw _ => Ok None
               | Unmodelled => Unmodelled
               end
             else Ok (Some (inputContent st)) in
           match inputToConvert with
           | None =>
               Ok (setError
                     (Some (lit "Invalid JSON: Please fix errors before converting"))
                     st)
           | Some text =>
               let* toon := convertToToon text in
               Ok (setError None (setOutputContent toon st))
           end
       | ToonToJson =>
           if negb (validateToon (inputContent st))
           then Ok (setError (Some invalidToonMessage) st)
           else
             let* json := convertToJson (inputContent st) in
             let* formattedJson := formatJson json in
             Ok (setError None (setOutputContent formattedJson st))
       end).

End Handlers.

Definition handleClear (st : AppState) : AppState :=
  if editorRef st then setError None (setInputContent [] st) else st.

Definition toggleViewMode (mode : ViewMode) (st : AppState) : outcome AppState :=
  match mode with
  | PreviewView =>
      catching (fun _ =>
                  setError
                    (Some (lit "Invalid Content: Cannot switch to Preview mode"))
                    st)
        (if isBlank (inputContent st)
         then Ok (setViewMode PreviewView (setParsedPreview (VObj []) st))
         else
           let* jsonObject :=
             match conversionMode st with
             | JsonToToon => JSON_parse (inputContent st)
             | ToonToJson =>
                 let* jsonStr := convertToJson (inputContent st) in
                 JSON_parse jsonStr
             end in
           Ok (setError None
                 (setViewMode PreviewView (setParsedPreview jsonObject st))))
  | EditorView => Ok (setViewMode EditorView st)
  end.

Definition toggleConversionMode (st : AppState) : AppState :=
  let mode := match conversionMode st with
              | JsonToToon => ToonToJson
              | ToonToJson => JsonToToon
              end in
  setError None (setOutputContent [] (setInputContent [] (setConversionMode mode st))).

(** *** The contact form *)

(** A pattern of a regular expression, and its matcher by derivatives. *)
Inductive regex : Type :=
| RNone
| REmpty
| RClass (f : ascii -> bool)
| RSeq (a b : regex)
| RAlt (a b : regex)
| RStar (a : regex).

Fixpoint nullable (r : regex) : bool :=
  match r with
  | RNone => false
  | REmpty => true
  | RClass _ => false
  | RSeq a b => nullable a && nullable b
  | RAlt a b => nullable a || nullable b
  | RStar _ => true
  end.

Fixpoint derive (c : ascii) (r : regex) : regex :=
  match r with
  | RNone => RNone
  | REmpty => RNone
  | RClass f => if f c then REmpty else RNone
  | RSeq a b =>
      if nullable a then RAlt (RSeq (derive c a) b) (derive c b)
      else RSeq (derive c a) b
  | RAlt a b => RAlt (derive c a) (derive c b)
  | RStar a => RSeq (derive c a) (RStar a)
  end.

(** The pattern matches the whole of [s]. *)
Fixpoint matches (r : regex) (s : str) : bool :=
  match s with
  | [] => nullable r
  | c :: s' => matches (derive c r) s'
  end.

(** [a+] *)
Definition RPlus (a : regex) : regex := RSeq a (RStar a).

(** [pattern.test(s)] for a pattern without anchors: the match may start
    and end anywhere in [s]. *)
Definition regexTest (pattern : regex) (s : str) : bool :=
  matches (RSeq (RStar (RClass (fun _ => true)))
                (RSeq pattern (RStar (RClass (fun _ => true))))) s.

(** [\S] *)
Definition nonSpace : regex := RClass (fun c => negb (isSpace c)).

(** The pattern of the email check: one or more non-space characters, an
    at sign, one or more non-space characters, a dot, one or more non-space
    characters. *)
Definition emailPattern : regex :=
  RSeq (RPlus nonSpace)
       (RSeq (RClass (Ascii.eqb "@"))
             (RSeq (RPlus nonSpace)
                   (RSeq (RClass (Ascii.eqb ".")) (RPlus nonSpace)))).

(** [encodeURIComponent]: the characters that are kept. *)
Definition isUriUnreserved (c : ascii) : bool :=
  isUpper c || isLower c || isDigit c || includes c (lit "-_.!~*'()").

Definition hexUpper (n : N) : ascii :=
  nth (N.to_nat n) (lit "0123456789ABCDEF") "0"%char.

Definition percentByte (b : N) : str :=
  ["%"%char; hexUpper (b / 16); hexUpper (b mod 16)].

(** One code unit below U+0100: itself, or the bytes of its UTF-8 encoding,
    each as a percent sign and two upper-case hexadecimal digits. *)
Definition encodeChar (c : ascii) : str :=
  let n := code c in
  if isUriUnreserved c then [c]
  else if (n <? 128)%N then percentByte n
  else percentByte (192 + n / 64) ++ percentByte (128 + n mod 64).

Definition encodeURIComponent (s : str) : str := flat_map encodeChar s.

Definition emptyContact : Contact := {| email := []; message := [] |}.

Definition mailto (form : Contact) : str :=
  let subject := encodeURIComponent (lit "Feedback/Contact from JSON to TOON App") in
  let body :=
    encodeURIComponent (lit "From: " ++ email form ++ [LF; LF]
                        ++ lit "Message:" ++ [LF] ++ message form) in
  lit "mailto:bhanitgauravapps@gmail.com?subject=" ++ subject
  ++ lit "&body=" ++ body.

Definition handleContactSubmit (st : AppState) : AppState :=
  let form := contactForm st in
  let '(emailError, isValid) :=
    if str_eqb (email form) [] then (lit "Email is required", false)
    else if negb (regexTest emailPattern (email form))
    then (lit "Email is invalid", false)
    else ([], true) in
  let '(messageError, isValid) :=
    if str_eqb (message form) [] then (lit "Message is required", false)
    else ([], isValid) in
  let st1 := setFormErrors {| email := emailError; message := messageError |} st in
  if isValid : bool
  then setContactForm emptyContact
         (setIsModalOpen false (setLocationHref (mailto form) st1))
  else st1.

(** The footer button that opens the contact form. *)
Definition openContact (st : AppState) : AppState :=
  setFormErrors emptyContact (setError None (setIsModalOpen true st)).

(** ** The earlier serializer (src/utils/toonUtils.ts)

    The utilities file keeps the first version of [convertToToon] and
    [toToon]: bare strings are words without dots, the items of a simple
    array are joined by one space, a field never carries a length
    annotation, no line ends in a space, and the value of a field that is
    an array or an object always starts on the next line. *)

Module Legacy.

Fixpoint toToon (data : Value) (indentLevel : nat) {struct data} : str :=
  let indent := repeatStr (lit "  ") indentLevel in
  match data with
  | VNull => lit "null"
  | VBool b => if b then lit "true" else lit "false"
  | VNum n => numberToString n
  | VStr s =>
      if str_eqb s (lit "true") || str_eqb s (lit "false")
         || str_eqb s (lit "null") || negb (isNaN (NumberOf s))
      then quoteJSONString s
      else if testWord s then s
      else quoteJSONString s
  | VArr items =>
      match items with
      | [] => lit "[]"
      | _ =>
          if isSimple items
          then join (lit " ") (map (fun item => toToon item 0) items)
          else
            join [LF]
              (map (fun item =>
                      indent ++ lit "- " ++ trim (toToon item (S indentLevel)))
                   items)
      end
  | VObj fields =>
      match fields with
      | [] => lit "{}"
      | _ =>
          join [LF]
            (map (fun '(key, value) =>
                    let formattedKey :=
                      if testWord key then key else quoteJSONString key in
                    match value with
                    | VArr _ =>
                        indent ++ formattedKey ++ lit ":" ++ [LF]
                        ++ toToon value (S indentLevel)
                    | VObj _ =>
                        indent ++ formattedKey ++ lit ":" ++ [LF]
                        ++ toToon value (S indentLevel)
                    | _ => indent ++ formattedKey ++ lit ": " ++ toToon value 0
                    end) fields)
      end
  end.

Definition convertToToon (jsonString : str) : outcome str :=
  rethrow (lit "Failed to convert to TOON")
    (let* data := JSON_parse jsonString in Ok (toToon data 0)).

End Legacy.

(** * Properties *)

(** Evaluate the comparisons of two known characters. *)
Ltac eval_eqb :=
  repeat match goal with
         | |- context [Ascii.eqb ?x ?y] =>
             let v := eval vm_compute in (Ascii.eqb x y) in
             match v with
             | true => change (Ascii.eqb x y) with true
             | false => change (Ascii.eqb x y) with false
             end
         end.

(** ** Strings *)

Lemma str_eqb_eq (a b : str) : str_eqb a b = true <-> a = b.
Proof.
  revert b; induction a as [|x a IH]; intros [|y b]; simpl;
    try (split; [discriminate | congruence]); try tauto.
  rewrite andb_true_iff, Ascii.eqb_eq, IH.
  split; [intros [-> ->]; reflexivity | intros H; inversion H; auto].
Qed.

Lemma str_eqb_refl (a : str) : str_eqb a a = true.
Proof. apply str_eqb_eq; reflexivity. Qed.

Lemma str_eqb_neq (a b : str) : str_eqb a b = false <-> a <> b.
Proof.
  rewrite <- (str_eqb_eq a b).
  destruct (str_eqb a b); split; congruence.
Qed.

Lemma str_eqb_nil (a : str) : str_eqb a [] = match a with [] => true | _ => false end.
Proof. destruct a; reflexivity. Qed.

Lemma trimStart_nil_iff (s : str) : trimStart s = [] <-> forallb isSpace s = true.
Proof.
  induction s as [|c s IH]; simpl; [tauto|].
  destruct (isSpace c); simpl; [exact IH | split; discriminate].
Qed.


Lemma forallb_rev {A} (f : A -> bool) (l : list A) :
  forallb f (rev l) = forallb f l.
Proof.
  induction l as [|x l IH]; simpl; [reflexivity|].
  rewrite forallb_app, IH; simpl. rewrite andb_true_r, andb_comm; reflexivity.
Qed.

Lemma trimEnd_nil_iff (s : str) : trimEnd s = [] <-> forallb isSpace s = true.
Proof.
  unfold trimEnd. rewrite <- (forallb_rev isSpace s), <- trimStart_nil_iff.
  split; intros H; [|rewrite H; reflexivity].
  apply (f_equal (@rev ascii)) in H. rewrite rev_involutive in H. exact H.
Qed.

Lemma trimStart_suffix (s : str) : exists ws, s = ws ++ trimStart s /\ forallb isSpace ws = true.
Proof.
  induction s as [|c s (ws & E & W)]; simpl; [exists []; auto|].
  destruct (isSpace c) eqn:Ec.
  - exists (c :: ws); simpl; rewrite Ec, W; split; [congruence | reflexivity].
  - exists []; auto.
Qed.

Lemma trim_nil_iff (s : str) : trim s = [] <-> forallb isSpace s = true.
Proof.
  unfold trim. rewrite trimEnd_nil_iff.
  destruct (trimStart_suffix s) as (ws & E & W).
  split; intros H.
  - rewrite E, forallb_app, W, H; reflexivity.
  - rewrite E, forallb_app in H. apply andb_true_iff in H; tauto.
Qed.

(** Number of leading white-space characters. *)
Fixpoint leadingWhitespace (s : str) : nat :=
  match s with
  | c :: r => if isSpace c then S (leadingWhitespace r) else O
  | [] => O
  end.

Lemma searchNonSpace_blank (s : str) :
  forallb isSpace s = true -> searchNonSpace s = -1.
Proof.
  induction s as [|c s IH]; simpl; [reflexivity|].
  destruct (isSpace c); simpl; [|discriminate].
  intros H; rewrite (IH H); reflexivity.
Qed.

Lemma searchNonSpace_nonblank (s : str) :
  forallb isSpace s = false -> searchNonSpace s = Z.of_nat (leadingWhitespace s).
Proof.
  induction s as [|c s IH]; simpl; [discriminate|].
  destruct (isSpace c); simpl; [|reflexivity].
  intros H; rewrite (IH H).
  destruct (Z.ltb_spec (Z.of_nat (leadingWhitespace s)) 0); lia.
Qed.

Lemma nonblank_not_forallb (s : str) : trim s <> [] -> forallb isSpace s = false.
Proof.
  intros H. destruct (forallb isSpace s) eqn:E; [|reflexivity].
  exfalso; apply H, trim_nil_iff, E.
Qed.

Lemma rem2_even (n : nat) : (Z.rem (Z.of_nat n) 2 =? 0) = Nat.even n.
Proof.
  rewrite Z.rem_mod_nonneg by lia.
  destruct (Nat.Even_or_Odd n) as [[k ->]|[k ->]].
  - rewrite Nat.even_even, Nat2Z.inj_mul, Z.mul_comm, Z_mod_mult. reflexivity.
  - rewrite Nat.even_odd, Nat2Z.inj_add, Nat2Z.inj_mul, Z.add_comm, Z.mul_comm,
      Z_mod_plus_full. reflexivity.
Qed.

(** ** The validator *)

Definition lineShape (content : str) : bool :=
  startsWith (lit "- ") content || includes ":" content.

(** What [validateToon] checks on one line. *)
Definition lineValid (line : str) : Prop :=
  trim line <> [] ->
  Nat.even (leadingWhitespace line) = true /\ lineShape (trim line) = true.

Lemma validateToon_lines_cons (line : str) (rest : list str) :
  validateToon_lines (line :: rest) =
  if str_eqb (trim line) [] then validateToon_lines rest
  else if searchNonSpace line =? -1 then validateToon_lines rest
  else if negb (Z.rem (searchNonSpace line) 2 =? 0) then false
  else if negb (lineShape (trim line)) then false
  else validateToon_lines rest.
Proof. unfold lineShape; rewrite negb_orb; reflexivity. Qed.

Lemma validateToon_lines_spec (lines : list str) :
  validateToon_lines lines = true <-> Forall lineValid lines.
Proof.
  induction lines as [|line rest IH]; [split; auto|].
  rewrite validateToon_lines_cons, str_eqb_nil.
  destruct (trim line) as [|c content] eqn:Et.
  - rewrite IH. split; intros H.
    + constructor; [intros E; rewrite Et in E; congruence | exact H].
    + inversion H; assumption.
  - assert (NB : forallb isSpace line = false)
      by (apply nonblank_not_forallb; rewrite Et; discriminate).
    rewrite (searchNonSpace_nonblank _ NB), rem2_even.
    destruct (Z.eqb_spec (Z.of_nat (leadingWhitespace line)) (-1)) as [E|_]; [lia|].
    assert (LV : lineValid line <->
                 Nat.even (leadingWhitespace line) = true
                 /\ lineShape (c :: content) = true).
    { unfold lineValid; rewrite Et; split; [intros H; apply H; discriminate | auto]. }
    destruct (Nat.even (leadingWhitespace line));
      [destruct (lineShape (c :: content))|]; cbn [negb].
    + rewrite IH. split; intros H.
      * constructor; [apply LV; auto | exact H].
      * inversion H; assumption.
    + split; [discriminate|]. intros H. inversion H as [|? ? Hl _]; subst.
      apply LV in Hl. destruct Hl; discriminate.
    + split; [discriminate|]. intros H. inversion H as [|? ? Hl _]; subst.
      apply LV in Hl. destruct Hl; discriminate.
Qed.

(** Number of leading U+0020 characters: the indentation as the
    specification words it. *)
Fixpoint leadingSpaces (s : str) : nat :=
  match s with
  | c :: r => if Ascii.eqb c " " then S (leadingSpaces r) else O
  | [] => O
  end.

(** The validity of a text as the specification states it. *)
Definition specValid (t : str) : Prop :=
  forall line, In line (splitLines t) -> trim line <> [] ->
    Nat.even (leadingSpaces line) = true
    /\ (startsWith (lit "- ") (trim line) = true \/ includes ":" (trim line) = true).

(** C5, as stated, fails: a line indented by one space and one tab has an
    odd count of leading spaces, and [validateToon] accepts it, since its
    indentation is the index of the first character that is not white
    space. *)
Lemma validateToon_space_tab :
  validateToon (lit " " ++ ["009"%char] ++ lit "a: 1") = true
  /\ ~ specValid (lit " " ++ ["009"%char] ++ lit "a: 1").
Proof.
  split; [reflexivity|].
  intros H. destruct (H (lit " " ++ ["009"%char] ++ lit "a: 1")) as [E _].
  - left; reflexivity.
  - discriminate.
  - discriminate.
Qed.

(** C5, amended: [validateToon t] is true exactly when every non-blank line
    of [t] has an even number of leading white-space characters (of any
    kind) and trimmed content that starts with a dash and a space or
    contains a colon; the text with a second line indented by one space is
    rejected. *)
Theorem validateToon_iff (t : str) :
  (validateToon t = true <->
   forall line, In line (splitLines t) -> trim line <> [] ->
     Nat.even (leadingWhitespace line) = true
     /\ (startsWith (lit "- ") (trim line) = true
         \/ includes ":" (trim line) = true))
  /\ validateToon (lit "a: 1" ++ [LF] ++ lit " b: 2") = false.
Proof.
  split; [|reflexivity].
  unfold validateToon. rewrite validateToon_lines_spec, Forall_forall.
  unfold lineValid, lineShape.
  split; intros H line Hin Hnb; destruct (H line Hin Hnb) as [He Hs];
    (split; [exact He|]).
  - apply orb_true_iff; exact Hs.
  - apply orb_true_iff; exact Hs.
Qed.

(** ** Blank input *)

Lemma filter_all_false {A} (f : A -> bool) (l : list A) :
  (forall x, In x l -> f x = false) -> filter f l = [].
Proof.
  induction l as [|x l IH]; simpl; intros H; [reflexivity|].
  rewrite (H x) by auto. apply IH; auto.
Qed.

(** C10: a text whose lines are all blank (white space only), the empty
    text included, is converted to the text of the empty object, without
    any error. *)
Theorem convertToJson_blank (toonString : str) :
  (forall line, In line (splitLines toonString) -> forallb isSpace line = true) ->
  convertToJson toonString = Ok (lit "{}").
Proof.
  intros H. unfold convertToJson, nonBlankLines.
  rewrite filter_all_false; [reflexivity|].
  intros line Hin. apply negb_false_iff, str_eqb_eq, trim_nil_iff, H, Hin.
Qed.

Lemma convertToJson_blank_witness :
  (forall line, In line (splitLines (lit "  " ++ [LF] ++ ["009"%char] ++ [LF])) ->
     forallb isSpace line = true)
  /\ convertToJson (lit "  " ++ [LF] ++ ["009"%char] ++ [LF]) = Ok (lit "{}").
Proof.
  assert (H : forall line,
             In line (splitLines (lit "  " ++ [LF] ++ ["009"%char] ++ [LF])) ->
             forallb isSpace line = true).
  { intros line [<-|[<-|[<-|[]]]]; reflexivity. }
  split; [exact H | exact (convertToJson_blank _ H)].
Defined.

(** ** balanceBrackets and repairJson *)

(** Opening minus closing occurrences over the whole text. *)
Definition netOpen (o c : ascii) (s : str) : Z :=
  Z.of_nat (count_occ ascii_dec s o) - Z.of_nat (count_occ ascii_dec s c).

Lemma countBrackets_net (s : str) (a b : Z) :
  countBrackets s a b = (a + netOpen "{" "}" s, b + netOpen "[" "]" s).
Proof.
  revert a b; induction s as [|c s IH]; intros a b.
  - unfold netOpen; simpl; f_equal; lia.
  - cbn [countBrackets]. rewrite IH. unfold netOpen. cbn [count_occ].
    repeat match goal with
           | |- context [Ascii.eqb c ?x] =>
               destruct (Ascii.eqb_spec c x) as [->|?]
           end;
    repeat match goal with
           | |- context [ascii_dec ?x ?y] => destruct (ascii_dec x y)
           end; try congruence; try discriminate;
    repeat match goal with
           | |- context [Ascii.eqb ?x ?y] =>
               let v := eval vm_compute in (Ascii.eqb x y) in
               change (Ascii.eqb x y) with v
           end; cbv iota; f_equal; lia.
Qed.

Lemma balanceBrackets_spec (s : str) :
  balanceBrackets s =
  s ++ repeat "}"%char (Z.to_nat (netOpen "{" "}" s))
    ++ repeat "]"%char (Z.to_nat (netOpen "[" "]" s)).
Proof.
  unfold balanceBrackets. rewrite countBrackets_net.
  unfold appendWhilePositive. rewrite <- app_assoc. reflexivity.
Qed.

(** C9: [repairJson] first runs the primary fixer [jsonrepair] on the
    input and returns the result of [formatJson] on the fixer's output.
    If and only if that attempt throws (the fixer, or [formatJson] on its
    output), it appends as many closing braces and then closing brackets
    as the text has unmatched opening ones, counted over the whole text,
    and runs the fixer and [formatJson] on the balanced text.  When this
    attempt throws too, it throws [Unable to repair JSON].  A returned
    text is always [formatJson] of the fixer's output on the input or on
    the balanced input, and nothing else is thrown. *)
Theorem repairJson_spec (jsonrepair : str -> outcome str) (s : str) :
  let balanced :=
    s ++ repeat "}"%char (Z.to_nat (netOpen "{" "}" s))
      ++ repeat "]"%char (Z.to_nat (netOpen "[" "]" s)) in
  let returns x r := exists t, jsonrepair x = Ok t /\ formatJson t = Ok r in
  let throws x :=
    (exists m, jsonrepair x = Throw m)
    \/ (exists t m, jsonrepair x = Ok t /\ formatJson t = Throw m) in
  balanceBrackets s = balanced
  /\ (forall r, returns s r -> repairJson jsonrepair s = Ok r)
  /\ (throws s -> forall r, returns balanced r ->
      repairJson jsonrepair s = Ok r)
  /\ (throws s -> throws balanced ->
      repairJson jsonrepair s = Throw (lit "Unable to repair JSON"))
  /\ (forall r, repairJson jsonrepair s = Ok r ->
      returns s r \/ (throws s /\ returns balanced r))
  /\ (forall m, repairJson jsonrepair s = Throw m ->
      m = lit "Unable to repair JSON" /\ throws s /\ throws balanced).
Proof.
  intros balanced returns throws.
  assert (A : forall x,
             match repairAttempt jsonrepair x with
             | Ok r => returns x r
             | Throw _ => throws x
             | Unmodelled => (forall r, ~ returns x r) /\ ~ throws x
             end).
  { intros x. unfold repairAttempt, returns, throws.
    destruct (jsonrepair x) as [t|m|] eqn:E; cbn [bind].
    - destruct (formatJson t) as [r|m|] eqn:F.
      + exists t. auto.
      + right. exists t, m. auto.
      + split.
        * intros r (t' & [= <-] & F'). congruence.
        * intros [(m & H) | (t' & m & [= <-] & F')]; congruence.
    - left. eauto.
    - split.
      + intros r (t & H & _). discriminate H.
      + intros [(m & H) | (t & m & H & _)]; discriminate H. }
  assert (R : forall x r, returns x r -> repairAttempt jsonrepair x = Ok r).
  { intros x r (t & H1 & H2). unfold repairAttempt. rewrite H1. exact H2. }
  assert (T : forall x, throws x -> exists m, repairAttempt jsonrepair x = Throw m).
  { intros x [(m & H) | (t & m & H1 & H2)]; unfold repairAttempt.
    - rewrite H. cbn [bind]. eauto.
    - rewrite H1. cbn [bind]. eauto. }
  pose proof (balanceBrackets_spec s) as B. fold balanced in B.
  split; [exact B|]. unfold repairJson. rewrite B.
  split; [intros r H; rewrite (R _ _ H); reflexivity|].
  split.
  { intros H r H'. destruct (T _ H) as (m & ->). rewrite (R _ _ H').
    reflexivity. }
  split.
  { intros H H'. destruct (T _ H) as (m & ->). destruct (T _ H') as (m' & ->).
    reflexivity. }
  pose proof (A s) as As. pose proof (A balanced) as Ab.
  destruct (repairAttempt jsonrepair s) as [r0|m0|]; cbn [rethrow].
  - split; [|discriminate]. intros r [= <-]. left. exact As.
  - destruct (repairAttempt jsonrepair balanced) as [r1|m1|]; cbn [rethrow].
    + split; [|discriminate]. intros r [= <-]. right. auto.
    + split; [discriminate|]. intros m [= <-]. auto.
    + split; discriminate.
  - split; discriminate.
Qed.

(** ** Quoting of strings *)

Lemma quoteChar_nonempty (c : ascii) : (1 <= length (quoteChar c))%nat.
Proof. destruct c as [[] [] [] [] [] [] [] []]; vm_compute; lia. Qed.

Lemma flat_map_quoteChar_length (s : str) :
  (length s <= length (flat_map quoteChar s))%nat.
Proof.
  induction s as [|c s IH]; simpl; [lia|].
  rewrite length_app. pose proof (quoteChar_nonempty c). lia.
Qed.

Lemma quoteJSONString_neq (s : str) : quoteJSONString s <> s.
Proof.
  intros H. apply (f_equal (@length ascii)) in H.
  unfold quoteJSONString in H. simpl in H. rewrite length_app in H. simpl in H.
  pose proof (flat_map_quoteChar_length s). lia.
Qed.

Lemma forallb_false_exists {A} (f : A -> bool) (l : list A) :
  forallb f l = false -> exists x, In x l /\ f x = false.
Proof.
  induction l as [|x l IH]; simpl; [discriminate|].
  destruct (f x) eqn:E; simpl.
  - intros H. destruct (IH H) as (y & Hy & Fy). exists y; auto.
  - intros _. exists x; auto.
Qed.

Lemma spanDigits_spec (s : str) :
  forall ds r, spanDigits s = (ds, r) ->
               s = ds ++ r /\ forallb isDigit ds = true
               /\ match r with [] => True | c :: _ => isDigit c = false end.
Proof.
  induction s as [|c s IH]; intros ds r H.
  - injection H as <- <-. repeat split.
  - cbn [spanDigits] in H. destruct (isDigit c) eqn:D.
    + destruct (spanDigits s) as [ds' r'] eqn:E. injection H as <- <-.
      destruct (IH _ _ eq_refl) as (E1 & E2 & E3). subst s.
      cbn [forallb app]. rewrite D, E2. repeat split. exact E3.
    + injection H as <- <-. repeat split. exact D.
Qed.

Lemma spanDigits_app (a b : str) :
  forallb isDigit a = true ->
  match b with [] => True | c :: _ => isDigit c = false end ->
  spanDigits (a ++ b) = (a, b).
Proof.
  intros Ha Hb. induction a as [|x a IH].
  - destruct b as [|c b]; [reflexivity|]. cbn [app spanDigits]. rewrite Hb.
    reflexivity.
  - cbn [forallb] in Ha. apply andb_true_iff in Ha. destruct Ha as [Hx Ha].
    cbn [app spanDigits]. rewrite Hx, (IH Ha). reflexivity.
Qed.

Lemma digit_facts (c : ascii) :
  isDigit c = true ->
  Ascii.eqb c "+" = false /\ Ascii.eqb c "-" = false /\ Ascii.eqb c "I" = false
  /\ Ascii.eqb c "x" = false /\ Ascii.eqb c "X" = false
  /\ Ascii.eqb c "o" = false /\ Ascii.eqb c "O" = false
  /\ Ascii.eqb c "b" = false /\ Ascii.eqb c "B" = false.
Proof.
  destruct c as [[] [] [] [] [] [] [] []]; vm_compute; intros H;
    try discriminate H; repeat split.
Qed.

(** The wording of the claim, independent of the tests of the code: the
    class of characters is listed, and the texts that [Number] reads as a
    number are given by their grammar (StringNumericLiteral). *)

Definition bareChars : str :=
  lit "abcdefghijklmnopqrstuvwxyzABCDEFGHIJKLMNOPQRSTUVWXYZ0123456789_.".

(** Every character of [s] is one of [class]. *)
Definition allIn (class s : str) : Prop := forall c, In c s -> In c class.

Definition signText (sg : str) : Prop := sg = [] \/ sg = lit "+" \/ sg = lit "-".

(** ExponentPart: e or E, an optional sign, digits. *)
Definition exponentText (e : str) : Prop :=
  exists m sg ds,
    e = m :: sg ++ ds /\ In m (lit "eE") /\ signText sg
    /\ ds <> [] /\ allIn (lit "0123456789") ds.

(** StrUnsignedDecimalLiteral: Infinity, or digits with an optional
    fraction and an optional exponent, with a digit before or after the
    point. *)
Definition unsignedDecimalText (u : str) : Prop :=
  u = lit "Infinity"
  \/ exists ip dot fp e,
       u = ip ++ dot ++ fp ++ e
       /\ allIn (lit "0123456789") ip /\ allIn (lit "0123456789") fp
       /\ (dot = lit "." \/ (dot = [] /\ fp = []))
       /\ ip ++ fp <> []
       /\ (e = [] \/ exponentText e).

(** NonDecimalIntegerLiteral: hexadecimal, octal or binary digits behind
    0x, 0o or 0b. *)
Definition nonDecimalText (t : str) : Prop :=
  exists p ds,
    t = "0"%char :: p :: ds /\ ds <> []
    /\ ((In p (lit "xX") /\ allIn (lit "0123456789abcdefABCDEF") ds)
        \/ (In p (lit "oO") /\ allIn (lit "01234567") ds)
        \/ (In p (lit "bB") /\ allIn (lit "01") ds)).

(** A numeric literal: a signed decimal literal or an unsigned integer
    literal of another radix. *)
Definition numberLiteral (t : str) : Prop :=
  nonDecimalText t
  \/ exists sg u, t = sg ++ u /\ signText sg /\ unsignedDecimalText u.

(** The texts that [Number] reads as a number: a numeric literal between
    white space, or white space only. *)
Definition numericText (s : str) : Prop :=
  trim s = [] \/ numberLiteral (trim s).

(** The strings that are written between quotes. *)
Definition quotedBySpec (s : str) : Prop :=
  s = lit "true" \/ s = lit "false" \/ s = lit "null"
  \/ numericText s
  \/ exists c, In c s /\ ~ In c bareChars.

Lemma includes_In (c : ascii) (s : str) : includes c s = true <-> In c s.
Proof.
  unfold includes. rewrite existsb_exists. split.
  - intros (x & Hx & E). apply Ascii.eqb_eq in E. subst x. exact Hx.
  - intros H. exists c. split; [exact H | apply Ascii.eqb_refl].
Qed.

Lemma forallb_allIn (f : ascii -> bool) (class s : str) :
  (forall c, f c = includes c class) ->
  forallb f s = true <-> allIn class s.
Proof.
  intros Hf. rewrite forallb_forall. unfold allIn. split; intros H c Hc.
  - apply includes_In. rewrite <- Hf. apply H, Hc.
  - rewrite Hf. apply includes_In, H, Hc.
Qed.

Lemma isWordOrDot_class (c : ascii) : isWordOrDot c = includes c bareChars.
Proof. destruct c as [[] [] [] [] [] [] [] []]; reflexivity. Qed.

Lemma isWordOrDot_spec (c : ascii) : isWordOrDot c = true <-> In c bareChars.
Proof. rewrite isWordOrDot_class. apply includes_In. Qed.

Lemma isDigit_class (c : ascii) : isDigit c = includes c (lit "0123456789").
Proof. destruct c as [[] [] [] [] [] [] [] []]; reflexivity. Qed.

Lemma digits_allIn (ds : str) :
  forallb isDigit ds = true <-> allIn (lit "0123456789") ds.
Proof. apply forallb_allIn, isDigit_class. Qed.

Lemma radixDigit_class (c : ascii) :
  (match radixDigit 16 c with Some _ => true | None => false end
   = includes c (lit "0123456789abcdefABCDEF"))
  /\ (match radixDigit 8 c with Some _ => true | None => false end
      = includes c (lit "01234567"))
  /\ (match radixDigit 2 c with Some _ => true | None => false end
      = includes c (lit "01")).
Proof. destruct c as [[] [] [] [] [] [] [] []]; repeat split; reflexivity. Qed.

Lemma radixValue_some (radix : Z) (class : str) :
  (forall c, match radixDigit radix c with Some _ => true | None => false end
             = includes c class) ->
  forall ds acc, (exists v, radixValue radix ds acc = Some v) <-> allIn class ds.
Proof.
  intros Hc. induction ds as [|c ds IH]; intros acc.
  - cbn [radixValue]. split; [intros _ c [] | eauto].
  - cbn [radixValue]. specialize (Hc c).
    destruct (radixDigit radix c) as [v|].
    + rewrite IH. symmetry in Hc. apply includes_In in Hc.
      split; intros H x Hx.
      * destruct Hx as [<-|Hx]; [exact Hc | apply H, Hx].
      * apply H. right. exact Hx.
    + split; [intros (v & H); discriminate H|].
      intros H. specialize (H c (or_introl eq_refl)).
      apply includes_In in H. congruence.
Qed.

Lemma parseNonDecimal_spec (t : str) :
  (exists v, parseNonDecimal t = Some v) <-> nonDecimalText t.
Proof.
  pose proof (radixValue_some 16 _ (fun c => proj1 (radixDigit_class c))) as R16.
  pose proof (radixValue_some 8 _
                (fun c => proj1 (proj2 (radixDigit_class c)))) as R8.
  pose proof (radixValue_some 2 _
                (fun c => proj2 (proj2 (radixDigit_class c)))) as R2.
  unfold nonDecimalText. split.
  - intros (v & H). destruct t as [|z [|p [|d r]]]; try discriminate H.
    cbn [parseNonDecimal] in H.
    destruct (Ascii.eqb_spec z "0") as [->|]; [|discriminate H].
    exists p, (d :: r). split; [reflexivity|]. split; [discriminate|].
    assert (P : forall a b, Ascii.eqb p a || Ascii.eqb p b = true ->
                            In p [a; b]).
    { intros a b E. apply orb_true_iff in E.
      destruct E as [E|E]; apply Ascii.eqb_eq in E; subst p; cbn [In]; auto. }
    destruct (Ascii.eqb p "x" || Ascii.eqb p "X") eqn:Ex.
    { left. split; [apply P, Ex | apply (proj1 (R16 _ 0)); eauto]. }
    destruct (Ascii.eqb p "o" || Ascii.eqb p "O") eqn:Eo.
    { right. left. split; [apply P, Eo | apply (proj1 (R8 _ 0)); eauto]. }
    destruct (Ascii.eqb p "b" || Ascii.eqb p "B") eqn:Eb; [|discriminate H].
    right. right. split; [apply P, Eb | apply (proj1 (R2 _ 0)); eauto].
  - intros (p & ds & -> & Hne & H). destruct ds as [|d r]; [congruence|].
    cbn [parseNonDecimal]. rewrite Ascii.eqb_refl.
    destruct H as [[Hp H] | [[Hp H] | [Hp H]]];
      cbn [lit list_ascii_of_string In] in Hp;
      destruct Hp as [<-|[<-|[]]]; eval_eqb; cbn [orb];
      first [apply (proj2 (R16 _ 0)), H | apply (proj2 (R8 _ 0)), H
            | apply (proj2 (R2 _ 0)), H].
Qed.

Lemma exponent_head (e : str) :
  e = [] \/ exponentText e ->
  match e with
  | [] => True
  | c :: _ => isDigit c = false /\ Ascii.eqb c "." = false
  end.
Proof.
  intros [-> | (m & sg & ds & -> & Hm & _)]; [exact I|].
  cbn [lit list_ascii_of_string In] in Hm.
  destruct Hm as [<-|[<-|[]]]; split; reflexivity.
Qed.

Lemma parseExponent_spec (e : str) :
  (exists x, parseExponent e = Some x) <-> (e = [] \/ exponentText e).
Proof.
  split.
  - intros (x & H). destruct e as [|c r]; [left; reflexivity|]. right.
    cbn [parseExponent] in H.
    destruct (Ascii.eqb c "e" || Ascii.eqb c "E") eqn:Ec; [|discriminate H].
    assert (Hm : In c (lit "eE")).
    { apply orb_true_iff in Ec. cbn [lit list_ascii_of_string In].
      destruct Ec as [Ec|Ec]; apply Ascii.eqb_eq in Ec; auto. }
    assert (G : forall sg r', r = sg ++ r' -> signText sg ->
                match spanDigits r' with
                | (_ :: _, []) => True
                | _ => False
                end -> exponentText (c :: r)).
    { intros sg r' -> Hs Hd. destruct (spanDigits r') as [ds rest] eqn:S.
      destruct ds as [|d ds]; [destruct Hd|]. destruct rest; [|destruct Hd].
      destruct (spanDigits_spec _ _ _ S) as (-> & D & _).
      rewrite app_nil_r. exists c, sg, (d :: ds).
      split; [reflexivity|]. split; [exact Hm|]. split; [exact Hs|].
      split; [discriminate | apply digits_allIn, D]. }
    destruct r as [|y t].
    + cbn [spanDigits] in H. discriminate H.
    + destruct (Ascii.eqb_spec y "+") as [->|].
      * apply (G (lit "+") t eq_refl); [right; left; reflexivity|].
        destruct (spanDigits t) as [[|d ds] [|? ?]]; try discriminate H; exact I.
      * destruct (Ascii.eqb_spec y "-") as [->|].
        -- apply (G (lit "-") t eq_refl); [right; right; reflexivity|].
           destruct (spanDigits t) as [[|d ds] [|? ?]]; try discriminate H;
             exact I.
        -- apply (G [] (y :: t) eq_refl); [left; reflexivity|].
           destruct (spanDigits (y :: t)) as [[|d ds] [|? ?]];
             try discriminate H; exact I.
  - intros [-> | (m & sg & ds & -> & Hm & Hs & Hne & Hd)]; [cbn; eauto|].
    apply digits_allIn in Hd.
    pose proof (spanDigits_app ds [] Hd I) as S. rewrite app_nil_r in S.
    destruct ds as [|d ds]; [congruence|].
    assert (Dd : isDigit d = true)
      by (cbn [forallb] in Hd; apply andb_true_iff in Hd; tauto).
    destruct (digit_facts d Dd) as (P & M & _).
    cbn [parseExponent].
    replace (Ascii.eqb m "e" || Ascii.eqb m "E") with true
      by (cbn [lit list_ascii_of_string In] in Hm;
          destruct Hm as [<-|[<-|[]]]; reflexivity).
    destruct Hs as [-> | [-> | ->]]; cbn [lit list_ascii_of_string app].
    + rewrite P, M, S. eauto.
    + rewrite Ascii.eqb_refl, S. eauto.
    + change (Ascii.eqb "-" "+") with false. rewrite Ascii.eqb_refl, S. eauto.
Qed.

Lemma parseUnsignedDecimal_spec (u : str) :
  (exists r, parseUnsignedDecimal u = Some r)
  <-> exists ip dot fp e,
        u = ip ++ dot ++ fp ++ e
        /\ allIn (lit "0123456789") ip /\ allIn (lit "0123456789") fp
        /\ (dot = lit "." \/ (dot = [] /\ fp = []))
        /\ ip ++ fp <> []
        /\ (e = [] \/ exponentText e).
Proof.
  split.
  - intros (r & H). unfold parseUnsignedDecimal in H.
    destruct (spanDigits u) as [ip s1] eqn:S1.
    destruct (spanDigits_spec _ _ _ S1) as (-> & D1 & _).
    assert (G : forall dot fp s2,
               s1 = dot ++ fp ++ s2 -> forallb isDigit fp = true ->
               (dot = lit "." \/ (dot = [] /\ fp = [])) ->
               match ip ++ fp with
               | [] => None
               | _ :: _ =>
                   match parseExponent s2 with
                   | Some e => Some (digitsValue (ip ++ fp), e - len fp)
                   | None => None
                   end
               end = Some r ->
               exists ip0 dot0 fp0 e,
                 ip ++ s1 = ip0 ++ dot0 ++ fp0 ++ e
                 /\ allIn (lit "0123456789") ip0 /\ allIn (lit "0123456789") fp0
                 /\ (dot0 = lit "." \/ (dot0 = [] /\ fp0 = []))
                 /\ ip0 ++ fp0 <> []
                 /\ (e = [] \/ exponentText e)).
    { intros dot fp s2 -> D2 Hdot Hr. exists ip, dot, fp, s2.
      split; [reflexivity|]. split; [apply digits_allIn, D1|].
      split; [apply digits_allIn, D2|]. split; [exact Hdot|].
      destruct (ip ++ fp) eqn:E; [discriminate Hr|].
      split; [discriminate|]. apply parseExponent_spec.
      destruct (parseExponent s2); [eauto | discriminate Hr]. }
    destruct s1 as [|c t].
    + apply (G [] [] []); auto.
    + destruct (Ascii.eqb_spec c ".") as [->|].
      * destruct (spanDigits t) as [fp s2] eqn:S2.
        destruct (spanDigits_spec _ _ _ S2) as (-> & D2 & _).
        apply (G (lit ".") fp s2); auto.
      * apply (G [] [] (c :: t)); auto.
  - intros (ip & dot & fp & e & -> & D1 & D2 & Hdot & Hne & He).
    apply digits_allIn in D1, D2.
    pose proof (exponent_head e He) as Eh.
    apply parseExponent_spec in He. destruct He as (x & He).
    unfold parseUnsignedDecimal.
    destruct Hdot as [-> | [-> ->]].
    + rewrite (spanDigits_app ip (lit "." ++ fp ++ e) D1) by reflexivity.
      cbn [lit list_ascii_of_string app]. rewrite Ascii.eqb_refl.
      rewrite (spanDigits_app fp e D2)
        by (destruct e; [exact I | apply Eh]).
      destruct (ip ++ fp); [congruence|]. rewrite He. eauto.
    + cbn [app] in *. rewrite (spanDigits_app ip e D1)
        by (destruct e; [exact I | apply Eh]).
      destruct e as [|c t].
      * destruct (ip ++ []); [congruence|]. rewrite He. eauto.
      * destruct Eh as [_ Ed]. rewrite Ed.
        destruct (ip ++ []); [congruence|]. rewrite He. eauto.
Qed.

Lemma makeFinite_number (negative : bool) (M e10 : Z) :
  isNaN (makeFinite negative M e10) = false.
Proof.
  unfold makeFinite. destruct (M =? 0); [reflexivity|].
  destruct ((e10 >? 400) || (e10 <? -400)); [reflexivity|].
  destruct (if 0 <=? e10 then (M * 10 ^ e10, 0%nat)
            else normalize M (Z.to_nat (- e10))) as [m scale].
  destruct (inRange m scale); reflexivity.
Qed.

Lemma unsignedDecimal_head (u : str) :
  unsignedDecimalText u ->
  exists c r, u = c :: r /\ Ascii.eqb c "+" = false /\ Ascii.eqb c "-" = false.
Proof.
  intros [-> | (ip & dot & fp & e & -> & D1 & D2 & Hdot & Hne & _)].
  - exists "I"%char, (lit "nfinity"). repeat split.
  - apply digits_allIn in D1, D2. destruct ip as [|d ip].
    + destruct Hdot as [-> | [-> ->]]; [|cbn [app] in Hne; congruence].
      exists "."%char, (fp ++ e). repeat split.
    + cbn [forallb] in D1. apply andb_true_iff in D1. destruct D1 as [Dd _].
      destruct (digit_facts d Dd) as (P & M & _).
      exists d, (ip ++ dot ++ fp ++ e). repeat split; assumption.
Qed.

Lemma signed_cases (c : ascii) (r sg u : str) :
  c :: r = sg ++ u -> signText sg -> unsignedDecimalText u ->
  (u = c :: r /\ c <> "+"%char /\ c <> "-"%char)
  \/ (c = "+"%char /\ u = r) \/ (c = "-"%char /\ u = r).
Proof.
  intros E Hs Hu. destruct (unsignedDecimal_head u Hu) as (x & t & -> & X1 & X2).
  destruct Hs as [-> | [-> | ->]]; cbn [lit list_ascii_of_string app] in E.
  - injection E as -> ->. left. split; [reflexivity|].
    split; intros ->; [rewrite Ascii.eqb_refl in X1 | rewrite Ascii.eqb_refl in X2];
      discriminate.
  - injection E as -> ->. right. left. auto.
  - injection E as -> ->. right. right. auto.
Qed.

(** [Number] reads a text as a number exactly when it is numeric. *)
Lemma NumberOf_numericText (s : str) :
  isNaN (NumberOf s) = false <-> numericText s.
Proof.
  unfold NumberOf, numericText, numberLiteral.
  destruct (trim s) as [|c r] eqn:T; [split; auto|].
  pose proof (parseNonDecimal_spec (c :: r)) as ND.
  destruct (parseNonDecimal (c :: r)) as [v|] eqn:PN.
  { split; [|intros _; apply makeFinite_number].
    intros _. right. left. apply ND. eauto. }
  assert (U : forall negative u,
             isNaN (if str_eqb u (lit "Infinity") then Num (Infinity negative)
                    else match parseUnsignedDecimal u with
                         | Some (M, e10) => makeFinite negative M e10
                         | None => NaN
                         end) = false
             <-> unsignedDecimalText u).
  { intros negative u. unfold unsignedDecimalText.
    rewrite <- parseUnsignedDecimal_spec.
    destruct (str_eqb u (lit "Infinity")) eqn:E.
    - apply str_eqb_eq in E. split; auto.
    - apply str_eqb_neq in E.
      destruct (parseUnsignedDecimal u) as [[M e10]|].
      + split; [eauto | intros _; apply makeFinite_number].
      + split; [discriminate|].
        intros [H|(x & H)]; [congruence | discriminate H]. }
  assert (NoND : ~ nonDecimalText (c :: r)).
  { intros H. apply ND in H. destruct H as (v & H). discriminate H. }
  assert (Back : forall P : Prop,
             (forall sg u, c :: r = sg ++ u -> signText sg ->
                           unsignedDecimalText u -> P) ->
             c :: r = [] \/ nonDecimalText (c :: r)
             \/ (exists sg u, c :: r = sg ++ u /\ signText sg
                              /\ unsignedDecimalText u) -> P).
  { intros P HP [H|[H|(sg & u & E & Hs & Hu)]];
      [discriminate H | tauto | eauto]. }
  destruct (Ascii.eqb_spec c "+") as [->|Np].
  { rewrite U. split.
    - intros H. right. right. exists (lit "+"), r.
      split; [reflexivity|]. split; [right; left; reflexivity | exact H].
    - apply Back. intros sg u E Hs Hu.
      destruct (signed_cases _ _ _ _ E Hs Hu)
        as [(_ & N & _) | [(_ & ->) | (N & _)]];
        [congruence | exact Hu | discriminate N]. }
  destruct (Ascii.eqb_spec c "-") as [->|Nm].
  { rewrite U. split.
    - intros H. right. right. exists (lit "-"), r.
      split; [reflexivity|]. split; [right; right; reflexivity | exact H].
    - apply Back. intros sg u E Hs Hu.
      destruct (signed_cases _ _ _ _ E Hs Hu)
        as [(_ & _ & N) | [(N & _) | (_ & ->)]];
        [congruence | discriminate N | exact Hu]. }
  rewrite U. split.
  - intros H. right. right. exists [], (c :: r).
    split; [reflexivity|]. split; [left; reflexivity | exact H].
  - apply Back. intros sg u E Hs Hu.
    destruct (signed_cases _ _ _ _ E Hs Hu)
      as [(-> & _) | [(N & _) | (N & _)]];
      [exact Hu | congruence | congruence].
Qed.

(** C6, amended: a string is written in its JSON-quoted form exactly when
    it is one of the literals true, false, null, or [Number] reads it as a
    number (between white space, a decimal literal with optional sign,
    fraction and exponent, a signed Infinity, or a hexadecimal, octal or
    binary integer literal; or nothing but white space, which covers the
    empty string), or it has a character outside [[A-Za-z0-9_.]];
    otherwise it is written bare, and the two forms always differ.  The
    string true is written with quotes, the boolean true without; the
    empty string, a digit string, a hexadecimal literal and a text with a
    space are quoted, words with dots are bare. *)
Theorem toToon_string_quoting (s : str) (indentLevel : nat) :
  (quotedBySpec s -> toToon (VStr s) indentLevel = quoteJSONString s)
  /\ (~ quotedBySpec s -> toToon (VStr s) indentLevel = s)
  /\ quoteJSONString s <> s
  /\ toToon (VStr (lit "true")) indentLevel = dq "'true'"
  /\ toToon (VBool true) indentLevel = lit "true"
  /\ toToon (VStr []) indentLevel = dq "''"
  /\ toToon (VStr (lit "42")) indentLevel = dq "'42'"
  /\ toToon (VStr (lit "1e5")) indentLevel = dq "'1e5'"
  /\ toToon (VStr (lit "0x1F")) indentLevel = dq "'0x1F'"
  /\ toToon (VStr (lit "Infinity")) indentLevel = dq "'Infinity'"
  /\ toToon (VStr (lit "a b")) indentLevel = dq "'a b'"
  /\ toToon (VStr (lit "a-b")) indentLevel = dq "'a-b'"
  /\ toToon (VStr (lit "v1.2.3")) indentLevel = lit "v1.2.3"
  /\ toToon (VStr (lit "1.2.3")) indentLevel = lit "1.2.3"
  /\ toToon (VStr (lit "NaN")) indentLevel = lit "NaN".
Proof.
  split; [|split; [|split; [apply quoteJSONString_neq
                           | repeat split; reflexivity]]].
  - intros H. cbn [toToon].
    destruct (str_eqb s (lit "true") || str_eqb s (lit "false")
              || str_eqb s (lit "null") || negb (isNaN (NumberOf s))) eqn:E;
      [reflexivity|].
    apply orb_false_iff in E. destruct E as [E E4].
    apply orb_false_iff in E. destruct E as [E E3].
    apply orb_false_iff in E. destruct E as [E1 E2].
    apply str_eqb_neq in E1, E2, E3. apply negb_false_iff in E4.
    destruct H as [H|[H|[H|[H|(c & Hc & Hw)]]]]; try congruence.
    { apply NumberOf_numericText in H. congruence. }
    unfold testWordDot.
    replace (forallb isWordOrDot s) with false; [rewrite andb_false_r; reflexivity|].
    symmetry. destruct (forallb isWordOrDot s) eqn:F; [|reflexivity].
    rewrite forallb_forall in F. exfalso. apply Hw, isWordOrDot_spec, F, Hc.
  - intros H. cbn [toToon]. unfold quotedBySpec in H.
    destruct (str_eqb s (lit "true")) eqn:E1;
      [apply str_eqb_eq in E1; tauto|].
    destruct (str_eqb s (lit "false")) eqn:E2;
      [apply str_eqb_eq in E2; tauto|].
    destruct (str_eqb s (lit "null")) eqn:E3;
      [apply str_eqb_eq in E3; tauto|].
    destruct (isNaN (NumberOf s)) eqn:E4;
      [|apply NumberOf_numericText in E4; tauto].
    cbn [orb negb]. unfold testWordDot.
    destruct s as [|c s]; [discriminate E4|].
    destruct (forallb isWordOrDot (c :: s)) eqn:F; [reflexivity|].
    exfalso. apply forallb_false_exists in F. destruct F as (x & Hx & Fx).
    apply H. right. right. right. right. exists x. split; [exact Hx|].
    intros Hin. apply isWordOrDot_spec in Hin. congruence.
Qed.

(** C6, the case that the claim leaves out: the empty string is none of
    the three literals, has no character outside the class and is no
    numeric literal, yet it is written as two quotes and not bare. *)
Theorem empty_string_is_quoted :
  toToon (VStr []) 0 = dq "''"
  /\ toToon (VStr []) 0 <> []
  /\ [] <> lit "true" /\ [] <> lit "false" /\ [] <> lit "null"
  /\ ~ numberLiteral []
  /\ ~ (exists c, In c (@nil ascii) /\ ~ In c bareChars).
Proof.
  split; [reflexivity|]. split; [discriminate|].
  split; [discriminate|]. split; [discriminate|]. split; [discriminate|].
  split.
  - intros [(p & ds & H & _) | (sg & u & E & _ & Hu)]; [discriminate H|].
    destruct (unsignedDecimal_head u Hu) as (c & r & -> & _).
    destruct sg; discriminate E.
  - intros (c & [] & _).
Qed.

(** ** JSON strings: parsing undoes quoting *)

Lemma parseStringBody_quoteChar (c : ascii) (rest : str) :
  parseStringBody (quoteChar c ++ rest) =
  let* (body, r) := parseStringBody rest in Ok (c :: body, r).
Proof. destruct c as [[] [] [] [] [] [] [] []]; reflexivity. Qed.

Lemma parseStringBody_quoted (s rest : str) :
  parseStringBody (flat_map quoteChar s ++ DQUOTE :: rest) = Ok (s, rest).
Proof.
  induction s as [|c s IH]; [reflexivity|].
  cbn [flat_map]. rewrite <- app_assoc, parseStringBody_quoteChar, IH.
  reflexivity.
Qed.

Lemma JSON_parse_quoted (s : str) : JSON_parse (quoteJSONString s) = Ok (VStr s).
Proof.
  unfold JSON_parse, quoteJSONString.
  cbn [parseJsonValue length]. change (skipWs (DQUOTE :: ?x)) with (DQUOTE :: x).
  cbv beta iota.
  change (Ascii.eqb DQUOTE "{") with false.
  change (Ascii.eqb DQUOTE "[") with false.
  change (Ascii.eqb DQUOTE DQUOTE) with true. cbv iota.
  rewrite parseStringBody_quoted. reflexivity.
Qed.

(** ** Substrings *)

Lemma len_app (a b : str) : len (a ++ b) = len a + len b.
Proof. unfold len. rewrite length_app. lia. Qed.

Lemma len_nonneg (a : str) : 0 <= len a.
Proof. unfold len. lia. Qed.

Lemma substring_mid (a b c : str) :
  substring (len a) (len a + len b) (a ++ b ++ c) = b.
Proof.
  unfold substring. cbv zeta. rewrite !len_app.
  pose proof (len_nonneg a). pose proof (len_nonneg b). pose proof (len_nonneg c).
  replace (Z.max 0 (Z.min (len a) (len a + (len b + len c)))) with (len a) by lia.
  replace (Z.max 0 (Z.min (len a + len b) (len a + (len b + len c))))
    with (len a + len b) by lia.
  replace (Z.min (len a) (len a + len b)) with (len a) by lia.
  replace (Z.max (len a) (len a + len b) - len a) with (len b) by lia.
  unfold len. rewrite !Nat2Z.id, skipn_app, skipn_all, Nat.sub_diag. simpl.
  rewrite firstn_app, firstn_all, Nat.sub_diag. simpl. apply app_nil_r.
Qed.

Lemma substring_strip_delimiters (q1 q2 : ascii) (body : str) :
  substring 1 (len (q1 :: body ++ [q2]) - 1) (q1 :: body ++ [q2]) = body.
Proof.
  pose proof (substring_mid [q1] body [q2]) as H.
  replace (len (q1 :: body ++ [q2]) - 1) with (len [q1] + len body).
  - exact H.
  - unfold len. cbn [length]. rewrite length_app. cbn [length]. lia.
Qed.

Lemma endsWith_snoc (q : ascii) (s : str) : endsWith [q] (s ++ [q]) = true.
Proof.
  unfold endsWith. rewrite rev_app_distr. simpl.
  rewrite Ascii.eqb_refl. reflexivity.
Qed.

(** ** parseValue *)

(** C7, as stated, fails: the text of two brackets is none of the three
    literals, is not a number and is not quoted, and [parseValue] does not
    return it as a bare string but as the empty array. *)
Lemma parseValue_brackets_not_bare :
  lit "[]" <> lit "true" /\ lit "[]" <> lit "false" /\ lit "[]" <> lit "null"
  /\ NumberOf (lit "[]") = NaN
  /\ isQuotedBy DQUOTE (lit "[]") = false
  /\ isQuotedBy SQUOTE (lit "[]") = false
  /\ parseValue (lit "[]") = Ok (VArr [])
  /\ parseValue (lit "[]") <> Ok (VStr (lit "[]")).
Proof. repeat split; try reflexivity; discriminate. Qed.

Lemma parseValue_not_literal (t : str) :
  str_eqb t (lit "true") = false -> str_eqb t (lit "false") = false ->
  str_eqb t (lit "null") = false -> str_eqb t (lit "[]") = false ->
  str_eqb t (lit "{}") = false ->
  parseValue t =
  if negb (isNaN (NumberOf t)) && negb (startsWith [DQUOTE] t)
     && negb (startsWith [SQUOTE] t) && negb (str_eqb t [])
  then match NumberOf t with Num n => Ok (VNum n) | _ => Unmodelled end
  else if isQuotedBy DQUOTE t || isQuotedBy SQUOTE t then
    if startsWith [DQUOTE] t then
      match JSON_parse t with
      | Ok v => Ok v
      | Throw _ => Ok (VStr (substring 1 (len t - 1) t))
      | Unmodelled => Unmodelled
      end
    else Ok (VStr (substring 1 (len t - 1) t))
  else Ok (VStr t).
Proof. intros H1 H2 H3 H4 H5. unfold parseValue. rewrite H1, H2, H3, H4, H5. reflexivity. Qed.

Lemma parseValue_quoted_start (q : ascii) (r : str) :
  isQuoteChar q = true ->
  parseValue (q :: r) =
  if isQuotedBy DQUOTE (q :: r) || isQuotedBy SQUOTE (q :: r) then
    if startsWith [DQUOTE] (q :: r) then
      match JSON_parse (q :: r) with
      | Ok v => Ok v
      | Throw _ => Ok (VStr (substring 1 (len (q :: r) - 1) (q :: r)))
      | Unmodelled => Unmodelled
      end
    else Ok (VStr (substring 1 (len (q :: r) - 1) (q :: r)))
  else Ok (VStr (q :: r)).
Proof.
  intros Hq. unfold isQuoteChar in Hq. apply orb_true_iff in Hq.
  assert (E : q = DQUOTE \/ q = SQUOTE)
    by (destruct Hq as [H|H]; apply Ascii.eqb_eq in H; auto).
  rewrite parseValue_not_literal;
    try (destruct E as [-> | ->]; reflexivity).
  rewrite <- !andb_assoc.
  destruct E as [-> | ->].
  - replace (startsWith [DQUOTE] (DQUOTE :: r)) with true by reflexivity.
    cbn [negb andb]. rewrite andb_false_r. reflexivity.
  - replace (startsWith [DQUOTE] (SQUOTE :: r)) with false by reflexivity.
    replace (startsWith [SQUOTE] (SQUOTE :: r)) with true by reflexivity.
    cbn [negb andb]. rewrite andb_false_r. reflexivity.
Qed.

Lemma NumberOf_literals :
  NumberOf (lit "true") = NaN /\ NumberOf (lit "false") = NaN
  /\ NumberOf (lit "null") = NaN /\ NumberOf (lit "[]") = NaN
  /\ NumberOf (lit "{}") = NaN.
Proof. repeat split; reflexivity. Qed.

(** C7, amended: [parseValue] maps the literals true, false and null to the
    booleans and to null, the text of two brackets to the empty array and
    the text of two braces to the empty object; a non-empty text that does
    not start with a quote and that [Number] reads as a number (a decimal or
    hexadecimal, octal or binary literal, or a signed Infinity) to that
    number; a double-quoted text that is a JSON string to its unescaped
    string, in particular the quoted form of [s] to [s]; a double-quoted
    text that is not valid JSON, and every single-quoted text, to the text
    between its first and last character, with no escape processing; and
    any other text to itself as a string. *)
Theorem parseValue_spec (t : str) :
  (t = lit "true" -> parseValue t = Ok (VBool true))
  /\ (t = lit "false" -> parseValue t = Ok (VBool false))
  /\ (t = lit "null" -> parseValue t = Ok VNull)
  /\ (t = lit "[]" -> parseValue t = Ok (VArr []))
  /\ (t = lit "{}" -> parseValue t = Ok (VObj []))
  /\ (forall n, NumberOf t = Num n -> t <> [] ->
        startsWith [DQUOTE] t = false -> startsWith [SQUOTE] t = false ->
        parseValue t = Ok (VNum n))
  /\ (forall s, t = quoteJSONString s -> parseValue t = Ok (VStr s))
  /\ (forall v, isQuotedBy DQUOTE t = true -> JSON_parse t = Ok v ->
        parseValue t = Ok v)
  /\ (forall m, isQuotedBy DQUOTE t = true -> JSON_parse t = Throw m ->
        parseValue t = Ok (VStr (substring 1 (len t - 1) t)))
  /\ (isQuotedBy SQUOTE t = true ->
        parseValue t = Ok (VStr (substring 1 (len t - 1) t)))
  /\ (forall body, t = SQUOTE :: body ++ [SQUOTE] -> parseValue t = Ok (VStr body))
  /\ (t <> lit "true" -> t <> lit "false" -> t <> lit "null" ->
      t <> lit "[]" -> t <> lit "{}" ->
      NumberOf t = NaN \/ t = [] ->
      isQuotedBy DQUOTE t = false -> isQuotedBy SQUOTE t = false ->
      parseValue t = Ok (VStr t)).
Proof.
  assert (DQ : forall r, isQuotedBy DQUOTE (DQUOTE :: r) = true ->
               parseValue (DQUOTE :: r) =
               match JSON_parse (DQUOTE :: r) with
               | Ok v => Ok v
               | Throw _ =>
                   Ok (VStr (substring 1 (len (DQUOTE :: r) - 1) (DQUOTE :: r)))
               | Unmodelled => Unmodelled
               end).
  { intros r H. rewrite parseValue_quoted_start by reflexivity.
    rewrite H. reflexivity. }
  assert (SQ : forall r, isQuotedBy SQUOTE (SQUOTE :: r) = true ->
               parseValue (SQUOTE :: r) =
               Ok (VStr (substring 1 (len (SQUOTE :: r) - 1) (SQUOTE :: r)))).
  { intros r H. rewrite parseValue_quoted_start by reflexivity.
    rewrite H, orb_true_r. reflexivity. }
  assert (HD : forall x, isQuotedBy DQUOTE x = true -> exists r, x = DQUOTE :: r).
  { intros [|c r] H; [discriminate|]. unfold isQuotedBy in H.
    apply andb_true_iff in H. destruct H as [H _]. cbn [startsWith] in H.
    rewrite andb_true_r in H. apply Ascii.eqb_eq in H. subst. eauto. }
  assert (HS : forall x, isQuotedBy SQUOTE x = true -> exists r, x = SQUOTE :: r).
  { intros [|c r] H; [discriminate|]. unfold isQuotedBy in H.
    apply andb_true_iff in H. destruct H as [H _]. cbn [startsWith] in H.
    rewrite andb_true_r in H. apply Ascii.eqb_eq in H. subst. eauto. }
  repeat match goal with |- _ /\ _ => split end;
    try (intros ->; reflexivity).
  - intros n Hn Hne Hd Hs.
    pose proof NumberOf_literals as (L1 & L2 & L3 & L4 & L5).
    rewrite parseValue_not_literal;
      try (apply str_eqb_neq; intros ->; congruence).
    rewrite Hn, Hd, Hs. cbn [isNaN negb andb].
    destruct t; [congruence | reflexivity].
  - intros s ->. unfold quoteJSONString.
    rewrite DQ.
    + fold (quoteJSONString s). rewrite JSON_parse_quoted. reflexivity.
    + unfold isQuotedBy. cbn [startsWith]. rewrite Ascii.eqb_refl.
      change (DQUOTE :: flat_map quoteChar s ++ [DQUOTE])
        with ((DQUOTE :: flat_map quoteChar s) ++ [DQUOTE]).
      rewrite endsWith_snoc. reflexivity.
  - intros v Hq Hp. destruct (HD t Hq) as [r ->]. rewrite (DQ r Hq), Hp. reflexivity.
  - intros m Hq Hp. destruct (HD t Hq) as [r ->]. rewrite (DQ r Hq), Hp. reflexivity.
  - intros Hq. destruct (HS t Hq) as [r ->]. apply SQ, Hq.
  - intros body ->. rewrite SQ.
    + rewrite substring_strip_delimiters. reflexivity.
    + unfold isQuotedBy. cbn [startsWith]. rewrite Ascii.eqb_refl.
      change (SQUOTE :: body ++ [SQUOTE]) with ((SQUOTE :: body) ++ [SQUOTE]).
      rewrite endsWith_snoc. reflexivity.
  - intros N1 N2 N3 N4 N5 Hn Hd Hs.
    rewrite parseValue_not_literal by (apply str_eqb_neq; assumption).
    rewrite Hd, Hs. cbn [orb].
    destruct Hn as [Hn | ->]; [|reflexivity].
    rewrite Hn. reflexivity.
Qed.

Example parseValue_examples :
  parseValue (lit "0x1F") = Ok (VNum (Finite 31 0))
  /\ parseValue (lit "-Infinity") = Ok (VNum (Infinity true))
  /\ parseValue (SQUOTE :: lit "a\nb" ++ [SQUOTE]) = Ok (VStr (lit "a\nb"))
  /\ parseValue (dq "'a\nb'") = Ok (VStr ["a"%char; LF; "b"%char])
  /\ parseValue (lit "a b") = Ok (VStr (lit "a b")).
Proof. repeat split; reflexivity. Qed.

(** ** The examples of the specification *)

Definition exampleJson : str :=
  dq "{'user':{'name':'Alice','active':true},'scores':[85,92,78]}".

Definition exampleValue : Value :=
  VObj [(lit "user", VObj [(lit "name", VStr (lit "Alice"));
                           (lit "active", VBool true)]);
        (lit "scores", VArr [VNum (Finite 85 0); VNum (Finite 92 0);
                             VNum (Finite 78 0)])].

(** C2: on the example text [convertToToon] returns four lines that end in
    the spaces of its template strings (one after a field, two after the
    last field of the nested object), not the text of the specification,
    which has none. *)
Theorem convertToToon_example_trailing_spaces :
  JSON_parse exampleJson = Ok exampleValue
  /\ convertToToon exampleJson =
     Ok (join [LF] [lit "user: "; lit "  name: Alice "; lit "  active: true  ";
                    lit "scores[3]: 85,92,78 "])
  /\ convertToToon exampleJson <>
     Ok (join [LF] [lit "user:"; lit "  name: Alice"; lit "  active: true";
                    lit "scores[3]: 85,92,78"]).
Proof.
  split; [vm_compute; reflexivity|].
  split; [vm_compute; reflexivity | vm_compute; discriminate].
Qed.

(** C4, as stated, fails: the one-line text of two brackets has neither a
    dash nor a colon, the line is skipped, and the result is the empty
    object, not the empty array. *)
Lemma convertToJson_brackets_not_array :
  parseLines (nonBlankLines (lit "[]")) = Ok (VObj [])
  /\ convertToJson (lit "[]") = Ok (lit "{}")
  /\ convertToJson (lit "[]") <> Ok (JSON_stringify (VArr [])).
Proof.
  split; [vm_compute; reflexivity|].
  split; [vm_compute; reflexivity | vm_compute; discriminate].
Qed.

(** C4, amended: the empty object is serialized as two braces and the empty
    array as two brackets; parsing the one-line text of two braces yields the
    empty object, and so does parsing the one-line text of two brackets. *)
Theorem empty_containers (indentLevel : nat) :
  toToon (VObj []) indentLevel = lit "{}"
  /\ toToon (VArr []) indentLevel = lit "[]"
  /\ parseLines (nonBlankLines (lit "{}")) = Ok (VObj [])
  /\ convertToJson (lit "{}") = Ok (JSON_stringify (VObj []))
  /\ parseLines (nonBlankLines (lit "[]")) = Ok (VObj [])
  /\ convertToJson (lit "[]") = Ok (JSON_stringify (VObj [])).
Proof. repeat split; vm_compute; reflexivity. Qed.

(** ** Lines of a text

    The parser and the validator read a line through its indentation
    [searchNonSpace line] and its content [trim line].  [Rendered text ls]
    says that [text] consists of the lines [ls], given by indentation and
    content, each possibly followed by spaces. *)

Definition spaces (k : nat) : str := repeat " "%char k.

Definition notLF (s : str) : bool := forallb (fun c => negb (Ascii.eqb c LF)) s.

Definition startsClean (s : str) : bool :=
  match s with x :: _ => negb (isSpace x) | [] => false end.

Definition endsClean (s : str) : bool := startsClean (rev s).

(** A content: not empty, no line feed, no white space at either end. *)
Definition clean (s : str) : bool := startsClean s && endsClean s && notLF s.

Inductive Rendered : str -> list (nat * str) -> Prop :=
| Rendered_one k c t :
    clean c = true -> Rendered (spaces k ++ c ++ spaces t) [(k, c)]
| Rendered_cons k c t text ls :
    clean c = true -> Rendered text ls ->
    Rendered (spaces k ++ c ++ spaces t ++ LF :: text) ((k, c) :: ls).

Lemma repeatStr_spaces (n : nat) : repeatStr (lit "  ") n = spaces (2 * n).
Proof.
  unfold repeatStr, spaces. induction n as [|n IH]; [reflexivity|].
  cbn [repeat concat]. rewrite IH.
  replace (2 * S n)%nat with (S (S (2 * n))) by lia. reflexivity.
Qed.

Lemma spaces_add (a b : nat) : spaces (a + b) = spaces a ++ spaces b.
Proof. unfold spaces. apply repeat_app. Qed.

Lemma isSpace_space : isSpace " " = true.
Proof. reflexivity. Qed.

Lemma forallb_spaces (k : nat) : forallb isSpace (spaces k) = true.
Proof. induction k; [reflexivity | exact IHk]. Qed.

Lemma notLF_spaces (k : nat) : notLF (spaces k) = true.
Proof. induction k; [reflexivity | exact IHk]. Qed.

Lemma notLF_app (a b : str) : notLF (a ++ b) = notLF a && notLF b.
Proof. apply forallb_app. Qed.

Lemma startsClean_app (a b : str) :
  startsClean a = true -> startsClean (a ++ b) = true.
Proof. destruct a; [discriminate | auto]. Qed.

Lemma endsClean_app (a b : str) :
  endsClean b = true -> endsClean (a ++ b) = true.
Proof.
  unfold endsClean. rewrite rev_app_distr. apply startsClean_app.
Qed.

Lemma clean_app (a b : str) :
  startsClean a = true -> endsClean b = true ->
  notLF a = true -> notLF b = true -> clean (a ++ b) = true.
Proof.
  intros Ha Hb La Lb. unfold clean.
  rewrite startsClean_app, endsClean_app, notLF_app, La, Lb; auto.
Qed.

Lemma clean_parts (s : str) :
  clean s = true -> startsClean s = true /\ endsClean s = true /\ notLF s = true.
Proof.
  unfold clean. intros H. apply andb_true_iff in H. destruct H as [H L].
  apply andb_true_iff in H. tauto.
Qed.

Lemma trimStart_clean (s : str) : startsClean s = true -> trimStart s = s.
Proof.
  destruct s as [|c s]; [discriminate|]. cbn [startsClean trimStart].
  intros H. apply negb_true_iff in H. rewrite H. reflexivity.
Qed.

Lemma trimStart_spaces (k : nat) (s : str) : trimStart (spaces k ++ s) = trimStart s.
Proof. induction k as [|k IH]; [reflexivity | exact IH]. Qed.


Lemma rev_spaces (k : nat) : rev (spaces k) = spaces k.
Proof.
  unfold spaces. induction k as [|k IH]; [reflexivity|].
  cbn [repeat rev]. rewrite IH. symmetry. apply repeat_cons.
Qed.

Lemma trimEnd_spaces (s : str) (t : nat) : trimEnd (s ++ spaces t) = trimEnd s.
Proof.
  unfold trimEnd. rewrite rev_app_distr, rev_spaces, trimStart_spaces.
  reflexivity.
Qed.

Lemma trimEnd_clean (s : str) : endsClean s = true -> trimEnd s = s.
Proof.
  unfold endsClean, trimEnd. intros H.
  rewrite trimStart_clean by exact H. apply rev_involutive.
Qed.

Lemma trim_line (k t : nat) (c : str) :
  clean c = true -> trim (spaces k ++ c ++ spaces t) = c.
Proof.
  intros H. apply clean_parts in H. destruct H as (Hs & He & _).
  unfold trim. rewrite trimStart_spaces.
  rewrite trimStart_clean by (apply startsClean_app; exact Hs).
  rewrite trimEnd_spaces. apply trimEnd_clean, He.
Qed.

Lemma trim_clean (c : str) : clean c = true -> trim c = c.
Proof.
  intros H. pose proof (trim_line 0 0 c H) as E.
  cbn [spaces repeat app] in E. rewrite app_nil_r in E. exact E.
Qed.

Lemma searchNonSpace_line (k : nat) (s : str) :
  startsClean s = true -> searchNonSpace (spaces k ++ s) = Z.of_nat k.
Proof.
  intros H. induction k as [|k IH].
  - destruct s as [|c s]; [discriminate|]. cbn [spaces repeat app searchNonSpace].
    cbn [startsClean] in H. apply negb_true_iff in H. rewrite H. reflexivity.
  - cbn [spaces repeat app searchNonSpace]. rewrite isSpace_space.
    fold (spaces k). rewrite IH.
    destruct (Z.ltb_spec (Z.of_nat k) 0); lia.
Qed.

Lemma splitLines_notLF (s : str) : notLF s = true -> splitLines s = [s].
Proof.
  induction s as [|c s IH]; [reflexivity|].
  cbn [notLF forallb splitLines]. intros H. apply andb_true_iff in H.
  destruct H as [Hc Hs]. apply negb_true_iff in Hc. rewrite Hc.
  fold (notLF s) in Hs. rewrite (IH Hs). reflexivity.
Qed.

Lemma splitLines_app_LF (a b : str) :
  notLF a = true -> splitLines (a ++ LF :: b) = a :: splitLines b.
Proof.
  induction a as [|c a IH]; intros H.
  - cbn [app splitLines]. rewrite Ascii.eqb_refl. reflexivity.
  - cbn [notLF forallb] in H. apply andb_true_iff in H. destruct H as [Hc Ha].
    apply negb_true_iff in Hc. cbn [app splitLines]. rewrite Hc.
    rewrite (IH Ha). reflexivity.
Qed.

(** The raw line of a rendered line. *)
Definition lexLine (line : str) : Z * str := (searchNonSpace line, trim line).

Definition lexed (ls : list (nat * str)) : list (Z * str) :=
  map (fun '(k, c) => (Z.of_nat k, c)) ls.

Lemma lexLine_line (k t : nat) (c : str) :
  clean c = true -> lexLine (spaces k ++ c ++ spaces t) = (Z.of_nat k, c).
Proof.
  intros H. unfold lexLine. rewrite (trim_line k t c H).
  rewrite searchNonSpace_line; [reflexivity|].
  apply startsClean_app. apply clean_parts in H. tauto.
Qed.

Lemma notLF_line (k t : nat) (c : str) :
  clean c = true -> notLF (spaces k ++ c ++ spaces t) = true.
Proof.
  intros H. apply clean_parts in H. destruct H as (_ & _ & L).
  rewrite !notLF_app, !notLF_spaces, L. reflexivity.
Qed.

Lemma Rendered_lex (text : str) (ls : list (nat * str)) :
  Rendered text ls ->
  map lexLine (splitLines text) = lexed ls
  /\ Forall (fun line => trim line <> []) (splitLines text).
Proof.
  induction 1 as [k c t Hc | k c t text ls Hc _ [IH1 IH2]].
  - rewrite splitLines_notLF by (apply notLF_line, Hc).
    cbn [map lexed]. rewrite lexLine_line by exact Hc. split; [reflexivity|].
    constructor; [|constructor]. rewrite trim_line by exact Hc.
    destruct c; [discriminate | discriminate].
  - replace (spaces k ++ c ++ spaces t ++ LF :: text)
      with ((spaces k ++ c ++ spaces t) ++ LF :: text)
      by (rewrite <- !app_assoc; reflexivity).
    rewrite splitLines_app_LF by (apply notLF_line, Hc).
    cbn [map lexed]. rewrite lexLine_line by exact Hc. fold (lexed ls).
    rewrite IH1. split; [reflexivity|].
    constructor; [|exact IH2]. rewrite trim_line by exact Hc.
    destruct c; [discriminate | discriminate].
Qed.

Lemma Rendered_app (a b : str) (la lb : list (nat * str)) :
  Rendered a la -> Rendered b lb -> Rendered (a ++ LF :: b) (la ++ lb).
Proof.
  intros Ha Hb. induction Ha as [k c t Hc | k c t text ls Hc _ IH].
  - rewrite <- !app_assoc. apply Rendered_cons; assumption.
  - replace ((spaces k ++ c ++ spaces t ++ LF :: text) ++ LF :: b)
      with (spaces k ++ c ++ spaces t ++ LF :: (text ++ LF :: b))
      by (rewrite <- !app_assoc; reflexivity).
    apply (Rendered_cons k c t _ (ls ++ lb)); assumption.
Qed.

Lemma Rendered_trailing (a : str) (la : list (nat * str)) :
  Rendered a la -> Rendered (a ++ lit " ") la.
Proof.
  induction 1 as [k c t Hc | k c t text ls Hc _ IH].
  - replace ((spaces k ++ c ++ spaces t) ++ lit " ")
      with (spaces k ++ c ++ spaces (t + 1))
      by (rewrite spaces_add, <- !app_assoc; reflexivity).
    apply Rendered_one, Hc.
  - replace ((spaces k ++ c ++ spaces t ++ LF :: text) ++ lit " ")
      with (spaces k ++ c ++ spaces t ++ LF :: (text ++ lit " "))
      by (rewrite <- !app_assoc; reflexivity).
    apply Rendered_cons; assumption.
Qed.

(** The first line of a rendered text can be exchanged. *)
Lemma Rendered_first (text : str) (k : nat) (c : str) (ls : list (nat * str)) :
  Rendered text ((k, c) :: ls) ->
  exists tail, text = spaces k ++ c ++ tail
    /\ forall k' c', clean c' = true ->
         Rendered (spaces k' ++ c' ++ tail) ((k', c') :: ls).
Proof.
  intros H. inversion H as [k0 c0 t Hc | k0 c0 t text0 ls0 Hc Hr]; subst.
  - exists (spaces t). split; [reflexivity|].
    intros k' c' H'. apply Rendered_one, H'.
  - exists (spaces t ++ LF :: text0). split; [reflexivity|].
    intros k' c' H'. apply Rendered_cons; assumption.
Qed.

Lemma Rendered_nonempty (text : str) (ls : list (nat * str)) :
  Rendered text ls -> ls <> [].
Proof. destruct 1; discriminate. Qed.

Lemma Rendered_join (blocks : list str) (lss : list (list (nat * str))) :
  Forall2 Rendered blocks lss -> blocks <> [] ->
  Rendered (join [LF] blocks) (concat lss).
Proof.
  induction 1 as [|b ls blocks lss Hb Hrest IH]; [congruence|].
  intros _. destruct Hrest as [|b' ls' blocks' lss' Hb' Hrest'].
  - cbn [join concat]. rewrite app_nil_r. exact Hb.
  - change (join [LF] (b :: b' :: blocks'))
      with (b ++ LF :: join [LF] (b' :: blocks')).
    cbn [concat]. apply Rendered_app; [exact Hb|].
    apply IH. discriminate.
Qed.

(** ** Texts of scalars *)

(** The characters of numbers and of bare strings. *)
Definition isTokenChar (c : ascii) : bool :=
  isWordOrDot c || Ascii.eqb c "-" || Ascii.eqb c "+".

Lemma tokenChar_facts (c : ascii) :
  isTokenChar c = true ->
  isSpace c = false /\ Ascii.eqb c LF = false /\ Ascii.eqb c "," = false
  /\ Ascii.eqb c ":" = false /\ isQuoteChar c = false
  /\ Ascii.eqb c " " = false /\ Ascii.eqb c BSLASH = false.
Proof.
  destruct c as [[] [] [] [] [] [] [] []]; vm_compute; intros H;
    try discriminate H; repeat split.
Qed.

Lemma wordChar_token (c : ascii) : isWord c = true -> isTokenChar c = true.
Proof.
  intros H. unfold isTokenChar, isWordOrDot. rewrite H. reflexivity.
Qed.

Lemma wordOrDot_token (c : ascii) : isWordOrDot c = true -> isTokenChar c = true.
Proof. intros H. unfold isTokenChar. rewrite H. reflexivity. Qed.

Lemma digit_token (c : ascii) : isDigit c = true -> isTokenChar c = true.
Proof.
  intros H. apply wordChar_token. unfold isWord. rewrite H.
  rewrite orb_true_r. reflexivity.
Qed.

(** A token: a non-empty text of token characters. *)
Definition isToken (s : str) : bool :=
  negb (str_eqb s []) && forallb isTokenChar s.

Lemma isToken_parts (s : str) :
  isToken s = true -> s <> [] /\ forallb isTokenChar s = true.
Proof.
  unfold isToken. intros H. apply andb_true_iff in H. destruct H as [H1 H2].
  split; [|exact H2]. apply negb_true_iff, str_eqb_neq in H1. exact H1.
Qed.

Lemma forallb_impl {A} (f g : A -> bool) (l : list A) :
  (forall x, f x = true -> g x = true) ->
  forallb f l = true -> forallb g l = true.
Proof.
  intros H. rewrite !forallb_forall. auto.
Qed.

Lemma token_clean (s : str) : isToken s = true -> clean s = true.
Proof.
  intros H. apply isToken_parts in H. destruct H as [Hne Hall].
  assert (Hr : forallb isTokenChar (rev s) = true)
    by (rewrite forallb_rev; exact Hall).
  unfold clean, endsClean, startsClean.
  destruct s as [|c s]; [congruence|].
  destruct (rev (c :: s)) as [|d r] eqn:Er.
  { apply (f_equal (@length ascii)) in Er. rewrite length_rev in Er. discriminate. }
  cbn [forallb] in Hall, Hr.
  apply andb_true_iff in Hall, Hr. destruct Hall as [Hc Hs], Hr as [Hd _].
  destruct (tokenChar_facts c Hc) as (S1 & _), (tokenChar_facts d Hd) as (S2 & _).
  rewrite S1, S2. cbn [negb andb].
  unfold notLF. cbn [forallb].
  destruct (tokenChar_facts c Hc) as (_ & L & _). rewrite L. cbn [negb andb].
  revert Hs. apply forallb_impl. intros x Hx.
  destruct (tokenChar_facts x Hx) as (_ & Lx & _). rewrite Lx. reflexivity.
Qed.

(** ** Decimal digits *)

Lemma digitChar_spec (d : Z) :
  0 <= d < 10 -> isDigit (digitChar d) = true /\ digitVal (digitChar d) = d.
Proof.
  intros H.
  assert (E : d = 0 \/ d = 1 \/ d = 2 \/ d = 3 \/ d = 4 \/ d = 5 \/ d = 6
              \/ d = 7 \/ d = 8 \/ d = 9) by lia.
  repeat (destruct E as [-> | E]; [split; reflexivity|]).
  subst. split; reflexivity.
Qed.

Lemma digitsOf_digits (fuel : nat) (n : Z) (acc : str) :
  0 <= n -> forallb isDigit acc = true ->
  forallb isDigit (digitsOf fuel n acc) = true.
Proof.
  revert n acc. induction fuel as [|f IH]; intros n acc Hn Hacc; [exact Hacc|].
  cbn [digitsOf].
  assert (Hd : forallb isDigit (digitChar (n mod 10) :: acc) = true).
  { cbn [forallb]. rewrite Hacc.
    destruct (digitChar_spec (n mod 10)) as [D _];
      [apply Z.mod_pos_bound; lia | rewrite D; reflexivity]. }
  destruct (n <? 10); [exact Hd|].
  apply IH; [apply Z.div_pos; lia | exact Hd].
Qed.

Lemma digitsOf_nonempty (f : nat) (n : Z) (acc : str) :
  digitsOf (S f) n acc <> [].
Proof.
  revert n acc. induction f as [|f IH]; intros n acc; cbn [digitsOf].
  - destruct (n <? 10); discriminate.
  - destruct (n <? 10); [discriminate|]. apply IH.
Qed.

Definition digitStep (acc : Z) (c : ascii) : Z := acc * 10 + digitVal c.

Lemma digitsOf_value (f : nat) (n : Z) (acc : str) :
  0 <= n < 2 ^ Z.of_nat (S f) ->
  fold_left digitStep (digitsOf (S f) n acc) 0 = fold_left digitStep acc n.
Proof.
  revert n acc. induction f as [|f IH]; intros n acc Hn.
  - cbn [digitsOf]. change (2 ^ Z.of_nat 1) with 2 in Hn.
    destruct (Z.ltb_spec n 10); [|lia].
    cbn [fold_left]. unfold digitStep at 2.
    destruct (digitChar_spec (n mod 10)) as [_ V]; [apply Z.mod_pos_bound; lia|].
    rewrite V, Z.mod_small by lia. reflexivity.
  - remember (S f) as g. cbn [digitsOf].
    destruct (digitChar_spec (n mod 10)) as [_ V]; [apply Z.mod_pos_bound; lia|].
    destruct (Z.ltb_spec n 10).
    + cbn [fold_left]. unfold digitStep at 2.
      rewrite V, Z.mod_small by lia. reflexivity.
    + subst g. rewrite IH.
      * cbn [fold_left]. unfold digitStep at 2. rewrite V.
        f_equal. pose proof (Z.div_mod n 10). lia.
      * split; [apply Z.div_pos; lia|].
        apply Z.div_lt_upper_bound; [lia|].
        replace (Z.of_nat (S (S f))) with (Z.of_nat (S f) + 1) in Hn by lia.
        rewrite Z.pow_add_r in Hn by lia. lia.
Qed.

Lemma decimal_digits (n : Z) : 0 <= n -> forallb isDigit (decimal n) = true.
Proof. intros H. apply digitsOf_digits; [exact H | reflexivity]. Qed.

Lemma decimal_nonempty (n : Z) : decimal n <> [].
Proof. apply digitsOf_nonempty. Qed.

Lemma decimal_value (n : Z) : 0 <= n -> digitsValue (decimal n) = n.
Proof.
  intros H. unfold digitsValue, decimal.
  change (fun acc c => acc * 10 + digitVal c) with digitStep.
  rewrite digitsOf_value; [reflexivity|].
  split; [exact H|].
  destruct (Z.eq_dec n 0) as [->|Hn]; [reflexivity|].
  rewrite Nat2Z.inj_succ, Z2Nat.id by apply Z.log2_nonneg.
  apply Z.log2_spec. lia.
Qed.

Lemma digitsValue_zeros (ds : str) :
  forallb (Ascii.eqb "0") ds = true -> forall a, fold_left digitStep ds a = a * 10 ^ len ds.
Proof.
  induction ds as [|c ds IH]; intros H a.
  - cbn. lia.
  - cbn [forallb] in H. apply andb_true_iff in H. destruct H as [Hc Hds].
    apply Ascii.eqb_eq in Hc. subst c.
    cbn [fold_left]. rewrite (IH Hds). unfold digitStep.
    change (digitVal "0") with 0.
    unfold len. cbn [length]. rewrite Nat2Z.inj_succ, Z.pow_succ_r by lia. lia.
Qed.

Definition stripZeros : str -> str :=
  fix strip (r : str) : str :=
    match r with
    | c :: r' => if Ascii.eqb c "0" then strip r' else r
    | [] => []
    end.

Lemma stripTrailingZeros_unfold (ds : str) :
  stripTrailingZeros ds = rev (stripZeros (rev ds)).
Proof. reflexivity. Qed.

Lemma stripZeros_forallb (f : ascii -> bool) (r : str) :
  forallb f r = true -> forallb f (stripZeros r) = true.
Proof.
  induction r as [|c r IH]; [auto|]. intros H. cbn [stripZeros].
  destruct (Ascii.eqb c "0"); [|exact H].
  cbn [forallb] in H. apply andb_true_iff in H. apply IH; tauto.
Qed.

Lemma stripZeros_nil (r : str) :
  stripZeros r = [] -> forallb (Ascii.eqb "0") r = true.
Proof.
  induction r as [|c r IH]; [reflexivity|]. cbn [stripZeros forallb].
  destruct (Ascii.eqb_spec c "0") as [->|N]; [|discriminate].
  intros H. rewrite (IH H). reflexivity.
Qed.

Lemma stripTrailingZeros_forallb (f : ascii -> bool) (ds : str) :
  forallb f ds = true -> forallb f (stripTrailingZeros ds) = true.
Proof.
  intros H. rewrite stripTrailingZeros_unfold, forallb_rev.
  apply stripZeros_forallb. rewrite forallb_rev. exact H.
Qed.

Lemma stripTrailingZeros_decimal_nonempty (a : Z) :
  0 < a -> stripTrailingZeros (decimal a) <> [].
Proof.
  intros Ha E. rewrite stripTrailingZeros_unfold in E.
  apply (f_equal (@rev ascii)) in E. rewrite rev_involutive in E. cbn [rev] in E.
  apply stripZeros_nil in E. rewrite forallb_rev in E.
  pose proof (decimal_value a) as V. unfold digitsValue in V.
  change (fun acc c => acc * 10 + digitVal c) with digitStep in V.
  rewrite (digitsValue_zeros _ E) in V. lia.
Qed.

Lemma forallb_firstn {A} (f : A -> bool) (n : nat) (l : list A) :
  forallb f l = true -> forallb f (firstn n l) = true.
Proof.
  intros H. rewrite <- (firstn_skipn n l), forallb_app in H.
  apply andb_true_iff in H. tauto.
Qed.

Lemma forallb_skipn {A} (f : A -> bool) (n : nat) (l : list A) :
  forallb f l = true -> forallb f (skipn n l) = true.
Proof.
  intros H. rewrite <- (firstn_skipn n l), forallb_app in H.
  apply andb_true_iff in H. tauto.
Qed.

Lemma forallb_repeat {A} (f : A -> bool) (x : A) (n : nat) :
  f x = true -> forallb f (repeat x n) = true.
Proof. intros H. induction n; cbn [repeat forallb]; [|rewrite H]; auto. Qed.

Lemma digits_token (ds : str) :
  forallb isDigit ds = true -> forallb isTokenChar ds = true.
Proof. apply forallb_impl, digit_token. Qed.

Lemma numberToString_token (x : number) : isToken (numberToString x) = true.
Proof.
  destruct x as [m scale | negative]; [|destruct negative; reflexivity].
  unfold numberToString.
  destruct (Z.eqb_spec m 0) as [->|Hm]; [reflexivity|].
  assert (HD : forallb isTokenChar (decimal (Z.abs m)) = true)
    by (apply digits_token, decimal_digits; lia).
  assert (Hds : forallb isTokenChar (stripTrailingZeros (decimal (Z.abs m))) = true)
    by (apply stripTrailingZeros_forallb; exact HD).
  assert (Hne : stripTrailingZeros (decimal (Z.abs m)) <> [])
    by (apply stripTrailingZeros_decimal_nonempty; lia).
  set (ds := stripTrailingZeros (decimal (Z.abs m))) in *.
  set (n := len (decimal (Z.abs m)) - Z.of_nat scale).
  assert (Hsign : forall body, isToken body = true ->
            isToken ((if m <? 0 then lit "-" else []) ++ body) = true).
  { intros body Hb. destruct (m <? 0); [|exact Hb].
    apply isToken_parts in Hb. destruct Hb as [_ Hb].
    unfold isToken. cbn [lit list_ascii_of_string app str_eqb negb forallb andb].
    rewrite Hb. reflexivity. }
  apply Hsign. unfold isToken.
  destruct ((len ds <=? n) && (n <=? 21)).
  { rewrite forallb_app, Hds, forallb_repeat by reflexivity.
    destruct ds; [congruence | reflexivity]. }
  destruct ((0 <? n) && (n <=? 21)).
  { rewrite !forallb_app, forallb_firstn, forallb_skipn by exact Hds.
    rewrite andb_true_r.
    destruct (firstn (Z.to_nat n) ds); reflexivity. }
  destruct ((-6 <? n) && (n <=? 0)).
  { cbn [lit list_ascii_of_string app str_eqb negb andb forallb].
    rewrite forallb_app, Hds, forallb_repeat by reflexivity. reflexivity. }
  assert (Hes : forallb isTokenChar
                  ((if n - 1 <? 0 then lit "-" else lit "+")
                   ++ decimal (Z.abs (n - 1))) = true).
  { rewrite forallb_app.
    rewrite (digits_token (decimal (Z.abs (n - 1))))
      by (apply decimal_digits; lia).
    destruct (n - 1 <? 0); reflexivity. }
  cbn [lit list_ascii_of_string] in Hes.
  destruct ds as [|d [|d' rest]]; [congruence| |].
  - cbn [forallb] in Hds. apply andb_true_iff in Hds. destruct Hds as [Hd _].
    cbn [str_eqb negb andb forallb lit list_ascii_of_string app].
    rewrite Hd, Hes. reflexivity.
  - cbn [forallb] in Hds. apply andb_true_iff in Hds. destruct Hds as [Hd Hr].
    cbn [str_eqb negb andb forallb lit list_ascii_of_string app].
    rewrite Hd. cbn [forallb] in Hr. apply andb_true_iff in Hr.
    destruct Hr as [Hd' Hr]. rewrite Hd', forallb_app, Hr.
    cbn [forallb andb]. change (isTokenChar "e") with true. exact Hes.
Qed.

(** ** The lines of [toToon] *)

Lemma Value_nested_ind (P : Value -> Prop) :
  P VNull -> (forall b, P (VBool b)) -> (forall n, P (VNum n)) ->
  (forall s, P (VStr s)) ->
  (forall items, Forall P items -> P (VArr items)) ->
  (forall fields, Forall (fun kv => P (snd kv)) fields -> P (VObj fields)) ->
  forall v, P v.
Proof.
  intros Hnull Hbool Hnum Hstr Harr Hobj.
  fix F 1. intros [| b | n | s | items | fields].
  - exact Hnull.
  - apply Hbool.
  - apply Hnum.
  - apply Hstr.
  - apply Harr. induction items as [|x items IH]; constructor; [apply F | exact IH].
  - apply Hobj. induction fields as [|[k x] fields IH]; constructor;
      [apply F | exact IH].
Qed.

Definition formattedKey (key : str) : str :=
  if testWord key then key else quoteJSONString key.

(** One element of the [map] over the items of a complex array. *)
Definition toToonItem (indentLevel : nat) (item : Value) : str :=
  let indent := repeatStr (lit "  ") indentLevel in
  match item with
  | VObj _ =>
      replacePrefix (repeatStr (lit "  ") (S indentLevel)) (indent ++ lit "- ")
                    (toToon item (S indentLevel))
  | _ => indent ++ lit "- " ++ toToon item 0
  end.

(** One element of the [map] over the keys of an object. *)
Definition toToonField (indentLevel : nat) (field : str * Value) : str :=
  let indent := repeatStr (lit "  ") indentLevel in
  let '(key, value) := field in
  match value with
  | VArr vitems =>
      if isSimple vitems then
        match vitems with
        | [] => indent ++ formattedKey key ++ lengthSuffix vitems ++ lit ": []"
        | _ => indent ++ formattedKey key ++ lengthSuffix vitems
               ++ lit ": " ++ toToon value 0 ++ lit " "
        end
      else
        match vitems with
        | [] => indent ++ formattedKey key ++ lengthSuffix vitems ++ lit ": []"
        | _ => indent ++ formattedKey key ++ lengthSuffix vitems
               ++ lit ":" ++ [LF] ++ toToon value (S indentLevel)
        end
  | VObj vfields =>
      match vfields with
      | [] => indent ++ formattedKey key ++ lit ": { } "
      | _ => indent ++ formattedKey key ++ lit ": " ++ [LF]
             ++ toToon value (S indentLevel) ++ lit " "
      end
  | _ => indent ++ formattedKey key ++ lit ": " ++ toToon value 0 ++ lit " "
  end.

Lemma toToon_simple (items : list Value) (n : nat) :
  items <> [] -> isSimple items = true ->
  toToon (VArr items) n = join (lit ",") (map (fun item => toToon item 0) items).
Proof.
  intros Hne Hs. destruct items as [|x items]; [congruence|].
  cbn [toToon]. rewrite Hs. reflexivity.
Qed.

Lemma toToon_complex (items : list Value) (n : nat) :
  isSimple items = false ->
  toToon (VArr items) n = join [LF] (map (toToonItem n) items).
Proof.
  intros Hs. destruct items as [|x items]; [discriminate|].
  cbn [toToon]. rewrite Hs. reflexivity.
Qed.

Lemma toToon_object (fields : list (str * Value)) (n : nat) :
  fields <> [] ->
  toToon (VObj fields) n = join [LF] (map (toToonField n) fields).
Proof.
  intros Hne. destruct fields as [|f fields]; [congruence|].
  reflexivity.
Qed.

(** The first line of a block behind the dash of an array item. *)
Definition dashLine (ind : nat) (ls : list (nat * str)) : list (nat * str) :=
  match ls with
  | (k, c) :: rest => (ind, lit "- " ++ spaces k ++ c) :: rest
  | [] => []
  end.

(** The first line of an object block with its indentation replaced by the
    dash. *)
Definition dashObject (ind : nat) (ls : list (nat * str)) : list (nat * str) :=
  match ls with
  | (k, c) :: rest =>
      if (ind + 2 <=? k)%nat
      then (ind, lit "- " ++ spaces (k - (ind + 2)) ++ c) :: rest
      else ls
  | [] => []
  end.

(** The lines of [toToon data indentLevel], by indentation and content. *)
Fixpoint toonLines (data : Value) (indentLevel : nat) {struct data}
  : list (nat * str) :=
  let ind := (2 * indentLevel)%nat in
  match data with
  | VArr items =>
      if isSimple items then [(O, toToon data indentLevel)]
      else
        flat_map (fun item =>
                    match item with
                    | VObj _ => dashObject ind (toonLines item (S indentLevel))
                    | _ => dashLine ind (toonLines item 0)
                    end) items
  | VObj fields =>
      match fields with
      | [] => [(O, lit "{}")]
      | _ =>
          flat_map (fun '(key, value) =>
                      match value with
                      | VArr vitems =>
                          if isSimple vitems then
                            match vitems with
                            | [] => [(ind, formattedKey key ++ lengthSuffix vitems
                                           ++ lit ": []")]
                            | _ => [(ind, formattedKey key ++ lengthSuffix vitems
                                          ++ lit ": " ++ toToon value 0)]
                            end
                          else
                            (ind, formattedKey key ++ lengthSuffix vitems ++ lit ":")
                            :: toonLines value (S indentLevel)
                      | VObj vfields =>
                          match vfields with
                          | [] => [(ind, formattedKey key ++ lit ": { }")]
                          | _ => (ind, formattedKey key ++ lit ":")
                                 :: toonLines value (S indentLevel)
                          end
                      | _ => [(ind, formattedKey key ++ lit ": " ++ toToon value 0)]
                      end) fields
      end
  | _ => [(O, toToon data indentLevel)]
  end.

Definition itemLines (indentLevel : nat) (item : Value) : list (nat * str) :=
  match item with
  | VObj _ => dashObject (2 * indentLevel) (toonLines item (S indentLevel))
  | _ => dashLine (2 * indentLevel) (toonLines item 0)
  end.

Definition fieldLines (indentLevel : nat) (field : str * Value)
  : list (nat * str) :=
  let ind := (2 * indentLevel)%nat in
  let '(key, value) := field in
  match value with
  | VArr vitems =>
      if isSimple vitems then
        match vitems with
        | [] => [(ind, formattedKey key ++ lengthSuffix vitems ++ lit ": []")]
        | _ => [(ind, formattedKey key ++ lengthSuffix vitems
                      ++ lit ": " ++ toToon value 0)]
        end
      else
        (ind, formattedKey key ++ lengthSuffix vitems ++ lit ":")
        :: toonLines value (S indentLevel)
  | VObj vfields =>
      match vfields with
      | [] => [(ind, formattedKey key ++ lit ": { }")]
      | _ => (ind, formattedKey key ++ lit ":") :: toonLines value (S indentLevel)
      end
  | _ => [(ind, formattedKey key ++ lit ": " ++ toToon value 0)]
  end.

Lemma toonLines_complex (items : list Value) (n : nat) :
  isSimple items = false ->
  toonLines (VArr items) n = flat_map (itemLines n) items.
Proof. intros Hs. cbn [toonLines]. rewrite Hs. reflexivity. Qed.

Lemma toonLines_object (fields : list (str * Value)) (n : nat) :
  fields <> [] -> toonLines (VObj fields) n = flat_map (fieldLines n) fields.
Proof.
  intros Hne. destruct fields as [|f fields]; [congruence|].
  reflexivity.
Qed.

Lemma quoteChar_notLF (c : ascii) : notLF (quoteChar c) = true.
Proof. destruct c as [[] [] [] [] [] [] [] []]; reflexivity. Qed.

Lemma flat_map_notLF (s : str) : notLF (flat_map quoteChar s) = true.
Proof.
  induction s as [|c s IH]; [reflexivity|].
  cbn [flat_map]. rewrite notLF_app, quoteChar_notLF, IH. reflexivity.
Qed.

Lemma endsClean_snoc (s : str) (c : ascii) :
  isSpace c = false -> endsClean (s ++ [c]) = true.
Proof.
  intros H. unfold endsClean. rewrite rev_app_distr. cbn [rev app startsClean].
  rewrite H. reflexivity.
Qed.

Lemma quoted_clean (s : str) : clean (quoteJSONString s) = true.
Proof.
  unfold quoteJSONString.
  change (DQUOTE :: flat_map quoteChar s ++ [DQUOTE])
    with ([DQUOTE] ++ flat_map quoteChar s ++ [DQUOTE]).
  apply clean_app; [reflexivity | | reflexivity |].
  - apply endsClean_snoc. reflexivity.
  - rewrite notLF_app, flat_map_notLF. reflexivity.
Qed.

Lemma testWordDot_token (s : str) : testWordDot s = true -> isToken s = true.
Proof.
  unfold testWordDot, isToken. intros H. apply andb_true_iff in H.
  destruct H as [H1 H2]. rewrite H1. cbn [andb].
  revert H2. apply forallb_impl, wordOrDot_token.
Qed.

Lemma testWord_token (s : str) : testWord s = true -> isToken s = true.
Proof.
  unfold testWord, isToken. intros H. apply andb_true_iff in H.
  destruct H as [H1 H2]. rewrite H1. cbn [andb].
  revert H2. apply forallb_impl, wordChar_token.
Qed.

(** The text of a string is the string itself, a token that is not read as
    a number or a literal, or its quoted form. *)
Lemma toToon_string_cases (s : str) (n : nat) :
  (toToon (VStr s) n = s /\ isToken s = true /\ isNaN (NumberOf s) = true
   /\ s <> lit "true" /\ s <> lit "false" /\ s <> lit "null")
  \/ toToon (VStr s) n = quoteJSONString s.
Proof.
  cbn [toToon].
  destruct (str_eqb s (lit "true")) eqn:E1; [right; reflexivity|].
  destruct (str_eqb s (lit "false")) eqn:E2; [right; reflexivity|].
  destruct (str_eqb s (lit "null")) eqn:E3; [right; reflexivity|].
  destruct (isNaN (NumberOf s)) eqn:E4; [|right; reflexivity].
  cbn [orb negb].
  destruct (testWordDot s) eqn:E5; [|right; reflexivity].
  left. apply str_eqb_neq in E1, E2, E3.
  repeat split; auto. apply testWordDot_token, E5.
Qed.

Lemma scalar_clean (v : Value) (n : nat) :
  isObjectLike v = false -> clean (toToon v n) = true.
Proof.
  destruct v as [| b | x | s | items | fields]; intros H; try discriminate H.
  - reflexivity.
  - destruct b; reflexivity.
  - apply token_clean, numberToString_token.
  - destruct (toToon_string_cases s n) as [(E & T & _) | E]; rewrite E.
    + apply token_clean, T.
    + apply quoted_clean.
Qed.

Lemma formattedKey_parts (key : str) :
  startsClean (formattedKey key) = true /\ notLF (formattedKey key) = true.
Proof.
  assert (H : clean (formattedKey key) = true).
  { unfold formattedKey. destruct (testWord key) eqn:E.
    - apply token_clean, testWord_token, E.
    - apply quoted_clean. }
  apply clean_parts in H. tauto.
Qed.

Lemma notLF_digits (ds : str) : forallb isDigit ds = true -> notLF ds = true.
Proof.
  apply forallb_impl. intros c H.
  destruct (tokenChar_facts c (digit_token c H)) as (_ & L & _).
  rewrite L. reflexivity.
Qed.

Lemma lengthSuffix_notLF (items : list Value) : notLF (lengthSuffix items) = true.
Proof.
  unfold lengthSuffix.
  rewrite !notLF_app, (notLF_digits (decimal (Z.of_nat (length items))));
    [reflexivity|].
  apply decimal_digits. lia.
Qed.

Lemma join_clean (sep : str) (l : list str) :
  l <> [] -> notLF sep = true -> Forall (fun x => clean x = true) l ->
  clean (join sep l) = true.
Proof.
  intros Hne Hsep H. induction H as [|x l Hx Hl IH]; [congruence|].
  destruct l as [|y l]; [exact Hx|].
  change (join sep (x :: y :: l)) with (x ++ sep ++ join sep (y :: l)).
  specialize (IH ltac:(discriminate)).
  apply clean_parts in Hx, IH.
  destruct Hx as (Sx & _ & Lx), IH as (_ & Ey & Ly).
  apply clean_app; auto.
  - apply endsClean_app, Ey.
  - rewrite notLF_app, Hsep, Ly. reflexivity.
Qed.

Lemma simple_text_clean (items : list Value) :
  items <> [] -> isSimple items = true ->
  clean (join (lit ",") (map (fun item => toToon item 0) items)) = true.
Proof.
  intros Hne Hs. apply join_clean; [destruct items; [congruence|discriminate] | reflexivity |].
  apply Forall_map, Forall_forall. intros x Hx.
  unfold isSimple in Hs. rewrite forallb_forall in Hs.
  apply scalar_clean, negb_true_iff, Hs, Hx.
Qed.

Lemma clean_content (a b : str) :
  startsClean a = true -> notLF a = true -> clean b = true -> clean (a ++ b) = true.
Proof.
  intros Sa La Hb. apply clean_parts in Hb. destruct Hb as (_ & Eb & Lb).
  apply clean_app; auto.
Qed.

Lemma clean_key_content (key : str) (b : str) :
  endsClean b = true -> notLF b = true -> clean (formattedKey key ++ b) = true.
Proof.
  intros Eb Lb. destruct (formattedKey_parts key) as [S L].
  apply clean_app; auto.
Qed.

Lemma startsWith_spaces_le (a k : nat) (s : str) :
  (a <= k)%nat -> startsWith (spaces a) (spaces k ++ s) = true.
Proof.
  revert k. induction a as [|a IH]; intros k H; [reflexivity|].
  destruct k as [|k]; [lia|]. cbn [spaces repeat app startsWith].
  rewrite Ascii.eqb_refl. apply IH. lia.
Qed.

Lemma startsWith_spaces_gt (a k : nat) (s : str) :
  (k < a)%nat -> startsClean s = true -> startsWith (spaces a) (spaces k ++ s) = false.
Proof.
  revert a. induction k as [|k IH]; intros a H Hs.
  - destruct a as [|a]; [lia|]. destruct s as [|c s]; [discriminate|].
    cbn [spaces repeat app startsWith]. cbn [startsClean] in Hs.
    destruct (Ascii.eqb_spec " " c) as [<-|]; [discriminate | reflexivity].
  - destruct a as [|a]; [lia|]. cbn [spaces repeat app startsWith].
    rewrite Ascii.eqb_refl. apply IH; [lia | exact Hs].
Qed.

Lemma skipn_spaces (a k : nat) (s : str) :
  (a <= k)%nat -> skipn a (spaces k ++ s) = spaces (k - a) ++ s.
Proof.
  revert k. induction a as [|a IH]; intros k H.
  - rewrite Nat.sub_0_r. reflexivity.
  - destruct k as [|k]; [lia|]. cbn [spaces repeat app skipn]. apply IH. lia.
Qed.

Lemma length_spaces (k : nat) : length (spaces k) = k.
Proof. apply repeat_length. Qed.

Lemma clean_dash (k : nat) (c : str) :
  clean c = true -> clean (lit "- " ++ spaces k ++ c) = true.
Proof.
  intros H. apply clean_parts in H. destruct H as (_ & E & L).
  apply clean_app; [reflexivity | | reflexivity |].
  - apply endsClean_app, E.
  - rewrite notLF_app, notLF_spaces, L. reflexivity.
Qed.

Lemma Rendered_head_clean (text : str) k c ls :
  Rendered text ((k, c) :: ls) -> clean c = true.
Proof. intros H. inversion H; subst; assumption. Qed.

Lemma Rendered_replacePrefix (ind : nat) (text : str) (ls : list (nat * str)) :
  Rendered text ls ->
  Rendered (replacePrefix (spaces (ind + 2)) (spaces ind ++ lit "- ") text)
           (dashObject ind ls).
Proof.
  intros H. destruct ls as [|[k c] rest];
    [exfalso; exact (Rendered_nonempty _ _ H eq_refl)|].
  pose proof (Rendered_head_clean _ _ _ _ H) as Hc.
  destruct (Rendered_first _ _ _ _ H) as (tail & -> & Hre).
  unfold replacePrefix, dashObject.
  destruct (Nat.leb_spec (ind + 2) k) as [Hle|Hgt].
  - rewrite startsWith_spaces_le by exact Hle.
    rewrite length_spaces, skipn_spaces by exact Hle.
    replace ((spaces ind ++ lit "- ") ++ spaces (k - (ind + 2)) ++ c ++ tail)
      with (spaces ind ++ (lit "- " ++ spaces (k - (ind + 2)) ++ c) ++ tail)
      by (rewrite <- !app_assoc; reflexivity).
    apply Hre, clean_dash, Hc.
  - rewrite startsWith_spaces_gt; [exact H | exact Hgt |].
    apply startsClean_app. apply clean_parts in Hc. tauto.
Qed.

Lemma Rendered_dashLine (ind : nat) (text : str) (ls : list (nat * str)) :
  Rendered text ls ->
  Rendered (spaces ind ++ lit "- " ++ text) (dashLine ind ls).
Proof.
  intros H. destruct ls as [|[k c] rest];
    [exfalso; exact (Rendered_nonempty _ _ H eq_refl)|].
  pose proof (Rendered_head_clean _ _ _ _ H) as Hc.
  destruct (Rendered_first _ _ _ _ H) as (tail & -> & Hre).
  unfold dashLine.
  replace (spaces ind ++ lit "- " ++ spaces k ++ c ++ tail)
    with (spaces ind ++ (lit "- " ++ spaces k ++ c) ++ tail)
    by (rewrite <- !app_assoc; reflexivity).
  apply Hre, clean_dash, Hc.
Qed.

Lemma Rendered_single (k : nat) (c : str) :
  clean c = true -> Rendered (spaces k ++ c) [(k, c)].
Proof.
  intros H. pose proof (Rendered_one k c 0 H) as R.
  cbn [spaces repeat] in R. rewrite app_nil_r in R. exact R.
Qed.

Lemma Rendered_scalar (c : str) : clean c = true -> Rendered c [(O, c)].
Proof. intros H. exact (Rendered_single 0 c H). Qed.

Lemma Forall2_map_both {A B C} (R : B -> C -> Prop) (f : A -> B) (g : A -> C)
      (l : list A) :
  Forall (fun x => R (f x) (g x)) l -> Forall2 R (map f l) (map g l).
Proof. induction 1; constructor; auto. Qed.

Lemma Rendered_item (n : nat) (item : Value) :
  (forall m, Rendered (toToon item m) (toonLines item m)) ->
  Rendered (toToonItem n item) (itemLines n item).
Proof.
  intros IH. unfold toToonItem, itemLines. rewrite !repeatStr_spaces.
  replace (2 * S n)%nat with (2 * n + 2)%nat by lia.
  destruct item; try (apply Rendered_dashLine, IH).
  apply Rendered_replacePrefix, IH.
Qed.

Lemma Rendered_field (n : nat) (key : str) (value : Value) :
  (forall m, Rendered (toToon value m) (toonLines value m)) ->
  Rendered (toToonField n (key, value)) (fieldLines n (key, value)).
Proof.
  intros IH. unfold toToonField, fieldLines. rewrite repeatStr_spaces.
  set (k := (2 * n)%nat).
  assert (One : forall c, clean c = true ->
                Rendered (spaces k ++ formattedKey key ++ lit ": " ++ c ++ lit " ")
                         [(k, formattedKey key ++ lit ": " ++ c)]).
  { intros c Hc.
    replace (spaces k ++ formattedKey key ++ lit ": " ++ c ++ lit " ")
      with (spaces k ++ (formattedKey key ++ lit ": " ++ c) ++ spaces 1)
      by (rewrite <- !app_assoc; reflexivity).
    apply Rendered_one, clean_key_content.
    - apply clean_parts in Hc. apply endsClean_app. tauto.
    - apply clean_parts in Hc. rewrite notLF_app. cbn [lit]. 
      destruct Hc as (_ & _ & L). rewrite L. reflexivity. }
  destruct value as [| b | x | s | vitems | vfields];
    try (apply One, scalar_clean; reflexivity).
  - destruct (isSimple vitems) eqn:Hs.
    + destruct vitems as [|v0 vitems].
      * replace (spaces k ++ formattedKey key ++ lengthSuffix [] ++ lit ": []")
          with (spaces k ++ (formattedKey key ++ lengthSuffix [] ++ lit ": []"))
          by reflexivity.
        apply Rendered_single, clean_key_content; reflexivity.
      * replace (spaces k ++ formattedKey key ++ lengthSuffix (v0 :: vitems)
                 ++ lit ": " ++ toToon (VArr (v0 :: vitems)) 0 ++ lit " ")
          with (spaces k ++ (formattedKey key ++ lengthSuffix (v0 :: vitems)
                             ++ lit ": " ++ toToon (VArr (v0 :: vitems)) 0)
                ++ spaces 1)
          by (rewrite <- !app_assoc; reflexivity).
        assert (Hc : clean (toToon (VArr (v0 :: vitems)) 0) = true).
        { rewrite toToon_simple by (auto; discriminate).
          apply simple_text_clean; [discriminate | exact Hs]. }
        apply clean_parts in Hc. destruct Hc as (_ & E & L).
        apply Rendered_one, clean_key_content.
        -- apply endsClean_app, endsClean_app, E.
        -- rewrite !notLF_app, lengthSuffix_notLF, L. reflexivity.
    + destruct vitems as [|v0 vitems]; [discriminate Hs|].
      replace (spaces k ++ formattedKey key ++ lengthSuffix (v0 :: vitems)
               ++ lit ":" ++ [LF] ++ toToon (VArr (v0 :: vitems)) (S n))
        with ((spaces k ++ formattedKey key ++ lengthSuffix (v0 :: vitems)
               ++ lit ":") ++ LF :: toToon (VArr (v0 :: vitems)) (S n))
        by (rewrite <- !app_assoc; reflexivity).
      apply (Rendered_app _ _ [_]); [|apply IH].
      apply Rendered_single, clean_key_content.
      * apply endsClean_app. reflexivity.
      * rewrite notLF_app, lengthSuffix_notLF. reflexivity.
  - destruct vfields as [|f0 vfields].
    + replace (spaces k ++ formattedKey key ++ lit ": { } ")
        with (spaces k ++ (formattedKey key ++ lit ": { }") ++ spaces 1)
        by (rewrite <- !app_assoc; reflexivity).
      apply Rendered_one, clean_key_content; reflexivity.
    + replace (spaces k ++ formattedKey key ++ lit ": " ++ [LF]
               ++ toToon (VObj (f0 :: vfields)) (S n) ++ lit " ")
        with ((spaces k ++ (formattedKey key ++ lit ":") ++ spaces 1)
              ++ LF :: (toToon (VObj (f0 :: vfields)) (S n) ++ lit " "))
        by (rewrite <- !app_assoc; reflexivity).
      apply (Rendered_app _ _ [_]); [|apply Rendered_trailing, IH].
      apply Rendered_one, clean_key_content; reflexivity.
Qed.

(** The lines of the serializer: [toToon data n] is a rendering of
    [toonLines data n]. *)
Lemma toToon_rendered (data : Value) :
  forall n, Rendered (toToon data n) (toonLines data n).
Proof.
  induction data as [| b | x | s | items IH | fields IH] using Value_nested_ind;
    intros n; try (apply Rendered_scalar, scalar_clean; reflexivity).
  - destruct (isSimple items) eqn:Hs.
    + cbn [toonLines]. rewrite Hs. apply Rendered_scalar.
      destruct items as [|v0 items]; [reflexivity|].
      rewrite toToon_simple by (auto; discriminate).
      apply simple_text_clean; [discriminate | exact Hs].
    + rewrite toToon_complex, toonLines_complex by exact Hs.
      rewrite flat_map_concat_map. apply Rendered_join.
      * apply Forall2_map_both. revert IH. apply Forall_impl.
        intros item Hi. apply Rendered_item, Hi.
      * destruct items; discriminate.
  - destruct fields as [|f0 fields]; [apply Rendered_scalar; reflexivity|].
    rewrite toToon_object, toonLines_object by discriminate.
    rewrite flat_map_concat_map. apply Rendered_join; [|discriminate].
    apply Forall2_map_both. revert IH. apply Forall_impl.
    intros [key value] Hi. apply Rendered_field, Hi.
Qed.

(** ** The validator on the serializer's output *)

Definition lineOk (l : nat * str) : bool :=
  let '(k, c) := l in Nat.even k && lineShape c.

Lemma validateToon_rendered (text : str) (ls : list (nat * str)) :
  Rendered text ls -> validateToon text = forallb lineOk ls.
Proof.
  assert (Step : forall k c t rest,
             clean c = true ->
             validateToon_lines ((spaces k ++ c ++ spaces t) :: rest)
             = lineOk (k, c) && validateToon_lines rest).
  { intros k c t rest Hc. rewrite validateToon_lines_cons.
    pose proof (lexLine_line k t c Hc) as E. unfold lexLine in E.
    injection E as E1 E2. rewrite E1, E2, rem2_even, str_eqb_nil.
    destruct c as [|x c]; [discriminate Hc|].
    destruct (Z.eqb_spec (Z.of_nat k) (-1)); [lia|].
    cbn [lineOk]. destruct (Nat.even k), (lineShape (x :: c)); reflexivity. }
  unfold validateToon.
  induction 1 as [k c t Hc | k c t text ls Hc _ IH].
  - rewrite splitLines_notLF by (apply notLF_line, Hc).
    rewrite Step by exact Hc. reflexivity.
  - replace (spaces k ++ c ++ spaces t ++ LF :: text)
      with ((spaces k ++ c ++ spaces t) ++ LF :: text)
      by (rewrite <- !app_assoc; reflexivity).
    rewrite splitLines_app_LF by (apply notLF_line, Hc).
    rewrite Step by exact Hc. rewrite IH. reflexivity.
Qed.

(** A value that [toToon] writes as a block of lines: a non-empty object, or
    an array with an element that is an array or an object. *)
Definition isBlock (v : Value) : bool :=
  match v with
  | VObj (_ :: _) => true
  | VArr items => negb (isSimple items)
  | _ => false
  end.

Definition isEmptyObject (v : Value) : bool :=
  match v with VObj [] => true | _ => false end.

(** No array, at any depth, has the empty object as an element. *)
Fixpoint noEmptyObjectItem (v : Value) : bool :=
  match v with
  | VArr items =>
      forallb (fun item => negb (isEmptyObject item) && noEmptyObjectItem item) items
  | VObj fields => forallb (fun '(_, w) => noEmptyObjectItem w) fields
  | _ => true
  end.

Lemma includes_app (c : ascii) (a b : str) :
  includes c (a ++ b) = includes c a || includes c b.
Proof. apply existsb_app. Qed.

Lemma lineOk_key (n : nat) (key b : str) :
  includes ":" b = true -> lineOk ((2 * n)%nat, formattedKey key ++ b) = true.
Proof.
  intros H. cbn [lineOk]. unfold lineShape.
  rewrite includes_app, H, Nat.even_even, !orb_true_r. reflexivity.
Qed.

Lemma includes_suffix (c : ascii) (a b : str) :
  includes c b = true -> includes c (a ++ b) = true.
Proof. intros H. rewrite includes_app, H. apply orb_true_r. Qed.

Lemma dashObject_ok (n : nat) (ls : list (nat * str)) :
  forallb lineOk ls = true -> forallb lineOk (dashObject (2 * n) ls) = true.
Proof.
  destruct ls as [|[k c] rest]; [auto|]. unfold dashObject.
  destruct (2 * n + 2 <=? k)%nat; [|auto].
  cbn [forallb lineOk]. intros H. apply andb_true_iff in H. destruct H as [_ H].
  rewrite H, Nat.even_even. reflexivity.
Qed.

Lemma dashLine_ok (n : nat) (ls : list (nat * str)) :
  forallb lineOk (tl ls) = true -> forallb lineOk (dashLine (2 * n) ls) = true.
Proof.
  destruct ls as [|[k c] rest]; [auto|]. cbn [tl dashLine forallb lineOk].
  intros H. rewrite H, Nat.even_even. reflexivity.
Qed.

Lemma forallb_flat_map {A B} (p : B -> bool) (f : A -> list B) (l : list A) :
  (forall x, In x l -> forallb p (f x) = true) ->
  forallb p (flat_map f l) = true.
Proof.
  induction l as [|x l IH]; intros H; [reflexivity|].
  cbn [flat_map]. rewrite forallb_app, H, IH; auto using in_eq, in_cons.
Qed.

Lemma toonLines_ok (v : Value) :
  noEmptyObjectItem v = true ->
  forall n, forallb lineOk (tl (toonLines v n)) = true
            /\ (isBlock v = true -> forallb lineOk (toonLines v n) = true).
Proof.
  induction v as [| b | x | s | items IH | fields IH] using Value_nested_ind;
    intros Hv n; try (split; [reflexivity | discriminate]).
  - destruct (isSimple items) eqn:Hs.
    + cbn [toonLines isBlock]. rewrite Hs. split; [reflexivity | discriminate].
    + assert (All : forallb lineOk (toonLines (VArr items) n) = true).
      { rewrite toonLines_complex by exact Hs.
        apply forallb_flat_map. intros item Hin.
        cbn [noEmptyObjectItem] in Hv. rewrite forallb_forall in Hv.
        specialize (Hv item Hin). apply andb_true_iff in Hv.
        destruct Hv as [Hne Hi]. rewrite Forall_forall in IH.
        specialize (IH item Hin Hi). unfold itemLines.
        destruct item as [| b | x | s | items' | fields'];
          try (apply dashLine_ok, IH).
        apply dashObject_ok.
        destruct fields' as [|f0 fields']; [discriminate Hne|].
        apply (IH (S n)). reflexivity. }
      split; [|intros _; exact All].
      destruct (toonLines (VArr items) n) as [|l ls]; [reflexivity|].
      cbn [forallb] in All. apply andb_true_iff in All. apply All.
  - destruct fields as [|f0 fields]; [split; [reflexivity | discriminate]|].
    assert (All : forallb lineOk (toonLines (VObj (f0 :: fields)) n) = true).
    { rewrite toonLines_object by discriminate.
      apply forallb_flat_map. intros [key value] Hin.
      cbn [noEmptyObjectItem] in Hv. rewrite forallb_forall in Hv.
      specialize (Hv (key, value) Hin). cbn beta iota in Hv.
      rewrite Forall_forall in IH. specialize (IH (key, value) Hin Hv).
      cbn [snd] in IH. unfold fieldLines.
      destruct value as [| b | x | s | vitems | vfields];
        try (cbn [forallb]; rewrite lineOk_key by reflexivity; reflexivity).
      - destruct (isSimple vitems) eqn:Hs.
        + destruct vitems; cbn [forallb];
            (rewrite lineOk_key by (apply includes_suffix; reflexivity));
            reflexivity.
        + cbn [forallb].
          rewrite lineOk_key by (apply includes_suffix; reflexivity).
          apply (IH (S n)). cbn [isBlock]. rewrite Hs. reflexivity.
      - destruct vfields as [|g0 vfields].
        + cbn [forallb]. rewrite lineOk_key by reflexivity. reflexivity.
        + cbn [forallb]. rewrite lineOk_key by reflexivity.
          apply (IH (S n)). reflexivity. }
    split; [|intros _; exact All].
    destruct (toonLines (VObj (f0 :: fields)) n) as [|l ls]; [reflexivity|].
    cbn [forallb] in All. apply andb_true_iff in All. apply All.
Qed.

(** C3, as stated, fails: the serializer writes the value null as the one
    line [null], which has neither a leading dash nor a colon, and the
    validator rejects it. *)
Lemma validateToon_rejects_scalar : validateToon (toToon VNull 0) = false.
Proof. reflexivity. Qed.

(** C3, amended: for every value that is a non-empty object or an array
    with an array or object among its elements, and in which no array has
    the empty object as an element, the validator accepts the text that
    [toToon] produces. *)
Theorem validateToon_toToon (v : Value) :
  isBlock v = true -> noEmptyObjectItem v = true ->
  validateToon (toToon v 0) = true.
Proof.
  intros Hb Hv. rewrite (validateToon_rendered _ _ (toToon_rendered v 0)).
  apply (toonLines_ok v Hv 0), Hb.
Qed.

Lemma validateToon_toToon_witness :
  isBlock exampleValue = true /\ noEmptyObjectItem exampleValue = true
  /\ validateToon (toToon exampleValue 0) = true.
Proof.
  split; [reflexivity|]. split; [reflexivity|].
  apply validateToon_toToon; reflexivity.
Defined.

(** ** More on strings *)



Lemma indexOf_nonneg_or (c : ascii) (s : str) : indexOf c s = -1 \/ 0 <= indexOf c s.
Proof.
  induction s as [|x s IH]; [left; reflexivity|]. cbn [indexOf].
  destruct (Ascii.eqb c x); [right; lia|].
  destruct (Z.ltb_spec (indexOf c s) 0); [left; reflexivity | right; lia].
Qed.

Lemma indexOf_absent (c : ascii) (s : str) : includes c s = false -> indexOf c s = -1.
Proof.
  induction s as [|x s IH]; [reflexivity|]. cbn [includes existsb indexOf].
  destruct (Ascii.eqb c x); [discriminate|]. cbn [orb]. intros H.
  unfold includes in IH. rewrite (IH H). reflexivity.
Qed.

Lemma indexOf_app_found (c : ascii) (a b : str) :
  includes c a = false -> indexOf c (a ++ c :: b) = len a.
Proof.
  induction a as [|x a IH]; intros H.
  - cbn [app indexOf]. rewrite Ascii.eqb_refl. reflexivity.
  - cbn [includes existsb] in H. apply orb_false_iff in H. destruct H as [Hx Ha].
    cbn [app indexOf]. rewrite Hx. unfold includes in IH. rewrite (IH Ha).
    pose proof (len_nonneg a). destruct (Z.ltb_spec (len a) 0); [lia|].
    unfold len. cbn [length]. lia.
Qed.

Lemma substring_prefix (a b : str) : substring 0 (len a) (a ++ b) = a.
Proof. exact (substring_mid [] a b). Qed.

Lemma substringFrom_suffix (a b : str) : substringFrom (len a) (a ++ b) = b.
Proof.
  unfold substringFrom. rewrite len_app.
  pose proof (substring_mid a b []) as H. rewrite app_nil_r in H. exact H.
Qed.

Lemma substringFrom_after (a b : str) (c : ascii) :
  substringFrom (len a + 1) (a ++ c :: b) = b.
Proof.
  pose proof (substringFrom_suffix (a ++ [c]) b) as H.
  rewrite len_app in H. rewrite <- app_assoc in H. exact H.
Qed.

Lemma stripLengthSuffix_annotated (key ds : str) :
  ds <> [] -> forallb isDigit ds = true ->
  stripLengthSuffix (key ++ lit "[" ++ ds ++ lit "]") = key.
Proof.
  intros Hne Hd. unfold stripLengthSuffix.
  rewrite !rev_app_distr. cbn [lit list_ascii_of_string rev app].
  rewrite <- app_assoc. cbn [app]. eval_eqb. cbv iota.
  rewrite spanDigits_app; [| rewrite forallb_rev; exact Hd | reflexivity].
  destruct (rev ds) as [|d r] eqn:E.
  - apply (f_equal (@rev ascii)) in E. rewrite rev_involutive in E.
    cbn [rev] in E. congruence.
  - eval_eqb. cbv iota. apply rev_involutive.
Qed.

Lemma lengthSuffix_annotation (items : list Value) :
  exists ds, ds <> [] /\ forallb isDigit ds = true
             /\ lengthSuffix items = lit "[" ++ ds ++ lit "]".
Proof.
  exists (decimal (Z.of_nat (length items))). split; [apply decimal_nonempty|].
  split; [apply decimal_digits; lia | reflexivity].
Qed.

Lemma stripLengthSuffix_plain (key : str) :
  endsWith (lit "]") key = false -> stripLengthSuffix key = key.
Proof.
  unfold endsWith, stripLengthSuffix. cbn [lit list_ascii_of_string rev app].
  destruct (rev key) as [|c r]; [reflexivity|]. cbn [startsWith].
  rewrite andb_true_r. rewrite Ascii.eqb_sym. intros ->. reflexivity.
Qed.

(** ** The loop of the parser *)

Definition nextIsArray (L : list (Z * str)) (i : nat) (indent : Z) : bool :=
  match nth_error L (S i) with
  | Some (k, c) => (indent <=? k) && startsWith (lit "- ") c
  | None => false
  end.

Lemma peekNextArray_lex (lines : list str) (i : nat) (indent : Z) :
  peekNextArray lines i indent = nextIsArray (map lexLine lines) i indent.
Proof.
  unfold peekNextArray, nextIsArray. rewrite nth_error_map.
  destruct (nth_error lines (S i)); reflexivity.
Qed.

Lemma processValue_ext (st : pstate) (container : ref) (key valueStr : str)
      (indent : Z) (lines lines' : list str) (i i' : nat) :
  peekNextArray lines i indent = peekNextArray lines' i' indent ->
  processValue st container key valueStr indent lines i
  = processValue st container key valueStr indent lines' i'.
Proof. intros H. unfold processValue. rewrite H. reflexivity. Qed.

Lemma processContent_ext (lines lines' : list str) (i : nat) (k : Z) (c : str)
      (st : pstate) :
  (forall indent, peekNextArray lines i indent = peekNextArray lines' i indent) ->
  processContent lines i k c st = processContent lines' i k c st.
Proof.
  intros H. unfold processContent.
  destruct (startsWith (lit "- ") c).
  - destruct (str_eqb (trim (substringFrom 2 c)) []); [reflexivity|].
    match goal with |- (if ?b then _ else _) = _ => destruct b end;
      [|reflexivity].
    match goal with |- bind ?x _ = _ => destruct x as [[root2 r]| |] end;
      try reflexivity.
    cbn [bind]. apply processValue_ext, H.
  - destruct (indexOf ":" c =? -1); [reflexivity|].
    match goal with |- bind ?x _ = _ => destruct x as [finalKey| |] end;
      try reflexivity.
    cbn [bind]. apply processValue_ext, H.
Qed.

Lemma convertLoop_congr (lines lines' todo todo' : list str) :
  Forall2 (fun l l' => forall i st,
             processLine lines i l st = processLine lines' i l' st) todo todo' ->
  forall i st, convertLoop lines todo i st = convertLoop lines' todo' i st.
Proof.
  induction 1 as [|l l' todo todo' Hl _ IH]; intros i st; [reflexivity|].
  cbn [convertLoop]. rewrite Hl.
  destruct (processLine lines' i l' st); cbn [bind]; auto.
Qed.

Lemma popFrames_ext (root : Value) (stack : list frame) (k : Z) (c c' : str) :
  startsWith (lit "- ") c = startsWith (lit "- ") c' ->
  popFrames root stack k c = popFrames root stack k c'.
Proof.
  intros H. induction stack as [|f stack IH]; [reflexivity|].
  cbn [popFrames]. rewrite H, IH. reflexivity.
Qed.

(** [finalKey] of a field line. *)
Definition decodeKey (cleanKey : str) : outcome str :=
  if startsWith [DQUOTE] cleanKey && endsWith [DQUOTE] cleanKey then
    match JSON_parse cleanKey with
    | Ok (VStr k) => Ok k
    | Ok _ => Unmodelled
    | Throw m => Throw m
    | Unmodelled => Unmodelled
    end
  else Ok cleanKey.

(** The effect of a field line with the given clean key and value text. *)
Definition fieldStep (lines : list str) (i : nat) (k : Z)
           (cleanKey valueStr : str) (st : pstate) : outcome pstate :=
  let stack1 := popFrames (root st) (stack st) k [] in
  let* finalKey := decodeKey cleanKey in
  processValue {| root := root st; stack := stack1 |} (obj (top stack1))
               finalKey valueStr k lines i.

Lemma processContent_field (lines : list str) (i : nat) (k : Z)
      (keyText after : str) (st : pstate) :
  includes ":" keyText = false ->
  startsWith (lit "- ") (keyText ++ lit ":" ++ after) = false ->
  processContent lines i k (keyText ++ lit ":" ++ after) st
  = fieldStep lines i k (stripLengthSuffix (trim keyText)) (trim after) st.
Proof.
  intros Hk Hd. unfold processContent, fieldStep. rewrite Hd.
  cbn [lit list_ascii_of_string app].
  rewrite indexOf_app_found by exact Hk.
  pose proof (len_nonneg keyText).
  destruct (Z.eqb_spec (len keyText) (-1)); [lia|].
  rewrite substring_prefix, substringFrom_after.
  rewrite (popFrames_ext _ _ _ (keyText ++ ":"%char :: after) []) by exact Hd.
  reflexivity.
Qed.

(** ** Length annotations *)


(** A key text without white space and without colon. *)
Definition plainKey (key : str) : bool :=
  forallb (fun c => negb (isSpace c) && negb (Ascii.eqb ":" c)) key.

Definition annotation (N : nat) : str :=
  lit "[" ++ decimal (Z.of_nat N) ++ lit "]".


Lemma plainKey_annotation (key : str) (N : nat) :
  plainKey key = true -> plainKey (key ++ annotation N) = true.
Proof.
  intros H. unfold plainKey, annotation in *.
  assert (D : forallb (fun c => negb (isSpace c) && negb (Ascii.eqb ":" c))
                      (decimal (Z.of_nat N)) = true).
  { generalize (decimal_digits (Z.of_nat N) ltac:(lia)).
    apply forallb_impl. intros c Hc.
    destruct (tokenChar_facts c (digit_token c Hc)) as (S & _ & _ & C & _).
    rewrite S, Ascii.eqb_sym, C. reflexivity. }
  rewrite !forallb_app, H, D. reflexivity.
Qed.

Lemma plainKey_clean (s : str) : s <> [] -> plainKey s = true -> clean s = true.
Proof.
  intros Hne H.
  assert (Hr : plainKey (rev s) = true) by (unfold plainKey; rewrite forallb_rev; exact H).
  assert (Hsp : forall x, plainKey x = true ->
                forallb (fun c => negb (isSpace c)) x = true).
  { intros x. apply forallb_impl. intros c Hc. apply andb_true_iff in Hc. tauto. }
  unfold clean, endsClean, startsClean.
  destruct s as [|c s]; [congruence|].
  destruct (rev (c :: s)) as [|d r] eqn:Er.
  { apply (f_equal (@length ascii)) in Er. rewrite length_rev in Er. discriminate. }
  pose proof (Hsp _ H) as H1. pose proof (Hsp _ Hr) as H2.
  cbn [forallb] in H1, H2. apply andb_true_iff in H1, H2.
  destruct H1 as [Hc Hs], H2 as [Hd _]. rewrite Hc, Hd. cbn [andb].
  unfold notLF. revert H. apply forallb_impl. intros x Hx.
  apply andb_true_iff in Hx. destruct Hx as [Hx _].
  destruct (Ascii.eqb_spec x LF) as [->|]; [discriminate Hx | reflexivity].
Qed.

Lemma plainKey_no_colon (s : str) : plainKey s = true -> includes ":" s = false.
Proof.
  induction s as [|c s IH]; [reflexivity|]. cbn [plainKey forallb includes existsb].
  intros H. apply andb_true_iff in H. destruct H as [Hc Hs].
  apply andb_true_iff in Hc. destruct Hc as [_ Hc]. apply negb_true_iff in Hc.
  rewrite Hc. exact (IH Hs).
Qed.



Section Annotated.

Variables (indentation key rest : str) (N : nat).
Hypothesis indentation_ws : forallb isSpace indentation = true.
Hypothesis key_plain : plainKey key = true.





End Annotated.

Lemma splitLines_join (ls : list str) :
  ls <> [] -> Forall (fun l => notLF l = true) ls ->
  splitLines (join [LF] ls) = ls.
Proof.
  intros Hne H. induction H as [|l ls Hl Hls IH]; [congruence|].
  destruct ls as [|l' ls].
  - cbn [join]. apply splitLines_notLF, Hl.
  - change (join [LF] (l :: l' :: ls)) with (l ++ LF :: join [LF] (l' :: ls)).
    rewrite splitLines_app_LF by exact Hl. rewrite IH by discriminate.
    reflexivity.
Qed.



Lemma Forall2_refl {A} (R : A -> A -> Prop) (l : list A) :
  (forall x, R x x) -> Forall2 R l l.
Proof. intros H. induction l; constructor; auto. Qed.

Section AnnotatedText.

Variables (before after : list str) (indentation key rest : str) (N M : nat).
Hypothesis indentation_ws : forallb isSpace indentation = true.
Hypothesis key_plain : plainKey key = true.


End AnnotatedText.

(** ** splitByComma on the cells of an inline array *)

(** The character before the next one, after the text [x] was read. *)
Definition lastOf (prev : option ascii) (x : str) : option ascii :=
  match rev x with c :: _ => Some c | [] => prev end.

Lemma lastOf_app (prev : option ascii) (a b : str) :
  lastOf (lastOf prev a) b = lastOf prev (a ++ b).
Proof.
  unfold lastOf. rewrite rev_app_distr.
  destruct (rev b); [destruct (rev a)|]; reflexivity.
Qed.

Lemma lastOf_snoc (prev : option ascii) (a : str) (c : ascii) :
  lastOf prev (a ++ [c]) = Some c.
Proof. unfold lastOf. rewrite rev_app_distr. reflexivity. Qed.

Lemma splitByComma_token (x rest : str) (prev : option ascii)
      (result : list str) (current : str) (quoteChar : str) :
  forallb isTokenChar x = true ->
  splitByComma_loop (x ++ rest) prev result current false quoteChar
  = splitByComma_loop rest (lastOf prev x) result (current ++ x) false quoteChar.
Proof.
  revert prev current. induction x as [|c x IH]; intros prev current H.
  - rewrite app_nil_r. reflexivity.
  - cbn [forallb] in H. apply andb_true_iff in H. destruct H as [Hc Hx].
    destruct (tokenChar_facts c Hc) as (_ & _ & Hcomma & _ & Hq & _).
    cbn [app splitByComma_loop]. rewrite Hq, Hcomma. cbn [andb].
    rewrite (IH _ _ Hx).
    replace (lastOf (Some c) x) with (lastOf prev (c :: x))
      by (change (c :: x) with ([c] ++ x); rewrite <- lastOf_app; reflexivity).
    rewrite <- app_assoc. reflexivity.
Qed.

Lemma splitByComma_quoteChar (c : ascii) (rest : str) (prev : option ascii)
      (result : list str) (current : str) :
  splitByComma_loop (quoteChar c ++ rest) prev result current true [DQUOTE]
  = splitByComma_loop rest (lastOf prev (quoteChar c)) result
                      (current ++ quoteChar c) true [DQUOTE].
Proof.
  assert (A2 : forall a b : ascii, current ++ [a; b] = (current ++ [a]) ++ [b])
    by (intros; rewrite <- app_assoc; reflexivity).
  assert (A6 : forall a b c d e f : ascii,
             current ++ [a; b; c; d; e; f]
             = ((((((current ++ [a]) ++ [b]) ++ [c]) ++ [d]) ++ [e]) ++ [f]))
    by (intros; rewrite <- !app_assoc; reflexivity).
  destruct c as [[] [] [] [] [] [] [] []];
    try (cbn; rewrite ?A2, ?A6; reflexivity).
  cbn. destruct prev as [p|]; [destruct (negb (Ascii.eqb p BSLASH))|];
    reflexivity.
Qed.

Lemma splitByComma_quoted_body (s rest : str) (prev : option ascii)
      (result : list str) (current : str) :
  splitByComma_loop (flat_map quoteChar s ++ rest) prev result current true
                    [DQUOTE]
  = splitByComma_loop rest (lastOf prev (flat_map quoteChar s)) result
                      (current ++ flat_map quoteChar s) true [DQUOTE].
Proof.
  revert prev current. induction s as [|c s IH]; intros prev current.
  - cbn [flat_map app]. rewrite app_nil_r. reflexivity.
  - cbn [flat_map]. rewrite <- app_assoc, splitByComma_quoteChar, IH.
    rewrite lastOf_app, <- app_assoc. reflexivity.
Qed.

Lemma quoteChar_last (c : ascii) :
  Ascii.eqb c BSLASH = false -> forall prev,
  lastOf prev (quoteChar c) <> Some BSLASH.
Proof.
  destruct c as [[] [] [] [] [] [] [] []]; intros H prev;
    try discriminate H; vm_compute; discriminate.
Qed.

Lemma quoted_body_last (s : str) :
  endsWith [BSLASH] s = false ->
  lastOf (Some DQUOTE) (flat_map quoteChar s) <> Some BSLASH.
Proof.
  intros H. destruct (rev s) as [|c r] eqn:E.
  - apply (f_equal (@rev ascii)) in E. rewrite rev_involutive in E.
    cbn [rev] in E. subst s. vm_compute. discriminate.
  - apply (f_equal (@rev ascii)) in E. rewrite rev_involutive in E.
    cbn [rev] in E. subst s.
    unfold endsWith in H. rewrite rev_app_distr in H. cbn [rev app startsWith] in H.
    rewrite andb_true_r, Ascii.eqb_sym in H.
    rewrite flat_map_app. cbn [flat_map]. rewrite app_nil_r.
    rewrite <- lastOf_app. apply quoteChar_last, H.
Qed.

(** A cell of an inline array: a token, or the quoted form of a string that
    does not end in a backslash. *)
Definition isCell (x : str) : Prop :=
  isToken x = true
  \/ exists s, x = quoteJSONString s /\ endsWith [BSLASH] s = false.

Lemma cell_clean (x : str) : isCell x -> clean x = true.
Proof.
  intros [H | (s & -> & _)]; [apply token_clean, H | apply quoted_clean].
Qed.

Lemma splitByComma_cell (x rest : str) (prev : option ascii)
      (result : list str) (qc : str) :
  isCell x -> prev <> Some BSLASH ->
  exists prev' qc',
    splitByComma_loop (x ++ rest) prev result [] false qc
    = splitByComma_loop rest prev' result x false qc'.
Proof.
  intros [H | (s & -> & Hs)] Hp.
  - apply isToken_parts in H. destruct H as [_ H].
    exists (lastOf prev x), qc.
    rewrite splitByComma_token by exact H. reflexivity.
  - exists (Some DQUOTE), [DQUOTE]. unfold quoteJSONString.
    cbn [app splitByComma_loop].
    change (isQuoteChar DQUOTE) with true.
    replace (match prev with
             | Some b => negb (Ascii.eqb b BSLASH)
             | None => true
             end) with true.
    2:{ destruct prev as [p|]; [|reflexivity].
        destruct (Ascii.eqb_spec p BSLASH) as [->|]; [congruence | reflexivity]. }
    cbn [andb negb]. eval_eqb. cbn [andb].
    rewrite <- app_assoc, splitByComma_quoted_body.
    cbn [app splitByComma_loop].
    change (isQuoteChar DQUOTE) with true.
    pose proof (quoted_body_last s Hs) as L.
    destruct (lastOf (Some DQUOTE) (flat_map quoteChar s)) as [p|] eqn:E.
    + destruct (Ascii.eqb_spec p BSLASH) as [->|]; [congruence|].
      cbn [negb andb str_eqb]. eval_eqb. cbn [andb].
      rewrite <- ?app_assoc. reflexivity.
    + cbn [negb andb str_eqb]. eval_eqb. cbn [andb].
      rewrite <- ?app_assoc. reflexivity.
Qed.

Lemma splitByComma_cells (xs : list str) :
  xs <> [] -> Forall isCell xs ->
  forall prev result qc, prev <> Some BSLASH ->
  splitByComma_loop (join (lit ",") xs) prev result [] false qc
  = result ++ xs.
Proof.
  intros Hne H. induction H as [|x xs Hx Hxs IH]; [congruence|].
  intros prev result qc Hp. destruct xs as [|y xs].
  - cbn [join]. rewrite <- (app_nil_r x) at 1.
    destruct (splitByComma_cell x [] prev result qc Hx Hp) as (p & q & E).
    rewrite E. cbn [splitByComma_loop]. rewrite trim_clean by (apply cell_clean, Hx).
    reflexivity.
  - change (join (lit ",") (x :: y :: xs))
      with (x ++ ","%char :: join (lit ",") (y :: xs)).
    destruct (splitByComma_cell x (","%char :: join (lit ",") (y :: xs)) prev result
                                qc Hx Hp) as (p & q & E).
    rewrite E. cbn [splitByComma_loop].
    change (isQuoteChar ",") with false. eval_eqb. cbn [andb negb].
    rewrite trim_clean by (apply cell_clean, Hx).
    rewrite IH by (discriminate || exact Hxs).
    rewrite <- app_assoc. reflexivity.
Qed.

Lemma splitByComma_join (xs : list str) :
  xs <> [] -> Forall isCell xs -> splitByComma (join (lit ",") xs) = xs.
Proof.
  intros Hne H. unfold splitByComma.
  rewrite splitByComma_cells by (auto; discriminate). reflexivity.
Qed.

(** ** The store *)

Definition setAt (root : Value) (p : list step) (v : Value) : Value :=
  updateAt root p (fun _ => v).

Lemma getKey_mapKey (g : Value -> Value) (fields : list (str * Value)) (k : str) :
  getKey (mapKey g fields k) k = option_map g (getKey fields k).
Proof.
  induction fields as [|[k' w] fields IH]; [reflexivity|].
  cbn [mapKey getKey]. destruct (str_eqb k' k) eqn:E; cbn [getKey]; rewrite E.
  - reflexivity.
  - exact IH.
Qed.

Lemma nth_error_mapNth (g : Value -> Value) (items : list Value) (i : nat) :
  nth_error (mapNth g items i) i = option_map g (nth_error items i).
Proof.
  revert i. induction items as [|w items IH]; intros [|i]; try reflexivity.
  cbn [mapNth nth_error]. apply IH.
Qed.

Lemma mapKey_mapKey (g h : Value -> Value) (fields : list (str * Value)) (k : str) :
  mapKey h (mapKey g fields k) k = mapKey (fun w => h (g w)) fields k.
Proof.
  induction fields as [|[k' w] fields IH]; [reflexivity|].
  cbn [mapKey]. destruct (str_eqb k' k) eqn:E; cbn [mapKey]; rewrite E.
  - reflexivity.
  - rewrite IH. reflexivity.
Qed.

Lemma mapNth_mapNth (g h : Value -> Value) (items : list Value) (i : nat) :
  mapNth h (mapNth g items i) i = mapNth (fun w => h (g w)) items i.
Proof.
  revert i. induction items as [|w items IH]; intros [|i]; try reflexivity.
  cbn [mapNth]. rewrite IH. reflexivity.
Qed.

Lemma mapKey_ext (g h : Value -> Value) (fields : list (str * Value)) (k : str) :
  (forall w, g w = h w) -> mapKey g fields k = mapKey h fields k.
Proof.
  intros H. induction fields as [|[k' w] fields IH]; [reflexivity|].
  cbn [mapKey]. rewrite H, IH. reflexivity.
Qed.

Lemma mapNth_ext (g h : Value -> Value) (items : list Value) (i : nat) :
  (forall w, g w = h w) -> mapNth g items i = mapNth h items i.
Proof.
  intros H. revert i. induction items as [|w items IH]; intros [|i];
    cbn [mapNth]; try reflexivity; [rewrite H | rewrite IH]; reflexivity.
Qed.

Lemma updateAt_ext (root : Value) (p : list step) (g h : Value -> Value) :
  (forall w, g w = h w) -> updateAt root p g = updateAt root p h.
Proof.
  intros H. revert root. induction p as [|[k|i] p IH]; intros root.
  - exact (H root).
  - destruct root; try reflexivity. cbn [updateAt]. f_equal.
    apply mapKey_ext. intros w. apply IH.
  - destruct root; try reflexivity. cbn [updateAt]. f_equal.
    apply mapNth_ext. intros w. apply IH.
Qed.

Lemma updateAt_updateAt (root : Value) (p : list step) (g h : Value -> Value) :
  updateAt (updateAt root p g) p h = updateAt root p (fun w => h (g w)).
Proof.
  revert root. induction p as [|[k|i] p IH]; intros root.
  - reflexivity.
  - destruct root; try reflexivity. cbn [updateAt]. f_equal.
    rewrite mapKey_mapKey. apply mapKey_ext. intros w. apply IH.
  - destruct root; try reflexivity. cbn [updateAt]. f_equal.
    rewrite mapNth_mapNth. apply mapNth_ext. intros w. apply IH.
Qed.

Lemma updateAt_app (root : Value) (p q : list step) (g : Value -> Value) :
  updateAt root (p ++ q) g = updateAt root p (fun w => updateAt w q g).
Proof.
  revert root. induction p as [|[k|i] p IH]; intros root.
  - reflexivity.
  - destruct root; try reflexivity. cbn [app updateAt]. f_equal.
    apply mapKey_ext. intros w. apply IH.
  - destruct root; try reflexivity. cbn [app updateAt]. f_equal.
    apply mapNth_ext. intros w. apply IH.
Qed.

Lemma getAt_app (root : Value) (p q : list step) :
  getAt root (p ++ q)
  = match getAt root p with Some w => getAt w q | None => None end.
Proof.
  revert root. induction p as [|[k|i] p IH]; intros root.
  - reflexivity.
  - destruct root; try reflexivity. cbn [app getAt].
    destruct (getKey fields k); [apply IH | reflexivity].
  - destruct root; try reflexivity. cbn [app getAt].
    destruct (nth_error items i); [apply IH | reflexivity].
Qed.

Lemma getAt_updateAt (root : Value) (p : list step) (g : Value -> Value) (v : Value) :
  getAt root p = Some v -> getAt (updateAt root p g) p = Some (g v).
Proof.
  revert root. induction p as [|[k|i] p IH]; intros root H.
  - cbn [getAt updateAt] in *. congruence.
  - destruct root; try discriminate H. cbn [getAt updateAt] in *.
    rewrite getKey_mapKey. destruct (getKey fields k); [|discriminate H].
    cbn [option_map]. apply IH, H.
  - destruct root; try discriminate H. cbn [getAt updateAt] in *.
    rewrite nth_error_mapNth. destruct (nth_error items i); [|discriminate H].
    cbn [option_map]. apply IH, H.
Qed.

Lemma getAt_setAt (root : Value) (p : list step) (v w : Value) :
  getAt root p = Some w -> getAt (setAt root p v) p = Some v.
Proof. intros H. unfold setAt. rewrite (getAt_updateAt _ _ _ _ H). reflexivity. Qed.

Lemma setAt_setAt (root : Value) (p : list step) (a b : Value) :
  setAt (setAt root p a) p b = setAt root p b.
Proof. unfold setAt. rewrite updateAt_updateAt. reflexivity. Qed.

Lemma setAt_child (root : Value) (p q : list step) (a b : Value) :
  setAt (setAt root p a) (p ++ q) b = setAt root p (setAt a q b).
Proof.
  unfold setAt. rewrite updateAt_app, updateAt_updateAt. reflexivity.
Qed.

Lemma hasKey_getKey (fields : list (str * Value)) (k : str) :
  hasKey fields k = match getKey fields k with Some _ => true | None => false end.
Proof.
  induction fields as [|[k' w] fields IH]; [reflexivity|].
  cbn [hasKey getKey]. destruct (str_eqb k' k); [reflexivity | exact IH].
Qed.

Lemma mapKey_replaceKey (g : Value -> Value) (fields : list (str * Value))
      (k : str) (v : Value) :
  hasKey fields k = true ->
  mapKey g (replaceKey fields k v) k = replaceKey fields k (g v).
Proof.
  induction fields as [|[k' w] fields IH]; [discriminate|].
  cbn [hasKey replaceKey]. destruct (str_eqb k' k) eqn:E; cbn [orb mapKey];
    rewrite E; [reflexivity|]. intros H. rewrite (IH H). reflexivity.
Qed.

Lemma mapKey_insertIndexKey (g : Value -> Value) (fields : list (str * Value))
      (i : Z) (k : str) (v : Value) :
  hasKey fields k = false ->
  mapKey g (insertIndexKey fields i k v) k = insertIndexKey fields i k (g v).
Proof.
  induction fields as [|[k' w] fields IH]; intros H.
  - cbn [insertIndexKey mapKey]. rewrite str_eqb_refl. reflexivity.
  - cbn [hasKey] in H. apply orb_false_iff in H. destruct H as [E H].
    cbn [insertIndexKey].
    destruct (arrayIndex k') as [j|];
      [destruct (j <? i)|]; cbn [mapKey]; rewrite ?E, ?str_eqb_refl;
      rewrite ?(IH H); reflexivity.
Qed.

Lemma mapKey_append (g : Value -> Value) (fields : list (str * Value))
      (k : str) (v : Value) :
  hasKey fields k = false ->
  mapKey g (fields ++ [(k, v)]) k = fields ++ [(k, g v)].
Proof.
  induction fields as [|[k' w] fields IH]; intros H.
  - cbn [app mapKey]. rewrite str_eqb_refl. reflexivity.
  - cbn [hasKey] in H. apply orb_false_iff in H. destruct H as [E H].
    cbn [app mapKey]. rewrite E, (IH H). reflexivity.
Qed.

Lemma mapKey_objPut (g : Value -> Value) (fields : list (str * Value))
      (k : str) (v : Value) :
  mapKey g (objPut fields k v) k = objPut fields k (g v).
Proof.
  unfold objPut. destruct (hasKey fields k) eqn:H.
  - apply mapKey_replaceKey, H.
  - destruct (arrayIndex k); [apply mapKey_insertIndexKey | apply mapKey_append];
      exact H.
Qed.

Lemma getKey_objPut (fields : list (str * Value)) (k : str) (v : Value) :
  getKey (objPut fields k v) k = Some v.
Proof.
  pose proof (getKey_mapKey (fun _ => v) (objPut fields k v) k) as H.
  rewrite mapKey_objPut in H.
  assert (E : hasKey (objPut fields k v) k = true).
  { unfold objPut. destruct (hasKey fields k) eqn:Hk.
    - clear H. induction fields as [|[k' w] fields IH]; [discriminate|].
      cbn [hasKey replaceKey] in *. destruct (str_eqb k' k) eqn:E;
        cbn [hasKey]; rewrite E; [reflexivity|]. apply IH, Hk.
    - destruct (arrayIndex k) as [i|].
      + clear H Hk. induction fields as [|[k' w] fields IH].
        * cbn [insertIndexKey hasKey]. rewrite str_eqb_refl. reflexivity.
        * cbn [insertIndexKey].
          destruct (arrayIndex k') as [j|]; [destruct (j <? i)|];
            cbn [hasKey]; rewrite ?str_eqb_refl, ?IH, ?orb_true_r; reflexivity.
      + clear H Hk. induction fields as [|[k' w] fields IH].
        * cbn [app hasKey]. rewrite str_eqb_refl. reflexivity.
        * cbn [app hasKey]. rewrite IH, orb_true_r. reflexivity. }
  rewrite hasKey_getKey in E.
  destruct (getKey (objPut fields k v) k) as [x|]; [|discriminate].
  cbn [option_map] in H. congruence.
Qed.

Lemma setAt_key (fields : list (str * Value)) (k : str) (v w : Value) :
  setAt (VObj (objPut fields k v)) [SKey k] w = VObj (objPut fields k w).
Proof. unfold setAt. cbn [updateAt]. rewrite mapKey_objPut. reflexivity. Qed.

Lemma mapNth_snoc (g : Value -> Value) (items : list Value) (v : Value) :
  mapNth g (items ++ [v]) (length items) = items ++ [g v].
Proof.
  induction items as [|x items IH]; [reflexivity|].
  cbn [app length mapNth]. rewrite IH. reflexivity.
Qed.

Lemma setAt_last (items : list Value) (v w : Value) :
  setAt (VArr (items ++ [v])) [SIdx (length items)] w = VArr (items ++ [w]).
Proof. unfold setAt. cbn [updateAt]. rewrite mapNth_snoc. reflexivity. Qed.

Lemma getAt_key (root : Value) (p : list step) (fields : list (str * Value))
      (k : str) (v : Value) :
  getAt root p = Some (VObj (objPut fields k v)) ->
  getAt root (p ++ [SKey k]) = Some v.
Proof.
  intros H. rewrite getAt_app, H. cbn [getAt]. rewrite getKey_objPut. reflexivity.
Qed.

Lemma getAt_last (root : Value) (p : list step) (items : list Value) (v : Value) :
  getAt root p = Some (VArr (items ++ [v])) ->
  getAt root (p ++ [SIdx (length items)]) = Some v.
Proof.
  intros H. rewrite getAt_app, H. cbn [getAt].
  rewrite nth_error_app2, Nat.sub_diag by lia. reflexivity.
Qed.

Definition protoKey : str := lit "__proto__".

Lemma assign_object (root : Value) (p : list step) (fields : list (str * Value))
      (key : str) (v : Value) :
  getAt root p = Some (VObj fields) -> str_eqb key protoKey = false ->
  assign root (Attached p) key v
  = Ok (setAt root p (VObj (objPut fields key v)), Attached (p ++ [SKey key])).
Proof.
  intros H Hk. unfold assign. fold protoKey. rewrite Hk, H. reflexivity.
Qed.

Lemma pushIfArray_array (root : Value) (p : list step) (items : list Value)
      (v : Value) :
  getAt root p = Some (VArr items) ->
  pushIfArray root (Attached p) v
  = Ok (setAt root p (VArr (items ++ [v])), Attached (p ++ [SIdx (length items)])).
Proof.
  intros H. unfold pushIfArray, isArrayRef. rewrite H. reflexivity.
Qed.

(** ** parseValue on the texts of scalars *)

Lemma tokenChar_brackets (c : ascii) :
  isTokenChar c = true ->
  Ascii.eqb c "[" = false /\ Ascii.eqb c "{" = false
  /\ Ascii.eqb DQUOTE c = false /\ Ascii.eqb SQUOTE c = false.
Proof.
  destruct c as [[] [] [] [] [] [] [] []]; vm_compute; intros H;
    try discriminate H; repeat split.
Qed.

Lemma token_head (x : str) :
  isToken x = true -> exists c r, x = c :: r /\ isTokenChar c = true.
Proof.
  intros H. apply isToken_parts in H. destruct H as [Hne H].
  destruct x as [|c r]; [congruence|]. cbn [forallb] in H.
  apply andb_true_iff in H. exists c, r. tauto.
Qed.

Lemma token_not_special (x : str) :
  isToken x = true ->
  str_eqb x (lit "[]") = false /\ str_eqb x (lit "{}") = false
  /\ str_eqb x [] = false
  /\ startsWith [DQUOTE] x = false /\ startsWith [SQUOTE] x = false
  /\ includes "," x = false /\ includes ":" x = false.
Proof.
  intros H. destruct (token_head x H) as (c & r & -> & Hc).
  destruct (tokenChar_brackets c Hc) as (B1 & B2 & Q1 & Q2).
  cbn [lit list_ascii_of_string str_eqb startsWith]. rewrite B1, B2, Q1, Q2.
  repeat split; try reflexivity.
  - apply isToken_parts in H. destruct H as [_ H].
    unfold includes. apply not_true_is_false. intros E.
    apply existsb_exists in E. destruct E as (y & Hy & Ey).
    apply Ascii.eqb_eq in Ey. subst y. rewrite forallb_forall in H.
    specialize (H _ Hy). discriminate H.
  - apply isToken_parts in H. destruct H as [_ H].
    unfold includes. apply not_true_is_false. intros E.
    apply existsb_exists in E. destruct E as (y & Hy & Ey).
    apply Ascii.eqb_eq in Ey. subst y. rewrite forallb_forall in H.
    specialize (H _ Hy). discriminate H.
Qed.

Lemma isQuotedBy_quoted (s : str) : isQuotedBy DQUOTE (quoteJSONString s) = true.
Proof.
  unfold isQuotedBy, quoteJSONString. cbn [startsWith]. rewrite Ascii.eqb_refl.
  change (DQUOTE :: flat_map quoteChar s ++ [DQUOTE])
    with ((DQUOTE :: flat_map quoteChar s) ++ [DQUOTE]).
  rewrite endsWith_snoc. reflexivity.
Qed.

Lemma parseValue_quoted (s : str) : parseValue (quoteJSONString s) = Ok (VStr s).
Proof.
  pose proof (isQuotedBy_quoted s) as Q. unfold quoteJSONString in *.
  rewrite parseValue_quoted_start by reflexivity. rewrite Q.
  cbn [orb startsWith]. rewrite Ascii.eqb_refl. cbn [andb].
  fold (quoteJSONString s). rewrite JSON_parse_quoted. reflexivity.
Qed.

Lemma parseValue_bare (s : str) :
  isToken s = true -> isNaN (NumberOf s) = true ->
  s <> lit "true" -> s <> lit "false" -> s <> lit "null" ->
  parseValue s = Ok (VStr s).
Proof.
  intros T N H1 H2 H3.
  destruct (token_not_special s T) as (B1 & B2 & _ & Q1 & Q2 & _).
  rewrite parseValue_not_literal; try (apply str_eqb_neq; assumption); auto.
  rewrite N. cbn [negb andb]. unfold isQuotedBy. rewrite Q1, Q2. reflexivity.
Qed.

Lemma parseValue_number (x : number) :
  NumberOf (numberToString x) = Num x ->
  parseValue (numberToString x) = Ok (VNum x).
Proof.
  intros H. pose proof (numberToString_token x) as T.
  destruct (token_not_special _ T) as (B1 & B2 & B3 & Q1 & Q2 & _).
  pose proof NumberOf_literals as (L1 & L2 & L3 & _).
  rewrite parseValue_not_literal; auto;
    try (apply str_eqb_neq; intros E; rewrite E in H; congruence).
  rewrite H, Q1, Q2, B3. reflexivity.
Qed.

Definition number_eqb (a b : number) : bool :=
  match a, b with
  | Finite m s, Finite m' s' => (m =? m') && (s =? s')%nat
  | Infinity n, Infinity n' => Bool.eqb n n'
  | _, _ => false
  end.

Lemma number_eqb_eq (a b : number) : number_eqb a b = true -> a = b.
Proof.
  destruct a as [m s|n], b as [m' s'|n']; cbn [number_eqb]; try discriminate.
  - intros H. apply andb_true_iff in H. destruct H as [H1 H2].
    apply Z.eqb_eq in H1. apply Nat.eqb_eq in H2. congruence.
  - intros H. apply Bool.eqb_prop in H. congruence.
Qed.

(** A number that [Number] reads back from its own text. *)
Definition numberOk (x : number) : bool :=
  match NumberOf (numberToString x) with
  | Num y => number_eqb x y
  | _ => false
  end.

Lemma numberOk_spec (x : number) :
  numberOk x = true -> NumberOf (numberToString x) = Num x.
Proof.
  unfold numberOk. destruct (NumberOf (numberToString x)) as [|y|];
    try discriminate. intros H. apply number_eqb_eq in H. congruence.
Qed.

(** A scalar whose text [parseValue] reads back. *)
Definition scalarOk (v : Value) : bool :=
  match v with
  | VNull | VBool _ | VStr _ => true
  | VNum x => numberOk x
  | _ => false
  end.

Lemma parseValue_scalar (v : Value) :
  scalarOk v = true -> parseValue (toToon v 0) = Ok v.
Proof.
  destruct v as [| b | x | s | items | fields]; intros H; try discriminate H.
  - reflexivity.
  - destruct b; reflexivity.
  - apply parseValue_number, numberOk_spec, H.
  - destruct (toToon_string_cases s 0) as [(E & T & N & H1 & H2 & H3) | E];
      rewrite E.
    + apply parseValue_bare; assumption.
    + apply parseValue_quoted.
Qed.

(** The text of a scalar: a token or a quoted string. *)
Definition isText (x : str) : Prop :=
  isToken x = true \/ exists s, x = quoteJSONString s.

Lemma scalar_text (v : Value) :
  isObjectLike v = false -> isText (toToon v 0).
Proof.
  destruct v as [| b | x | s | items | fields]; intros H; try discriminate H.
  - left; reflexivity.
  - left; destruct b; reflexivity.
  - left; apply numberToString_token.
  - destruct (toToon_string_cases s 0) as [(E & T & _) | E]; rewrite E.
    + left; exact T.
    + right; eauto.
Qed.


Lemma text_clean (x : str) : isText x -> clean x = true.
Proof. intros [H | (s & ->)]; [apply token_clean, H | apply quoted_clean]. Qed.

Lemma processValue_text (st : pstate) (container : ref) (key x : str) (v : Value)
      (ind : Z) (lines : list str) (i : nat) :
  isText x -> parseValue x = Ok v ->
  processValue st container key x ind lines i
  = let* (root', _) := assign (root st) container key v in
    Ok {| root := root'; stack := stack st |}.
Proof.
  intros [T | (s & ->)] P; unfold processValue.
  - destruct (token_not_special x T) as (B1 & B2 & B3 & _ & _ & C & _).
    rewrite B1, B2, B3, C, P. reflexivity.
  - unfold quoteJSONString at 1 2 3.
    cbn [lit list_ascii_of_string str_eqb]. eval_eqb. cbn [andb].
    fold (quoteJSONString s). rewrite isQuotedBy_quoted, JSON_parse_quoted.
    cbn [orb]. rewrite P.
    destruct (includes "," (quoteJSONString s)); reflexivity.
Qed.

Lemma JSON_parse_quoted_more (s more : str) (c : ascii) :
  isJsonSpace c = false ->
  JSON_parse (quoteJSONString s ++ c :: more) = Throw syntaxError.
Proof.
  intros Hc. unfold JSON_parse, quoteJSONString.
  cbn [app parseJsonValue length].
  change (skipWs (DQUOTE :: ?x)) with (DQUOTE :: x). cbv beta iota.
  change (Ascii.eqb DQUOTE "{") with false.
  change (Ascii.eqb DQUOTE "[") with false.
  change (Ascii.eqb DQUOTE DQUOTE) with true. cbv iota.
  rewrite <- app_assoc. cbn [app].
  rewrite parseStringBody_quoted. cbn [bind skipWs]. rewrite Hc. reflexivity.
Qed.

Lemma includes_join_comma (x y : str) (xs : list str) :
  includes "," (join (lit ",") (x :: y :: xs)) = true.
Proof.
  change (join (lit ",") (x :: y :: xs))
    with (x ++ ","%char :: join (lit ",") (y :: xs)).
  rewrite includes_app. cbn [includes existsb]. rewrite Ascii.eqb_refl.
  apply orb_true_r.
Qed.

Lemma parseValues_all (xs : list str) (vs : list Value) :
  Forall2 (fun x v => parseValue x = Ok v) xs vs ->
  fold_right (fun part acc =>
                let* v := parseValue part in let* vs := acc in Ok (v :: vs))
             (Ok []) xs = Ok vs.
Proof.
  induction 1 as [|x v xs vs Hx _ IH]; [reflexivity|].
  cbn [fold_right]. rewrite Hx, IH. reflexivity.
Qed.


Lemma processValue_empty_array (st : pstate) (container : ref) (key : str)
      (ind : Z) (lines : list str) (i : nat) :
  processValue st container key (lit "[]") ind lines i
  = let* (root', _) := assign (root st) container key (VArr []) in
    Ok {| root := root'; stack := stack st |}.
Proof. reflexivity. Qed.

Lemma processValue_header (st : pstate) (container : ref) (key : str)
      (ind : Z) (lines : list str) (i : nat) :
  processValue st container key [] ind lines i
  = let newContainer :=
      if nextIsArray (map lexLine lines) i ind then VArr [] else VObj [] in
    let* (root', r) := assign (root st) container key newContainer in
    Ok {| root := root';
          stack := {| obj := r; indent := ind; key := Some key |} :: stack st |}.
Proof.
  unfold processValue. cbn [str_eqb]. rewrite peekNextArray_lex. reflexivity.
Qed.

Lemma decodeKey_word (key : str) : testWord key = true -> decodeKey key = Ok key.
Proof.
  intros H. destruct (token_not_special key (testWord_token key H))
    as (_ & _ & _ & Q & _).
  unfold decodeKey. rewrite Q. reflexivity.
Qed.

Lemma objPut_nil (key : str) (v : Value) : objPut [] key v = [(key, v)].
Proof. unfold objPut. cbn [hasKey]. destruct (arrayIndex key); reflexivity. Qed.

Lemma testWord_plainKey (key : str) : testWord key = true -> plainKey key = true.
Proof.
  intros H. apply testWord_token, isToken_parts in H. destruct H as [_ H].
  unfold plainKey. revert H. apply forallb_impl. intros c Hc.
  destruct (tokenChar_facts c Hc) as (S & _ & _ & C & _).
  rewrite S, Ascii.eqb_sym, C. reflexivity.
Qed.




Definition emptyState : pstate := {| root := VObj []; stack := [] |}.



(** *** An annotation behind any key text

    The text of a line before its annotation, indentation and key text
    together, is arbitrary here: it holds no colon, so that the annotation
    is in front of the first colon, and its content does not start an array
    item. *)






Lemma annotation_no_colon (N : nat) : includes ":" (annotation N) = false.
Proof.
  apply (plainKey_no_colon (annotation N)).
  exact (plainKey_annotation [] N eq_refl).
Qed.

Section AnnotatedAny.

Variables (pre rest : str) (N : nat).
Hypothesis pre_colon : includes ":" pre = false.
Hypothesis pre_line : notLF pre = true.
Hypothesis pre_item : startsWith (lit "- ") (trimStart pre) = false.

(** The key text with its annotation, as the parser cuts it out. *)
Definition keyText : str := trimStart pre ++ annotation N.








End AnnotatedAny.


Section AnnotatedAnyText.

Variables (before after : list str) (pre rest : str) (N M : nat).
Hypothesis pre_colon : includes ":" pre = false.
Hypothesis pre_line : notLF pre = true.
Hypothesis pre_item : startsWith (lit "- ") (trimStart pre) = false.




End AnnotatedAnyText.





(** ** Round trip: the values that are read back *)

Fixpoint noDupKeys (keys : list str) : bool :=
  match keys with
  | [] => true
  | k :: r => negb (existsb (str_eqb k) r) && noDupKeys r
  end.

(** A key that a field line carries: it holds no colon, and it is not
    [__proto__]. *)
Definition keyOk (key : str) : bool :=
  negb (includes ":" key) && negb (str_eqb key protoKey).

(** [key] comes last in the order of [Object.keys] when it is added to an
    object with the keys [before]: it is new, and when it is an array index
    the keys before it are smaller array indices. *)
Definition appendsLast (before : list str) (key : str) : bool :=
  negb (existsb (str_eqb key) before)
  && match arrayIndex key with
     | None => true
     | Some i =>
         forallb (fun k => match arrayIndex k with
                           | Some j => j <? i
                           | None => false
                           end) before
     end.

(** The keys are listed in the order of [Object.keys]. *)
Fixpoint keyOrder (before keys : list str) : bool :=
  match keys with
  | [] => true
  | k :: r => appendsLast before k && keyOrder (before ++ [k]) r
  end.

Definition keysOk (fields : list (str * Value)) : bool :=
  forallb (fun kv => keyOk (fst kv)) fields && keyOrder [] (map fst fields).

(** An element of an inline array that another element follows. *)
Definition simpleItemOk (v : Value) : bool :=
  scalarOk v
  && match v with VStr s => negb (endsWith [BSLASH] s) | _ => true end.

(** The elements of an inline array: scalars, of which none but the last
    is a string that ends in a backslash. *)
Definition inlineItemsOk (items : list Value) : bool :=
  forallb scalarOk items && forallb simpleItemOk (removelast items).

(** The text before the first colon. *)
Fixpoint beforeColon (s : str) : str :=
  match s with
  | [] => []
  | c :: r => if Ascii.eqb ":" c then [] else c :: beforeColon r
  end.

(** A string that reads as a field behind a dash: it has a colon, and the
    text before the first colon is a word, a word and an apostrophe, or a
    text without double quote and a double quote. *)
Definition fieldLike (s : str) : bool :=
  let p := beforeColon s in
  includes ":" s
  && (testWord p
      || match rev p with
         | c :: r =>
             (Ascii.eqb c SQUOTE && testWord (rev r))
             || (Ascii.eqb c DQUOTE && negb (includes DQUOTE r))
         | [] => false
         end).

(** A scalar element of an array that has containers among its elements. *)
Definition blockScalarOk (v : Value) : bool :=
  scalarOk v && match v with VStr s => negb (fieldLike s) | _ => true end.

(** A key that is written as it is between the double quotes. *)
Definition rawKey (key : str) : bool :=
  negb (str_eqb key []) && forallb (fun c => str_eqb (quoteChar c) [c]) key.

(** The first key of an object that is an element of an array. *)
Definition firstKeyOk (key : str) : bool := testWord key || rawKey key.

Definition firstFieldOk (fields : list (str * Value)) : bool :=
  match fields with
  | (_, VArr _) :: _ => false
  | (key, _) :: _ => firstKeyOk key
  | [] => true
  end.

(** The values, as values of a field, that the parser reads back from the
    text of the serializer. *)
Fixpoint fieldOk (v : Value) : bool :=
  match v with
  | VArr items =>
      if isSimple items then
        match items with
        | [] => true
        | [_] => false
        | _ => inlineItemsOk items
        end
      else
        forallb (fun item =>
                   match item with
                   | VArr [] => true
                   | VArr _ => false
                   | VObj fields => firstFieldOk fields && fieldOk item
                   | _ => blockScalarOk item
                   end) items
  | VObj fields =>
      match fields with
      | [] => false
      | _ => keysOk fields && forallb (fun kv => fieldOk (snd kv)) fields
      end
  | _ => scalarOk v
  end.

(** The values with lines of their own that are read back. *)
Definition readBack (v : Value) : bool := isBlock v && fieldOk v.

(** The values for which the round trip is proved: the empty object, and
    the values of [readBack]. *)
Definition roundTrips (v : Value) : bool :=
  match v with
  | VObj [] => true
  | _ => readBack v
  end.

Definition objPutAll (fs fields : list (str * Value)) : list (str * Value) :=
  fold_left (fun acc kv => objPut acc (fst kv) (snd kv)) fields fs.

Lemma hasKey_existsb (fs : list (str * Value)) (k : str) :
  hasKey fs k = existsb (fun kv => str_eqb (fst kv) k) fs.
Proof.
  induction fs as [|[k' w] fs IH]; [reflexivity|].
  cbn [hasKey existsb fst]. rewrite IH. reflexivity.
Qed.

Lemma hasKey_app (a b : list (str * Value)) (k : str) :
  hasKey (a ++ b) k = hasKey a k || hasKey b k.
Proof. rewrite !hasKey_existsb. apply existsb_app. Qed.

Lemma str_eqb_sym (a b : str) : str_eqb a b = str_eqb b a.
Proof.
  destruct (str_eqb a b) eqn:E.
  - apply str_eqb_eq in E. subst. symmetry. apply str_eqb_refl.
  - symmetry. apply str_eqb_neq. apply str_eqb_neq in E. congruence.
Qed.

Lemma hasKey_map_fst (fs : list (str * Value)) (k : str) :
  hasKey fs k = existsb (str_eqb k) (map fst fs).
Proof.
  induction fs as [|[k' w] fs IH]; [reflexivity|].
  cbn [hasKey map fst existsb]. rewrite IH, (str_eqb_sym k' k). reflexivity.
Qed.

Lemma insertIndexKey_last (fs : list (str * Value)) (i : Z) (k : str) (v : Value) :
  forallb (fun key => match arrayIndex key with
                      | Some j => j <? i
                      | None => false
                      end) (map fst fs) = true ->
  insertIndexKey fs i k v = fs ++ [(k, v)].
Proof.
  induction fs as [|[k' w] fs IH]; [reflexivity|].
  cbn [map fst forallb insertIndexKey app]. intros H.
  apply andb_true_iff in H. destruct H as [H1 H2].
  destruct (arrayIndex k') as [j|]; [|discriminate H1].
  rewrite H1, (IH H2). reflexivity.
Qed.

(** A key that comes last in the order of the keys is appended. *)
Lemma objPut_last (fs : list (str * Value)) (k : str) (v : Value) :
  appendsLast (map fst fs) k = true -> objPut fs k v = fs ++ [(k, v)].
Proof.
  unfold appendsLast, objPut. intros H. apply andb_true_iff in H.
  destruct H as [H1 H2]. apply negb_true_iff in H1.
  rewrite hasKey_map_fst, H1.
  destruct (arrayIndex k) as [i|]; [|reflexivity].
  apply insertIndexKey_last, H2.
Qed.

Lemma objPutAll_append (fs fields : list (str * Value)) :
  keyOrder (map fst fs) (map fst fields) = true ->
  objPutAll fs fields = fs ++ fields.
Proof.
  revert fs. induction fields as [|[k w] fields IH]; intros fs H.
  - cbn. rewrite app_nil_r. reflexivity.
  - cbn [map fst keyOrder] in H. apply andb_true_iff in H.
    destruct H as [H1 H2].
    unfold objPutAll. cbn [fold_left fst snd].
    fold (objPutAll (objPut fs k w) fields).
    rewrite (objPut_last _ _ _ H1), IH.
    + rewrite <- app_assoc. reflexivity.
    + rewrite map_app. exact H2.
Qed.

Lemma keysOk_append (fields : list (str * Value)) :
  keysOk fields = true -> objPutAll [] fields = fields.
Proof.
  unfold keysOk. intros H. apply andb_true_iff in H. destruct H as [_ H].
  apply (objPutAll_append [] fields H).
Qed.

(** ** Field lines of the serializer, as the parser reads them *)

(** The text after the colon of a field (without the space), empty when
    the value follows on the next lines. *)
Definition valueText (v : Value) : str :=
  match v with
  | VArr items => if isSimple items then toToon v 0 else []
  | VObj _ => []
  | _ => toToon v 0
  end.

(** The lines that follow the line of the key. *)
Definition childLines (v : Value) (lvl : nat) : list (nat * str) :=
  match v with
  | VArr items => if isSimple items then [] else toonLines v lvl
  | VObj (_ :: _) => toonLines v lvl
  | _ => []
  end.

Definition keySuffix (v : Value) : str :=
  match v with VArr items => lengthSuffix items | _ => [] end.

Definition afterColon (v : Value) : str :=
  match valueText v with [] => [] | t => lit " " ++ t end.

Definition fieldContent (key : str) (v : Value) : str :=
  (key ++ keySuffix v) ++ lit ":" ++ afterColon v.

Lemma formattedKey_word (key : str) : testWord key = true -> formattedKey key = key.
Proof. intros H. unfold formattedKey. rewrite H. reflexivity. Qed.

Lemma clean_nonempty (c : str) : clean c = true -> exists x r, c = x :: r.
Proof. destruct c as [|x r]; [discriminate | eauto]. Qed.

Lemma valueText_clean (v : Value) :
  valueText v = [] \/ clean (valueText v) = true.
Proof.
  destruct v as [| b | x | s | items | fields];
    try (right; apply scalar_clean; reflexivity).
  - cbn [valueText]. destruct (isSimple items) eqn:Hs; [right | left; reflexivity].
    destruct items as [|v0 items]; [reflexivity|].
    rewrite toToon_simple by (auto; discriminate).
    apply simple_text_clean; [discriminate | exact Hs].
  - left; reflexivity.
Qed.

Lemma afterColon_text (v : Value) (t : str) :
  valueText v = t -> clean t = true -> afterColon v = lit " " ++ t.
Proof.
  intros E H. unfold afterColon. rewrite E.
  destruct (clean_nonempty t H) as (x & r & ->). reflexivity.
Qed.

(** The lines of a field: the line of the key, written by [formattedKey],
    and the lines of the value below it. *)
Lemma fieldLines_content (n : nat) (key : str) (v : Value) :
  fieldOk v = true ->
  fieldLines n (key, v)
  = ((2 * n)%nat, fieldContent (formattedKey key) v) :: childLines v (S n).
Proof.
  intros Hv. unfold fieldLines, fieldContent.
  generalize (formattedKey key). clear key. intros key.
  assert (Scalar : forall w, isObjectLike w = false -> valueText w = toToon w 0 ->
            keySuffix w = [] ->
            [((2 * n)%nat, key ++ lit ": " ++ toToon w 0)]
            = [((2 * n)%nat, (key ++ keySuffix w) ++ lit ":" ++ afterColon w)]).
  { intros w Hw E Hs. rewrite Hs, app_nil_r.
    rewrite (afterColon_text w (toToon w 0) E) by (apply scalar_clean, Hw).
    reflexivity. }
  destruct v as [| b | x | s | items | fields];
    try (apply Scalar; reflexivity).
  - cbn [childLines keySuffix]. destruct (isSimple items) eqn:Hs.
    + destruct items as [|v0 items].
      * rewrite <- app_assoc. reflexivity.
      * assert (C : clean (toToon (VArr (v0 :: items)) 0) = true).
        { rewrite toToon_simple by (auto; discriminate).
          apply simple_text_clean; [discriminate | exact Hs]. }
        rewrite (afterColon_text _ (toToon (VArr (v0 :: items)) 0)); auto.
        -- rewrite <- app_assoc. reflexivity.
        -- cbn [valueText]. rewrite Hs. reflexivity.
    + unfold afterColon. cbn [valueText]. rewrite Hs.
      rewrite <- app_assoc. reflexivity.
  - destruct fields as [|f0 fields]; [discriminate Hv|].
    cbn [childLines keySuffix]. rewrite app_nil_r. reflexivity.
Qed.

Lemma word_head (key : str) :
  testWord key = true -> exists c r, key = c :: r /\ isWord c = true.
Proof.
  unfold testWord. destruct key as [|c r]; [discriminate|].
  cbn [str_eqb negb andb forallb]. intros H. apply andb_true_iff in H.
  exists c, r. tauto.
Qed.

Lemma word_last (key : str) :
  testWord key = true -> exists c r, rev key = c :: r /\ isWord c = true.
Proof.
  unfold testWord. intros H. apply andb_true_iff in H. destruct H as [Hne H].
  rewrite <- forallb_rev in H.
  destruct (rev key) as [|c r] eqn:E.
  - apply (f_equal (@rev ascii)) in E. rewrite rev_involutive in E.
    cbn [rev] in E. subst key. discriminate Hne.
  - cbn [forallb] in H. apply andb_true_iff in H. exists c, r. tauto.
Qed.

Lemma word_not_dash (key tail : str) :
  testWord key = true -> startsWith (lit "- ") (key ++ tail) = false.
Proof.
  intros H. destruct (word_head key H) as (c & r & -> & Hc).
  cbn [lit list_ascii_of_string app startsWith].
  destruct (Ascii.eqb_spec "-" c) as [<-|]; [discriminate Hc | reflexivity].
Qed.

Lemma word_no_bracket (key : str) :
  testWord key = true -> endsWith (lit "]") key = false.
Proof.
  intros H. destruct (word_last key H) as (c & r & E & Hc).
  unfold endsWith. rewrite E. cbn [lit list_ascii_of_string rev app startsWith].
  destruct (Ascii.eqb_spec "]" c) as [<-|]; [discriminate Hc | reflexivity].
Qed.

Lemma word_no_quotes (key : str) : testWord key = true -> stripQuotes key = key.
Proof.
  intros H. destruct (word_head key H) as (c & r & E & Hc).
  destruct (word_last key H) as (d & r' & E' & Hd).
  unfold stripQuotes. rewrite E.
  replace (isQuoteChar c) with false
    by (destruct c as [[] [] [] [] [] [] [] []]; try reflexivity; discriminate Hc).
  rewrite <- E, E'.
  replace (isQuoteChar d) with false
    by (destruct d as [[] [] [] [] [] [] [] []]; try reflexivity; discriminate Hd).
  reflexivity.
Qed.

Lemma testKeyLike_word (key : str) : testWord key = true -> testKeyLike key = true.
Proof.
  intros H. destruct (word_head key H) as (c & r & E & Hc).
  destruct (word_last key H) as (d & r' & E' & Hd).
  unfold testKeyLike. rewrite E.
  replace (isQuoteChar c) with false
    by (destruct c as [[] [] [] [] [] [] [] []]; try reflexivity; discriminate Hc).
  rewrite <- E, E'.
  replace (isQuoteChar d) with false
    by (destruct d as [[] [] [] [] [] [] [] []]; try reflexivity; discriminate Hd).
  exact H.
Qed.

Lemma lengthSuffix_is_annotation (items : list Value) :
  lengthSuffix items = annotation (length items).
Proof. reflexivity. Qed.

Lemma quoteChar_no_colon (c : ascii) :
  Ascii.eqb ":" c = false -> includes ":" (quoteChar c) = false.
Proof.
  destruct c as [[] [] [] [] [] [] [] []]; vm_compute; intros H;
    try discriminate H; reflexivity.
Qed.

Lemma quoted_body_no_colon (s : str) :
  includes ":" s = false -> includes ":" (flat_map quoteChar s) = false.
Proof.
  intros H. induction s as [|c s IH]; [reflexivity|].
  cbn [includes existsb] in H. apply orb_false_iff in H.
  destruct H as [Hc Hs]. cbn [flat_map]. rewrite includes_app.
  rewrite (quoteChar_no_colon c Hc). exact (IH Hs).
Qed.

Lemma quoted_no_colon (s : str) :
  includes ":" s = false -> includes ":" (quoteJSONString s) = false.
Proof.
  intros H. pose proof (quoted_body_no_colon s H) as Q.
  unfold quoteJSONString.
  change (DQUOTE :: flat_map quoteChar s ++ [DQUOTE])
    with ([DQUOTE] ++ flat_map quoteChar s ++ [DQUOTE]).
  rewrite !includes_app, Q. reflexivity.
Qed.

Lemma quoted_no_bracket (s : str) :
  endsWith (lit "]") (quoteJSONString s) = false.
Proof.
  unfold endsWith, quoteJSONString.
  change (DQUOTE :: flat_map quoteChar s ++ [DQUOTE])
    with ((DQUOTE :: flat_map quoteChar s) ++ [DQUOTE]).
  rewrite rev_app_distr. reflexivity.
Qed.

(** The key as [formattedKey] writes it in front of the colon: it is read
    as one key text, and the parser decodes it to the key. *)
Lemma formattedKey_line (key : str) :
  includes ":" key = false ->
  includes ":" (formattedKey key) = false
  /\ clean (formattedKey key) = true
  /\ (forall t, startsWith (lit "- ") (formattedKey key ++ t) = false)
  /\ stripLengthSuffix (formattedKey key) = formattedKey key
  /\ decodeKey (formattedKey key) = Ok key.
Proof.
  intros Hc. unfold formattedKey. destruct (testWord key) eqn:W.
  - split; [exact Hc|]. split; [apply token_clean, testWord_token, W|].
    split; [intros t; apply word_not_dash, W|].
    split; [apply stripLengthSuffix_plain, word_no_bracket, W|].
    apply decodeKey_word, W.
  - split; [apply quoted_no_colon, Hc|]. split; [apply quoted_clean|].
    split; [intros t; reflexivity|].
    split; [apply stripLengthSuffix_plain, quoted_no_bracket|].
    unfold decodeKey. pose proof (isQuotedBy_quoted key) as Q.
    unfold isQuotedBy in Q. rewrite Q, JSON_parse_quoted. reflexivity.
Qed.

(** The key with the length annotation of an array behind it. *)
Lemma keyText_line (key : str) (v : Value) :
  includes ":" key = false ->
  includes ":" (formattedKey key ++ keySuffix v) = false
  /\ clean (formattedKey key ++ keySuffix v) = true
  /\ stripLengthSuffix (formattedKey key ++ keySuffix v) = formattedKey key.
Proof.
  intros H. destruct (formattedKey_line key H) as (C1 & C2 & _ & C4 & _).
  destruct v; cbn [keySuffix]; rewrite ?app_nil_r;
    try (split; [|split]; assumption).
  destruct (lengthSuffix_annotation items) as (ds & D1 & D2 & E).
  split; [|split].
  - rewrite includes_app, C1, lengthSuffix_is_annotation.
    apply annotation_no_colon.
  - destruct (clean_parts _ C2) as (S & _ & L).
    pose proof (plainKey_clean (annotation (length items)) ltac:(discriminate)
                  (plainKey_annotation [] _ eq_refl)) as A.
    destruct (clean_parts _ A) as (_ & Ae & Al).
    rewrite lengthSuffix_is_annotation. apply clean_app; assumption.
  - rewrite E. apply stripLengthSuffix_annotated; assumption.
Qed.

Lemma afterColon_trim (v : Value) : trim (afterColon v) = valueText v.
Proof.
  unfold afterColon. destruct (valueText_clean v) as [E | C].
  - rewrite E. reflexivity.
  - destruct (clean_nonempty _ C) as (x & r & E). rewrite E in *.
    pose proof (trim_line 1 0 (x :: r) C) as T.
    cbn [spaces repeat] in T. rewrite app_nil_r in T. exact T.
Qed.

(** A field line of the serializer acts as a field line of its key text
    with its value text. *)
Lemma processContent_fieldContent (lines : list str) (i : nat) (k : Z)
      (key : str) (v : Value) (st : pstate) :
  includes ":" key = false ->
  processContent lines i k (fieldContent (formattedKey key) v) st
  = fieldStep lines i k (formattedKey key) (valueText v) st.
Proof.
  intros H. unfold fieldContent.
  destruct (keyText_line key v H) as (K1 & K2 & K3).
  destruct (formattedKey_line key H) as (_ & _ & K4 & _).
  rewrite processContent_field.
  - rewrite trim_clean, K3, afterColon_trim by exact K2. reflexivity.
  - exact K1.
  - rewrite <- app_assoc. apply K4.
Qed.

(** ** Finding the parent *)

Lemma popFrames_base (root : Value) (base : list frame) (k : Z) (c : str) :
  indent (top base) < k -> popFrames root base k c = base.
Proof.
  intros H. destruct base as [|f below]; [reflexivity|].
  cbn [top] in H. cbn [popFrames].
  destruct (Z.ltb_spec (indent f) k); [reflexivity | lia].
Qed.

Lemma popFrames_field (root : Value) (above base : list frame) (k : Z) (c : str) :
  startsWith (lit "- ") c = false ->
  Forall (fun f => k <= indent f) above -> indent (top base) < k ->
  popFrames root (above ++ base) k c = base.
Proof.
  intros Hc Ha Hb. induction Ha as [|f above Hf _ IH].
  - apply popFrames_base, Hb.
  - cbn [app popFrames]. rewrite Hc, andb_false_r.
    destruct (Z.ltb_spec (indent f) k); [lia | exact IH].
Qed.

(** The frames above an array whose items are at indentation [k]: deeper
    frames, and frames of objects at [k]. *)
Definition itemFrames (root : Value) (k : Z) (above : list frame) : Prop :=
  Forall (fun f => k < indent f
                   \/ (indent f = k /\ isArrayRef root (obj f) = false)) above.

Lemma popFrames_dash (root : Value) (above base : list frame) (k : Z) (c : str) :
  itemFrames root k above -> indent (top base) < k ->
  popFrames root (above ++ base) k c = base.
Proof.
  intros Ha Hb. induction Ha as [|f above Hf _ IH].
  - apply popFrames_base, Hb.
  - cbn [app popFrames].
    destruct (Z.ltb_spec (indent f) k); [lia|].
    destruct Hf as [Hf | [Hf1 Hf2]].
    + destruct (Z.eqb_spec (indent f) k); [lia | exact IH].
    + rewrite Hf2, andb_false_r. exact IH.
Qed.

(** ** Dash lines of the serializer, as the parser reads them *)

Lemma dash_valueStr (c : str) :
  clean c = true -> trim (substringFrom 2 (lit "- " ++ c)) = c.
Proof.
  intros H.
  rewrite (substringFrom_suffix (lit "- ") c
           : substringFrom 2 (lit "- " ++ c) = c).
  apply trim_clean, H.
Qed.

Lemma clean_not_nil (c : str) : clean c = true -> str_eqb c [] = false.
Proof. destruct c; [discriminate | reflexivity]. Qed.

(** The test [isKeyValue] of a dash line, on the text behind the dash. *)
Definition dashKeyValue (x : str) : bool :=
  let colonIndex := indexOf ":" x in
  negb (colonIndex =? -1)
  && (let keyPart := substring 0 colonIndex x in
      testKeyLike keyPart || testQuotedKey keyPart).

Lemma dashKeyValue_no_colon (x : str) :
  includes ":" x = false -> dashKeyValue x = false.
Proof.
  intros H. unfold dashKeyValue. rewrite indexOf_absent by exact H. reflexivity.
Qed.

Lemma token_no_colon (s : str) : isToken s = true -> includes ":" s = false.
Proof.
  intros T. apply isToken_parts in T. destruct T as [_ T].
  induction s as [|c s IH]; [reflexivity|].
  cbn [forallb] in T. apply andb_true_iff in T. destruct T as [Tc Ts].
  change (includes ":" (c :: s)) with (Ascii.eqb ":" c || includes ":" s).
  rewrite (IH Ts), orb_false_r.
  destruct (tokenChar_facts c Tc) as (_ & _ & _ & C & _).
  rewrite Ascii.eqb_sym. exact C.
Qed.

Lemma beforeColon_split (s : str) :
  includes ":" s = true ->
  includes ":" (beforeColon s) = false
  /\ exists rest, s = beforeColon s ++ ":"%char :: rest.
Proof.
  induction s as [|c s IH]; [discriminate|].
  change (includes ":" (c :: s)) with (Ascii.eqb ":" c || includes ":" s).
  cbn [beforeColon]. destruct (Ascii.eqb_spec ":" c) as [<-|N].
  - intros _. split; [reflexivity|]. exists s. reflexivity.
  - cbn [orb]. intros H. destruct (IH H) as (I1 & rest & I2).
    split.
    + change (includes ":" (c :: beforeColon s))
        with (Ascii.eqb ":" c || includes ":" (beforeColon s)).
      rewrite I1. destruct (Ascii.eqb_spec ":" c); [contradiction | reflexivity].
    + exists rest. cbn [app]. f_equal. exact I2.
Qed.

Lemma quoteChar_word (c : ascii) :
  forallb isWord (quoteChar c) = true -> quoteChar c = [c] /\ isWord c = true.
Proof.
  destruct c as [[] [] [] [] [] [] [] []]; vm_compute; intros H;
    try discriminate H; split; reflexivity.
Qed.

Lemma quoted_body_word (p : str) :
  forallb isWord (flat_map quoteChar p) = true ->
  flat_map quoteChar p = p /\ forallb isWord p = true.
Proof.
  induction p as [|c p IH]; [split; reflexivity|].
  cbn [flat_map]. rewrite forallb_app. intros H.
  apply andb_true_iff in H. destruct H as [H1 H2].
  destruct (quoteChar_word c H1) as [E W], (IH H2) as [E' W'].
  rewrite E, E'. cbn [app forallb]. rewrite W, W'. split; reflexivity.
Qed.

(** The last character that [quoteChar] writes is a quote only for the
    apostrophe and for the double quote. *)
Lemma quoteChar_end (c : ascii) :
  (c = SQUOTE /\ quoteChar c = [SQUOTE])
  \/ (c = DQUOTE /\ quoteChar c = [BSLASH; DQUOTE])
  \/ (Ascii.eqb c SQUOTE = false /\ Ascii.eqb c DQUOTE = false
      /\ exists u e, quoteChar c = u ++ [e] /\ isQuoteChar e = false).
Proof.
  destruct c as [[] [] [] [] [] [] [] []];
    try (left; split; reflexivity);
    try (right; left; split; reflexivity);
    right; right; (split; [reflexivity|]); (split; [reflexivity|]);
    match goal with
    | |- exists u e, quoteChar ?c = _ /\ _ =>
        exists (removelast (quoteChar c)), (last (quoteChar c) c)
    end; split; reflexivity.
Qed.

Lemma quoted_body_quote (r : str) :
  includes DQUOTE r = true ->
  forallb (fun x => negb (Ascii.eqb x DQUOTE)) (flat_map quoteChar r) = false.
Proof.
  induction r as [|c r IH]; [discriminate|].
  change (includes DQUOTE (c :: r)) with (Ascii.eqb DQUOTE c || includes DQUOTE r).
  cbn [flat_map]. rewrite forallb_app.
  destruct (Ascii.eqb_spec DQUOTE c) as [<-|N].
  - intros _. reflexivity.
  - cbn [orb]. intros H. rewrite (IH H). apply andb_false_r.
Qed.

(** The text in front of the first colon of a quoted string, as the test
    of a dash line sees it. *)
Lemma keyPart_quoted (p : str) :
  testWord p = false ->
  match rev p with
  | c :: r =>
      (Ascii.eqb c SQUOTE && testWord (rev r))
      || (Ascii.eqb c DQUOTE && negb (includes DQUOTE r))
  | [] => false
  end = false ->
  testKeyLike (DQUOTE :: flat_map quoteChar p)
  || testQuotedKey (DQUOTE :: flat_map quoteChar p) = false.
Proof.
  intros Hw Hr.
  assert (Word : forall q, negb (str_eqb (flat_map quoteChar q) [])
                           && forallb isWord (flat_map quoteChar q) = testWord q
                           \/ forallb isWord (flat_map quoteChar q) = false).
  { intros q. destruct (forallb isWord (flat_map quoteChar q)) eqn:F; [left | right; reflexivity].
    destruct (quoted_body_word q F) as [E W]. rewrite E. unfold testWord.
    rewrite W. reflexivity. }
  destruct (rev p) as [|c r] eqn:E.
  - apply (f_equal (@rev ascii)) in E. rewrite rev_involutive in E.
    subst p. reflexivity.
  - apply (f_equal (@rev ascii)) in E. rewrite rev_involutive in E.
    cbn [rev] in E. subst p. rewrite flat_map_app. cbn [flat_map].
    rewrite app_nil_r. set (Q := flat_map quoteChar (rev r)) in *.
    unfold testKeyLike, testQuotedKey.
    change (isQuoteChar DQUOTE) with true. cbv iota.
    change (Ascii.eqb DQUOTE DQUOTE) with true. cbn [andb].
    destruct (quoteChar_end c) as [(-> & Qc) | [(-> & Qc) | (N1 & N2 & u & e & Qc & Qe)]];
      rewrite Qc.
    + rewrite rev_app_distr. cbn [rev app].
      change (isQuoteChar SQUOTE) with true. cbv iota.
      change (Ascii.eqb SQUOTE DQUOTE) with false. cbn [andb].
      rewrite rev_involutive, orb_false_r.
      change (Ascii.eqb SQUOTE SQUOTE) with true in Hr. cbn [andb orb] in Hr.
      rewrite orb_false_r in Hr.
      destruct (Word (rev r)) as [W | W]; fold Q in W.
      * rewrite W. exact Hr.
      * rewrite W. apply andb_false_r.
    + rewrite rev_app_distr. cbn [rev app].
      change (isQuoteChar DQUOTE) with true. cbv iota.
      change (Ascii.eqb DQUOTE DQUOTE) with true. cbn [andb].
      change (Ascii.eqb DQUOTE SQUOTE) with false in Hr.
      change (Ascii.eqb DQUOTE DQUOTE) with true in Hr. cbn [andb orb] in Hr.
      apply negb_false_iff in Hr.
      assert (B : forallb isWord (rev (rev Q) ++ [BSLASH]) = false).
      { rewrite forallb_app. apply andb_false_r. }
      rewrite B, andb_false_r. cbn [orb].
      cbn [forallb]. rewrite forallb_rev.
      assert (I : includes DQUOTE (rev r) = true).
      { apply includes_In. rewrite <- in_rev. apply includes_In, Hr. }
      unfold Q. rewrite (quoted_body_quote _ I). rewrite !andb_false_r. reflexivity.
    + rewrite app_assoc, rev_app_distr. cbn [rev app]. rewrite Qe.
      rewrite N1, N2 in Hr. cbn [andb orb] in Hr.
      replace (Ascii.eqb e DQUOTE) with false
        by (destruct e as [[] [] [] [] [] [] [] []]; try reflexivity; discriminate Qe).
      cbn [andb]. rewrite orb_false_r.
      destruct (Word (rev r ++ [c])) as [W | W];
        rewrite flat_map_app in W; cbn [flat_map] in W; rewrite app_nil_r in W;
        fold Q in W; rewrite Qc, app_assoc in W.
      * rewrite W. exact Hw.
      * rewrite W. apply andb_false_r.
Qed.

(** A quoted string behind a dash is read as a value unless the string
    is [fieldLike]. *)
Lemma dashKeyValue_quoted (s : str) :
  fieldLike s = false -> dashKeyValue (quoteJSONString s) = false.
Proof.
  unfold fieldLike. destruct (includes ":" s) eqn:Hc.
  - cbn [andb]. intros H. apply orb_false_iff in H. destruct H as [Hw Hr].
    destruct (beforeColon_split s Hc) as (Hp & rest & E).
    set (p := beforeColon s) in *.
    assert (X : quoteJSONString s
                = (DQUOTE :: flat_map quoteChar p)
                    ++ ":"%char :: (flat_map quoteChar rest ++ [DQUOTE])).
    { unfold quoteJSONString. rewrite E, flat_map_app. cbn [flat_map].
      change (quoteChar ":") with [":"%char].
      rewrite <- app_assoc. reflexivity. }
    assert (NC : includes ":" (DQUOTE :: flat_map quoteChar p) = false).
    { change (includes ":" (DQUOTE :: flat_map quoteChar p))
        with (Ascii.eqb ":" DQUOTE || includes ":" (flat_map quoteChar p)).
      rewrite (quoted_body_no_colon p Hp). reflexivity. }
    unfold dashKeyValue. rewrite X, (indexOf_app_found _ _ _ NC), substring_prefix.
    rewrite (keyPart_quoted p Hw Hr). apply andb_false_r.
  - intros _. apply dashKeyValue_no_colon, quoted_no_colon, Hc.
Qed.

(** A dash line with a value that is not a key-value pair. *)
Lemma processContent_dash_value (lines : list str) (i : nat) (k : Z) (x : str)
      (v : Value) (st : pstate) (base : list frame) (p : list step)
      (items : list Value) :
  clean x = true -> dashKeyValue x = false -> parseValue x = Ok v ->
  popFrames (root st) (stack st) k (lit "- " ++ x) = base ->
  obj (top base) = Attached p -> getAt (root st) p = Some (VArr items) ->
  processContent lines i k (lit "- " ++ x) st
  = Ok {| root := setAt (root st) p (VArr (items ++ [v])); stack := base |}.
Proof.
  intros Hc Hkv Hp Hpop Hobj Hget. unfold processContent.
  change (startsWith (lit "- ") (lit "- " ++ x)) with true. cbv iota.
  rewrite Hpop, Hobj, dash_valueStr, clean_not_nil by exact Hc.
  assert (A : isArrayRef (root st) (Attached p) = true)
    by (unfold isArrayRef; rewrite Hget; reflexivity).
  rewrite A. cbn [negb andb].
  unfold dashKeyValue in Hkv. cbv zeta in Hkv |- *. rewrite Hkv.
  rewrite Hp. cbn [bind]. rewrite (pushIfArray_array _ _ _ _ Hget).
  reflexivity.
Qed.

Lemma rawKey_quoted (key : str) :
  rawKey key = true ->
  flat_map quoteChar key = key /\ key <> []
  /\ forallb (fun x => negb (Ascii.eqb x DQUOTE)) key = true.
Proof.
  unfold rawKey. intros H. apply andb_true_iff in H. destruct H as [Hne H].
  split; [|split].
  - clear Hne. induction key as [|c key IH]; [reflexivity|].
    cbn [forallb] in H. apply andb_true_iff in H. destruct H as [Hc H].
    cbn [flat_map]. apply str_eqb_eq in Hc. rewrite Hc, (IH H). reflexivity.
  - intros ->. discriminate Hne.
  - clear Hne. induction key as [|c key IH]; [reflexivity|].
    cbn [forallb] in H |- *. apply andb_true_iff in H. destruct H as [Hc H].
    rewrite (IH H), andb_true_r.
    destruct (Ascii.eqb_spec c DQUOTE) as [->|]; [discriminate Hc | reflexivity].
Qed.

(** The first key of an object behind a dash: the test of the dash line
    accepts it, and the key is what remains without the quotes. *)
Lemma firstKey_line (key : str) :
  firstKeyOk key = true ->
  testKeyLike (formattedKey key) || testQuotedKey (formattedKey key) = true
  /\ stripQuotes (formattedKey key) = key.
Proof.
  unfold firstKeyOk, formattedKey. destruct (testWord key) eqn:W.
  - intros _. rewrite (testKeyLike_word key W), (word_no_quotes key W).
    split; reflexivity.
  - cbn [orb]. intros H. destruct (rawKey_quoted key H) as (E & Hne & Hq).
    unfold quoteJSONString. rewrite E. split.
    + apply orb_true_iff. right. unfold testQuotedKey.
      rewrite rev_app_distr. cbn [rev app].
      change (Ascii.eqb DQUOTE DQUOTE) with true. cbn [andb].
      rewrite forallb_rev, Hq, andb_true_r.
      destruct key as [|c key]; [congruence|]. cbn [rev].
      destruct (rev key); reflexivity.
    + unfold stripQuotes. change (isQuoteChar DQUOTE) with true. cbv iota.
      rewrite rev_app_distr. cbn [rev app].
      change (isQuoteChar DQUOTE) with true. cbv iota.
      apply rev_involutive.
Qed.

(** A dash line that opens an object with its first field. *)
Lemma processContent_dash_field (lines : list str) (i : nat) (k : Z)
      (key : str) (v : Value) (st : pstate) (base : list frame)
      (p : list step) (items : list Value) :
  includes ":" key = false -> firstKeyOk key = true -> keySuffix v = [] ->
  popFrames (root st) (stack st) k
            (lit "- " ++ fieldContent (formattedKey key) v) = base ->
  obj (top base) = Attached p -> getAt (root st) p = Some (VArr items) ->
  processContent lines i k (lit "- " ++ fieldContent (formattedKey key) v) st
  = processValue
      {| root := setAt (root st) p (VArr (items ++ [VObj []]));
         stack := {| obj := Attached (p ++ [SIdx (length items)]);
                     indent := k; key := None |} :: base |}
      (Attached (p ++ [SIdx (length items)])) key (valueText v) (k + 2) lines i.
Proof.
  intros Hcolon Hk Hs Hpop Hobj Hget.
  destruct (formattedKey_line key Hcolon) as (F1 & F2 & _ & F4 & _).
  destruct (firstKey_line key Hk) as (F5 & F6).
  set (fk := formattedKey key) in *.
  assert (C : clean (fieldContent fk v) = true).
  { unfold fieldContent. rewrite Hs, app_nil_r.
    destruct (clean_parts _ F2) as (S & _ & L).
    apply clean_app; auto.
    - unfold afterColon. destruct (valueText_clean v) as [E | Cv].
      + rewrite E. reflexivity.
      + destruct (clean_nonempty _ Cv) as (y & r & E). rewrite E in *.
        apply endsClean_app, endsClean_app. apply clean_parts in Cv. tauto.
    - unfold afterColon. destruct (valueText_clean v) as [E | Cv].
      + rewrite E. reflexivity.
      + destruct (clean_nonempty _ Cv) as (y & r & E). rewrite E in *.
        rewrite !notLF_app. apply clean_parts in Cv.
        destruct Cv as (_ & _ & Lv). rewrite Lv. reflexivity. }
  unfold processContent.
  change (startsWith (lit "- ") (lit "- " ++ fieldContent fk v)) with true.
  cbv iota. rewrite Hpop, Hobj, dash_valueStr, clean_not_nil by exact C.
  assert (A : isArrayRef (root st) (Attached p) = true)
    by (unfold isArrayRef; rewrite Hget; reflexivity).
  rewrite A. cbn [negb andb].
  unfold fieldContent. rewrite Hs, app_nil_r.
  cbn [lit list_ascii_of_string app].
  rewrite indexOf_app_found by exact F1.
  pose proof (len_nonneg fk).
  destruct (Z.eqb_spec (len fk) (-1)); [lia|]. cbn [negb andb].
  rewrite substring_prefix, substringFrom_after, F5.
  rewrite (pushIfArray_array _ _ _ _ Hget). cbn [bind].
  rewrite trim_clean by exact F2.
  rewrite F4, F6, afterColon_trim. reflexivity.
Qed.

(** The first dash line turns the empty root object into an array. *)
Lemma processContent_root_dash (lines : list str) (i : nat) (k : Z) (c : str) :
  startsWith (lit "- ") c = true ->
  processContent lines i k c emptyState
  = processContent lines i k c {| root := VArr []; stack := [] |}.
Proof. intros H. unfold processContent. rewrite H. reflexivity. Qed.

(** ** Running the loop over a range of lines *)

Fixpoint runFrom (lines : list str) (i m : nat) (st : pstate) : outcome pstate :=
  match m with
  | O => Ok st
  | S m' =>
      match nth_error lines i with
      | Some line =>
          let* st' := processLine lines i line st in runFrom lines (S i) m' st'
      | None => Ok st
      end
  end.

Lemma convertLoop_runFrom (lines todo pre : list str) (st : pstate) :
  lines = pre ++ todo ->
  convertLoop lines todo (length pre) st
  = runFrom lines (length pre) (length todo) st.
Proof.
  revert pre st. induction todo as [|line todo IH]; intros pre st E; [reflexivity|].
  cbn [convertLoop length runFrom].
  assert (N : nth_error lines (length pre) = Some line).
  { rewrite E, nth_error_app2, Nat.sub_diag by lia. reflexivity. }
  rewrite N. destruct (processLine lines (length pre) line st) as [st'| |];
    cbn [bind]; try reflexivity.
  specialize (IH (pre ++ [line]) st').
  rewrite length_app, Nat.add_1_r in IH. apply IH.
  rewrite <- app_assoc. exact E.
Qed.

Lemma runFrom_add (lines : list str) (a b i : nat) (st : pstate) :
  runFrom lines i (a + b) st
  = let* st' := runFrom lines i a st in runFrom lines (i + a) b st'.
Proof.
  revert i st. induction a as [|a IH]; intros i st.
  - cbn [Nat.add runFrom bind]. rewrite Nat.add_0_r. reflexivity.
  - cbn [Nat.add runFrom].
    destruct (nth_error lines i) as [line|] eqn:E.
    + destruct (processLine lines i line st) as [st'| |]; cbn [bind];
        try reflexivity.
      rewrite IH. replace (S i + a)%nat with (i + S a)%nat by lia. reflexivity.
    + cbn [bind]. destruct b as [|b]; [reflexivity|]. cbn [runFrom].
      assert (N : nth_error lines (i + S a) = None).
      { apply nth_error_None. apply nth_error_None in E. lia. }
      rewrite N. reflexivity.
Qed.

(** The lexed lines [L] hold the segment [seg] from index [i] on. *)
Definition segAt (L : list (Z * str)) (i : nat) (seg : list (nat * str)) : Prop :=
  forall j k c, nth_error seg j = Some (k, c) ->
                nth_error L (i + j) = Some (Z.of_nat k, c).

Lemma segAt_cons (L : list (Z * str)) (i : nat) (k : nat) (c : str)
      (seg : list (nat * str)) :
  segAt L i ((k, c) :: seg) ->
  nth_error L i = Some (Z.of_nat k, c) /\ segAt L (S i) seg.
Proof.
  intros H. split.
  - specialize (H 0%nat k c eq_refl). rewrite Nat.add_0_r in H. exact H.
  - intros j k' c' Hj. specialize (H (S j) k' c' Hj).
    replace (S i + j)%nat with (i + S j)%nat by lia. exact H.
Qed.

Lemma segAt_app (L : list (Z * str)) (i : nat) (a b : list (nat * str)) :
  segAt L i (a ++ b) -> segAt L i a /\ segAt L (i + length a) b.
Proof.
  intros H. split.
  - intros j k c Hj. apply H. rewrite nth_error_app1; [exact Hj|].
    apply nth_error_Some. congruence.
  - intros j k c Hj. rewrite <- Nat.add_assoc. apply H.
    rewrite nth_error_app2, Nat.add_comm, Nat.add_sub by lia. exact Hj.
Qed.

Lemma runFrom_step (lines : list str) (i m : nat) (k : Z) (c : str) (st : pstate) :
  nth_error (map lexLine lines) i = Some (k, c) ->
  runFrom lines i (S m) st
  = let* st' := processContent lines i k c st in runFrom lines (S i) m st'.
Proof.
  intros H. rewrite nth_error_map in H. cbn [runFrom].
  destruct (nth_error lines i) as [line|]; [|discriminate H].
  cbn [option_map] in H. unfold lexLine in H. injection H as H1 H2.
  unfold processLine. rewrite H1, H2. reflexivity.
Qed.

Lemma mapKey_same (g : Value -> Value) (fields : list (str * Value)) (k : str)
      (w : Value) :
  getKey fields k = Some w -> g w = w -> mapKey g fields k = fields.
Proof.
  induction fields as [|[k' x] fields IH]; [discriminate|].
  cbn [getKey mapKey]. destruct (str_eqb k' k).
  - intros [= ->] E. rewrite E. reflexivity.
  - intros H E. rewrite (IH H E). reflexivity.
Qed.

Lemma mapNth_same (g : Value -> Value) (items : list Value) (i : nat) (w : Value) :
  nth_error items i = Some w -> g w = w -> mapNth g items i = items.
Proof.
  revert i. induction items as [|x items IH]; intros [|i]; try discriminate.
  - cbn [nth_error mapNth]. intros [= ->] E. rewrite E. reflexivity.
  - cbn [nth_error mapNth]. intros H E. rewrite (IH _ H E). reflexivity.
Qed.

Lemma setAt_same (root : Value) (p : list step) (v : Value) :
  getAt root p = Some v -> setAt root p v = root.
Proof.
  unfold setAt. revert root. induction p as [|[k|i] p IH]; intros root H.
  - cbn [getAt updateAt] in *. congruence.
  - destruct root; try discriminate H. cbn [getAt updateAt] in *.
    destruct (getKey fields k) as [w|] eqn:E; [|discriminate H].
    f_equal. apply (mapKey_same _ _ _ w E). apply IH, H.
  - destruct root; try discriminate H. cbn [getAt updateAt] in *.
    destruct (nth_error items i) as [w|] eqn:E; [|discriminate H].
    f_equal. apply (mapNth_same _ _ _ w E). apply IH, H.
Qed.

(** ** The parser on the lines of a value *)

(** The effect of the value of a field: [processValue] on its text,
    followed by the loop over the lines below it, stores the value under
    the key and leaves frames that are at least as deep as [ind]. *)
Definition ValueOk (v : Value) : Prop :=
  forall lines i st p fs key ind lvl,
    fieldOk v = true -> 2 * Z.of_nat lvl = ind + 2 ->
    getAt (root st) p = Some (VObj fs) -> str_eqb key protoKey = false ->
    segAt (map lexLine lines) (S i) (childLines v lvl) ->
    exists st1,
      processValue st (Attached p) key (valueText v) ind lines i = Ok st1
      /\ exists st',
           runFrom lines (S i) (length (childLines v lvl)) st1 = Ok st'
           /\ root st' = setAt (root st) p (VObj (objPut fs key v))
           /\ exists above',
                stack st' = above' ++ stack st
                /\ Forall (fun f => ind <= indent f) above'.

Definition fieldKeyOk (kv : str * Value) : bool :=
  testWord (fst kv) && negb (str_eqb (fst kv) protoKey).

Lemma fields_ok (fields : list (str * Value)) :
  (forall kv, In kv fields -> ValueOk (snd kv)) ->
  forallb (fun kv => keyOk (fst kv)) fields = true ->
  forallb (fun kv => fieldOk (snd kv)) fields = true ->
  forall lines i st p fs base above n,
    segAt (map lexLine lines) i (flat_map (fieldLines n) fields) ->
    stack st = above ++ base ->
    Forall (fun f => Z.of_nat (2 * n) <= indent f) above ->
    indent (top base) < Z.of_nat (2 * n) ->
    obj (top base) = Attached p -> getAt (root st) p = Some (VObj fs) ->
    exists st',
      runFrom lines i (length (flat_map (fieldLines n) fields)) st = Ok st'
      /\ root st' = setAt (root st) p (VObj (objPutAll fs fields))
      /\ exists above',
           stack st' = above' ++ base
           /\ Forall (fun f => Z.of_nat (2 * n) <= indent f) above'.
Proof.
  induction fields as [|[key v] fields IH];
    intros Hall Hkeys Hvals lines i st p fs base above n Hseg Hst Habove Hbase Hobj Hget.
  - exists st. split; [reflexivity|]. split.
    + cbn [objPutAll fold_left]. symmetry. apply setAt_same, Hget.
    + exists above. auto.
  - cbn [forallb] in Hkeys, Hvals.
    apply andb_true_iff in Hkeys, Hvals.
    destruct Hkeys as [Hkey Hkeys], Hvals as [Hv Hvals].
    unfold keyOk in Hkey. cbn [fst snd] in Hkey, Hv.
    apply andb_true_iff in Hkey. destruct Hkey as [Hcolon Hproto].
    apply negb_true_iff in Hcolon, Hproto.
    cbn [flat_map] in *. rewrite fieldLines_content in * by assumption.
    cbn [app] in Hseg. apply segAt_cons in Hseg. destruct Hseg as [Hline Hseg].
    apply segAt_app in Hseg. destruct Hseg as [Hchild Hrest].
    cbn [app length]. rewrite length_app.
    rewrite (runFrom_step _ _ _ _ _ _ Hline).
    rewrite processContent_fieldContent by exact Hcolon.
    unfold fieldStep. rewrite Hst.
    rewrite popFrames_field by (auto; reflexivity).
    destruct (formattedKey_line key Hcolon) as (_ & _ & _ & _ & D).
    rewrite D. cbn [bind]. rewrite Hobj.
    pose proof (Hall (key, v) (or_introl eq_refl)) as HV. cbn [snd] in HV.
    destruct (HV lines i {| root := root st; stack := base |} p fs key
                 (Z.of_nat (2 * n)) (S n) Hv ltac:(lia) Hget Hproto Hchild)
      as (st1 & E1 & st2 & E2 & R2 & above2 & S2 & A2).
    rewrite E1. cbn [bind]. rewrite runFrom_add, E2. cbn [bind].
    cbn [root stack] in R2, S2.
    destruct (IH (fun kv H => Hall kv (or_intror H)) Hkeys Hvals lines
                 (S i + length (childLines v (S n)))%nat st2 p
                 (objPut fs key v) base above2 n Hrest S2 A2 Hbase Hobj)
      as (st3 & E3 & R3 & above3 & S3 & A3).
    { rewrite R2. apply (getAt_setAt _ _ _ _ Hget). }
    exists st3. split; [exact E3|]. split; [|exists above3; auto].
    rewrite R3, R2, setAt_setAt. reflexivity.
Qed.

(** Keys of word characters are keys of field lines. *)
Lemma fieldKeys_keyOk (fields : list (str * Value)) :
  forallb fieldKeyOk fields = true ->
  forallb (fun kv => keyOk (fst kv)) fields = true.
Proof.
  intros H. apply forallb_forall. intros kv Hin.
  pose proof (proj1 (forallb_forall _ _) H kv Hin) as K. unfold fieldKeyOk in K.
  apply andb_true_iff in K. destruct K as [K1 K2]. unfold keyOk.
  rewrite (plainKey_no_colon _ (testWord_plainKey _ K1)), K2. reflexivity.
Qed.

(** ** Items of an array, as the parser reads them *)

(** An item of an array that holds a container. *)
Definition itemOk (item : Value) : bool :=
  match item with
  | VArr [] => true
  | VArr _ => false
  | VObj fields => firstFieldOk fields && fieldOk item
  | _ => blockScalarOk item
  end.

Lemma fieldOk_complex (items : list Value) :
  isSimple items = false ->
  fieldOk (VArr items) = forallb itemOk items.
Proof. intros H. cbn [fieldOk]. rewrite H. reflexivity. Qed.

Lemma blockScalar_line (v : Value) (n : nat) :
  isObjectLike v = false -> blockScalarOk v = true ->
  itemLines n v = [((2 * n)%nat, lit "- " ++ toToon v 0)]
  /\ clean (toToon v 0) = true
  /\ dashKeyValue (toToon v 0) = false
  /\ parseValue (toToon v 0) = Ok v.
Proof.
  intros Ho H. unfold blockScalarOk in H. apply andb_true_iff in H.
  destruct H as [Hs Hc]. split; [|split; [|split]].
  - destruct v; try discriminate Ho; reflexivity.
  - apply text_clean, scalar_text, Ho.
  - destruct v as [| b | x | s | items | fields]; try discriminate Ho.
    + reflexivity.
    + destruct b; reflexivity.
    + apply dashKeyValue_no_colon, token_no_colon, numberToString_token.
    + apply negb_true_iff in Hc.
      destruct (toToon_string_cases s 0) as [(E & T & _) | E]; rewrite E.
      * apply dashKeyValue_no_colon, token_no_colon, T.
      * apply dashKeyValue_quoted, Hc.
  - apply parseValue_scalar, Hs.
Qed.

Lemma keysOk_fieldKeys (fields : list (str * Value)) :
  keysOk fields = true -> forallb (fun kv => keyOk (fst kv)) fields = true.
Proof.
  unfold keysOk. intros H. apply andb_true_iff in H. tauto.
Qed.

Lemma itemLines_object (n : nat) (key : str) (v : Value)
      (rest : list (str * Value)) :
  fieldOk v = true ->
  itemLines n (VObj ((key, v) :: rest))
  = ((2 * n)%nat, lit "- " ++ fieldContent (formattedKey key) v)
      :: childLines v (S (S n)) ++ flat_map (fieldLines (S n)) rest.
Proof.
  intros Hv. unfold itemLines.
  rewrite toonLines_object by discriminate. cbn [flat_map].
  rewrite fieldLines_content by assumption. cbn [app dashObject].
  replace (2 * n + 2 <=? 2 * S n)%nat with true
    by (symmetry; apply Nat.leb_le; lia).
  replace (2 * S n - (2 * n + 2))%nat with 0%nat by lia.
  reflexivity.
Qed.

Section Item.

Variables (lines : list str) (i n : nat) (st : pstate) (p : list step).
Variables (items0 : list Value) (base above : list frame).

Hypothesis Hst : stack st = above ++ base.
Hypothesis Habove : itemFrames (root st) (Z.of_nat (2 * n)) above.
Hypothesis Hbase : indent (top base) < Z.of_nat (2 * n).
Hypothesis Hobj : obj (top base) = Attached p.
Hypothesis Hget : getAt (root st) p = Some (VArr items0).

Lemma item_pop (c : str) :
  popFrames (root st) (stack st) (Z.of_nat (2 * n)) c = base.
Proof. rewrite Hst. apply popFrames_dash; assumption. Qed.

(** The post-condition of one item. *)
Definition itemDone (item : Value) (m : nat) : Prop :=
  exists st',
    runFrom lines i m st = Ok st'
    /\ root st' = setAt (root st) p (VArr (items0 ++ [item]))
    /\ exists above',
         stack st' = above' ++ base
         /\ itemFrames (root st') (Z.of_nat (2 * n)) above'.

Lemma dash_value_ok (item : Value) (x : str) :
  clean x = true -> dashKeyValue x = false -> parseValue x = Ok item ->
  segAt (map lexLine lines) i [((2 * n)%nat, lit "- " ++ x)] ->
  itemDone item 1.
Proof.
  intros C NC PV Hseg. apply segAt_cons in Hseg. destruct Hseg as [Hline _].
  unfold itemDone. rewrite (runFrom_step _ _ _ _ _ _ Hline).
  rewrite (processContent_dash_value lines i _ x item st base p items0
             C NC PV (item_pop _) Hobj Hget).
  cbn [bind runFrom]. eexists. split; [reflexivity|]. split; [reflexivity|].
  exists []. split; [reflexivity | constructor].
Qed.

Lemma dash_object_ok (key : str) (v : Value) (rest : list (str * Value)) :
  ValueOk v -> (forall kv, In kv rest -> ValueOk (snd kv)) ->
  itemOk (VObj ((key, v) :: rest)) = true ->
  segAt (map lexLine lines) i (itemLines n (VObj ((key, v) :: rest))) ->
  itemDone (VObj ((key, v) :: rest))
           (length (itemLines n (VObj ((key, v) :: rest)))).
Proof.
  intros HV Hrest Hok Hseg. unfold itemOk in Hok.
  apply andb_true_iff in Hok. destruct Hok as [Hfirst Hok].
  cbn [fieldOk] in Hok. apply andb_true_iff in Hok.
  destruct Hok as [Hkeys Hvals].
  pose proof (keysOk_fieldKeys _ Hkeys) as Hfk.
  cbn [forallb] in Hfk, Hvals. apply andb_true_iff in Hfk, Hvals.
  destruct Hfk as [Hkey Hfk], Hvals as [Hv Hvals].
  unfold keyOk in Hkey. cbn [fst snd] in Hkey, Hv.
  apply andb_true_iff in Hkey. destruct Hkey as [Hcolon Hproto].
  apply negb_true_iff in Hcolon, Hproto.
  assert (Hsuf : keySuffix v = [])
    by (destruct v; try reflexivity; discriminate Hfirst).
  assert (Hfirst' : firstKeyOk key = true)
    by (destruct v; try exact Hfirst; discriminate Hfirst).
  rewrite itemLines_object in * by assumption.
  apply segAt_cons in Hseg. destruct Hseg as [Hline Hseg].
  apply segAt_app in Hseg. destruct Hseg as [Hchild Hfields].
  unfold itemDone. cbn [length]. rewrite length_app.
  rewrite (runFrom_step _ _ _ _ _ _ Hline).
  rewrite (processContent_dash_field lines i _ key v st base p items0
             Hcolon Hfirst' Hsuf (item_pop _) Hobj Hget).
  set (p' := p ++ [SIdx (length items0)]).
  set (f := {| obj := Attached p'; indent := Z.of_nat (2 * n); key := None |}).
  set (st1 := {| root := setAt (root st) p (VArr (items0 ++ [VObj []]));
                 stack := f :: base |}).
  assert (G1 : getAt (root st1) p' = Some (VObj [])).
  { apply getAt_last. apply (getAt_setAt _ _ _ _ Hget). }
  destruct (HV lines i st1 p' [] key (Z.of_nat (2 * n) + 2) (S (S n))
               Hv ltac:(lia) G1 Hproto Hchild)
    as (st2 & E2 & st3 & E3 & R3 & above3 & S3 & A3).
  rewrite E2. cbn [bind]. rewrite runFrom_add, E3. cbn [bind].
  assert (G3 : getAt (root st3) p' = Some (VObj (objPut [] key v))).
  { rewrite R3. apply (getAt_setAt _ _ _ _ G1). }
  assert (A3' : Forall (fun g => Z.of_nat (2 * S n) <= indent g) above3).
  { eapply Forall_impl; [|exact A3]. cbv beta. intros g Hg. lia. }
  destruct (fields_ok rest Hrest Hfk Hvals lines
              (S i + length (childLines v (S (S n))))%nat st3 p'
              (objPut [] key v) (f :: base) above3 (S n) Hfields S3 A3'
              ltac:(cbn [top f indent]; lia) eq_refl G3)
    as (st4 & E4 & R4 & above4 & S4 & A4).
  assert (R : root st4 = setAt (root st) p
                           (VArr (items0 ++ [VObj ((key, v) :: rest)]))).
  { rewrite R4, R3, setAt_setAt. unfold st1, p'. cbn [root].
    rewrite setAt_child, setAt_last.
    change (objPutAll (objPut [] key v) rest)
      with (objPutAll [] ((key, v) :: rest)).
    rewrite (keysOk_append _ Hkeys). reflexivity. }
  exists st4. split; [exact E4|]. split; [exact R|].
  exists (above4 ++ [f]). split; [rewrite <- app_assoc; exact S4|].
  apply Forall_app. split.
  - eapply Forall_impl; [|exact A4]. cbv beta. intros g Hg. left. lia.
  - constructor; [|constructor]. right. split; [reflexivity|].
    unfold isArrayRef, f. cbn [obj].
    rewrite R4, (getAt_setAt _ _ _ _ G3). reflexivity.
Qed.

End Item.

Lemma item_ok (item : Value) :
  (forall fields, item = VObj fields ->
                  forall kv, In kv fields -> ValueOk (snd kv)) ->
  itemOk item = true ->
  forall lines i n st p items0 base above,
    stack st = above ++ base ->
    itemFrames (root st) (Z.of_nat (2 * n)) above ->
    indent (top base) < Z.of_nat (2 * n) ->
    obj (top base) = Attached p -> getAt (root st) p = Some (VArr items0) ->
    segAt (map lexLine lines) i (itemLines n item) ->
    itemDone lines i n st p items0 base item (length (itemLines n item)).
Proof.
  intros Hsub Hok lines i n st p items0 base above Hst Ha Hb Ho Hg Hseg.
  assert (Scalar : isObjectLike item = false -> blockScalarOk item = true ->
                   itemDone lines i n st p items0 base item
                            (length (itemLines n item))).
  { intros H1 H2. destruct (blockScalar_line item n H1 H2) as (EL & C & NC & PV).
    rewrite EL in *.
    exact (dash_value_ok lines i n st p items0 base above Hst Ha Hb Ho Hg
             item _ C NC PV Hseg). }
  destruct item as [| b | x | s | items | fields];
    try (apply Scalar; [reflexivity | exact Hok]).
  - destruct items as [|item items]; [|discriminate Hok].
    exact (dash_value_ok lines i n st p items0 base above Hst Ha Hb Ho Hg
             (VArr []) (lit "[]") eq_refl eq_refl eq_refl Hseg).
  - destruct fields as [|[key v] rest].
    + discriminate Hok.
    + apply (dash_object_ok lines i n st p items0 base above Hst Ha Hb Ho Hg);
        try assumption.
      * apply (Hsub _ eq_refl (key, v)). left. reflexivity.
      * intros kv Hin. apply (Hsub _ eq_refl kv). right. exact Hin.
Qed.

Lemma items_ok (items : list Value) :
  (forall fields, In (VObj fields) items ->
                  forall kv, In kv fields -> ValueOk (snd kv)) ->
  forallb itemOk items = true ->
  forall lines i n st p items0 base above,
    stack st = above ++ base ->
    itemFrames (root st) (Z.of_nat (2 * n)) above ->
    indent (top base) < Z.of_nat (2 * n) ->
    obj (top base) = Attached p -> getAt (root st) p = Some (VArr items0) ->
    segAt (map lexLine lines) i (flat_map (itemLines n) items) ->
    exists st',
      runFrom lines i (length (flat_map (itemLines n) items)) st = Ok st'
      /\ root st' = setAt (root st) p (VArr (items0 ++ items))
      /\ exists above',
           stack st' = above' ++ base
           /\ itemFrames (root st') (Z.of_nat (2 * n)) above'.
Proof.
  induction items as [|item items IH];
    intros Hsub Hok lines i n st p items0 base above Hst Ha Hb Ho Hg Hseg.
  - exists st. split; [reflexivity|]. split.
    + rewrite app_nil_r. symmetry. apply setAt_same, Hg.
    + exists above. auto.
  - cbn [forallb] in Hok. apply andb_true_iff in Hok.
    destruct Hok as [Hitem Hitems]. cbn [flat_map] in *.
    apply segAt_app in Hseg. destruct Hseg as [Hseg1 Hseg2].
    rewrite length_app, runFrom_add.
    assert (Hsub1 : forall fields, item = VObj fields ->
                      forall kv, In kv fields -> ValueOk (snd kv)).
    { intros fields -> kv Hin.
      apply (Hsub fields); [left; reflexivity | exact Hin]. }
    destruct (item_ok item Hsub1 Hitem lines i n st p items0 base above
                Hst Ha Hb Ho Hg Hseg1)
      as (st1 & E1 & R1 & above1 & S1 & A1).
    rewrite E1. cbn [bind].
    destruct (IH (fun fields H => Hsub fields (or_intror H)) Hitems lines
                 (i + length (itemLines n item))%nat n st1 p (items0 ++ [item])
                 base above1 S1 A1 Hb Ho)
      as (st2 & E2 & R2 & above2 & S2 & A2).
    { rewrite R1. apply (getAt_setAt _ _ _ _ Hg). }
    { exact Hseg2. }
    exists st2. split; [exact E2|]. split; [|exists above2; auto].
    rewrite R2, R1, setAt_setAt, <- app_assoc. reflexivity.
Qed.

(** ** Values of fields, as the parser reads them *)

Lemma stored_ok (st : pstate) (p : list step) (fs : list (str * Value))
      (key x : str) (v : Value) (ind : Z) (lines : list str) (i : nat) :
  getAt (root st) p = Some (VObj fs) -> str_eqb key protoKey = false ->
  processValue st (Attached p) key x ind lines i
  = (let* (root', _) := assign (root st) (Attached p) key v in
     Ok {| root := root'; stack := stack st |}) ->
  exists st1,
    processValue st (Attached p) key x ind lines i = Ok st1
    /\ exists st',
         runFrom lines (S i) 0 st1 = Ok st'
         /\ root st' = setAt (root st) p (VObj (objPut fs key v))
         /\ exists above',
              stack st' = above' ++ stack st
              /\ Forall (fun f => ind <= indent f) above'.
Proof.
  intros Hg Hk E. rewrite E, (assign_object _ _ _ _ _ Hg Hk). cbn [bind].
  eexists. split; [reflexivity|]. eexists. split; [reflexivity|].
  split; [reflexivity|]. exists []. split; [reflexivity | constructor].
Qed.

Lemma scalar_ok (v : Value) : isObjectLike v = false -> ValueOk v.
Proof.
  intros Ho lines i st p fs key ind lvl Hv _ Hg Hk _.
  assert (E1 : valueText v = toToon v 0)
    by (destruct v; try discriminate Ho; reflexivity).
  assert (E2 : childLines v lvl = [])
    by (destruct v; try discriminate Ho; reflexivity).
  assert (Hs : scalarOk v = true)
    by (destruct v; try discriminate Ho; exact Hv).
  rewrite E1, E2. apply stored_ok; try assumption.
  apply processValue_text; [apply scalar_text, Ho | apply parseValue_scalar, Hs].
Qed.

Lemma simpleItem_cell (v : Value) :
  simpleItemOk v = true ->
  isCell (toToon v 0) /\ parseValue (toToon v 0) = Ok v.
Proof.
  unfold simpleItemOk. intros H. apply andb_true_iff in H. destruct H as [Hs Hb].
  split; [|apply parseValue_scalar, Hs].
  destruct v as [| b | x | s | items | fields]; try discriminate Hs.
  - left; reflexivity.
  - left; destruct b; reflexivity.
  - left; apply numberToString_token.
  - apply negb_true_iff in Hb.
    destruct (toToon_string_cases s 0) as [(E & T & _) | E]; rewrite E.
    + left; exact T.
    + right; eauto.
Qed.

Lemma simpleItems_cells (items : list Value) :
  forallb simpleItemOk items = true ->
  Forall isCell (map (fun item => toToon item 0) items)
  /\ Forall2 (fun x v => parseValue x = Ok v)
             (map (fun item => toToon item 0) items) items.
Proof.
  induction items as [|v items IH]; intros H.
  - split; constructor.
  - cbn [forallb] in H. apply andb_true_iff in H. destruct H as [Hv H].
    destruct (simpleItem_cell v Hv) as [C P], (IH H) as [Cs Ps].
    split; constructor; assumption.
Qed.

(** The last cell of an inline array may be the quoted form of any
    string: nothing follows its closing quote. *)
Lemma splitByComma_text_end (z : str) (prev : option ascii)
      (result : list str) (qc : str) :
  isText z -> prev <> Some BSLASH ->
  splitByComma_loop z prev result [] false qc = result ++ [z].
Proof.
  intros [H | (s & ->)] Hp.
  - pose proof (token_clean z H) as C.
    apply isToken_parts in H. destruct H as [_ H].
    rewrite <- (app_nil_r z) at 1. rewrite splitByComma_token by exact H.
    cbn [splitByComma_loop app]. rewrite (trim_clean z C). reflexivity.
  - pose proof (quoted_clean s) as C. unfold quoteJSONString in *.
    cbn [app splitByComma_loop].
    change (isQuoteChar DQUOTE) with true.
    replace (match prev with
             | Some b => negb (Ascii.eqb b BSLASH)
             | None => true
             end) with true.
    2:{ destruct prev as [p|]; [|reflexivity].
        destruct (Ascii.eqb_spec p BSLASH) as [->|]; [congruence | reflexivity]. }
    cbn [andb negb]. eval_eqb. cbn [andb].
    rewrite splitByComma_quoted_body.
    cbn [app splitByComma_loop].
    change (isQuoteChar DQUOTE) with true.
    destruct (lastOf (Some DQUOTE) (flat_map quoteChar s)) as [p|] eqn:E.
    + destruct (Ascii.eqb_spec p BSLASH) as [->|];
        cbn [negb andb str_eqb]; eval_eqb; cbn [andb];
        rewrite <- ?app_assoc; cbn [app]; rewrite (trim_clean _ C); reflexivity.
    + cbn [negb andb str_eqb]. eval_eqb. cbn [andb].
      rewrite <- ?app_assoc. cbn [app]. rewrite (trim_clean _ C). reflexivity.
Qed.

Lemma splitByComma_cells_last (xs : list str) (z : str) :
  Forall isCell xs -> isText z ->
  forall prev result qc, prev <> Some BSLASH ->
  splitByComma_loop (join (lit ",") (xs ++ [z])) prev result [] false qc
  = result ++ xs ++ [z].
Proof.
  intros H Hz. induction H as [|x xs Hx Hxs IH]; intros prev result qc Hp.
  - cbn [app join]. apply splitByComma_text_end; assumption.
  - assert (J : join (lit ",") ((x :: xs) ++ [z])
                = x ++ ","%char :: join (lit ",") (xs ++ [z])).
    { cbn [app join]. destruct (xs ++ [z]) eqn:E; [|reflexivity].
      destruct xs; discriminate E. }
    rewrite J.
    destruct (splitByComma_cell x (","%char :: join (lit ",") (xs ++ [z])) prev
                                result qc Hx Hp) as (p & q & E).
    rewrite E. cbn [splitByComma_loop].
    change (isQuoteChar ",") with false. eval_eqb. cbn [andb negb].
    rewrite trim_clean by (apply cell_clean, Hx).
    rewrite IH by discriminate.
    rewrite <- app_assoc. reflexivity.
Qed.

(** An inline array whose last cell is the text of any scalar. *)
Lemma processValue_inline_last (st : pstate) (container : ref) (key : str)
      (x : str) (xs : list str) (z : str) (vs : list Value) (ind : Z)
      (lines : list str) (i : nat) :
  Forall isCell (x :: xs) -> isText z ->
  Forall2 (fun x v => parseValue x = Ok v) ((x :: xs) ++ [z]) vs ->
  processValue st container key (join (lit ",") ((x :: xs) ++ [z])) ind lines i
  = let* (root', _) := assign (root st) container key (VArr vs) in
    Ok {| root := root'; stack := stack st |}.
Proof.
  intros Hc Hz Hv.
  assert (S : splitByComma (join (lit ",") ((x :: xs) ++ [z]))
              = (x :: xs) ++ [z]).
  { unfold splitByComma.
    rewrite splitByComma_cells_last by (auto; discriminate). reflexivity. }
  assert (Hx : isCell x) by (inversion Hc; assumption).
  cbn [app] in *. destruct (xs ++ [z]) as [|y ys] eqn:Exs;
    [destruct xs; discriminate Exs|].
  set (J := join (lit ",") (x :: y :: ys)) in *.
  pose proof (includes_join_comma x y ys) as Hcomma. fold J in Hcomma.
  assert (N1 : str_eqb J [] = false).
  { apply str_eqb_neq. intros E. rewrite E in Hcomma. discriminate. }
  assert (N2 : str_eqb J (lit "[]") = false).
  { apply str_eqb_neq. intros E. rewrite E in Hcomma. discriminate. }
  assert (N3 : str_eqb J (lit "{}") = false).
  { apply str_eqb_neq. intros E. rewrite E in Hcomma. discriminate. }
  assert (Single :
            (if isQuotedBy DQUOTE J || isQuotedBy SQUOTE J
             then match JSON_parse J with
                  | Ok _ => Ok true
                  | Throw _ => Ok false
                  | Unmodelled => Unmodelled
                  end
             else Ok false) = Ok false).
  { destruct Hx as [T | (s & -> & _)].
    - destruct (token_head x T) as (c & r & -> & Tc).
      destruct (tokenChar_brackets c Tc) as (_ & _ & Q1 & Q2).
      unfold isQuotedBy, J.
      change (join (lit ",") ((c :: r) :: y :: ys))
        with (c :: (r ++ ","%char :: join (lit ",") (y :: ys))).
      cbn [startsWith]. rewrite Q1, Q2. reflexivity.
    - unfold J.
      change (join (lit ",") (quoteJSONString s :: y :: ys))
        with (quoteJSONString s ++ ","%char :: join (lit ",") (y :: ys)).
      rewrite JSON_parse_quoted_more by reflexivity.
      match goal with |- (if ?b then _ else _) = _ => destruct b end;
        reflexivity. }
  unfold processValue. rewrite N1, N2, N3, Hcomma, Single. cbn [bind].
  rewrite S, (parseValues_all _ _ Hv). reflexivity.
Qed.

Lemma inline_cells (front : list Value) (z : Value) :
  forallb scalarOk (front ++ [z]) = true ->
  forallb simpleItemOk front = true ->
  Forall isCell (map (fun item => toToon item 0) front)
  /\ isText (toToon z 0)
  /\ Forall2 (fun x v => parseValue x = Ok v)
             (map (fun item => toToon item 0) (front ++ [z])) (front ++ [z]).
Proof.
  intros Hall Hfront. split; [apply simpleItems_cells, Hfront|]. split.
  - rewrite forallb_app in Hall. apply andb_true_iff in Hall.
    destruct Hall as [_ Hz]. cbn [forallb] in Hz. rewrite andb_true_r in Hz.
    apply scalar_text. destruct z; try discriminate Hz; reflexivity.
  - induction (front ++ [z]) as [|v l IH]; [constructor|].
    cbn [forallb] in Hall. apply andb_true_iff in Hall. destruct Hall as [Hv Hl].
    cbn [map]. constructor; [apply parseValue_scalar, Hv | apply IH, Hl].
Qed.

Lemma simple_array_ok (items : list Value) :
  isSimple items = true -> ValueOk (VArr items).
Proof.
  intros Hs lines i st p fs key ind lvl Hv _ Hg Hk _.
  unfold valueText, childLines. cbn [fieldOk] in Hv. rewrite Hs in *.
  apply stored_ok; try assumption.
  destruct items as [|x [|y xs]]; [apply processValue_empty_array | discriminate Hv|].
  rewrite toToon_simple by (discriminate || exact Hs).
  unfold inlineItemsOk in Hv. apply andb_true_iff in Hv.
  destruct Hv as [Hall Hfront].
  destruct (exists_last (l := y :: xs) ltac:(discriminate)) as (front & z & E).
  rewrite E in *. clear E.
  change (x :: front ++ [z]) with ((x :: front) ++ [z]) in *.
  rewrite removelast_last in Hfront.
  destruct (inline_cells (x :: front) z Hall Hfront) as (Cs & Tz & Ps).
  rewrite map_app in *. cbn [map] in *.
  apply processValue_inline_last; assumption.
Qed.

Lemma itemLines_head (n : nat) (item : Value) :
  itemOk item = true ->
  exists c rest, itemLines n item = ((2 * n)%nat, lit "- " ++ c) :: rest.
Proof.
  intros Hok.
  assert (Scalar : isObjectLike item = false -> blockScalarOk item = true ->
                   exists c rest,
                     itemLines n item = ((2 * n)%nat, lit "- " ++ c) :: rest).
  { intros H1 H2. destruct (blockScalar_line item n H1 H2) as (EL & _).
    rewrite EL. eauto. }
  destruct item as [| b | x | s | items | fields];
    try (apply Scalar; [reflexivity | exact Hok]).
  - destruct items as [|item items]; [|discriminate Hok].
    exists (lit "[]"), []. reflexivity.
  - destruct fields as [|[key v] rest]; [discriminate Hok|].
    unfold itemOk in Hok. apply andb_true_iff in Hok. destruct Hok as [_ Hok].
    cbn [fieldOk] in Hok. apply andb_true_iff in Hok.
    destruct Hok as [Hkeys Hvals].
    pose proof (keysOk_fieldKeys _ Hkeys) as Hfk.
    cbn [forallb] in Hfk, Hvals. apply andb_true_iff in Hfk, Hvals.
    destruct Hfk as [_ _], Hvals as [Hv _]. cbn [snd] in Hv.
    rewrite itemLines_object by assumption. eauto.
Qed.

Lemma complex_array_ok (items : list Value) :
  isSimple items = false ->
  (forall fields, In (VObj fields) items ->
                  forall kv, In kv fields -> ValueOk (snd kv)) ->
  ValueOk (VArr items).
Proof.
  intros Hs Hsub lines i st p fs key ind lvl Hv Hlvl Hg Hk Hseg.
  unfold valueText, childLines in *. rewrite Hs in *.
  rewrite fieldOk_complex in Hv by exact Hs.
  rewrite toonLines_complex in * by exact Hs.
  rewrite processValue_header.
  assert (N : nextIsArray (map lexLine lines) i ind = true).
  { destruct items as [|item items']; [discriminate Hs|].
    cbn [forallb] in Hv. apply andb_true_iff in Hv. destruct Hv as [Hitem _].
    destruct (itemLines_head lvl item Hitem) as (c & rest & E).
    cbn [flat_map] in Hseg. rewrite E in Hseg. cbn [app] in Hseg.
    apply segAt_cons in Hseg. destruct Hseg as [Hline _].
    unfold nextIsArray. rewrite Hline.
    change (startsWith (lit "- ") (lit "- " ++ c)) with true.
    rewrite andb_true_r. apply Z.leb_le. lia. }
  rewrite N. cbv zeta. rewrite (assign_object _ _ _ _ _ Hg Hk). cbn [bind].
  eexists. split; [reflexivity|].
  set (f := {| obj := Attached (p ++ [SKey key]); indent := ind;
               key := Some key |}).
  set (st1 := {| root := setAt (root st) p (VObj (objPut fs key (VArr [])));
                 stack := f :: stack st |}).
  assert (G : getAt (root st1) (p ++ [SKey key]) = Some (VArr [])).
  { apply (getAt_key _ _ fs). apply (getAt_setAt _ _ _ _ Hg). }
  destruct (items_ok items Hsub Hv lines (S i) lvl st1 (p ++ [SKey key]) []
              (f :: stack st) [] eq_refl (Forall_nil _)
              ltac:(cbn [top f indent]; lia) eq_refl G Hseg)
    as (st2 & E2 & R2 & above2 & S2 & A2).
  exists st2. split; [exact E2|]. split.
  - rewrite R2. unfold st1. cbn [root app].
    rewrite setAt_child, setAt_key. reflexivity.
  - exists (above2 ++ [f]). rewrite <- app_assoc. split; [exact S2|].
    apply Forall_app. split.
    + eapply Forall_impl; [|exact A2]. cbv beta.
      intros g [Hg1 | [Hg1 _]]; lia.
    + constructor; [cbn [f indent]; lia | constructor].
Qed.

Lemma object_ok (fields : list (str * Value)) :
  (forall kv, In kv fields -> ValueOk (snd kv)) -> ValueOk (VObj fields).
Proof.
  intros Hsub lines i st p fs key ind lvl Hv Hlvl Hg Hk Hseg.
  destruct fields as [|[k1 v1] rest]; [discriminate Hv|].
  unfold valueText, childLines in *.
  rewrite toonLines_object in * by discriminate.
  cbn [fieldOk] in Hv. apply andb_true_iff in Hv. destruct Hv as [Hkeys Hvals].
  pose proof (keysOk_fieldKeys _ Hkeys) as Hfk.
  rewrite processValue_header.
  assert (N : nextIsArray (map lexLine lines) i ind = false).
  { pose proof Hfk as Hfk'. pose proof Hvals as Hvals'.
    cbn [forallb] in Hfk', Hvals'. apply andb_true_iff in Hfk', Hvals'.
    destruct Hfk' as [Hkey _], Hvals' as [Hv1 _].
    unfold keyOk in Hkey. cbn [fst snd] in Hkey, Hv1.
    apply andb_true_iff in Hkey. destruct Hkey as [Hcolon _].
    apply negb_true_iff in Hcolon.
    cbn [flat_map] in Hseg. rewrite fieldLines_content in Hseg by assumption.
    cbn [app] in Hseg. apply segAt_cons in Hseg. destruct Hseg as [Hline _].
    unfold nextIsArray. rewrite Hline. unfold fieldContent.
    destruct (formattedKey_line k1 Hcolon) as (_ & _ & D & _).
    rewrite <- !app_assoc, D. apply andb_false_r. }
  rewrite N. cbv zeta. rewrite (assign_object _ _ _ _ _ Hg Hk). cbn [bind].
  eexists. split; [reflexivity|].
  set (f := {| obj := Attached (p ++ [SKey key]); indent := ind;
               key := Some key |}).
  set (st1 := {| root := setAt (root st) p (VObj (objPut fs key (VObj [])));
                 stack := f :: stack st |}).
  assert (G : getAt (root st1) (p ++ [SKey key]) = Some (VObj [])).
  { apply (getAt_key _ _ fs). apply (getAt_setAt _ _ _ _ Hg). }
  destruct (fields_ok _ Hsub Hfk Hvals lines (S i) st1 (p ++ [SKey key]) []
              (f :: stack st) [] lvl Hseg eq_refl (Forall_nil _)
              ltac:(cbn [top f indent]; lia) eq_refl G)
    as (st2 & E2 & R2 & above2 & S2 & A2).
  exists st2. split; [exact E2|]. split.
  - rewrite R2. unfold st1. cbn [root app].
    rewrite setAt_child, setAt_key.
    rewrite (keysOk_append _ Hkeys). reflexivity.
  - exists (above2 ++ [f]). rewrite <- app_assoc. split; [exact S2|].
    apply Forall_app. split.
    + eapply Forall_impl; [|exact A2]. cbv beta. intros g Hg1. lia.
    + constructor; [cbn [f indent]; lia | constructor].
Qed.

(** Every value of the class, and every value of a field of an object of
    the class, is read back. *)
Lemma value_ok (v : Value) :
  ValueOk v
  /\ match v with
     | VObj fields => forall kv, In kv fields -> ValueOk (snd kv)
     | _ => True
     end.
Proof.
  induction v as [| b | x | s | items IH | fields IH] using Value_nested_ind;
    try (split; [apply scalar_ok; reflexivity | exact I]).
  - split; [|exact I]. destruct (isSimple items) eqn:Hs.
    + apply simple_array_ok, Hs.
    + apply complex_array_ok; [exact Hs|].
      intros fields Hin. rewrite Forall_forall in IH.
      exact (proj2 (IH _ Hin)).
  - assert (Hsub : forall kv, In kv fields -> ValueOk (snd kv)).
    { intros kv Hin. rewrite Forall_forall in IH. exact (proj1 (IH kv Hin)). }
    split; [apply object_ok, Hsub | exact Hsub].
Qed.

(** ** The round trip *)

Lemma segAt_lexed (ls : list (nat * str)) : segAt (lexed ls) 0 ls.
Proof.
  intros j k c H. unfold lexed. rewrite nth_error_map. cbn [Nat.add].
  rewrite H. reflexivity.
Qed.

Lemma filter_nonBlank (ls : list str) :
  Forall (fun line => trim line <> []) ls -> filter nonBlank ls = ls.
Proof.
  induction 1 as [|line ls Hline _ IH]; [reflexivity|].
  cbn [filter]. unfold nonBlank at 1.
  rewrite (proj2 (str_eqb_neq _ _) Hline), IH. reflexivity.
Qed.

Lemma root_dash (lines : list str) (items : list Value) :
  isSimple items = false -> forallb itemOk items = true ->
  segAt (map lexLine lines) 0 (flat_map (itemLines 0) items) ->
  runFrom lines 0 (length (flat_map (itemLines 0) items)) emptyState
  = runFrom lines 0 (length (flat_map (itemLines 0) items))
            {| root := VArr []; stack := [] |}.
Proof.
  intros Hs Hok Hseg. destruct items as [|item items]; [discriminate Hs|].
  cbn [forallb] in Hok. apply andb_true_iff in Hok. destruct Hok as [Hitem _].
  destruct (itemLines_head 0 item Hitem) as (c & rest & E).
  cbn [flat_map] in *. rewrite E in *. cbn [app length] in *.
  apply segAt_cons in Hseg. destruct Hseg as [Hline _].
  rewrite !(runFrom_step _ _ _ _ _ _ Hline).
  rewrite processContent_root_dash by reflexivity. reflexivity.
Qed.

Lemma readBack_parse (V : Value) :
  readBack V = true -> parseLines (nonBlankLines (toToon V 0)) = Ok V.
Proof.
  intros H. unfold readBack in H. apply andb_true_iff in H.
  destruct H as [Hb Hf].
  destruct (Rendered_lex _ _ (toToon_rendered V 0)) as [L NB].
  unfold nonBlankLines. rewrite (filter_nonBlank _ NB).
  set (lines := splitLines (toToon V 0)) in *.
  assert (Hseg : segAt (map lexLine lines) 0 (toonLines V 0))
    by (rewrite L; apply segAt_lexed).
  assert (Hlen : length lines = length (toonLines V 0)).
  { rewrite <- (length_map lexLine), L. unfold lexed. apply length_map. }
  unfold parseLines. rewrite (convertLoop_runFrom lines lines [] _ eq_refl).
  cbn [length]. rewrite Hlen. clear Hlen L NB.
  destruct V as [| b | x | s | items | fields]; try discriminate Hb.
  - cbn [isBlock] in Hb. apply negb_true_iff in Hb.
    rewrite toonLines_complex in * by exact Hb.
    rewrite fieldOk_complex in Hf by exact Hb.
    fold emptyState. rewrite (root_dash _ _ Hb Hf Hseg).
    destruct (items_ok items (fun fields _ => proj2 (value_ok (VObj fields)))
                Hf lines 0%nat 0%nat {| root := VArr []; stack := [] |}
                [] [] [] [] eq_refl (Forall_nil _) ltac:(cbn; lia)
                eq_refl eq_refl Hseg)
      as (st' & E & R & _).
    rewrite E. cbn [bind]. rewrite R. reflexivity.
  - destruct fields as [|f fields]; [discriminate Hb|].
    rewrite toonLines_object in * by discriminate.
    cbn [fieldOk] in Hf. apply andb_true_iff in Hf. destruct Hf as [Hkeys Hvals].
    destruct (fields_ok (f :: fields) (fun kv _ => proj1 (value_ok (snd kv)))
                (keysOk_fieldKeys _ Hkeys) Hvals lines 0%nat
                {| root := VObj []; stack := [] |} [] [] [] [] 0%nat
                Hseg eq_refl (Forall_nil _) ltac:(cbn; lia) eq_refl eq_refl)
      as (st' & E & R & _).
    rewrite E. cbn [bind]. rewrite R. cbn [root].
    rewrite (keysOk_append _ Hkeys). reflexivity.
Qed.

Lemma roundTrips_parse (V : Value) :
  roundTrips V = true -> parseLines (nonBlankLines (toToon V 0)) = Ok V.
Proof.
  destruct V as [| b | x | s | items | [|f fields]];
    try apply readBack_parse.
  intros _. reflexivity.
Qed.

(** ** Integers are read back *)

Lemma digitsOf_length (f : nat) :
  forall (n : Z) (k : nat) (acc : str),
    (1 <= k)%nat -> n < 10 ^ Z.of_nat k ->
    (length (digitsOf f n acc) <= k + length acc)%nat.
Proof.
  induction f as [|f IH]; intros n k acc Hk Hn; cbn [digitsOf]; [lia|].
  destruct (Z.ltb_spec n 10) as [Hlt | Hge]; [cbn [length]; lia|].
  destruct k as [|[|k]]; [lia | cbn in Hn; lia |].
  specialize (IH (n / 10) (S k) (digitChar (n mod 10) :: acc) ltac:(lia)).
  cbn [length] in IH. etransitivity; [apply IH|lia].
  apply Z.div_lt_upper_bound; [lia|].
  rewrite <- Z.pow_succ_r by lia. rewrite <- Nat2Z.inj_succ. exact Hn.
Qed.

Lemma decimal_length (n : Z) (k : nat) :
  (1 <= k)%nat -> n < 10 ^ Z.of_nat k -> len (decimal n) <= Z.of_nat k.
Proof.
  intros Hk Hn. unfold len, decimal.
  pose proof (digitsOf_length (S (Z.to_nat (Z.log2 n))) n k [] Hk Hn) as L.
  cbn [length] in L. lia.
Qed.

Lemma stripZeros_split (r : str) :
  r = repeat "0"%char (length r - length (stripZeros r)) ++ stripZeros r
  /\ (length (stripZeros r) <= length r)%nat.
Proof.
  induction r as [|c r [IH1 IH2]]; [split; reflexivity|].
  cbn [stripZeros]. destruct (Ascii.eqb_spec c "0") as [->|N].
  - cbn [length]. split; [|lia].
    replace (S (length r) - length (stripZeros r))%nat
      with (S (length r - length (stripZeros r))) by lia.
    cbn [repeat app]. f_equal. exact IH1.
  - rewrite Nat.sub_diag. split; [reflexivity | lia].
Qed.

Lemma stripTrailingZeros_restore (ds : str) :
  stripTrailingZeros ds
    ++ repeat "0"%char (length ds - length (stripTrailingZeros ds)) = ds
  /\ (length (stripTrailingZeros ds) <= length ds)%nat.
Proof.
  rewrite stripTrailingZeros_unfold.
  destruct (stripZeros_split (rev ds)) as [E L].
  rewrite length_rev in *. split; [|exact L].
  apply (f_equal (@rev ascii)) in E. rewrite rev_involutive, rev_app_distr in E.
  rewrite rev_repeat in E. symmetry. exact E.
Qed.

Lemma numberToString_integer (m : Z) :
  m <> 0 -> Z.abs m < 10 ^ 15 ->
  numberToString (Finite m 0)
  = (if m <? 0 then lit "-" else []) ++ decimal (Z.abs m).
Proof.
  intros Hm Hlt. unfold numberToString.
  destruct (Z.eqb_spec m 0) as [|_]; [contradiction|]. cbv zeta.
  set (D := decimal (Z.abs m)).
  destruct (stripTrailingZeros_restore D) as [E L].
  pose proof (decimal_length (Z.abs m) 15 ltac:(lia) Hlt) as L15. fold D in L15.
  unfold len in *. rewrite Z.sub_0_r.
  replace (Z.of_nat (length (stripTrailingZeros D)) <=? Z.of_nat (length D))
    with true by (symmetry; apply Z.leb_le; lia).
  replace (Z.of_nat (length D) <=? 21) with true
    by (symmetry; apply Z.leb_le; change (Z.of_nat 15) with 15 in L15; lia).
  cbn [andb]. rewrite <- Nat2Z.inj_sub, Nat2Z.id by exact L.
  rewrite E. reflexivity.
Qed.

Lemma parseNonDecimal_digits (z : ascii) (rest : str) :
  forallb isDigit rest = true -> parseNonDecimal (z :: rest) = None.
Proof.
  intros H. destruct rest as [|p [|d r]]; try reflexivity.
  cbn [forallb] in H. apply andb_true_iff in H. destruct H as [Hp _].
  destruct (digit_facts p Hp) as (_ & _ & _ & X1 & X2 & O1 & O2 & B1 & B2).
  cbn [parseNonDecimal]. rewrite X1, X2, O1, O2, B1, B2.
  destruct (Ascii.eqb z "0"); reflexivity.
Qed.

Lemma parseUnsignedDecimal_digits (ds : str) :
  ds <> [] -> forallb isDigit ds = true ->
  parseUnsignedDecimal ds = Some (digitsValue ds, 0).
Proof.
  intros Hne Hd. unfold parseUnsignedDecimal.
  pose proof (spanDigits_app ds [] Hd I) as S. rewrite app_nil_r in S.
  rewrite S, app_nil_r. destruct ds; [congruence | reflexivity].
Qed.

Lemma makeFinite_integer (negative : bool) (a : Z) :
  0 < a < 10 ^ 15 ->
  makeFinite negative a 0 = Num (Finite (if negative then - a else a) 0).
Proof.
  intros Ha. unfold makeFinite.
  destruct (Z.eqb_spec a 0) as [|_]; [lia|].
  change (0 >? 400) with false. change (0 <? -400) with false.
  change (0 <=? 0) with true. cbv iota beta. cbn [orb].
  change (10 ^ 0) with 1. rewrite Z.mul_1_r.
  assert (R : inRange a 0 = true).
  { unfold inRange. rewrite Z.abs_eq by lia.
    destruct (stripTrailingZeros_restore (decimal a)) as [_ L].
    pose proof (decimal_length a 15 ltac:(lia) ltac:(lia)) as L15.
    unfold len in *. change (Z.of_nat 15) with 15 in L15.
    apply andb_true_iff. split; [apply andb_true_iff; split|].
    - apply Z.leb_le. lia.
    - apply Z.ltb_lt. assert (10 ^ 15 < 10 ^ 290) by (apply Z.pow_lt_mono_r; lia).
      lia.
    - reflexivity. }
  rewrite R. reflexivity.
Qed.

(** Every integer of at most 15 digits is read back from its own text. *)
Lemma numberOk_integer (m : Z) :
  Z.abs m < 10 ^ 15 -> numberOk (Finite m 0) = true.
Proof.
  intros Hlt. destruct (Z.eq_dec m 0) as [->|Hm]; [reflexivity|].
  unfold numberOk.
  assert (T : NumberOf (numberToString (Finite m 0)) = Num (Finite m 0)).
  { pose proof (numberToString_token (Finite m 0)) as Tk.
    unfold NumberOf. rewrite (trim_clean _ (token_clean _ Tk)).
    rewrite numberToString_integer by assumption.
    set (a := Z.abs m). assert (Ha : 0 < a < 10 ^ 15) by (unfold a; lia).
    pose proof (decimal_digits a ltac:(lia)) as Hd.
    pose proof (decimal_nonempty a) as Hne.
    pose proof (decimal_value a ltac:(lia)) as Hv.
    destruct (decimal a) as [|c r] eqn:ED; [congruence|].
    pose proof Hd as Hd'. cbn [forallb] in Hd'. apply andb_true_iff in Hd'.
    destruct Hd' as [Hc Hr].
    destruct (digit_facts c Hc) as (P & M & Inf & _).
    assert (NI : str_eqb (c :: r) (lit "Infinity") = false)
      by (cbn [lit list_ascii_of_string str_eqb]; rewrite Inf; reflexivity).
    destruct (Z.ltb_spec m 0) as [Hneg | Hpos].
    - change (lit "-" ++ c :: r) with ("-"%char :: c :: r). cbv iota beta.
      rewrite parseNonDecimal_digits by exact Hd.
      change (Ascii.eqb "-" "+") with false.
      change (Ascii.eqb "-" "-") with true. cbv iota beta.
      rewrite NI.
      rewrite parseUnsignedDecimal_digits, Hv by (discriminate || exact Hd).
      rewrite makeFinite_integer by exact Ha. f_equal. f_equal. unfold a. lia.
    - cbn [app]. rewrite parseNonDecimal_digits by exact Hr.
      rewrite P, M. cbv iota beta.
      rewrite NI.
      rewrite parseUnsignedDecimal_digits, Hv by (discriminate || exact Hd).
      rewrite makeFinite_integer by exact Ha. f_equal. f_equal. unfold a. lia. }
  rewrite T. cbn [number_eqb]. rewrite Z.eqb_refl. reflexivity.
Qed.

(** A value of the class that shows what it admits: a key with a blank, a
    key with quotes and brackets, keys that are array indices in the order
    of [Object.keys], a quoted first key of an object that is an element of an array, a string with a colon among
    the elements of such an array, and a last element of an inline array
    that ends in a backslash. *)
Definition roundTripExample : Value :=
  VObj [(lit "2", VNull);
        (lit "10", VBool false);
        (lit "full name", VStr (lit "Ada Lovelace"));
        (dq "say 'hi' [3]", VObj [(lit "first-name", VStr (lit "true"))]);
        (lit "paths", VArr [VStr (lit "a,b"); VStr [BSLASH]]);
        (lit "rows", VArr [VObj [(lit "first-name", VStr (lit "Ada"));
                                 (dq "'q'", VArr [])];
                           VStr (lit "see it: below");
                           VArr [];
                           VNum (Finite (-15) 1)])].

(** C1, as stated, fails: an array with a single scalar element is written
    inline behind its key, and the parser, which recognises an inline array
    by its commas, reads the element itself; a scalar at the top level is
    written as a line without colon, which the parser skips.  Each of the
    other conditions of the amended claim is needed as well: for each there
    is a value without look-alike strings that is not read back. *)
Lemma round_trip_fails :
  parseLines (nonBlankLines (toToon (VObj [(lit "a", VArr [VNum (Finite 1 0)])]) 0))
  = Ok (VObj [(lit "a", VNum (Finite 1 0))])
  /\ parseLines (nonBlankLines (toToon (VObj [(lit "a", VArr [VNum (Finite 1 0)])]) 0))
     <> Ok (VObj [(lit "a", VArr [VNum (Finite 1 0)])])
  /\ convertToJson (toToon (VNum (Finite 5 0)) 0) = Ok (lit "{}")
  /\ convertToJson (toToon (VArr [VNum (Finite 1 0); VNum (Finite 2 0)]) 0)
     = Ok (lit "{}")
  /\ Forall (fun V => roundTrips V = false
                      /\ exists W, parseLines (nonBlankLines (toToon V 0)) = Ok W
                                   /\ W <> V)
            [VObj [(lit "a", VObj [])];
             VObj [(lit "a:b", VNull)];
             VObj [(protoKey, VBool true)];
             VObj [(lit "b", VNull); (lit "1", VNull)];
             VObj [(lit "a", VArr [VStr [BSLASH]; VStr (lit "y")])];
             VArr [VArr []; VStr (lit "a:b")];
             VArr [VArr [VNull; VNull]];
             VArr [VObj [(lit "a", VArr [VNull; VNull])]];
             VArr [VObj [(dq "a'b", VNull)]];
             VArr [VObj []]].
Proof.
  split; [vm_compute; reflexivity|].
  split; [vm_compute; discriminate|].
  split; [vm_compute; reflexivity|].
  split; [vm_compute; reflexivity|].
  repeat (apply Forall_cons;
          [split; [vm_compute; reflexivity
                  | eexists; split; [vm_compute; reflexivity | discriminate]]|]).
  apply Forall_nil.
Qed.

(** C1, amended: the round trip holds for every value of the class
    [roundTrips].  Such a value is the empty object, a non-empty object, or
    an array with an array or object among its elements.  Below the top
    every object is non-empty; the keys of an object have no colon, are not
    __proto__, and are listed in the order of Object.keys (distinct, array
    indices first in ascending order); every number is one that the
    embedding of Number, which is exact up to 15 significant digits, reads
    back from its own text, as every integer of at most 15 digits is; an
    array of scalars as the value of a field is empty or has at least two
    elements, of which none but the last is a string that ends in a
    backslash; an array with a container among its elements holds scalars,
    empty arrays and non-empty objects, where a string with a colon must
    not have, before its first colon, a word, a word and an apostrophe, or
    a text without double quote and then a double quote, and where the
    first field of an object is not an array and has a key that is a word
    or a non-empty text that JSON writes between the quotes as it is.  For
    such a value, parsing the text of [toToon] gives the value back, and
    [convertToJson] returns its JSON text; this holds as well when the text
    comes from [convertToToon] on a JSON text of the value.  Strings that
    look like numbers, booleans or null need no exception. *)
Theorem round_trip (V : Value) :
  roundTrips V = true ->
  parseLines (nonBlankLines (toToon V 0)) = Ok V
  /\ convertToJson (toToon V 0) = Ok (JSON_stringify V)
  /\ forall J, JSON_parse J = Ok V ->
               (let* toon := convertToToon J in convertToJson toon)
               = Ok (JSON_stringify V).
Proof.
  intros H. pose proof (roundTrips_parse V H) as P.
  assert (C : convertToJson (toToon V 0) = Ok (JSON_stringify V)).
  { unfold convertToJson. destruct (nonBlankLines (toToon V 0)) as [|l ls] eqn:E.
    - injection P as <-. discriminate E.
    - rewrite P. reflexivity. }
  split; [exact P|]. split; [exact C|].
  intros J HJ. unfold convertToToon. rewrite HJ. exact C.
Qed.

Lemma round_trip_witness :
  roundTrips roundTripExample = true
  /\ parseLines (nonBlankLines (toToon roundTripExample 0)) = Ok roundTripExample
  /\ convertToJson (toToon roundTripExample 0)
     = Ok (JSON_stringify roundTripExample)
  /\ forall J, JSON_parse J = Ok roundTripExample ->
               (let* toon := convertToToon J in convertToJson toon)
               = Ok (JSON_stringify roundTripExample).
Proof.
  split; [vm_compute; reflexivity|].
  apply (round_trip roundTripExample). vm_compute. reflexivity.
Defined.
(** * Further properties of the code *)

(** ** balanceBrackets and repairJson *)

Lemma netOpen_app (o c : ascii) (a b : str) :
  netOpen o c (a ++ b) = netOpen o c a + netOpen o c b.
Proof. unfold netOpen. rewrite !count_occ_app. lia. Qed.

Lemma netOpen_repeat_closing (o c : ascii) (n : nat) :
  o <> c -> netOpen o c (repeat c n) = - Z.of_nat n.
Proof.
  intros H. unfold netOpen.
  assert (E1 : count_occ ascii_dec (repeat c n) c = n)
    by (apply count_occ_repeat_eq; reflexivity).
  assert (E2 : count_occ ascii_dec (repeat c n) o = 0%nat)
    by (apply count_occ_repeat_neq; congruence).
  rewrite E1, E2. lia.
Qed.

Lemma netOpen_repeat_other (o c x : ascii) (n : nat) :
  x <> o -> x <> c -> netOpen o c (repeat x n) = 0.
Proof.
  intros H1 H2. unfold netOpen. rewrite !count_occ_repeat_neq by congruence.
  reflexivity.
Qed.

Lemma balanceBrackets_nets (s : str) :
  netOpen "{" "}" (balanceBrackets s) = Z.min (netOpen "{" "}" s) 0
  /\ netOpen "[" "]" (balanceBrackets s) = Z.min (netOpen "[" "]" s) 0.
Proof.
  rewrite balanceBrackets_spec, !netOpen_app.
  rewrite (netOpen_repeat_closing "{" "}") by discriminate.
  rewrite (netOpen_repeat_closing "[" "]") by discriminate.
  rewrite (netOpen_repeat_other "{" "}" "]") by discriminate.
  rewrite (netOpen_repeat_other "[" "]" "}") by discriminate.
  split; lia.
Qed.

(** X1: balancing is idempotent, and the balanced text has no surplus of
    opening braces or of opening brackets. *)
Theorem balanceBrackets_idempotent (s : str) :
  balanceBrackets (balanceBrackets s) = balanceBrackets s
  /\ netOpen "{" "}" (balanceBrackets s) <= 0
  /\ netOpen "[" "]" (balanceBrackets s) <= 0.
Proof.
  destruct (balanceBrackets_nets s) as [B K].
  split; [|split; lia].
  rewrite (balanceBrackets_spec (balanceBrackets s)), B, K.
  replace (Z.to_nat (Z.min (netOpen "{" "}" s) 0)) with 0%nat by lia.
  replace (Z.to_nat (Z.min (netOpen "[" "]" s) 0)) with 0%nat by lia.
  cbn [repeat app]. apply app_nil_r.
Qed.

(** X2: [balanceBrackets] returns its argument unchanged exactly when the
    text has at least as many closing as opening braces and at least as many
    closing as opening brackets, wherever they stand; otherwise the result
    is strictly longer. *)
Theorem balanceBrackets_unchanged_iff (s : str) :
  (balanceBrackets s = s
   <-> netOpen "{" "}" s <= 0 /\ netOpen "[" "]" s <= 0)
  /\ len (balanceBrackets s)
     = len s + Z.max (netOpen "{" "}" s) 0 + Z.max (netOpen "[" "]" s) 0.
Proof.
  assert (L : len (balanceBrackets s)
              = len s + Z.max (netOpen "{" "}" s) 0
                + Z.max (netOpen "[" "]" s) 0).
  { rewrite balanceBrackets_spec. unfold len.
    rewrite !length_app, !repeat_length. lia. }
  split; [|exact L]. split.
  - intros E. rewrite E in L. lia.
  - intros [B K]. rewrite balanceBrackets_spec.
    replace (Z.to_nat (netOpen "{" "}" s)) with 0%nat by lia.
    replace (Z.to_nat (netOpen "[" "]" s)) with 0%nat by lia.
    cbn [repeat app]. apply app_nil_r.
Qed.

(** X3: the fallback of [repairJson] can only help a text with unclosed
    braces or brackets: when the counts show no surplus of opening ones and
    the first attempt throws, the second attempt runs on the same text and
    [repairJson] throws [Unable to repair JSON]. *)
Theorem repairJson_fallback_useless (jsonrepair : str -> outcome str) (s : str) :
  netOpen "{" "}" s <= 0 -> netOpen "[" "]" s <= 0 ->
  forall m, repairAttempt jsonrepair s = Throw m ->
            repairJson jsonrepair s = Throw (lit "Unable to repair JSON").
Proof.
  intros B K m E. unfold repairJson. rewrite E.
  rewrite (proj2 (proj1 (balanceBrackets_unchanged_iff s)) (conj B K)), E.
  reflexivity.
Qed.

Lemma repairJson_fallback_useless_witness :
  repairJson (fun _ => Throw (lit "Unexpected character")) (lit "}{]")
  = Throw (lit "Unable to repair JSON").
Proof.
  apply (repairJson_fallback_useless _ (lit "}{]")) with (m := lit "Unexpected character");
    [vm_compute; discriminate | vm_compute; discriminate | reflexivity].
Defined.

(** ** formatJson, validateJson and convertToToon fail together *)

(** X4: the three entry points that read JSON agree on what is JSON: when
    [validateJson] answers true, [formatJson] and [convertToToon] return;
    when it answers false, they throw [Invalid JSON] and
    [Failed to convert to TOON]; and each of them returns only on a text
    that [validateJson] accepts. *)
Theorem json_entry_points_agree (s : str) :
  (validateJson s = Ok true ->
   exists t toon, formatJson s = Ok t /\ convertToToon s = Ok toon)
  /\ (validateJson s = Ok false ->
      formatJson s = Throw (lit "Invalid JSON")
      /\ convertToToon s = Throw (lit "Failed to convert to TOON"))
  /\ (forall t, formatJson s = Ok t -> validateJson s = Ok true)
  /\ (forall toon, convertToToon s = Ok toon -> validateJson s = Ok true).
Proof.
  unfold validateJson, formatJson, convertToToon.
  destruct (JSON_parse s) as [v|m|]; cbn [bind rethrow];
    repeat split; try discriminate; eauto.
Qed.

(** ** Scalars round trip through toToon and parseValue *)

Lemma toToon_scalar_level (v : Value) (n : nat) :
  isObjectLike v = false -> toToon v n = toToon v 0.
Proof. destruct v; try discriminate; reflexivity. Qed.

(** X5: [parseValue] reads back what [toToon] writes for a scalar, at every
    indentation level: every string (also the ones that look like a
    number, a boolean or null, which are written between quotes), both
    booleans, null, and every number that [Number] reads back from its own
    text, in particular every integer of at most 15 digits. *)
Theorem scalar_round_trip :
  (forall s n, parseValue (toToon (VStr s) n) = Ok (VStr s))
  /\ (forall b n, parseValue (toToon (VBool b) n) = Ok (VBool b))
  /\ (forall n, parseValue (toToon VNull n) = Ok VNull)
  /\ (forall x n, numberOk x = true ->
                  parseValue (toToon (VNum x) n) = Ok (VNum x))
  /\ (forall m n, Z.abs m < 10 ^ 15 ->
                  parseValue (toToon (VNum (Finite m 0)) n)
                  = Ok (VNum (Finite m 0))).
Proof.
  assert (A : forall v n, scalarOk v = true -> parseValue (toToon v n) = Ok v).
  { intros v n H. rewrite toToon_scalar_level; [apply parseValue_scalar, H|].
    destruct v; try discriminate H; reflexivity. }
  repeat split; intros; apply A; try reflexivity; try assumption.
  cbn [scalarOk]. apply numberOk_integer. assumption.
Qed.

(** ** splitByComma *)

(** X6: [splitByComma] undoes the joining of cells by commas: for a
    non-empty list of cells, each a token (word characters, dots, signs) or
    a JSON-quoted string that does not end in a backslash, it returns
    exactly the cells; a comma inside a quoted cell does not split. *)
Theorem splitByComma_join_cells (xs : list str) :
  xs <> [] -> Forall isCell xs -> splitByComma (join (lit ",") xs) = xs.
Proof. apply splitByComma_join. Qed.

Lemma splitByComma_join_cells_witness :
  splitByComma (join (lit ",") [lit "a"; quoteJSONString (lit "b,c"); lit "-1.5"])
  = [lit "a"; quoteJSONString (lit "b,c"); lit "-1.5"].
Proof.
  apply splitByComma_join_cells; [discriminate|].
  constructor; [left; reflexivity|].
  constructor; [right; exists (lit "b,c"); split; reflexivity|].
  constructor; [left; reflexivity | constructor].
Defined.

(** ** Blank lines *)

Lemma splitLines_nonempty (s : str) : splitLines s <> [].
Proof.
  induction s as [|c s IH]; [discriminate|]. cbn [splitLines].
  destruct (Ascii.eqb c LF); [discriminate|].
  destruct (splitLines s); discriminate.
Qed.

Lemma splitLines_app (a b : str) :
  splitLines (a ++ LF :: b) = splitLines a ++ splitLines b.
Proof.
  induction a as [|c a IH].
  - cbn [app splitLines]. rewrite Ascii.eqb_refl. reflexivity.
  - cbn [app splitLines]. rewrite IH.
    destruct (Ascii.eqb c LF); [reflexivity|].
    pose proof (splitLines_nonempty a) as N.
    destruct (splitLines a) as [|l ls]; [congruence | reflexivity].
Qed.

Lemma splitLines_forallb (f : ascii -> bool) (s : str) :
  forallb f s = true -> Forall (fun line => forallb f line = true) (splitLines s).
Proof.
  induction s as [|c s IH]; intros H; [constructor; [reflexivity | constructor]|].
  cbn [forallb] in H. apply andb_true_iff in H. destruct H as [Hc Hs].
  specialize (IH Hs). cbn [splitLines].
  destruct (Ascii.eqb c LF); [constructor; [reflexivity | exact IH]|].
  destruct (splitLines s) as [|l ls]; [constructor; [|constructor]|].
  - cbn [forallb]. rewrite Hc. reflexivity.
  - inversion IH as [|? ? Hl Hls]; subst. constructor; [|exact Hls].
    cbn [forallb]. rewrite Hc. exact Hl.
Qed.

Lemma nonBlankLines_app (a b : str) :
  nonBlankLines (a ++ LF :: b) = nonBlankLines a ++ nonBlankLines b.
Proof. unfold nonBlankLines. rewrite splitLines_app. apply filter_app. Qed.

Lemma nonBlankLines_blank (w : str) :
  forallb isSpace w = true -> nonBlankLines w = [].
Proof.
  intros H. unfold nonBlankLines.
  pose proof (splitLines_forallb isSpace w H) as F.
  induction F as [|line ls Hl _ IH]; [reflexivity|].
  cbn [filter]. unfold nonBlank at 1.
  rewrite (proj2 (trim_nil_iff line) Hl). exact IH.
Qed.

(** X7: [convertToJson] ignores blank lines wherever they stand: a run of
    white space (which may span several lines) inserted as lines of its own
    between two lines, before the first line or after the last line does
    not change the result, be it a value or an error. *)
Theorem convertToJson_ignores_blank_lines (w : str) :
  forallb isSpace w = true ->
  (forall a b, convertToJson (a ++ LF :: w ++ LF :: b)
               = convertToJson (a ++ LF :: b))
  /\ (forall b, convertToJson (w ++ LF :: b) = convertToJson b)
  /\ (forall a, convertToJson (a ++ LF :: w) = convertToJson a).
Proof.
  intros H. pose proof (nonBlankLines_blank w H) as B.
  repeat split; intros; unfold convertToJson;
    rewrite ?nonBlankLines_app, ?B, ?app_nil_r; reflexivity.
Qed.

Lemma convertToJson_ignores_blank_lines_witness :
  convertToJson (lit "a: 1" ++ LF :: lit "  " ++ LF :: lit "b: 2")
  = convertToJson (lit "a: 1" ++ LF :: lit "b: 2").
Proof.
  apply (proj1 (convertToJson_ignores_blank_lines (lit "  ") eq_refl)).
Defined.

(** ** The result of convertToJson is a container *)

Lemma updateAt_container (root : Value) (p : list step) (g : Value -> Value) :
  isObjectLike root = true -> (forall v, isObjectLike (g v) = true) ->
  isObjectLike (updateAt root p g) = true.
Proof.
  intros Hr Hg. destruct p as [|[k|i] p]; cbn [updateAt]; [apply Hg | |];
    destruct root; try exact Hr; reflexivity.
Qed.

Lemma assign_container (root : Value) (c : ref) (k : str) (v root' : Value)
      (r : ref) :
  assign root c k v = Ok (root', r) ->
  isObjectLike root = true -> isObjectLike root' = true.
Proof.
  unfold assign. intros H Hr.
  destruct (str_eqb k (lit "__proto__")).
  { destruct v; try discriminate H; injection H as <- _; exact Hr. }
  destruct c as [p|isArr].
  - destruct (getAt root p) as [[| | | |items|fields]|]; try discriminate.
    + destruct (arrayIndex k).
      * injection H as <- _. apply updateAt_container; [exact Hr | reflexivity].
      * destruct (str_eqb k (lit "length")).
        -- destruct (toArrayLength v); try discriminate H. cbn [bind] in H.
           injection H as <- _.
           apply updateAt_container; [exact Hr | reflexivity].
        -- destruct (str_eqb k (lit "push")); [discriminate|].
           injection H as <- _. exact Hr.
    + injection H as <- _. apply updateAt_container; [exact Hr | reflexivity].
  - destruct (isArr && str_eqb k (lit "length")).
    + destruct (toArrayLength v); try discriminate H. cbn [bind] in H.
      injection H as <- _. exact Hr.
    + destruct (isArr && str_eqb k (lit "push")); [discriminate|].
      injection H as <- _. exact Hr.
Qed.

Lemma pushIfArray_container (root : Value) (c : ref) (v root' : Value) (r : ref) :
  pushIfArray root c v = Ok (root', r) ->
  isObjectLike root = true -> isObjectLike root' = true.
Proof.
  unfold pushIfArray. intros H Hr.
  destruct (isArrayRef root c).
  - destruct c as [p|isArr]; [|injection H as <- _; exact Hr].
    destruct (getAt root p) as [[| | | |items|fields]|]; try discriminate.
    injection H as <- _. apply updateAt_container; [exact Hr | reflexivity].
  - injection H as <- _. exact Hr.
Qed.

Ltac bind_inv H :=
  match type of H with
  | bind ?x _ = Ok _ =>
      let E := fresh "E" in
      destruct x as [[? ?]| |] eqn:E; cbn [bind] in H; [|discriminate H ..]
  end.

Lemma processValue_container (st st' : pstate) (c : ref) (k x : str) (ind : Z)
      (lines : list str) (i : nat) :
  processValue st c k x ind lines i = Ok st' ->
  isObjectLike (root st) = true -> isObjectLike (root st') = true.
Proof.
  unfold processValue. intros H Hr.
  destruct (str_eqb x []); [|destruct (str_eqb x (lit "[]"));
                              [|destruct (str_eqb x (lit "{}"))]].
  - bind_inv H. injection H as <-. cbn [root].
    eapply assign_container; eassumption.
  - bind_inv H. injection H as <-. cbn [root].
    eapply assign_container; eassumption.
  - bind_inv H. injection H as <-. cbn [root].
    eapply assign_container; eassumption.
  - match type of H with bind ?x _ = _ => destruct x as [value| |] end;
      cbn [bind] in H; try discriminate H.
    bind_inv H. injection H as <-. cbn [root].
    eapply assign_container; eassumption.
Qed.

Lemma processContent_container (lines : list str) (i : nat) (k : Z) (c : str)
      (st st' : pstate) :
  processContent lines i k c st = Ok st' ->
  isObjectLike (root st) = true -> isObjectLike (root st') = true.
Proof.
  unfold processContent. intros H Hr.
  set (stack1 := popFrames (root st) (stack st) k c) in *.
  set (root1 := if negb (isArrayRef (root st) (obj (top stack1)))
                   && (indent (top stack1) =? -1)
                   && keysEmpty (root st) (obj (top stack1))
                then VArr [] else root st) in *.
  assert (H1 : isObjectLike root1 = true).
  { unfold root1.
    destruct (negb (isArrayRef (root st) (obj (top stack1)))
              && (indent (top stack1) =? -1)
              && keysEmpty (root st) (obj (top stack1)));
      [reflexivity | exact Hr]. }
  destruct (startsWith (lit "- ") c).
  - destruct (str_eqb (trim (substringFrom 2 c)) []).
    + bind_inv H. injection H as <-. cbn [root].
      eapply pushIfArray_container; eassumption.
    + match type of H with (if ?b then _ else _) = _ => destruct b end.
      * bind_inv H. eapply processValue_container; [exact H|]. cbn [root].
        eapply pushIfArray_container; eassumption.
      * match type of H with bind ?x _ = _ => destruct x as [value| |] end;
          cbn [bind] in H; try discriminate H.
        bind_inv H. injection H as <-. cbn [root].
        eapply pushIfArray_container; eassumption.
  - destruct (indexOf ":" c =? -1); [injection H as <-; exact Hr|].
    match type of H with bind ?x _ = _ => destruct x as [finalKey| |] end;
      cbn [bind] in H; try discriminate H.
    eapply processValue_container; [exact H | exact Hr].
Qed.

Lemma convertLoop_container (lines todo : list str) :
  forall i st st', convertLoop lines todo i st = Ok st' ->
                   isObjectLike (root st) = true ->
                   isObjectLike (root st') = true.
Proof.
  induction todo as [|line todo IH]; intros i st st' H Hr.
  - injection H as <-. exact Hr.
  - cbn [convertLoop] in H.
    destruct (processLine lines i line st) as [st1| |] eqn:E;
      cbn [bind] in H; try discriminate H.
    apply (IH _ _ _ H). unfold processLine in E.
    eapply processContent_container; eassumption.
Qed.

(** X8: whatever the text, a value that [convertToJson] returns is the JSON
    text of an Object or of an Array, never of a scalar: the parser starts
    from the empty Object and only ever replaces it by an Array or updates
    it in place. *)
Theorem convertToJson_container (t j : str) :
  convertToJson t = Ok j ->
  exists v, isObjectLike v = true /\ j = JSON_stringify v.
Proof.
  unfold convertToJson. intros H.
  destruct (nonBlankLines t) as [|l ls].
  - injection H as <-. exists (VObj []). split; reflexivity.
  - set (lines := l :: ls) in *. unfold parseLines in H.
    destruct (convertLoop lines lines 0 {| root := VObj []; stack := [] |})
      as [st| |] eqn:E; cbn [bind rethrow] in H; try discriminate H.
    injection H as <-. exists (root st). split; [|reflexivity].
    apply (convertLoop_container _ _ _ _ _ E). reflexivity.
Qed.

Lemma convertToJson_container_witness :
  exists v, isObjectLike v = true
            /\ JSON_stringify (VArr [VNum (Finite 1 0)]) = JSON_stringify v.
Proof.
  apply (convertToJson_container (lit "- 1")). vm_compute. reflexivity.
Defined.

(** ** Flat documents: a repeated key *)

Lemma getKey_app (a b : list (str * Value)) (k : str) :
  getKey (a ++ b) k
  = match getKey a k with Some v => Some v | None => getKey b k end.
Proof.
  induction a as [|[k' w] a IH]; [reflexivity|].
  cbn [app getKey]. destruct (str_eqb k' k); [reflexivity | exact IH].
Qed.

Lemma getKey_replaceKey_other (fs : list (str * Value)) (k k' : str) (v : Value) :
  str_eqb k k' = false -> getKey (replaceKey fs k v) k' = getKey fs k'.
Proof.
  intros N. induction fs as [|[x w] fs IH]; [reflexivity|].
  cbn [replaceKey]. destruct (str_eqb x k) eqn:E.
  - apply str_eqb_eq in E. subst x. cbn [getKey]. rewrite N. reflexivity.
  - cbn [getKey]. rewrite IH. reflexivity.
Qed.

Lemma getKey_insertIndexKey_other (fs : list (str * Value)) (i : Z) (k k' : str)
      (v : Value) :
  str_eqb k k' = false -> getKey (insertIndexKey fs i k v) k' = getKey fs k'.
Proof.
  intros N. induction fs as [|[x w] fs IH].
  - cbn [insertIndexKey getKey]. rewrite N. reflexivity.
  - cbn [insertIndexKey]. destruct (arrayIndex x) as [j|].
    + destruct (j <? i).
      * cbn [getKey]. rewrite IH. reflexivity.
      * cbn [getKey]. rewrite N. reflexivity.
    + cbn [getKey]. rewrite N. reflexivity.
Qed.

Lemma getKey_objPut_other (fs : list (str * Value)) (k k' : str) (v : Value) :
  str_eqb k k' = false -> getKey (objPut fs k v) k' = getKey fs k'.
Proof.
  intros N. unfold objPut. destruct (hasKey fs k).
  - apply getKey_replaceKey_other, N.
  - destruct (arrayIndex k) as [i|].
    + apply getKey_insertIndexKey_other, N.
    + rewrite getKey_app. cbn [getKey]. rewrite N.
      destruct (getKey fs k'); reflexivity.
Qed.

Lemma getKey_objPutAll (fields fs : list (str * Value)) (k : str) :
  getKey (objPutAll fs fields) k
  = match getKey (rev fields) k with Some v => Some v | None => getKey fs k end.
Proof.
  revert fs. induction fields as [|[k1 v1] fields IH]; intros fs; [reflexivity|].
  change (objPutAll fs ((k1, v1) :: fields))
    with (objPutAll (objPut fs k1 v1) fields).
  rewrite IH. cbn [rev]. rewrite getKey_app.
  destruct (getKey (rev fields) k); [reflexivity|]. cbn [getKey].
  destruct (str_eqb k1 k) eqn:E.
  - apply str_eqb_eq in E. subst. apply getKey_objPut.
  - apply getKey_objPut_other, E.
Qed.

(** A line [key: value] for a scalar value, as [toToon] writes the value. *)
Definition scalarLine (kv : str * Value) : str :=
  fst kv ++ lit ": " ++ toToon (snd kv) 0.

Lemma scalarLine_content (key : str) (v : Value) :
  testWord key = true -> scalarOk v = true ->
  scalarLine (key, v) = fieldContent key v
  /\ clean (fieldContent key v) = true
  /\ fieldLines 0 (key, v) = [(0%nat, fieldContent key v)]
  /\ fieldOk v = true /\ isObjectLike v = false.
Proof.
  intros Hk Hv.
  assert (Ho : isObjectLike v = false) by (destruct v; try discriminate Hv; reflexivity).
  assert (Hf : fieldOk v = true) by (destruct v; try discriminate Hv; exact Hv).
  assert (Ht : valueText v = toToon v 0)
    by (destruct v; try discriminate Ho; reflexivity).
  assert (Hc : clean (toToon v 0) = true) by (apply text_clean, scalar_text, Ho).
  assert (E : scalarLine (key, v) = fieldContent key v).
  { unfold scalarLine, fieldContent. cbn [fst snd].
    rewrite (afterColon_text v _ Ht Hc).
    assert (S : keySuffix v = []) by (destruct v; try discriminate Ho; reflexivity).
    rewrite S, app_nil_r. reflexivity. }
  split; [exact E|]. split; [|split; [|split; [exact Hf | exact Ho]]].
  - rewrite <- E. unfold scalarLine. cbn [fst snd].
    destruct (clean_parts _ (token_clean _ (testWord_token _ Hk))) as (S & _ & L).
    destruct (clean_parts _ Hc) as (_ & Ev & Lv).
    apply clean_app;
      [exact S | apply endsClean_app, Ev | exact L
       | rewrite notLF_app, Lv; reflexivity].
  - rewrite fieldLines_content, formattedKey_word by assumption.
    assert (C : childLines v 1 = []) by (destruct v; try discriminate Ho; reflexivity).
    rewrite C. reflexivity.
Qed.

Lemma scalarLines_lexed (fields : list (str * Value)) :
  forallb fieldKeyOk fields = true ->
  forallb (fun kv => scalarOk (snd kv)) fields = true ->
  map lexLine (map scalarLine fields) = lexed (flat_map (fieldLines 0) fields)
  /\ Forall (fun l => clean l = true) (map scalarLine fields)
  /\ forallb (fun kv => fieldOk (snd kv)) fields = true
  /\ length (flat_map (fieldLines 0) fields) = length fields.
Proof.
  induction fields as [|[key v] fields IH]; intros Hk Hv.
  - repeat split; constructor.
  - cbn [forallb] in Hk, Hv. apply andb_true_iff in Hk, Hv.
    destruct Hk as [Hkey Hk], Hv as [Hval Hv].
    unfold fieldKeyOk in Hkey. cbn [fst snd] in Hkey, Hval.
    apply andb_true_iff in Hkey. destruct Hkey as [Hword _].
    destruct (scalarLine_content key v Hword Hval) as (E & C & FL & Hf & _).
    destruct (IH Hk Hv) as (IH1 & IH2 & IH3 & IH4).
    cbn [map flat_map]. rewrite FL, E. cbn [app lexed map length].
    split; [|split; [|split]].
    + f_equal; [|exact IH1].
      pose proof (lexLine_line 0 0 _ C) as L.
      cbn [spaces repeat app] in L. rewrite app_nil_r in L. exact L.
    + constructor; assumption.
    + cbn [forallb snd]. rewrite Hf. exact IH3.
    + f_equal. exact IH4.
Qed.

(** X9: a flat document of lines [key: value], with keys of word characters
    other than __proto__ and scalar values as [toToon] writes them, parses
    to the Object built by assigning the fields in order: looking up a key
    gives the value of its last line, so a repeated key keeps only its last
    value. *)
Theorem flat_document_last_wins (fields : list (str * Value)) :
  fields <> [] ->
  forallb fieldKeyOk fields = true ->
  forallb (fun kv => scalarOk (snd kv)) fields = true ->
  convertToJson (join [LF] (map scalarLine fields))
  = Ok (JSON_stringify (VObj (objPutAll [] fields)))
  /\ forall k, getKey (objPutAll [] fields) k = getKey (rev fields) k.
Proof.
  intros Hne Hk Hv.
  destruct (scalarLines_lexed fields Hk Hv) as (L & C & Hf & Hlen).
  set (lines := map scalarLine fields) in *.
  assert (Hlines : lines <> [])
    by (unfold lines; destruct fields; [congruence | discriminate]).
  assert (NB : nonBlankLines (join [LF] lines) = lines).
  { unfold nonBlankLines. rewrite splitLines_join.
    - apply filter_nonBlank. eapply Forall_impl; [|exact C]. cbv beta.
      intros l Hl. rewrite (trim_clean l Hl). destruct l; [discriminate Hl|].
      discriminate.
    - exact Hlines.
    - eapply Forall_impl; [|exact C]. cbv beta. intros l Hl.
      apply clean_parts in Hl. tauto. }
  split.
  - unfold convertToJson. rewrite NB.
    destruct lines as [|l0 ls] eqn:El; [congruence|]. rewrite <- El in *.
    unfold parseLines. rewrite (convertLoop_runFrom lines lines [] _ eq_refl).
    cbn [length].
    assert (Hn : length lines = length (flat_map (fieldLines 0) fields)).
    { rewrite Hlen. unfold lines. apply length_map. }
    rewrite Hn.
    destruct (fields_ok fields (fun kv _ => proj1 (value_ok (snd kv)))
                (fieldKeys_keyOk _ Hk) Hf
                lines 0%nat {| root := VObj []; stack := [] |} [] [] [] []
                0%nat ltac:(rewrite L; apply segAt_lexed) eq_refl
                (Forall_nil _) ltac:(cbn; lia) eq_refl eq_refl)
      as (st' & E & R & _).
    rewrite E. cbn [bind rethrow]. rewrite R. reflexivity.
  - intros k. rewrite getKey_objPutAll.
    destruct (getKey (rev fields) k); reflexivity.
Qed.

Lemma flat_document_last_wins_witness :
  convertToJson (lit "a: 1" ++ LF :: lit "b: x" ++ LF :: lit "a: true")
  = Ok (JSON_stringify (VObj [(lit "a", VBool true); (lit "b", VStr (lit "x"))])).
Proof.
  apply (flat_document_last_wins
           [(lit "a", VNum (Finite 1 0)); (lit "b", VStr (lit "x"));
            (lit "a", VBool true)]);
    [discriminate | vm_compute; reflexivity | vm_compute; reflexivity].
Defined.

(** ** JSON.parse reads back what JSON.stringify writes *)

(** What may follow a number in a JSON text for the scan of the number to
    stop there. *)
Definition numberStop (rest : str) : bool :=
  match rest with
  | [] => true
  | c :: _ => negb (isDigit c) && negb (Ascii.eqb c ".")
              && negb (Ascii.eqb c "e") && negb (Ascii.eqb c "E")
  end.

Lemma numberStop_facts (c : ascii) (rest : str) :
  numberStop (c :: rest) = true ->
  isDigit c = false /\ Ascii.eqb c "." = false
  /\ Ascii.eqb c "e" = false /\ Ascii.eqb c "E" = false.
Proof.
  cbn [numberStop]. intros H. repeat (apply andb_true_iff in H; destruct H as [H ?]).
  repeat match goal with H : negb _ = true |- _ => apply negb_true_iff in H end.
  auto.
Qed.

Lemma spanDigits_suffix (s rest ds r : str) :
  spanDigits s = (ds, r) -> (r = [] -> numberStop rest = true) ->
  spanDigits (s ++ rest) = (ds, r ++ rest).
Proof.
  intros H Hr. destruct (spanDigits_spec s ds r H) as (-> & D & N).
  rewrite <- app_assoc. apply spanDigits_app; [exact D|].
  destruct r as [|c r]; [|exact N]. cbn [app].
  destruct rest as [|c rest]; [exact I|].
  apply (numberStop_facts c rest (Hr eq_refl)).
Qed.

(** The fraction and the exponent of [spanJsonNumber]. *)
Definition spanFraction (s1 : str) : option (str * str) :=
  match s1 with
  | c :: t =>
      if Ascii.eqb c "." then
        let '(fp, s2) := spanDigits t in
        match fp with [] => None | _ => Some (c :: fp, s2) end
      else Some ([], s1)
  | [] => Some ([], s1)
  end.

Definition spanExponent (s2 : str) : option (str * str) :=
  match s2 with
  | c :: t =>
      if Ascii.eqb c "e" || Ascii.eqb c "E" then
        let '(sg, t') :=
          match t with
          | x :: t0 => if Ascii.eqb x "+" || Ascii.eqb x "-"
                       then ([x], t0) else ([], t)
          | [] => ([], t)
          end in
        let '(ds, s3) := spanDigits t' in
        match ds with [] => None | _ => Some (c :: sg ++ ds, s3) end
      else Some ([], s2)
  | [] => Some ([], s2)
  end.

Definition spanInteger (s : str) : option (str * str) :=
  let '(sign, s0) :=
    match s with
    | c :: r => if Ascii.eqb c "-" then ([c], r) else ([], s)
    | [] => ([], s)
    end in
  let '(ip, s1) := spanDigits s0 in
  match ip with
  | [] => None
  | c :: r => if negb (Ascii.eqb c "0") || str_eqb r []
              then Some (sign ++ ip, s1) else None
  end.

Lemma spanJsonNumber_parts (s : str) :
  spanJsonNumber s
  = match spanInteger s with
    | None => None
    | Some (ip, s1) =>
        match spanFraction s1 with
        | None => None
        | Some (fp, s2) =>
            match spanExponent s2 with
            | None => None
            | Some (ep, s3) => Some (ip ++ fp ++ ep, s3)
            end
        end
    end.
Proof.
  unfold spanJsonNumber, spanInteger, spanFraction, spanExponent.
  destruct (match s with
            | [] => ([], s)
            | c :: r => if Ascii.eqb c "-" then ([c], r) else ([], s)
            end) as [sign s0].
  destruct (spanDigits s0) as [ip s1].
  destruct ip as [|c r]; [reflexivity|].
  destruct (negb (Ascii.eqb c "0") || str_eqb r []); cbn [negb]; [|reflexivity].
  cbv iota beta.
  repeat match goal with
         | |- context [match ?x with _ => _ end] => is_var x; destruct x
         | |- context [if ?b then _ else _] => destruct b
         | |- context [spanDigits ?t] => destruct (spanDigits t)
         end;
    rewrite <- ?app_assoc; reflexivity.
Qed.

Lemma spanInteger_suffix (s rest ip s1 : str) :
  spanInteger s = Some (ip, s1) -> (s1 = [] -> numberStop rest = true) ->
  spanInteger (s ++ rest) = Some (ip, s1 ++ rest).
Proof.
  unfold spanInteger. intros H Hr.
  destruct s as [|c s].
  - cbn [spanDigits] in H. discriminate H.
  - cbn [app]. destruct (Ascii.eqb c "-").
    + destruct (spanDigits s) as [ds r] eqn:E.
      rewrite (spanDigits_suffix s rest ds r E).
      * destruct ds as [|d ds]; [discriminate H|].
        destruct (negb (Ascii.eqb d "0") || str_eqb ds []); [|discriminate H].
        injection H as <- <-. reflexivity.
      * intros ->. apply Hr. destruct ds as [|d ds]; [discriminate H|].
        destruct (negb (Ascii.eqb d "0") || str_eqb ds []); [|discriminate H].
        injection H as _ <-. reflexivity.
    + destruct (spanDigits (c :: s)) as [ds r] eqn:E.
      change (c :: s ++ rest) with ((c :: s) ++ rest).
      rewrite (spanDigits_suffix (c :: s) rest ds r E).
      * destruct ds as [|d ds]; [discriminate H|].
        destruct (negb (Ascii.eqb d "0") || str_eqb ds []); [|discriminate H].
        injection H as <- <-. reflexivity.
      * intros ->. apply Hr. destruct ds as [|d ds]; [discriminate H|].
        destruct (negb (Ascii.eqb d "0") || str_eqb ds []); [|discriminate H].
        injection H as _ <-. reflexivity.
Qed.

Lemma spanFraction_suffix (s rest fp s2 : str) :
  spanFraction s = Some (fp, s2) -> (s2 = [] -> numberStop rest = true) ->
  spanFraction (s ++ rest) = Some (fp, s2 ++ rest).
Proof.
  unfold spanFraction. intros H Hr. destruct s as [|c s].
  - injection H as <- <-. cbn [app]. destruct rest as [|c rest]; [reflexivity|].
    destruct (numberStop_facts c rest (Hr eq_refl)) as (_ & P & _).
    rewrite P. reflexivity.
  - cbn [app]. destruct (Ascii.eqb c ".").
    + destruct (spanDigits s) as [ds r] eqn:E.
      destruct ds as [|d ds]; [discriminate H|]. injection H as <- <-.
      rewrite (spanDigits_suffix s rest _ _ E Hr). reflexivity.
    + injection H as <- <-. reflexivity.
Qed.

Lemma spanExponent_suffix (s rest ep s3 : str) :
  spanExponent s = Some (ep, s3) -> (s3 = [] -> numberStop rest = true) ->
  spanExponent (s ++ rest) = Some (ep, s3 ++ rest).
Proof.
  unfold spanExponent. intros H Hr. destruct s as [|c s].
  - injection H as <- <-. cbn [app]. destruct rest as [|c rest]; [reflexivity|].
    destruct (numberStop_facts c rest (Hr eq_refl)) as (_ & _ & P & Q).
    rewrite P, Q. reflexivity.
  - cbn [app]. destruct (Ascii.eqb c "e" || Ascii.eqb c "E").
    + destruct s as [|x s].
      * cbn [spanDigits] in H. discriminate H.
      * cbn [app]. destruct (Ascii.eqb x "+" || Ascii.eqb x "-").
        -- destruct (spanDigits s) as [ds r] eqn:E.
           destruct ds as [|d ds]; [discriminate H|]. injection H as <- <-.
           rewrite (spanDigits_suffix s rest _ _ E Hr). reflexivity.
        -- destruct (spanDigits (x :: s)) as [ds r] eqn:E.
           destruct ds as [|d ds]; [discriminate H|]. injection H as <- <-.
           change (x :: s ++ rest) with ((x :: s) ++ rest).
           rewrite (spanDigits_suffix (x :: s) rest _ _ E Hr). reflexivity.
    + injection H as <- <-. reflexivity.
Qed.

Lemma spanFraction_rest (s fp s2 : str) :
  spanFraction s = Some (fp, s2) -> s = [] -> s2 = [].
Proof. intros H ->. injection H as _ <-. reflexivity. Qed.

Lemma spanExponent_rest (s ep s3 : str) :
  spanExponent s = Some (ep, s3) -> s = [] -> s3 = [].
Proof. intros H ->. injection H as _ <-. reflexivity. Qed.

Lemma spanJsonNumber_suffix (t rest literal : str) :
  spanJsonNumber t = Some (literal, []) -> numberStop rest = true ->
  spanJsonNumber (t ++ rest) = Some (literal, rest).
Proof.
  rewrite !spanJsonNumber_parts. intros H Hr.
  destruct (spanInteger t) as [[ip s1]|] eqn:E1; [|discriminate H].
  destruct (spanFraction s1) as [[fp s2]|] eqn:E2; [|discriminate H].
  destruct (spanExponent s2) as [[ep s3]|] eqn:E3; [|discriminate H].
  injection H as <- ->.
  rewrite (spanInteger_suffix t rest ip s1 E1) by (intros; exact Hr).
  rewrite (spanFraction_suffix s1 rest fp s2 E2) by (intros; exact Hr).
  rewrite (spanExponent_suffix s2 rest ep [] E3) by (intros; exact Hr).
  reflexivity.
Qed.

(** A number that [JSON.parse] reads back from the text that
    [JSON.stringify] writes for it. *)
Definition jsonNumberOk (x : number) : bool :=
  match x with
  | Finite _ _ =>
      numberOk x
      && match spanJsonNumber (numberToString x) with
         | Some (literal, []) => str_eqb literal (numberToString x)
         | _ => false
         end
  | Infinity _ => false
  end.

(** Keys in the order in which an object keeps them: no key twice, none an
    array index. *)
Definition jsonKeysOk (fields : list (str * Value)) : bool :=
  noDupKeys (map fst fields)
  && forallb (fun kv => match arrayIndex (fst kv) with
                        | None => true
                        | Some _ => false
                        end) fields.

(** The values that [JSON.parse] reads back from their JSON text. *)
Fixpoint jsonOk (v : Value) : bool :=
  match v with
  | VNum x => jsonNumberOk x
  | VArr items => forallb jsonOk items
  | VObj fields =>
      jsonKeysOk fields && forallb (fun kv => jsonOk (snd kv)) fields
  | _ => true
  end.

(** Fuel that [parseJsonValue] needs for the text of a value. *)
Fixpoint need (v : Value) : nat :=
  match v with
  | VArr items => S (fold_right (fun x n => S (need x + n)) O items)
  | VObj fields => S (fold_right (fun kv n => S (need (snd kv) + n)) O fields)
  | _ => 1
  end.

Lemma objPutAll_fresh (fs fields : list (str * Value)) :
  jsonKeysOk fields = true ->
  (forall k, hasKey fs k = true -> hasKey fields k = false) ->
  objPutAll fs fields = fs ++ fields.
Proof.
  revert fs. induction fields as [|[k w] fields IH]; intros fs Hk Hfresh.
  - cbn. rewrite app_nil_r. reflexivity.
  - unfold jsonKeysOk in Hk. cbn [forallb map fst noDupKeys] in Hk.
    apply andb_true_iff in Hk. destruct Hk as [Hk1 Hk2].
    apply andb_true_iff in Hk1, Hk2. destruct Hk1 as [Hnew Hnd], Hk2 as [Hidx Hrest].
    assert (Hfs : hasKey fs k = false).
    { destruct (hasKey fs k) eqn:E; [|reflexivity].
      specialize (Hfresh k E). cbn [hasKey] in Hfresh.
      rewrite str_eqb_refl in Hfresh. discriminate. }
    unfold objPutAll. cbn [fold_left fst snd]. fold (objPutAll (objPut fs k w) fields).
    unfold objPut. rewrite Hfs. destruct (arrayIndex k); [discriminate|].
    rewrite IH.
    + rewrite <- app_assoc. reflexivity.
    + unfold jsonKeysOk. rewrite Hrest, Hnd. reflexivity.
    + intros k' Hk'. rewrite hasKey_app in Hk'. apply orb_true_iff in Hk'.
      destruct Hk' as [Hk' | Hk'].
      * specialize (Hfresh k' Hk'). cbn [hasKey] in Hfresh.
        apply orb_false_iff in Hfresh. tauto.
      * cbn [hasKey] in Hk'. rewrite orb_false_r in Hk'.
        apply str_eqb_eq in Hk'. subst k'.
        apply negb_true_iff in Hnew. rewrite hasKey_map_fst. exact Hnew.
Qed.

Lemma skipWs_app (ws s : str) :
  forallb isJsonSpace ws = true -> skipWs (ws ++ s) = skipWs s.
Proof.
  induction ws as [|c ws IH]; intros H; [reflexivity|].
  cbn [forallb] in H. apply andb_true_iff in H. destruct H as [Hc Hws].
  cbn [app skipWs]. rewrite Hc. exact (IH Hws).
Qed.

Lemma skipWs_head (c : ascii) (s : str) :
  isJsonSpace c = false -> skipWs (c :: s) = c :: s.
Proof. intros H. cbn [skipWs]. rewrite H. reflexivity. Qed.

(** The first character of a JSON text of a value. *)
Definition isJsonHead (c : ascii) : bool :=
  isDigit c || Ascii.eqb c "-" || Ascii.eqb c DQUOTE || Ascii.eqb c "["
  || Ascii.eqb c "{" || Ascii.eqb c "t" || Ascii.eqb c "f" || Ascii.eqb c "n".

Lemma jsonHead_facts (c : ascii) :
  isJsonHead c = true ->
  isJsonSpace c = false /\ Ascii.eqb c "]" = false /\ Ascii.eqb c "}" = false.
Proof.
  destruct c as [[] [] [] [] [] [] [] []]; vm_compute; intros H;
    try discriminate H; repeat split.
Qed.

Lemma numberHead_facts (c : ascii) :
  isDigit c || Ascii.eqb c "-" = true ->
  isJsonHead c = true /\ Ascii.eqb c "{" = false /\ Ascii.eqb c "[" = false
  /\ Ascii.eqb c DQUOTE = false /\ Ascii.eqb "t" c = false
  /\ Ascii.eqb "f" c = false /\ Ascii.eqb "n" c = false.
Proof.
  destruct c as [[] [] [] [] [] [] [] []]; vm_compute; intros H;
    try discriminate H; repeat split.
Qed.

Lemma spanInteger_head (s ip s1 : str) :
  spanInteger s = Some (ip, s1) ->
  exists c r, s = c :: r /\ isDigit c || Ascii.eqb c "-" = true.
Proof.
  unfold spanInteger. destruct s as [|c s]; [discriminate|].
  intros H. exists c, s. split; [reflexivity|].
  destruct (Ascii.eqb c "-"); [apply orb_true_r|].
  cbn [spanDigits] in H. destruct (isDigit c); [reflexivity|discriminate H].
Qed.

Lemma jsonNumberOk_spec (x : number) :
  jsonNumberOk x = true ->
  NumberOf (numberToString x) = Num x
  /\ spanJsonNumber (numberToString x) = Some (numberToString x, [])
  /\ stringifyNumber x = numberToString x
  /\ exists c r, numberToString x = c :: r
                 /\ isDigit c || Ascii.eqb c "-" = true.
Proof.
  unfold jsonNumberOk. destruct x as [m scale|]; [|discriminate].
  intros H. apply andb_true_iff in H. destruct H as [H1 H2].
  split; [apply numberOk_spec, H1|].
  destruct (spanJsonNumber (numberToString (Finite m scale)))
    as [[literal [|? ?]]|] eqn:E; try discriminate H2.
  apply str_eqb_eq in H2. subst literal.
  split; [reflexivity|]. split; [reflexivity|].
  rewrite spanJsonNumber_parts in E.
  destruct (spanInteger (numberToString (Finite m scale))) as [[ip s1]|] eqn:E1;
    [|discriminate E].
  exact (spanInteger_head _ _ _ E1).
Qed.

Lemma parse_number (f : nat) (x : number) (ws rest : str) :
  jsonNumberOk x = true -> forallb isJsonSpace ws = true ->
  numberStop rest = true ->
  parseJsonValue (S f) (ws ++ stringifyNumber x ++ rest) = Ok (VNum x, rest).
Proof.
  intros Hx Hws Hr.
  destruct (jsonNumberOk_spec x Hx) as (N & Sp & -> & c & r & E & Hc).
  destruct (numberHead_facts c Hc) as (Hh & B1 & B2 & B3 & T & F & Nl).
  destruct (jsonHead_facts c Hh) as (S1 & _).
  cbn [parseJsonValue]. rewrite skipWs_app by exact Hws.
  pose proof (spanJsonNumber_suffix _ rest _ Sp Hr) as Sp'.
  rewrite E in *. cbn [app] in *. rewrite skipWs_head by exact S1.
  rewrite B1, B2, B3. cbn [lit list_ascii_of_string startsWith].
  rewrite T, F, Nl. cbn [andb]. rewrite Sp', N. reflexivity.
Qed.

Definition ParsesBack (v : Value) : Prop :=
  jsonOk v = true ->
  forall f ws ind rest,
    (need v <= f)%nat -> forallb isJsonSpace ws = true ->
    forallb isJsonSpace ind = true -> numberStop rest = true ->
    parseJsonValue f (ws ++ stringifyAt v ind ++ rest) = Ok (v, rest).

Lemma stringify_head (v : Value) (ind : str) :
  jsonOk v = true ->
  exists c r, stringifyAt v ind = c :: r /\ isJsonHead c = true.
Proof.
  destruct v as [| b | x | s | items | fields]; intros H.
  - eexists _, _. split; reflexivity.
  - destruct b; eexists _, _; split; reflexivity.
  - destruct (jsonNumberOk_spec x H) as (_ & _ & E & c & r & E' & Hc).
    exists c, r. cbn [stringifyAt]. rewrite E, E'. split; [reflexivity|].
    apply numberHead_facts, Hc.
  - eexists _, _. split; reflexivity.
  - destruct items; eexists _, _; split; reflexivity.
  - destruct fields; eexists _, _; split; reflexivity.
Qed.

Lemma isJsonSpace_indent (ind : str) :
  forallb isJsonSpace ind = true ->
  forallb isJsonSpace (ind ++ lit "  ") = true.
Proof. intros H. rewrite forallb_app, H. reflexivity. Qed.

Lemma skipWs_closing (stepback rest : str) (c : ascii) :
  forallb isJsonSpace stepback = true -> isJsonSpace c = false ->
  skipWs (LF :: stepback ++ c :: rest) = c :: rest.
Proof.
  intros H Hc. change (LF :: stepback ++ c :: rest)
    with ((LF :: stepback) ++ c :: rest).
  rewrite skipWs_app by (cbn [forallb]; rewrite H; reflexivity).
  apply skipWs_head, Hc.
Qed.

Lemma parse_elements (ind stepback rest : str) (items : list Value) :
  Forall ParsesBack items -> forallb jsonOk items = true -> items <> [] ->
  forallb isJsonSpace ind = true -> forallb isJsonSpace stepback = true ->
  forall f ws acc,
    (fold_right (fun x n => S (need x + n)) O items <= f)%nat ->
    forallb isJsonSpace ws = true ->
    parseJsonElements f
      (ws ++ join (lit "," ++ [LF] ++ ind)
                  (map (fun item => stringifyAt item ind) items)
          ++ [LF] ++ stepback ++ lit "]" ++ rest) acc
    = Ok (VArr (acc ++ items), rest).
Proof.
  intros HP Hok Hne Hind Hstep.
  induction HP as [|x items Px _ IH]; [congruence|].
  intros f ws acc Hf Hws.
  cbn [forallb] in Hok. apply andb_true_iff in Hok. destruct Hok as [Hx Hitems].
  cbn [fold_right] in Hf. destruct f as [|f]; [lia|].
  cbn [parseJsonElements]. destruct items as [|y items].
  - cbn [map join].
    rewrite (Px Hx f ws ind ([LF] ++ stepback ++ lit "]" ++ rest))
      by (assumption || reflexivity || lia).
    cbn [bind]. cbn [app lit list_ascii_of_string].
    rewrite skipWs_closing by (assumption || reflexivity).
    eval_eqb. reflexivity.
  - change (join (lit "," ++ [LF] ++ ind)
                 (map (fun item => stringifyAt item ind) (x :: y :: items)))
      with (stringifyAt x ind ++ (lit "," ++ [LF] ++ ind)
            ++ join (lit "," ++ [LF] ++ ind)
                    (map (fun item => stringifyAt item ind) (y :: items))).
    rewrite <- !app_assoc.
    rewrite (Px Hx f ws ind) by (assumption || reflexivity || lia).
    cbn [bind]. cbn [app lit list_ascii_of_string].
    rewrite skipWs_head by reflexivity. eval_eqb. cbv iota.
    change (LF :: ind ++ ?t) with ((LF :: ind) ++ t).
    specialize (IH Hitems ltac:(discriminate) f (LF :: ind) (acc ++ [x])).
    cbn [app lit list_ascii_of_string] in IH. rewrite <- !app_assoc in IH.
    cbn [app] in IH. cbn [app]. rewrite IH.
    + reflexivity.
    + cbn [fold_right] in *. lia.
    + cbn [forallb]. rewrite Hind. reflexivity.
Qed.

Lemma parse_members (ind stepback rest : str) (fields : list (str * Value)) :
  Forall (fun kv => ParsesBack (snd kv)) fields ->
  forallb (fun kv => jsonOk (snd kv)) fields = true -> fields <> [] ->
  forallb isJsonSpace ind = true -> forallb isJsonSpace stepback = true ->
  forall f ws acc,
    (fold_right (fun kv n => S (need (snd kv) + n)) O fields <= f)%nat ->
    forallb isJsonSpace ws = true ->
    parseJsonMembers f
      (ws ++ join (lit "," ++ [LF] ++ ind)
                  (map (fun '(k, w) =>
                          quoteJSONString k ++ lit ": " ++ stringifyAt w ind)
                       fields)
          ++ [LF] ++ stepback ++ lit "}" ++ rest) acc
    = Ok (VObj (objPutAll acc fields), rest).
Proof.
  intros HP Hok Hne Hind Hstep.
  induction HP as [|[k x] fields Px _ IH]; [congruence|].
  intros f ws acc Hf Hws.
  cbn [forallb snd] in Hok. apply andb_true_iff in Hok.
  destruct Hok as [Hx Hfields]. cbn [snd] in Px.
  cbn [fold_right snd] in Hf. destruct f as [|f]; [lia|].
  cbn [parseJsonMembers].
  change (objPutAll acc ((k, x) :: fields))
    with (objPutAll (objPut acc k x) fields).
  destruct fields as [|[k' y] fields].
  - cbn [map join]. unfold quoteJSONString.
    cbn [app lit list_ascii_of_string]. rewrite <- !app_assoc.
    rewrite skipWs_app by exact Hws. cbn [app].
    rewrite skipWs_head by reflexivity. rewrite Ascii.eqb_refl.
    rewrite parseStringBody_quoted. cbn [bind].
    rewrite skipWs_head by reflexivity. eval_eqb. cbv iota.
    pose proof (Px Hx f [" "%char] ind (LF :: stepback ++ "}"%char :: rest)
                  ltac:(lia) eq_refl Hind eq_refl) as E.
    cbn [app] in E. rewrite E.
    cbn [bind]. rewrite skipWs_closing by (assumption || reflexivity).
    eval_eqb. reflexivity.
  - change (join (lit "," ++ [LF] ++ ind)
                 (map (fun '(k, w) =>
                         quoteJSONString k ++ lit ": " ++ stringifyAt w ind)
                      ((k, x) :: (k', y) :: fields)))
      with ((quoteJSONString k ++ lit ": " ++ stringifyAt x ind)
            ++ (lit "," ++ [LF] ++ ind)
            ++ join (lit "," ++ [LF] ++ ind)
                    (map (fun '(k, w) =>
                            quoteJSONString k ++ lit ": " ++ stringifyAt w ind)
                         ((k', y) :: fields))).
    unfold quoteJSONString at 1.
    cbn [app lit list_ascii_of_string]. rewrite <- !app_assoc.
    rewrite skipWs_app by exact Hws. cbn [app].
    rewrite skipWs_head by reflexivity. rewrite Ascii.eqb_refl.
    rewrite parseStringBody_quoted. cbn [bind].
    rewrite skipWs_head by reflexivity. eval_eqb. cbv iota.
    match goal with
    | |- context [parseJsonValue f (" "%char :: stringifyAt x ind ++ ?t)] =>
        pose proof (Px Hx f [" "%char] ind t ltac:(lia) eq_refl Hind eq_refl)
          as E
    end.
    cbn [app] in E. rewrite E.
    cbn [bind]. rewrite skipWs_head by reflexivity. eval_eqb. cbv iota.
    specialize (IH Hfields ltac:(discriminate) f (LF :: ind) (objPut acc k x)).
    cbn [app lit list_ascii_of_string] in IH. rewrite <- ?app_assoc in IH.
    cbn [app] in IH. rewrite <- ?app_assoc. rewrite IH.
    + reflexivity.
    + cbn [fold_right snd] in *. lia.
    + cbn [forallb]. rewrite Hind. reflexivity.
Qed.

Ltac norm_app :=
  repeat progress (rewrite <- ?app_assoc; cbn [app lit list_ascii_of_string]).

Lemma parses_back (v : Value) : ParsesBack v.
Proof.
  induction v as [| b | x | s | items IH | fields IH] using Value_nested_ind;
    intros Hok f ws ind rest Hf Hws Hind Hrest;
    (destruct f as [|f]; [cbn [need] in Hf; lia|]).
  - cbn [parseJsonValue stringifyAt]. rewrite skipWs_app by exact Hws.
    cbn [app lit list_ascii_of_string]. rewrite skipWs_head by reflexivity.
    eval_eqb. cbv iota. cbn [startsWith]. eval_eqb. reflexivity.
  - cbn [parseJsonValue stringifyAt]. rewrite skipWs_app by exact Hws.
    destruct b; cbn [app lit list_ascii_of_string];
      rewrite skipWs_head by reflexivity;
      eval_eqb; cbv iota; cbn [startsWith]; eval_eqb; reflexivity.
  - apply parse_number; assumption.
  - cbn [parseJsonValue stringifyAt]. rewrite skipWs_app by exact Hws.
    unfold quoteJSONString. cbn [app]. rewrite skipWs_head by reflexivity.
    eval_eqb. cbv iota. rewrite <- app_assoc. cbn [app].
    rewrite parseStringBody_quoted. reflexivity.
  - cbn [jsonOk] in Hok. cbn [parseJsonValue]. rewrite skipWs_app by exact Hws.
    destruct items as [|x items].
    + cbn [stringifyAt app lit list_ascii_of_string].
      rewrite skipWs_head by reflexivity. eval_eqb. cbv iota.
      rewrite skipWs_head by reflexivity. eval_eqb. reflexivity.
    + cbn [stringifyAt]. set (ind' := ind ++ lit "  ").
      cbn [app lit list_ascii_of_string]. rewrite skipWs_head by reflexivity.
      eval_eqb. cbv iota. rewrite <- !app_assoc.
      assert (Hind' : forallb isJsonSpace ind' = true)
        by apply isJsonSpace_indent, Hind.
      pose proof Hok as Hx. cbn [forallb] in Hx. apply andb_true_iff in Hx.
      destruct Hx as [Hx _].
      destruct (stringify_head x ind' Hx) as (c & r & E & Hc).
      destruct (jsonHead_facts c Hc) as (S1 & S2 & _).
      assert (Sk : forall t,
                 skipWs (LF :: ind' ++ stringifyAt x ind' ++ t) = c :: r ++ t).
      { intros t. change (LF :: ind' ++ stringifyAt x ind' ++ t)
          with ((LF :: ind') ++ stringifyAt x ind' ++ t).
        rewrite skipWs_app by (cbn [forallb]; rewrite Hind'; reflexivity).
        rewrite E. cbn [app]. apply skipWs_head, S1. }
      pose proof (parse_elements ind' ind rest (x :: items) IH Hok
                    ltac:(discriminate) Hind' Hind f (LF :: ind') []) as P.
      cbn [need] in Hf. specialize (P ltac:(lia)).
      specialize (P ltac:(cbn [forallb]; rewrite Hind'; reflexivity)).
      cbn [app lit list_ascii_of_string] in P. rewrite <- ?app_assoc in P.
      cbn [app] in P.
      destruct items as [|y items].
      * cbn [map join] in *. norm_app. rewrite Sk, S2, P. reflexivity.
      * change (join (","%char :: LF :: ind')
                     (map (fun item => stringifyAt item ind') (x :: y :: items)))
          with (stringifyAt x ind' ++ (","%char :: LF :: ind')
                ++ join (","%char :: LF :: ind')
                        (map (fun item => stringifyAt item ind') (y :: items)))
          in *.
        repeat progress (rewrite <- ?app_assoc in P;
                         cbn [app lit list_ascii_of_string] in P).
        norm_app. rewrite Sk, S2, P. reflexivity.
  - cbn [jsonOk] in Hok. apply andb_true_iff in Hok. destruct Hok as [Hkeys Hok].
    cbn [parseJsonValue]. rewrite skipWs_app by exact Hws.
    destruct fields as [|[k x] fields].
    + cbn [stringifyAt app lit list_ascii_of_string].
      rewrite skipWs_head by reflexivity. eval_eqb. cbv iota.
      rewrite skipWs_head by reflexivity. eval_eqb. reflexivity.
    + cbn [stringifyAt]. set (ind' := ind ++ lit "  ").
      cbn [app lit list_ascii_of_string]. rewrite skipWs_head by reflexivity.
      eval_eqb. cbv iota. rewrite <- !app_assoc.
      assert (Hind' : forallb isJsonSpace ind' = true)
        by apply isJsonSpace_indent, Hind.
      assert (Sk : forall t,
                 skipWs (LF :: ind' ++ quoteJSONString k ++ t)
                 = quoteJSONString k ++ t).
      { intros t. change (LF :: ind' ++ quoteJSONString k ++ t)
          with ((LF :: ind') ++ quoteJSONString k ++ t).
        rewrite skipWs_app by (cbn [forallb]; rewrite Hind'; reflexivity).
        unfold quoteJSONString. cbn [app]. apply skipWs_head. reflexivity. }
      pose proof (parse_members ind' ind rest ((k, x) :: fields) IH Hok
                    ltac:(discriminate) Hind' Hind f (LF :: ind') []) as P.
      cbn [need] in Hf. specialize (P ltac:(lia)).
      specialize (P ltac:(cbn [forallb]; rewrite Hind'; reflexivity)).
      rewrite (objPutAll_fresh [] _ Hkeys) in P by discriminate.
      cbn [app lit list_ascii_of_string] in P. rewrite <- ?app_assoc in P.
      cbn [app] in P.
      destruct fields as [|[k' y] fields].
      * cbn [map join] in *. repeat progress (rewrite <- ?app_assoc in P;
                         cbn [app lit list_ascii_of_string] in P).
        norm_app.
        rewrite Sk. unfold quoteJSONString at 1. cbn [app]. eval_eqb. cbv iota.
        rewrite P. reflexivity.
      * cbn [map join] in *.
        repeat progress (rewrite <- ?app_assoc in P;
                         cbn [app lit list_ascii_of_string] in P).
        norm_app.
        rewrite Sk. unfold quoteJSONString at 1. cbn [app]. eval_eqb. cbv iota.
        rewrite P. reflexivity.
Qed.

Lemma need_join {A} (nd : A -> nat) (txt : A -> str) (sep : str) (l : list A) :
  (1 <= length sep)%nat ->
  Forall (fun a => (nd a <= length (txt a))%nat) l ->
  (fold_right (fun a n => S (nd a + n)) O l
   <= length (join sep (map txt l)) + 1)%nat.
Proof.
  intros Hsep H. induction H as [|a l Ha _ IH]; [cbn; lia|].
  cbn [fold_right]. destruct l as [|b l].
  - cbn [map join fold_right]. lia.
  - change (join sep (map txt (a :: b :: l)))
      with (txt a ++ sep ++ join sep (map txt (b :: l))).
    rewrite !length_app. lia.
Qed.

Lemma need_length (v : Value) :
  jsonOk v = true -> forall ind, (need v <= length (stringifyAt v ind))%nat.
Proof.
  induction v as [| b | x | s | items IH | fields IH] using Value_nested_ind;
    intros Hok ind.
  - cbn. lia.
  - destruct b; cbn; lia.
  - destruct (jsonNumberOk_spec x Hok) as (_ & _ & E & c & r & E' & _).
    cbn [stringifyAt need]. rewrite E, E'. cbn [length]. lia.
  - cbn [stringifyAt need]. unfold quoteJSONString. cbn [length]. lia.
  - cbn [jsonOk] in Hok. destruct items as [|x items]; [cbn; lia|].
    cbn [stringifyAt need]. set (ind' := ind ++ lit "  ").
    assert (F : Forall (fun a => (need a <= length (stringifyAt a ind'))%nat)
                       (x :: items)).
    { rewrite Forall_forall in IH. apply Forall_forall. intros a Ha.
      apply IH; [exact Ha|].
      exact (proj1 (forallb_forall _ _) Hok a Ha). }
    pose proof (need_join need (fun a => stringifyAt a ind')
                  (lit "," ++ [LF] ++ ind') (x :: items)
                  ltac:(cbn [app lit list_ascii_of_string length]; lia) F) as N.
    rewrite !length_app. cbn [length lit list_ascii_of_string] in N |- *. lia.
  - cbn [jsonOk] in Hok. apply andb_true_iff in Hok. destruct Hok as [_ Hok].
    destruct fields as [|f fields]; [cbn; lia|].
    cbn [stringifyAt need]. set (ind' := ind ++ lit "  ").
    assert (F : Forall (fun kv => (need (snd kv)
                                   <= length ((fun '(k, w) =>
                                                 quoteJSONString k ++ lit ": "
                                                 ++ stringifyAt w ind') kv))%nat)
                       (f :: fields)).
    { rewrite Forall_forall in IH. apply Forall_forall. intros [k w] Ha.
      cbn [snd]. rewrite !length_app.
      pose proof (IH (k, w) Ha (proj1 (forallb_forall _ _) Hok (k, w) Ha) ind').
      cbn [snd] in *. lia. }
    pose proof (need_join (fun kv => need (snd kv))
                  (fun '(k, w) => quoteJSONString k ++ lit ": "
                                  ++ stringifyAt w ind')
                  (lit "," ++ [LF] ++ ind') (f :: fields)
                  ltac:(cbn [app lit list_ascii_of_string length]; lia) F) as N.
    rewrite !length_app. cbn [length lit list_ascii_of_string] in N |- *.
    match type of N with
    | (_ <= ?j + 1)%nat =>
        match goal with
        | |- (_ <= 1 + (1 + (_ + (?j' + _))))%nat => change j' with j
        end
    end.
    lia.
Qed.

Lemma JSON_parse_stringify (v : Value) :
  jsonOk v = true -> JSON_parse (JSON_stringify v) = Ok v.
Proof.
  intros Hok. unfold JSON_parse, JSON_stringify.
  pose proof (parses_back v Hok (S (length (stringifyAt v []))) [] [] []
                ltac:(pose proof (need_length v Hok []); lia)
                eq_refl eq_refl eq_refl) as P.
  cbn [app] in P. rewrite app_nil_r in P. rewrite P. reflexivity.
Qed.

(** Integers of at most 15 digits are in the class. *)

Lemma digitChar_nonzero (d : Z) :
  1 <= d <= 9 -> Ascii.eqb (digitChar d) "0" = false.
Proof.
  intros H.
  assert (E : d = 1 \/ d = 2 \/ d = 3 \/ d = 4 \/ d = 5 \/ d = 6 \/ d = 7
              \/ d = 8 \/ d = 9) by lia.
  repeat (destruct E as [-> | E]; [reflexivity|]). subst. reflexivity.
Qed.

Lemma digitsOf_head (f : nat) :
  forall n acc, 0 < n < 2 ^ Z.of_nat f ->
                exists c r, digitsOf f n acc = c :: r
                            /\ Ascii.eqb c "0" = false.
Proof.
  induction f as [|f IH]; intros n acc H; [cbn in H; lia|].
  cbn [digitsOf]. destruct (Z.ltb_spec n 10) as [Hlt | Hge].
  - eexists _, _. split; [reflexivity|]. apply digitChar_nonzero.
    rewrite Z.mod_small by lia. lia.
  - apply IH. rewrite Nat2Z.inj_succ, Z.pow_succ_r in H by lia.
    split; [apply Z.div_str_pos; lia|].
    apply Z.div_lt_upper_bound; lia.
Qed.

Lemma decimal_head (a : Z) :
  0 < a -> exists c r, decimal a = c :: r /\ Ascii.eqb c "0" = false.
Proof.
  intros H. apply digitsOf_head. split; [exact H|].
  rewrite Nat2Z.inj_succ, Z2Nat.id by apply Z.log2_nonneg.
  apply Z.log2_spec, H.
Qed.

Lemma jsonNumberOk_integer (m : Z) :
  Z.abs m < 10 ^ 15 -> jsonNumberOk (Finite m 0) = true.
Proof.
  intros Hlt. destruct (Z.eq_dec m 0) as [->|Hm]; [reflexivity|].
  unfold jsonNumberOk. rewrite (numberOk_integer m Hlt). cbn [andb].
  rewrite numberToString_integer by assumption.
  set (a := Z.abs m). assert (Ha : 0 < a) by (unfold a; lia).
  pose proof (decimal_digits a ltac:(lia)) as Hd.
  destruct (decimal_head a Ha) as (c & r & E & Hz). rewrite E in *.
  pose proof Hd as Hd'. cbn [forallb] in Hd'. apply andb_true_iff in Hd'.
  destruct Hd' as [Hc Hr].
  destruct (digit_facts c Hc) as (_ & M & _).
  assert (Sd : spanDigits (c :: r) = (c :: r, [])).
  { pose proof (spanDigits_app (c :: r) [] Hd I) as S.
    rewrite app_nil_r in S. exact S. }
  rewrite spanJsonNumber_parts. unfold spanInteger.
  destruct (m <? 0).
  - change (lit "-" ++ c :: r) with ("-"%char :: c :: r).
    cbv beta iota zeta. eval_eqb. cbv beta iota zeta. rewrite Sd, Hz.
    cbn [negb orb spanFraction spanExponent app]. rewrite app_nil_r.
    apply str_eqb_refl.
  - cbn [app]. cbv beta iota zeta. rewrite M. cbv beta iota zeta.
    rewrite Sd, Hz.
    cbn [negb orb spanFraction spanExponent app]. rewrite app_nil_r.
    apply str_eqb_refl.
Qed.

(** X10: [formatJson] is idempotent: when the text parses to a value of the
    class [jsonOk] (numbers that are read back, such as integers of at most
    15 digits; every string; objects whose keys are distinct and not array
    indices), formatting returns the indented text of the value, formatting
    that text again returns it unchanged, and [validateJson] accepts it. *)
Theorem formatJson_idempotent (s : str) (v : Value) :
  JSON_parse s = Ok v -> jsonOk v = true ->
  formatJson s = Ok (JSON_stringify v)
  /\ formatJson (JSON_stringify v) = Ok (JSON_stringify v)
  /\ validateJson (JSON_stringify v) = Ok true.
Proof.
  intros Hs Hv. unfold formatJson, validateJson.
  rewrite Hs, (JSON_parse_stringify v Hv). repeat split.
Qed.

Lemma formatJson_idempotent_witness :
  formatJson exampleJson = Ok (JSON_stringify exampleValue)
  /\ formatJson (JSON_stringify exampleValue) = Ok (JSON_stringify exampleValue)
  /\ validateJson (JSON_stringify exampleValue) = Ok true.
Proof.
  apply formatJson_idempotent; vm_compute; reflexivity.
Defined.

(** X11: formatting a JSON text first does not change its TOON: for a text
    that parses to a value of the class [jsonOk], [convertToToon] gives the
    same result on the text and on the output of [formatJson] for it. *)
Theorem convertToToon_after_formatJson (s : str) (v : Value) :
  JSON_parse s = Ok v -> jsonOk v = true ->
  (let* formatted := formatJson s in convertToToon formatted)
  = convertToToon s
  /\ convertToToon s = Ok (toToon v 0).
Proof.
  intros Hs Hv. unfold formatJson, convertToToon.
  rewrite Hs. cbn [bind rethrow]. rewrite (JSON_parse_stringify v Hv).
  split; reflexivity.
Qed.

Lemma convertToToon_after_formatJson_witness :
  (let* formatted := formatJson exampleJson in convertToToon formatted)
  = convertToToon exampleJson
  /\ convertToToon exampleJson = Ok (toToon exampleValue 0).
Proof.
  apply convertToToon_after_formatJson; vm_compute; reflexivity.
Defined.

Lemma convertToJson_toToon (V : Value) :
  readBack V = true -> convertToJson (toToon V 0) = Ok (JSON_stringify V).
Proof.
  intros H. pose proof (readBack_parse V H) as P. unfold convertToJson.
  destruct (nonBlankLines (toToon V 0)) as [|l ls] eqn:E.
  - injection P as <-. discriminate H.
  - rewrite P. reflexivity.
Qed.

(** X12: the full circle on texts: for a value that is both in the class of
    the TOON round trip ([readBack]) and in the class of the JSON round
    trip ([jsonOk]), converting its formatted JSON text to TOON, back to
    JSON and formatting gives the same JSON text; and converting its TOON
    text to JSON and back gives the same TOON text. *)
Theorem full_circle (V : Value) :
  readBack V = true -> jsonOk V = true ->
  (let* toon := convertToToon (JSON_stringify V) in
   let* json := convertToJson toon in formatJson json)
  = Ok (JSON_stringify V)
  /\ (let* json := convertToJson (toToon V 0) in convertToToon json)
     = Ok (toToon V 0).
Proof.
  intros Hr Hj. unfold convertToToon, formatJson.
  rewrite (JSON_parse_stringify V Hj). cbn [bind rethrow].
  rewrite (convertToJson_toToon V Hr). cbn [bind].
  rewrite (JSON_parse_stringify V Hj). split; reflexivity.
Qed.

Lemma full_circle_witness :
  (let* toon := convertToToon (JSON_stringify exampleValue) in
   let* json := convertToJson toon in formatJson json)
  = Ok (JSON_stringify exampleValue)
  /\ (let* json := convertToJson (toToon exampleValue 0) in convertToToon json)
     = Ok (toToon exampleValue 0).
Proof.
  apply full_circle; vm_compute; reflexivity.
Defined.

Lemma repairJson_formatted (jsonrepair : str -> outcome str) (s r : str) :
  repairJson jsonrepair s = Ok r ->
  exists t v,
    (jsonrepair s = Ok t \/ jsonrepair (balanceBrackets s) = Ok t)
    /\ JSON_parse t = Ok v /\ r = JSON_stringify v.
Proof.
  assert (A : forall x r0, repairAttempt jsonrepair x = Ok r0 ->
                exists t v, jsonrepair x = Ok t /\ JSON_parse t = Ok v
                            /\ r0 = JSON_stringify v).
  { unfold repairAttempt, formatJson. intros x r0 H.
    destruct (jsonrepair x) as [t| |]; cbn [bind] in H; try discriminate H.
    destruct (JSON_parse t) as [v| |] eqn:E; cbn [bind rethrow] in H;
      try discriminate H.
    injection H as <-. eauto. }
  unfold repairJson. intros H.
  destruct (repairAttempt jsonrepair s) as [r0|m|] eqn:E1;
    cbn [rethrow] in H; try discriminate H.
  - injection H as <-. destruct (A _ _ E1) as (t & v & H1 & H2 & ->).
    exists t, v. auto.
  - destruct (repairAttempt jsonrepair (balanceBrackets s)) as [r1|m'|] eqn:E2;
      try discriminate H.
    injection H as <-. destruct (A _ _ E2) as (t & v & H1 & H2 & ->).
    exists t, v. auto.
Qed.

(** X13: whatever the fixer does, a text that [repairJson] returns is the
    indented JSON text of the value that [JSON.parse] read from the fixer's
    output for the input or for the balanced input; for a value of the
    class [jsonOk] that text is accepted by [validateJson] and is a fixed
    point of [formatJson]. *)
Theorem repairJson_returns_formatted (jsonrepair : str -> outcome str)
        (s r : str) :
  repairJson jsonrepair s = Ok r ->
  exists t v,
    (jsonrepair s = Ok t \/ jsonrepair (balanceBrackets s) = Ok t)
    /\ JSON_parse t = Ok v /\ r = JSON_stringify v
    /\ (jsonOk v = true ->
        validateJson r = Ok true /\ formatJson r = Ok r).
Proof.
  intros H. destruct (repairJson_formatted _ _ _ H) as (t & v & H1 & H2 & ->).
  exists t, v. split; [exact H1|]. split; [exact H2|]. split; [reflexivity|].
  intros Hv. unfold validateJson, formatJson.
  rewrite (JSON_parse_stringify v Hv). split; reflexivity.
Qed.

Lemma repairJson_returns_formatted_witness :
  exists t v,
    ((fun x => Ok (x ++ lit "]")) (lit "[1, 2") = Ok t
     \/ (fun x => Ok (x ++ lit "]")) (balanceBrackets (lit "[1, 2")) = Ok t)
    /\ JSON_parse t = Ok v
    /\ JSON_stringify (VArr [VNum (Finite 1 0); VNum (Finite 2 0)])
       = JSON_stringify v
    /\ (jsonOk v = true ->
        validateJson (JSON_stringify (VArr [VNum (Finite 1 0); VNum (Finite 2 0)]))
        = Ok true
        /\ formatJson (JSON_stringify (VArr [VNum (Finite 1 0); VNum (Finite 2 0)]))
           = Ok (JSON_stringify (VArr [VNum (Finite 1 0); VNum (Finite 2 0)]))).
Proof.
  apply (repairJson_returns_formatted (fun x => Ok (x ++ lit "]")) (lit "[1, 2")).
  vm_compute. reflexivity.
Defined.

(** ** The handlers of the App component *)

Lemma setInputContent_same (st : AppState) :
  setInputContent (inputContent st) st = st.
Proof. destruct st; reflexivity. Qed.

Lemma setTheme_same (st : AppState) : setTheme (theme st) st = st.
Proof. destruct st; reflexivity. Qed.

Lemma handlers_blank (jsonrepair : str -> outcome str) (st : AppState) :
  isBlank (inputContent st) = true ->
  handleFormat st = Ok st /\ handleRepair jsonrepair st = Ok st
  /\ handleConvert jsonrepair st = Ok st.
Proof.
  intros H. unfold handleFormat, handleRepair, handleConvert. rewrite H.
  destruct (conversionMode st); repeat split.
Qed.

(** X14: on blank input (empty or white space only) the handlers of the
    Format, Analyze and Convert buttons do nothing at all: the state,
    including a displayed error, is left as it is. *)
Theorem handlers_ignore_blank_input (jsonrepair : str -> outcome str)
        (st : AppState) :
  isBlank (inputContent st) = true ->
  handleFormat st = Ok st /\ handleRepair jsonrepair st = Ok st
  /\ handleConvert jsonrepair st = Ok st.
Proof. apply handlers_blank. Qed.

Lemma handlers_ignore_blank_input_witness :
  let st := mkAppState (lit "  ") (lit "old") (Some (lit "Invalid JSON"))
                       ThemeDark EditorView (VObj []) ToonToJson false
                       emptyContact emptyContact true None in
  handleFormat st = Ok st /\ handleRepair (fun x => Ok x) st = Ok st
  /\ handleConvert (fun x => Ok x) st = Ok st.
Proof.
  apply handlers_ignore_blank_input. reflexivity.
Defined.

(** X15: [handleConvert] never throws and never touches the input: it either
    leaves the state as it is, or only sets an error message, or sets the
    output and clears the error; so a new output is never shown together
    with an error. *)
Theorem handleConvert_outcomes (jsonrepair : str -> outcome str)
        (st : AppState) :
  (forall m, handleConvert jsonrepair st <> Throw m)
  /\ forall st', handleConvert jsonrepair st = Ok st' ->
                 st' = st
                 \/ (exists m, st' = setError (Some m) st)
                 \/ (exists out, st' = setError None (setOutputContent out st)).
Proof.
  unfold handleConvert, catching.
  match goal with
  | |- context [match ?b with Ok _ => _ | Throw _ => _ | Unmodelled => _ end] =>
      set (body := b)
  end.
  assert (B : forall st', body = Ok st' ->
                st' = st
                \/ (exists m, st' = setError (Some m) st)
                \/ (exists out, st' = setError None (setOutputContent out st))).
  { unfold body. intros st' H.
    destruct (isBlank (inputContent st)); [injection H as <-; auto|].
    destruct (conversionMode st).
    - destruct (validateJson (inputContent st)) as [valid| |];
        cbn [bind] in H; try discriminate H.
      match type of H with bind ?x _ = _ => destruct x as [[text|]| |] end;
        cbn [bind] in H; try discriminate H.
      + destruct (convertToToon text) as [toon| |]; cbn [bind] in H;
          try discriminate H.
        injection H as <-. eauto.
      + injection H as <-. eauto.
    - destruct (negb (validateToon (inputContent st)));
        [injection H as <-; eauto|].
      destruct (convertToJson (inputContent st)) as [json| |];
        cbn [bind] in H; try discriminate H.
      destruct (formatJson json) as [formatted| |]; cbn [bind] in H;
        try discriminate H.
      injection H as <-. eauto. }
  split.
  - intros m. destruct body; discriminate.
  - intros st' H. destruct body as [st0|m|]; try discriminate H.
    + injection H as <-. apply B. reflexivity.
    + injection H as <-. eauto.
Qed.

Lemma fieldOk_noEmptyObjectItem (v : Value) :
  fieldOk v = true -> noEmptyObjectItem v = true.
Proof.
  induction v as [| b | x | s | items IH | fields IH] using Value_nested_ind;
    intros H; try reflexivity.
  - cbn [noEmptyObjectItem]. apply forallb_forall. intros item Hin.
    rewrite Forall_forall in IH. specialize (IH item Hin).
    destruct (isSimple items) eqn:Hs.
    + unfold isSimple in Hs.
      pose proof (proj1 (forallb_forall _ _) Hs item Hin) as Ho.
      apply negb_true_iff in Ho.
      destruct item; try discriminate Ho; reflexivity.
    + rewrite fieldOk_complex in H by exact Hs.
      pose proof (proj1 (forallb_forall _ _) H item Hin) as Hi.
      destruct item as [| b | x | s | items' | fields']; try reflexivity.
      * destruct items'; [reflexivity | discriminate Hi].
      * unfold itemOk in Hi. apply andb_true_iff in Hi. destruct Hi as [_ Hi].
        rewrite (IH Hi). destruct fields'; [discriminate Hi | reflexivity].
  - cbn [noEmptyObjectItem]. apply forallb_forall. intros [k w] Hin.
    rewrite Forall_forall in IH. apply (IH (k, w) Hin).
    destruct fields as [|f fields]; [discriminate H|].
    cbn [fieldOk] in H. apply andb_true_iff in H. destruct H as [_ H].
    exact (proj1 (forallb_forall _ _) H (k, w) Hin).
Qed.

Lemma validateToon_readBack (V : Value) :
  readBack V = true -> validateToon (toToon V 0) = true.
Proof.
  intros H. unfold readBack in H. apply andb_true_iff in H.
  destruct H as [Hb Hf].
  rewrite (validateToon_rendered _ _ (toToon_rendered V 0)).
  apply (toonLines_ok V (fieldOk_noEmptyObjectItem V Hf) 0), Hb.
Qed.

Lemma isBlank_head (c : ascii) (r : str) :
  isSpace c = false -> isBlank (c :: r) = false.
Proof.
  intros H. unfold isBlank. apply str_eqb_neq. intros E.
  apply trim_nil_iff in E. cbn [forallb] in E. rewrite H in E. discriminate.
Qed.

Lemma jsonHead_not_space (c : ascii) : isJsonHead c = true -> isSpace c = false.
Proof.
  destruct c as [[] [] [] [] [] [] [] []]; vm_compute; intros H;
    try discriminate H; reflexivity.
Qed.

Lemma isBlank_stringify (V : Value) :
  jsonOk V = true -> isBlank (JSON_stringify V) = false.
Proof.
  intros H. destruct (stringify_head V [] H) as (c & r & E & Hc).
  unfold JSON_stringify. rewrite E. apply isBlank_head, jsonHead_not_space, Hc.
Qed.

Lemma isBlank_toToon (V : Value) :
  readBack V = true -> isBlank (toToon V 0) = false.
Proof.
  intros H. destruct (isBlank (toToon V 0)) eqn:B; [|reflexivity].
  unfold isBlank in B. apply str_eqb_eq in B. apply trim_nil_iff in B.
  pose proof (readBack_parse V H) as P.
  rewrite (nonBlankLines_blank _ B) in P. injection P as <-. discriminate H.
Qed.

(** X16: the Convert button on the serializer's own texts: for a value in
    the classes of both round trips, in the mode TOON to JSON the TOON text
    of the value is converted to its indented JSON text, and in the mode
    JSON to TOON that JSON text is converted to the TOON text; both times
    the error is cleared and nothing else changes. *)
Theorem handleConvert_round_trip (jsonrepair : str -> outcome str)
        (V : Value) (st : AppState) :
  readBack V = true -> jsonOk V = true ->
  (conversionMode st = ToonToJson -> inputContent st = toToon V 0 ->
   handleConvert jsonrepair st
   = Ok (setError None (setOutputContent (JSON_stringify V) st)))
  /\ (conversionMode st = JsonToToon -> inputContent st = JSON_stringify V ->
      handleConvert jsonrepair st
      = Ok (setError None (setOutputContent (toToon V 0) st))).
Proof.
  intros Hr Hj. split; intros Hm Hi; unfold handleConvert; rewrite Hm, Hi.
  - rewrite (isBlank_toToon V Hr), (validateToon_readBack V Hr).
    cbn [negb]. rewrite (convertToJson_toToon V Hr). cbn [bind].
    unfold formatJson. rewrite (JSON_parse_stringify V Hj). reflexivity.
  - rewrite (isBlank_stringify V Hj). unfold validateJson.
    rewrite (JSON_parse_stringify V Hj). cbn [bind negb].
    unfold convertToToon. rewrite (JSON_parse_stringify V Hj). reflexivity.
Qed.

Lemma handleConvert_round_trip_witness :
  let st := mkAppState (toToon exampleValue 0) [] (Some (lit "old error"))
                       ThemeDark EditorView (VObj []) ToonToJson false
                       emptyContact emptyContact true None in
  handleConvert (fun x => Ok x) st
  = Ok (setError None (setOutputContent (JSON_stringify exampleValue) st)).
Proof.
  apply (proj1 (handleConvert_round_trip (fun x => Ok x) exampleValue _
                  ltac:(vm_compute; reflexivity) ltac:(vm_compute; reflexivity)));
    reflexivity.
Defined.

(** X17: the Format button leaves the serializer's own texts as they are:
    in the mode TOON to JSON, a TOON text of a value in the classes of both
    round trips that is not itself JSON goes through TOON, JSON and TOON
    again unchanged, and in the mode JSON to TOON the indented JSON text of
    the value is unchanged; the error is cleared. *)
Theorem handleFormat_fixed_point (V : Value) (st : AppState) :
  readBack V = true -> jsonOk V = true ->
  (conversionMode st = ToonToJson -> inputContent st = toToon V 0 ->
   validateJson (toToon V 0) = Ok false ->
   handleFormat st = Ok (setError None st))
  /\ (conversionMode st = JsonToToon -> inputContent st = JSON_stringify V ->
      handleFormat st = Ok (setError None st)).
Proof.
  intros Hr Hj. split.
  - intros Hm Hi Hn. unfold handleFormat. rewrite Hm, Hi, Hn.
    rewrite (isBlank_toToon V Hr), (validateToon_readBack V Hr).
    cbn [bind negb]. rewrite (convertToJson_toToon V Hr). cbn [bind].
    unfold convertToToon. rewrite (JSON_parse_stringify V Hj).
    cbn [bind rethrow catching]. rewrite <- Hi, setInputContent_same.
    reflexivity.
  - intros Hm Hi. unfold handleFormat. rewrite Hm, Hi.
    rewrite (isBlank_stringify V Hj). unfold formatJson.
    rewrite (JSON_parse_stringify V Hj).
    cbn [bind rethrow catching]. rewrite <- Hi, setInputContent_same.
    reflexivity.
Qed.

Lemma handleFormat_fixed_point_witness :
  let st := mkAppState (toToon exampleValue 0) [] (Some (lit "old error"))
                       ThemeDark EditorView (VObj []) ToonToJson false
                       emptyContact emptyContact true None in
  handleFormat st = Ok (setError None st).
Proof.
  apply (proj1 (handleFormat_fixed_point exampleValue _
                  ltac:(vm_compute; reflexivity) ltac:(vm_compute; reflexivity)));
    vm_compute; reflexivity.
Defined.

(** X18: switching the direction twice restores the mode; every switch
    empties input and output and clears the error, so that right after a
    switch the Format and Convert buttons do nothing. *)
Theorem toggleConversionMode_twice (jsonrepair : str -> outcome str)
        (st : AppState) :
  conversionMode (toggleConversionMode (toggleConversionMode st))
  = conversionMode st
  /\ conversionMode (toggleConversionMode st) <> conversionMode st
  /\ inputContent (toggleConversionMode st) = []
  /\ outputContent (toggleConversionMode st) = []
  /\ error (toggleConversionMode st) = None
  /\ handleFormat (toggleConversionMode st) = Ok (toggleConversionMode st)
  /\ handleConvert jsonrepair (toggleConversionMode st)
     = Ok (toggleConversionMode st).
Proof.
  repeat split; try (destruct st as [? ? ? ? ? ? [] ? ? ? ? ?]; cbn;
                     congruence);
    apply (handlers_blank jsonrepair); reflexivity.
Qed.

(** X19: the theme button cycles through the four themes: four clicks
    restore the state, and one, two or three clicks give a theme other than
    the one before. *)
Theorem toggleTheme_cycle (st : AppState) :
  toggleTheme (toggleTheme (toggleTheme (toggleTheme st))) = st
  /\ theme (toggleTheme st) <> theme st
  /\ theme (toggleTheme (toggleTheme st)) <> theme st
  /\ theme (toggleTheme (toggleTheme (toggleTheme st))) <> theme st.
Proof.
  destruct st as [? ? ? [] ? ? ? ? ? ? ? ?]; repeat split; discriminate.
Qed.

(** *** The contact form *)

(** The texts that a pattern matches. *)
Inductive Matches : regex -> str -> Prop :=
| MEmpty : Matches REmpty []
| MClass (f : ascii -> bool) (c : ascii) : f c = true -> Matches (RClass f) [c]
| MSeq (a b : regex) (s t : str) :
    Matches a s -> Matches b t -> Matches (RSeq a b) (s ++ t)
| MAltL (a b : regex) (s : str) : Matches a s -> Matches (RAlt a b) s
| MAltR (a b : regex) (s : str) : Matches b s -> Matches (RAlt a b) s
| MStarNil (a : regex) : Matches (RStar a) []
| MStarApp (a : regex) (s t : str) :
    Matches a s -> Matches (RStar a) t -> Matches (RStar a) (s ++ t).

Lemma seq_inv (a b : regex) (s : str) :
  Matches (RSeq a b) s ->
  exists s1 s2, s = s1 ++ s2 /\ Matches a s1 /\ Matches b s2.
Proof. inversion 1; subst; eauto. Qed.

Lemma alt_inv (a b : regex) (s : str) :
  Matches (RAlt a b) s -> Matches a s \/ Matches b s.
Proof. inversion 1; subst; auto. Qed.

Lemma class_inv (f : ascii -> bool) (s : str) :
  Matches (RClass f) s -> exists c, s = [c] /\ f c = true.
Proof. inversion 1; subst; eauto. Qed.

Lemma nullable_spec (r : regex) : nullable r = true <-> Matches r [].
Proof.
  induction r as [| | f | a IHa b IHb | a IHa b IHb | a IHa]; cbn [nullable].
  - split; [discriminate | inversion 1].
  - split; [constructor | reflexivity].
  - split; [discriminate | inversion 1].
  - rewrite andb_true_iff, IHa, IHb. split.
    + intros [Ha Hb]. exact (MSeq a b [] [] Ha Hb).
    + intros H. apply seq_inv in H. destruct H as (s1 & s2 & E & H1 & H2).
      symmetry in E. apply app_eq_nil in E. destruct E; subst. auto.
  - rewrite orb_true_iff, IHa, IHb. split.
    + intros [H | H]; [apply MAltL | apply MAltR]; exact H.
    + apply alt_inv.
  - split; [constructor | reflexivity].
Qed.

Lemma star_cons (a : regex) (s : str) :
  Matches (RStar a) s ->
  forall c r, s = c :: r ->
              exists s1 s2, r = s1 ++ s2 /\ Matches a (c :: s1)
                            /\ Matches (RStar a) s2.
Proof.
  remember (RStar a) as ra eqn:E. intros H.
  induction H as [| | | | | a'| a' s t Hs _ Ht IHt]; try discriminate E.
  - intros c r H. discriminate H.
  - injection E as ->. intros c r H. destruct s as [|x s].
    + cbn [app] in H. apply (IHt eq_refl c r H).
    + cbn [app] in H. injection H as -> <-. exists s, t. auto.
Qed.

Lemma derive_spec (c : ascii) (r : regex) :
  forall s, Matches (derive c r) s <-> Matches r (c :: s).
Proof.
  induction r as [| | f | a IHa b IHb | a IHa b IHb | a IHa]; intros s;
    cbn [derive].
  - split; inversion 1.
  - split; inversion 1.
  - destruct (f c) eqn:F; split; intros H.
    + inversion H; subst. apply MClass, F.
    + apply class_inv in H. destruct H as (x & [= -> ->] & _). constructor.
    + inversion H.
    + apply class_inv in H. destruct H as (x & [= -> ->] & Fx). congruence.
  - assert (Fwd : forall t, Matches (RSeq (derive c a) b) t ->
                            Matches (RSeq a b) (c :: t)).
    { intros t H. apply seq_inv in H. destruct H as (s1 & s2 & -> & H1 & H2).
      apply IHa in H1. exact (MSeq a b (c :: s1) s2 H1 H2). }
    assert (Bwd : forall s1 s2, Matches a (c :: s1) -> Matches b s2 ->
                                Matches (RSeq (derive c a) b) (s1 ++ s2)).
    { intros s1 s2 H1 H2. apply MSeq; [apply IHa, H1 | exact H2]. }
    assert (Inv : Matches (RSeq a b) (c :: s) ->
                  (Matches a [] /\ Matches b (c :: s))
                  \/ Matches (RSeq (derive c a) b) s).
    { intros H. apply seq_inv in H. destruct H as (s1 & s2 & E & H1 & H2).
      destruct s1 as [|x s1].
      - cbn [app] in E. subst s2. left. auto.
      - cbn [app] in E. injection E as <- ->. right. apply Bwd; assumption. }
    destruct (nullable a) eqn:N.
    + split; intros H.
      * apply alt_inv in H. destruct H as [H | H]; [apply Fwd, H|].
        apply IHb in H. apply nullable_spec in N.
        exact (MSeq a b [] (c :: s) N H).
      * destruct (Inv H) as [[_ H2] | H2];
          [apply MAltR, IHb, H2 | apply MAltL, H2].
    + split; intros H; [apply Fwd, H|].
      destruct (Inv H) as [[H1 _] | H2]; [|exact H2].
      apply nullable_spec in H1. congruence.
  - split; intros H.
    + apply alt_inv in H.
      destruct H; [apply MAltL, IHa | apply MAltR, IHb]; assumption.
    + apply alt_inv in H.
      destruct H; [apply MAltL, IHa | apply MAltR, IHb]; assumption.
  - split; intros H.
    + apply seq_inv in H. destruct H as (s1 & s2 & -> & H1 & H2).
      apply IHa in H1. exact (MStarApp a (c :: s1) s2 H1 H2).
    + destruct (star_cons a _ H c s eq_refl) as (s1 & s2 & -> & H1 & H2).
      apply MSeq; [apply IHa, H1 | exact H2].
Qed.

Lemma matches_spec (s : str) :
  forall r, matches r s = true <-> Matches r s.
Proof.
  induction s as [|c s IH]; intros r; cbn [matches].
  - apply nullable_spec.
  - rewrite IH. apply derive_spec.
Qed.

Lemma star_any (s : str) : Matches (RStar (RClass (fun _ => true))) s.
Proof.
  induction s as [|c s IH]; [constructor|].
  exact (MStarApp _ [c] s (MClass _ c eq_refl) IH).
Qed.

(** A non-empty text without white space. *)
Definition isWordRun (s : str) : Prop :=
  s <> [] /\ forallb (fun c => negb (isSpace c)) s = true.

Lemma star_nonSpace (s : str) :
  Matches (RStar nonSpace) s <-> forallb (fun c => negb (isSpace c)) s = true.
Proof.
  split.
  - remember (RStar nonSpace) as r eqn:E. intros H.
    induction H as [| | | | | a| a s t Hs _ Ht IHt]; try discriminate E;
      [reflexivity|].
    injection E as ->. rewrite forallb_app, (IHt eq_refl), andb_true_r.
    apply class_inv in Hs. destruct Hs as (c & -> & F).
    cbn [forallb]. rewrite F. reflexivity.
  - induction s as [|c s IH]; [constructor|]. cbn [forallb]. intros H.
    apply andb_true_iff in H. destruct H as [Hc Hs].
    exact (MStarApp _ [c] s (MClass _ c Hc) (IH Hs)).
Qed.

Lemma plus_nonSpace (s : str) : Matches (RPlus nonSpace) s <-> isWordRun s.
Proof.
  unfold RPlus, isWordRun. split.
  - intros H. apply seq_inv in H. destruct H as (s1 & s2 & -> & H1 & H2).
    apply class_inv in H1. destruct H1 as (c & -> & F).
    apply star_nonSpace in H2.
    split; [discriminate|]. cbn [app forallb]. rewrite F, H2. reflexivity.
  - intros [Hne H]. destruct s as [|c s]; [congruence|].
    cbn [forallb] in H. apply andb_true_iff in H. destruct H as [Hc Hs].
    exact (MSeq _ _ [c] s (MClass _ c Hc) (proj2 (star_nonSpace s) Hs)).
Qed.

Lemma char_matches (x : ascii) (s : str) :
  Matches (RClass (Ascii.eqb x)) s <-> s = [x].
Proof.
  split.
  - intros H. apply class_inv in H. destruct H as (c & -> & F).
    apply Ascii.eqb_eq in F. congruence.
  - intros ->. apply MClass, Ascii.eqb_refl.
Qed.

Lemma emailPattern_spec (s : str) :
  Matches emailPattern s
  <-> exists x y z, s = x ++ "@"%char :: y ++ "."%char :: z
                    /\ isWordRun x /\ isWordRun y /\ isWordRun z.
Proof.
  unfold emailPattern. split.
  - intros H. apply seq_inv in H. destruct H as (x & s1 & -> & Hx & H).
    apply seq_inv in H. destruct H as (a & s2 & -> & Ha & H).
    apply seq_inv in H. destruct H as (y & s3 & -> & Hy & H).
    apply seq_inv in H. destruct H as (d & z & -> & Hd & Hz).
    apply char_matches in Ha, Hd. subst.
    exists x, y, z. rewrite plus_nonSpace in Hx, Hy, Hz. auto.
  - intros (x & y & z & -> & Hx & Hy & Hz).
    rewrite <- plus_nonSpace in Hx, Hy, Hz.
    apply MSeq; [exact Hx|].
    apply (MSeq _ _ ["@"%char]); [apply char_matches; reflexivity|].
    apply MSeq; [exact Hy|].
    apply (MSeq _ _ ["."%char]); [apply char_matches; reflexivity | exact Hz].
Qed.

Lemma regexTest_spec (r : regex) (s : str) :
  regexTest r s = true <-> exists a m b, s = a ++ m ++ b /\ Matches r m.
Proof.
  unfold regexTest. rewrite matches_spec. split.
  - intros H. apply seq_inv in H. destruct H as (a & s1 & -> & _ & H).
    apply seq_inv in H. destruct H as (m & b & -> & Hm & _). eauto.
  - intros (a & m & b & -> & Hm).
    apply MSeq; [apply star_any|]. apply MSeq; [exact Hm | apply star_any].
Qed.

(** X20: the email check of the contact form accepts exactly the texts
    that contain, somewhere, a non-empty run of characters other than white
    space, an at sign, another such run, a dot, and another such run; in
    particular a text without an at sign or without a dot is rejected. *)
Theorem email_check_spec (e : str) :
  (regexTest emailPattern e = true
   <-> exists a x y z b,
         e = a ++ (x ++ "@"%char :: y ++ "."%char :: z) ++ b
         /\ isWordRun x /\ isWordRun y /\ isWordRun z)
  /\ (regexTest emailPattern e = true ->
      includes "@" e = true /\ includes "." e = true).
Proof.
  assert (A : regexTest emailPattern e = true
              <-> exists a x y z b,
                    e = a ++ (x ++ "@"%char :: y ++ "."%char :: z) ++ b
                    /\ isWordRun x /\ isWordRun y /\ isWordRun z).
  { rewrite regexTest_spec. split.
    - intros (a & m & b & -> & Hm). apply emailPattern_spec in Hm.
      destruct Hm as (x & y & z & -> & H). exists a, x, y, z, b. auto.
    - intros (a & x & y & z & b & -> & H).
      exists a, (x ++ "@"%char :: y ++ "."%char :: z), b.
      split; [reflexivity|]. apply emailPattern_spec. eauto. }
  split; [exact A|]. intros H. apply A in H.
  destruct H as (a & x & y & z & b & -> & _).
  assert (I : forall c p q, includes c (p ++ c :: q) = true).
  { intros c p q. unfold includes. rewrite existsb_app. cbn [existsb].
    rewrite Ascii.eqb_refl. apply orb_true_r. }
  split.
  - rewrite includes_app, (includes_app _ (x ++ _) b), I. apply orb_true_r.
  - replace (x ++ "@"%char :: y ++ "."%char :: z)
      with ((x ++ "@"%char :: y) ++ "."%char :: z)
      by (rewrite <- app_assoc; reflexivity).
    rewrite includes_app, (includes_app _ (_ ++ _) b), I. apply orb_true_r.
Qed.

(** The contact form is complete: an email that passes the check and a
    message. *)
Definition contactValid (form : Contact) : bool :=
  negb (str_eqb (email form) []) && regexTest emailPattern (email form)
  && negb (str_eqb (message form) []).

(** X21: the contact form is sent exactly when the email passes the check
    and the message is not empty: then the mail address is opened, the form
    is closed and emptied and no error is shown; otherwise nothing but the
    error messages of the form changes, and at least one of them is not
    empty. *)
Theorem handleContactSubmit_spec (st : AppState) :
  (contactValid (contactForm st) = true ->
   handleContactSubmit st
   = setContactForm emptyContact
       (setIsModalOpen false
          (setLocationHref (mailto (contactForm st))
             (setFormErrors emptyContact st))))
  /\ (contactValid (contactForm st) = false ->
      exists errors,
        handleContactSubmit st = setFormErrors errors st
        /\ errors <> emptyContact).
Proof.
  unfold contactValid, handleContactSubmit.
  destruct (str_eqb (email (contactForm st)) []);
    destruct (regexTest emailPattern (email (contactForm st)));
    destruct (str_eqb (message (contactForm st)) []);
    cbn [negb andb]; split; intros H; try discriminate H;
      try reflexivity; eexists; split; try reflexivity; discriminate.
Qed.

Lemma encodeChar_safe (c : ascii) :
  forallb (fun x => isUriUnreserved x || Ascii.eqb x "%") (encodeChar c) = true.
Proof. destruct c as [[] [] [] [] [] [] [] []]; vm_compute; reflexivity. Qed.

Lemma encodeURIComponent_safe (s : str) :
  forallb (fun x => isUriUnreserved x || Ascii.eqb x "%") (encodeURIComponent s)
  = true.
Proof.
  induction s as [|c s IH]; [reflexivity|].
  unfold encodeURIComponent. cbn [flat_map]. rewrite forallb_app.
  rewrite encodeChar_safe. exact IH.
Qed.

Lemma safe_excludes (c : ascii) (s : str) :
  isUriUnreserved c || Ascii.eqb c "%" = false ->
  forallb (fun x => isUriUnreserved x || Ascii.eqb x "%") s = true ->
  includes c s = false.
Proof.
  intros Hc H. induction s as [|x s IH]; [reflexivity|].
  cbn [forallb] in H. apply andb_true_iff in H. destruct H as [Hx Hs].
  unfold includes. cbn [existsb]. fold (includes c s). rewrite (IH Hs).
  destruct (Ascii.eqb_spec c x) as [->|N]; [congruence | reflexivity].
Qed.

(** X22: whatever the form holds, the address that the contact form opens
    has exactly the two parameters subject and body: the body is the
    percent-encoding of the email and the message, which consists of
    unreserved characters and percent signs only, so that no ampersand,
    question mark, equals sign, hash, space or line break of the user's
    text reaches the address. *)
Theorem mailto_no_injection (form : Contact) :
  exists body,
    mailto form
    = lit "mailto:bhanitgauravapps@gmail.com?subject=Feedback%2FContact%20from%20JSON%20to%20TOON%20App&body="
      ++ body
    /\ body = encodeURIComponent (lit "From: " ++ email form ++ [LF; LF]
                                  ++ lit "Message:" ++ [LF] ++ message form)
    /\ includes "&" body = false /\ includes "?" body = false
    /\ includes "=" body = false /\ includes "#" body = false
    /\ includes " " body = false /\ includes LF body = false.
Proof.
  exists (encodeURIComponent (lit "From: " ++ email form ++ [LF; LF]
                              ++ lit "Message:" ++ [LF] ++ message form)).
  split; [|split; [reflexivity|]].
  - unfold mailto.
    change (encodeURIComponent (lit "Feedback/Contact from JSON to TOON App"))
      with (lit "Feedback%2FContact%20from%20JSON%20to%20TOON%20App").
    reflexivity.
  - repeat split; apply safe_excludes;
      try reflexivity; apply encodeURIComponent_safe.
Qed.

(** X23: the Preview tab never throws; it either switches to the preview
    (with the empty Object for a blank input) or leaves everything but the
    error message as it is; for the serializer's own texts the preview
    shows the value: in the mode TOON to JSON for the TOON text, in the
    mode JSON to TOON for the JSON text.  The Editor tab only switches the
    view back. *)
Theorem toggleViewMode_spec (st : AppState) :
  (forall mode m, toggleViewMode mode st <> Throw m)
  /\ toggleViewMode EditorView st = Ok (setViewMode EditorView st)
  /\ (forall st', toggleViewMode PreviewView st = Ok st' ->
        (exists m, st' = setError (Some m) st)
        \/ (viewMode st' = PreviewView /\ inputContent st' = inputContent st
            /\ outputContent st' = outputContent st))
  /\ (forall V, readBack V = true -> jsonOk V = true ->
        (conversionMode st = ToonToJson -> inputContent st = toToon V 0 ->
         toggleViewMode PreviewView st
         = Ok (setError None (setViewMode PreviewView (setParsedPreview V st))))
        /\ (conversionMode st = JsonToToon ->
            inputContent st = JSON_stringify V ->
            toggleViewMode PreviewView st
            = Ok (setError None
                    (setViewMode PreviewView (setParsedPreview V st))))).
Proof.
  split; [|split; [reflexivity|split]].
  - intros [] m; [discriminate|]. unfold toggleViewMode, catching.
    match goal with |- match ?b with _ => _ end <> _ => destruct b end;
      discriminate.
  - intros st'. unfold toggleViewMode, catching.
    destruct (isBlank (inputContent st)).
    + intros [= <-]. right. repeat split.
    + match goal with
      | |- match bind ?x _ with _ => _ end = _ -> _ =>
          destruct x as [v| |]; cbn [bind]
      end; intros H; try discriminate H; injection H as <-.
      * right. repeat split.
      * left. eauto.
  - intros V Hr Hj. split; intros Hm Hi; unfold toggleViewMode; rewrite Hm, Hi.
    + rewrite (isBlank_toToon V Hr), (convertToJson_toToon V Hr).
      cbn [bind]. rewrite (JSON_parse_stringify V Hj). reflexivity.
    + rewrite (isBlank_stringify V Hj), (JSON_parse_stringify V Hj).
      reflexivity.
Qed.

(** X24: the Analyze button never throws and works in the mode JSON to
    TOON only; it either leaves the state as it is, or sets its error
    message, or replaces the input by the indented JSON text of a value and
    clears the error; when that value is read back from its text, a click
    on Convert then converts the repaired input as it is, without another
    repair, to the TOON text of the value. *)
Theorem handleRepair_spec (jsonrepair : str -> outcome str) (st : AppState) :
  (forall m, handleRepair jsonrepair st <> Throw m)
  /\ (conversionMode st = ToonToJson -> handleRepair jsonrepair st = Ok st)
  /\ forall st', handleRepair jsonrepair st = Ok st' ->
       st' = st
       \/ st' = setError (Some (lit "Repair Failed: Unable to fix JSON")) st
       \/ exists v,
            st' = setError None (setInputContent (JSON_stringify v) st)
            /\ (jsonOk v = true ->
                handleConvert jsonrepair st'
                = Ok (setError None (setOutputContent (toToon v 0) st'))).
Proof.
  unfold handleRepair, catching. split; [|split].
  - intros m. destruct (conversionMode st); [|discriminate].
    match goal with |- match ?b with _ => _ end <> _ => destruct b end;
      discriminate.
  - intros ->. reflexivity.
  - intros st' H. destruct (conversionMode st) eqn:Hm; [|injection H as <-; auto].
    destruct (isBlank (inputContent st)); [injection H as <-; auto|].
    destruct (repairJson jsonrepair (inputContent st)) as [r| |] eqn:E;
      cbn [bind] in H; try discriminate H; injection H as <-; [|auto].
    destruct (repairJson_formatted _ _ _ E) as (t & v & _ & _ & ->).
    right. right. exists v. split; [reflexivity|]. intros Hv.
    unfold handleConvert.
    change (inputContent (setError None (setInputContent (JSON_stringify v) st)))
      with (JSON_stringify v).
    change (conversionMode
              (setError None (setInputContent (JSON_stringify v) st)))
      with (conversionMode st).
    rewrite Hm, (isBlank_stringify v Hv). unfold validateJson.
    rewrite (JSON_parse_stringify v Hv). cbn [bind negb].
    unfold convertToToon. rewrite (JSON_parse_stringify v Hv). reflexivity.
Qed.

(** ** Flat objects with keys that need quotes *)

(** A key that a field line can carry: no colon, and not __proto__. *)
Definition flatKeyOk (key : str) : bool :=
  negb (includes ":" key) && negb (str_eqb key protoKey).

Lemma formattedKey_facts (key : str) :
  includes ":" key = false ->
  includes ":" (formattedKey key) = false
  /\ clean (formattedKey key) = true
  /\ (forall t, startsWith (lit "- ") (formattedKey key ++ t) = false)
  /\ decodeKey (stripLengthSuffix (formattedKey key)) = Ok key.
Proof.
  intros Hc. unfold formattedKey. destruct (testWord key) eqn:W.
  - split; [exact Hc|]. split; [apply token_clean, testWord_token, W|].
    split; [intros t; apply word_not_dash, W|].
    rewrite stripLengthSuffix_plain by (apply word_no_bracket, W).
    apply decodeKey_word, W.
  - split; [apply quoted_no_colon, Hc|]. split; [apply quoted_clean|].
    split; [intros t; reflexivity|].
    rewrite stripLengthSuffix_plain.
    + unfold decodeKey. pose proof (isQuotedBy_quoted key) as Q.
      unfold isQuotedBy in Q. rewrite Q, JSON_parse_quoted. reflexivity.
    + unfold endsWith, quoteJSONString.
      change (DQUOTE :: flat_map quoteChar key ++ [DQUOTE])
        with ((DQUOTE :: flat_map quoteChar key) ++ [DQUOTE]).
      rewrite rev_app_distr. reflexivity.
Qed.

Lemma flat_step (lines : list str) (i : nat) (key : str) (v : Value)
      (fs : list (str * Value)) :
  flatKeyOk key = true -> scalarOk v = true ->
  processContent lines i 0 (formattedKey key ++ lit ": " ++ toToon v 0)
                 {| root := VObj fs; stack := [] |}
  = Ok {| root := VObj (objPut fs key v); stack := [] |}.
Proof.
  intros Hk Hv. unfold flatKeyOk in Hk. apply andb_true_iff in Hk.
  destruct Hk as [Hc Hp]. apply negb_true_iff in Hc, Hp.
  destruct (formattedKey_facts key Hc) as (C1 & C2 & C3 & C4).
  assert (Ho : isObjectLike v = false)
    by (destruct v; try discriminate Hv; reflexivity).
  pose proof (text_clean _ (scalar_text v Ho)) as Ct.
  change (formattedKey key ++ lit ": " ++ toToon v 0)
    with (formattedKey key ++ lit ":" ++ (lit " " ++ toToon v 0)).
  rewrite processContent_field by (exact C1 || apply C3).
  unfold fieldStep. rewrite (trim_clean _ C2), C4. cbn [bind popFrames root stack top obj rootFrame].
  pose proof (trim_line 1 0 _ Ct) as T.
  cbn [spaces repeat app] in T. rewrite app_nil_r in T.
  change (lit " " ++ toToon v 0) with (" "%char :: toToon v 0). rewrite T.
  rewrite (processValue_text _ _ _ _ v) by
    (apply scalar_text, Ho || apply parseValue_scalar, Hv).
  cbn [root stack]. rewrite (assign_object (VObj fs) [] fs key v eq_refl Hp).
  reflexivity.
Qed.

Lemma scalar_fieldLines (key : str) (v : Value) :
  scalarOk v = true ->
  fieldLines 0 (key, v) = [(0%nat, formattedKey key ++ lit ": " ++ toToon v 0)].
Proof. destruct v; try discriminate; reflexivity. Qed.

Lemma flat_run (fields : list (str * Value)) :
  forallb (fun kv => flatKeyOk (fst kv) && scalarOk (snd kv)) fields = true ->
  forall lines i fs,
    segAt (map lexLine lines) i (flat_map (fieldLines 0) fields) ->
    runFrom lines i (length fields) {| root := VObj fs; stack := [] |}
    = Ok {| root := VObj (objPutAll fs fields); stack := [] |}.
Proof.
  induction fields as [|[key v] fields IH]; intros H lines i fs Hseg;
    [reflexivity|].
  cbn [forallb fst snd] in H. apply andb_true_iff in H. destruct H as [Hkv H].
  apply andb_true_iff in Hkv. destruct Hkv as [Hk Hv].
  cbn [flat_map] in Hseg. rewrite (scalar_fieldLines key v Hv) in Hseg.
  cbn [app] in Hseg. apply segAt_cons in Hseg. destruct Hseg as [Hline Hseg].
  cbn [length]. rewrite (runFrom_step _ _ _ _ _ _ Hline).
  change (Z.of_nat 0) with 0.
  rewrite (flat_step lines i key v fs Hk Hv). cbn [bind].
  apply (IH H lines (S i) (objPut fs key v) Hseg).
Qed.

(** X25: flat objects round trip also with keys that need quotes: for an
    Object whose values are scalars that are read back and whose keys hold
    no colon and are not __proto__ (they may hold spaces, dots, quotes or
    be empty), [convertToJson] on the text of [toToon] returns the JSON
    text of the Object built by assigning the fields in order, which is the
    Object itself when its keys are distinct and not array indices. *)
Theorem flat_object_any_keys (fields : list (str * Value)) :
  fields <> [] ->
  forallb (fun kv => flatKeyOk (fst kv) && scalarOk (snd kv)) fields = true ->
  convertToJson (toToon (VObj fields) 0)
  = Ok (JSON_stringify (VObj (objPutAll [] fields)))
  /\ (jsonKeysOk fields = true ->
      convertToJson (toToon (VObj fields) 0)
      = Ok (JSON_stringify (VObj fields))).
Proof.
  intros Hne H.
  assert (A : convertToJson (toToon (VObj fields) 0)
              = Ok (JSON_stringify (VObj (objPutAll [] fields)))).
  { destruct (Rendered_lex _ _ (toToon_rendered (VObj fields) 0)) as [L NB].
    unfold convertToJson, nonBlankLines. rewrite (filter_nonBlank _ NB).
    set (lines := splitLines (toToon (VObj fields) 0)) in *.
    rewrite toonLines_object in L by exact Hne.
    assert (Hlen : length lines = length fields).
    { rewrite <- (length_map lexLine), L. unfold lexed. rewrite length_map.
      clear -H. induction fields as [|[k v] fields IH]; [reflexivity|].
      cbn [forallb fst snd] in H. apply andb_true_iff in H.
      destruct H as [Hkv H]. apply andb_true_iff in Hkv.
      cbn [flat_map]. rewrite (scalar_fieldLines k v (proj2 Hkv)).
      cbn [app length]. rewrite (IH H). reflexivity. }
    destruct lines as [|l0 ls] eqn:El.
    - destruct fields; [congruence | discriminate Hlen].
    - rewrite <- El in *. unfold parseLines.
      rewrite (convertLoop_runFrom lines lines [] _ eq_refl). cbn [length].
      rewrite Hlen, (flat_run fields H lines 0%nat [])
        by (rewrite L; apply segAt_lexed).
      reflexivity. }
  split; [exact A|]. intros Hk. rewrite A.
  rewrite (objPutAll_fresh [] fields Hk) by discriminate. reflexivity.
Qed.

Lemma flat_object_any_keys_witness :
  convertToJson (toToon (VObj [(lit "full name", VStr (lit "Ada L."));
                               (lit "", VNum (Finite 7 0));
                               (lit "x.y", VNull)]) 0)
  = Ok (JSON_stringify (VObj [(lit "full name", VStr (lit "Ada L."));
                              (lit "", VNum (Finite 7 0));
                              (lit "x.y", VNull)])).
Proof.
  apply (flat_object_any_keys
           [(lit "full name", VStr (lit "Ada L."));
            (lit "", VNum (Finite 7 0)); (lit "x.y", VNull)]);
    [discriminate | vm_compute; reflexivity | vm_compute; reflexivity].
Defined.

(** ** When convertToJson throws *)

(** The outcome is not an exception. *)
Definition noThrow {A} (o : outcome A) : Prop :=
  match o with Throw _ => False | _ => True end.

Lemma noThrow_bind {A B} (x : outcome A) (k : A -> outcome B) :
  noThrow x -> (forall a, x = Ok a -> noThrow (k a)) -> noThrow (bind x k).
Proof.
  destruct x as [a| |]; cbn [bind noThrow]; intros H K; auto.
Qed.

Lemma parseValue_noThrow (x : str) : noThrow (parseValue x).
Proof.
  unfold parseValue.
  repeat match goal with
         | |- noThrow (if ?b then _ else _) => destruct b
         | |- noThrow (match ?o with _ => _ end) => destruct o
         end; exact I.
Qed.

Lemma parseValues_noThrow (parts : list str) :
  noThrow (fold_right (fun part acc =>
                         let* v := parseValue part in
                         let* vs := acc in Ok (v :: vs)) (Ok []) parts).
Proof.
  induction parts as [|p parts IH]; [exact I|]. cbn [fold_right].
  apply noThrow_bind; [apply parseValue_noThrow|]. intros v _.
  apply noThrow_bind; [exact IH|]. intros vs _. exact I.
Qed.

(** A text without double quote. *)
Definition quoteFree (s : str) : bool :=
  forallb (fun c => negb (Ascii.eqb c DQUOTE)) s.

(** A text without a line of an array item. *)
Definition noItemLines (t : str) : bool :=
  forallb (fun l => negb (startsWith (lit "- ") (trim l))) (splitLines t).

Lemma trim_forallb (f : ascii -> bool) (s : str) :
  forallb f s = true -> forallb f (trim s) = true.
Proof.
  assert (A : forall t, forallb f t = true -> forallb f (trimStart t) = true).
  { intros t H. destruct (trimStart_suffix t) as (ws & E & _).
    rewrite E, forallb_app in H. apply andb_true_iff in H. tauto. }
  intros H. unfold trim, trimEnd. rewrite forallb_rev. apply A.
  rewrite forallb_rev. apply A, H.
Qed.

Lemma substring_forallb (f : ascii -> bool) (a b : Z) (s : str) :
  forallb f s = true -> forallb f (substring a b s) = true.
Proof.
  intros H. unfold substring. apply forallb_firstn, forallb_skipn, H.
Qed.

Lemma stripLengthSuffix_forallb (f : ascii -> bool) (s : str) :
  forallb f s = true -> forallb f (stripLengthSuffix s) = true.
Proof.
  intros H. unfold stripLengthSuffix.
  destruct (rev s) as [|c r] eqn:E; [exact H|].
  destruct (Ascii.eqb c "]"); [|exact H].
  destruct (spanDigits r) as [ds rest] eqn:S.
  destruct ds as [|d ds]; [exact H|]. destruct rest as [|b before]; [exact H|].
  destruct (Ascii.eqb b "["); [|exact H].
  destruct (spanDigits_spec r _ _ S) as (Er & _ & _).
  rewrite forallb_rev. rewrite <- forallb_rev, E in H.
  cbn [forallb] in H. apply andb_true_iff in H. destruct H as [_ H].
  rewrite Er, forallb_app in H. apply andb_true_iff in H. destruct H as [_ H].
  cbn [forallb] in H. apply andb_true_iff in H. tauto.
Qed.

Lemma quoteFree_head (s : str) :
  quoteFree s = true -> startsWith [DQUOTE] s = false.
Proof.
  destruct s as [|c s]; [reflexivity|]. unfold quoteFree. cbn [forallb startsWith].
  intros H. apply andb_true_iff in H. destruct H as [H _].
  apply negb_true_iff in H. rewrite Ascii.eqb_sym, H. reflexivity.
Qed.

(** Without item lines every container of the parser is an Object, and
    the frames of the stack lie on one path from the root. *)

(** A reference to a container that is not an Array. *)
Definition objectRef (root : Value) (r : ref) : Prop :=
  match r with
  | Attached p => exists fs, getAt root p = Some (VObj fs)
  | Detached isArr => isArr = false
  end.

(** The container of the frame lies on the path [p]. *)
Definition onPath (p : list step) (f : frame) : Prop :=
  match obj f with
  | Attached q => exists t, p = q ++ t
  | Detached _ => True
  end.

Fixpoint chain (stack : list frame) : Prop :=
  match stack with
  | [] => True
  | f :: below =>
      chain below
      /\ match obj f with
         | Attached p => Forall (onPath p) below
         | Detached _ => True
         end
  end.

Definition objectFrames (st : pstate) : Prop :=
  (exists fs, root st = VObj fs)
  /\ Forall (fun f => objectRef (root st) (obj f)) (stack st)
  /\ chain (stack st).

(** What an outcome has to satisfy: no exception, and the invariant. *)
Definition keepsObjects (o : outcome pstate) : Prop :=
  match o with
  | Ok st' => objectFrames st'
  | Throw _ => False
  | Unmodelled => True
  end.

Lemma popFrames_suffix (root : Value) (stack : list frame) (k : Z) (c : str) :
  exists pre, stack = pre ++ popFrames root stack k c.
Proof.
  induction stack as [|f stack IH]; [exists []; reflexivity|].
  cbn [popFrames].
  destruct (indent f <? k); [exists []; reflexivity|].
  destruct ((indent f =? k) && isArrayRef root (obj f)
            && startsWith (lit "- ") c); [exists []; reflexivity|].
  destruct IH as [pre E]. exists (f :: pre). cbn [app]. rewrite <- E.
  reflexivity.
Qed.

Lemma chain_app (a b : list frame) : chain (a ++ b) -> chain b.
Proof.
  induction a as [|f a IH]; [auto|]. cbn [app chain]. intros [H _]. auto.
Qed.

Lemma objectFrames_suffix (r : Value) (pre frames : list frame) :
  objectFrames {| root := r; stack := pre ++ frames |} ->
  objectFrames {| root := r; stack := frames |}.
Proof.
  intros (R & F & C). cbn [root stack] in *.
  split; [exact R|]. split.
  - apply Forall_app in F. tauto.
  - apply chain_app in C. exact C.
Qed.

Lemma top_objectRef (st : pstate) :
  objectFrames st -> objectRef (root st) (obj (top (stack st))).
Proof.
  intros ((fs & R) & F & _). destruct (stack st) as [|f below].
  - cbn [top rootFrame obj objectRef getAt]. rewrite R. eauto.
  - cbn [top]. inversion F; assumption.
Qed.

Lemma top_onPath (stack : list frame) (p : list step) :
  chain stack -> obj (top stack) = Attached p -> Forall (onPath p) stack.
Proof.
  destruct stack as [|f below]; [constructor|].
  cbn [top chain]. intros [_ C] E. rewrite E in C. constructor; [|exact C].
  unfold onPath. rewrite E. exists []. rewrite app_nil_r. reflexivity.
Qed.

Lemma objectRef_setAt (root : Value) (q t : list step)
      (fs : list (str * Value)) (v : Value) :
  isArray v = false \/ t <> [] ->
  isObjectLike v = true \/ t <> [] ->
  (exists fq, getAt root q = Some (VObj fq)) ->
  exists fq', getAt (setAt root (q ++ t) v) q = Some (VObj fq').
Proof.
  intros A O (fq & Hq). unfold setAt. rewrite updateAt_app.
  rewrite (getAt_updateAt _ _ _ _ Hq).
  destruct t as [|[k|i] t]; cbn [updateAt].
  - destruct v; try (destruct A as [A|A]; [discriminate A | congruence]);
      try (destruct O as [O|O]; [discriminate O | congruence]).
    eauto.
  - eauto.
  - eauto.
Qed.

Lemma onPath_objectRef (root : Value) (p : list step) (f : frame)
      (X : list (str * Value)) :
  onPath p f -> objectRef root (obj f) ->
  objectRef (setAt root p (VObj X)) (obj f).
Proof.
  unfold onPath, objectRef. destruct (obj f) as [q|b]; [|auto].
  intros (t & ->) H. apply (objectRef_setAt root q t X); auto.
Qed.

(** An assignment to an Object does not throw and keeps the invariant. *)
Lemma assign_objects (root : Value) (stack : list frame) (c : ref) (k : str)
      (v : Value) :
  (exists fs, root = VObj fs) ->
  Forall (fun f => objectRef root (obj f)) stack ->
  objectRef root c ->
  (forall p, c = Attached p -> Forall (onPath p) stack) ->
  match assign root c k v with
  | Ok (root', r) =>
      (exists fs, root' = VObj fs)
      /\ Forall (fun f => objectRef root' (obj f)) stack
      /\ (isArray v = false -> isObjectLike v = true -> objectRef root' r)
      /\ (forall p', r = Attached p' -> Forall (onPath p') stack)
  | Throw _ => False
  | Unmodelled => True
  end.
Proof.
  intros R F C P. unfold assign.
  destruct (str_eqb k (lit "__proto__")).
  { destruct v; try exact I;
      (split; [exact R|]; split; [exact F|]; split;
       [intros _ _; reflexivity | intros p' E; discriminate E]). }
  destruct c as [p|isArr].
  - destruct C as (fs & G). rewrite G.
    fold (setAt root p (VObj (objPut fs k v))).
    specialize (P p eq_refl). split; [|split; [|split]].
    + destruct R as (fr & ->).
      destruct (objectRef_setAt (VObj fr) [] p fs (VObj (objPut fs k v)))
        as (fq' & E); auto. { cbn [getAt]. eauto. }
      cbn [getAt app] in E. injection E as E. eauto.
    + rewrite Forall_forall in *. intros f Hf.
      apply onPath_objectRef; auto.
    + intros A O. cbn [objectRef].
      rewrite (getAt_key _ p fs k v) by (apply (getAt_setAt _ _ _ _ G)).
      destruct v; try discriminate A; try discriminate O. eauto.
    + intros p' [= <-]. revert P. apply Forall_impl. intros f.
      unfold onPath. destruct (obj f) as [q|b]; [|auto].
      intros (t & ->). exists (t ++ [SKey k]). rewrite app_assoc. reflexivity.
  - cbn [objectRef] in C. subst isArr. cbn [andb].
    split; [exact R|]. split; [exact F|]. split.
    + intros A _. cbn [objectRef]. exact A.
    + intros p' E. discriminate E.
Qed.

Lemma value_noThrow (x : str) :
  noThrow
    (if includes "," x then
       let* isSingleString :=
         if isQuotedBy DQUOTE x || isQuotedBy SQUOTE x then
           match JSON_parse x with
           | Ok _ => Ok true
           | Throw _ => Ok false
           | Unmodelled => Unmodelled
           end
         else Ok false in
       if isSingleString : bool then parseValue x
       else
         let* values :=
           fold_right (fun part acc =>
                         let* v := parseValue part in
                         let* vs := acc in Ok (v :: vs))
                      (Ok []) (splitByComma x) in
         Ok (VArr values)
     else parseValue x).
Proof.
  destruct (includes "," x); [|apply parseValue_noThrow].
  apply noThrow_bind.
  - destruct (isQuotedBy DQUOTE x || isQuotedBy SQUOTE x); [|exact I].
    destruct (JSON_parse x); exact I.
  - intros [] _; [apply parseValue_noThrow|].
    apply noThrow_bind; [apply parseValues_noThrow|]. intros vs _. exact I.
Qed.

Lemma processValue_objects (lines : list str) (i : nat) (st : pstate)
      (k x : str) (ind : Z) :
  objectFrames st ->
  (forall ind', peekNextArray lines i ind' = false) ->
  keepsObjects (processValue st (obj (top (stack st))) k x ind lines i).
Proof.
  intros Inv Peek. pose proof (top_objectRef st Inv) as C.
  destruct Inv as (R & F & Ch).
  assert (P : forall p, obj (top (stack st)) = Attached p ->
                        Forall (onPath p) (stack st))
    by (intros p E; apply top_onPath; assumption).
  assert (Same : forall v,
            keepsObjects
              (let* (root', _) := assign (root st) (obj (top (stack st))) k v in
               Ok {| root := root'; stack := stack st |})).
  { intros v.
    pose proof (assign_objects (root st) (stack st) _ k v R F C P) as A.
    destruct (assign (root st) (obj (top (stack st))) k v) as [[root' r]| |];
      cbn [bind keepsObjects]; auto.
    destruct A as (R' & F' & _ & _). split; [exact R'|]. split; [exact F'|].
    exact Ch. }
  unfold processValue. rewrite Peek.
  destruct (str_eqb x []).
  { pose proof (assign_objects (root st) (stack st) _ k (VObj []) R F C P) as A.
    destruct (assign (root st) (obj (top (stack st))) k (VObj []))
      as [[root' r]| |]; cbn [bind keepsObjects]; auto.
    destruct A as (R' & F' & O' & P'). split; [exact R'|].
    cbn [root stack]. split.
    - constructor; [apply O'; reflexivity | exact F'].
    - cbn [chain obj]. split; [exact Ch|].
      destruct r as [p'|b]; [apply P'; reflexivity | exact I]. }
  destruct (str_eqb x (lit "[]")); [apply Same|].
  destruct (str_eqb x (lit "{}")); [apply Same|].
  pose proof (value_noThrow x) as N. cbv zeta.
  match goal with
  | |- keepsObjects (bind ?val _) => destruct val as [v| |]
  end; cbn [bind keepsObjects]; auto.
Qed.

Lemma processContent_objects (lines : list str) (i : nat) (k : Z) (c : str)
      (st : pstate) :
  quoteFree c = true -> startsWith (lit "- ") c = false ->
  (forall ind, peekNextArray lines i ind = false) ->
  objectFrames st -> keepsObjects (processContent lines i k c st).
Proof.
  intros Q D Peek Inv. unfold processContent. rewrite D.
  destruct (popFrames_suffix (root st) (stack st) k c) as [pre E].
  set (stack1 := popFrames (root st) (stack st) k c) in *.
  assert (Inv1 : objectFrames {| root := root st; stack := stack1 |}).
  { apply (objectFrames_suffix _ pre). rewrite <- E. destruct st; exact Inv. }
  destruct (indexOf ":" c =? -1); [exact Inv1|].
  assert (H : startsWith [DQUOTE]
                (stripLengthSuffix (trim (substring 0 (indexOf ":" c) c)))
              = false).
  { apply quoteFree_head. unfold quoteFree.
    apply stripLengthSuffix_forallb, trim_forallb, substring_forallb, Q. }
  rewrite H. cbn [andb bind].
  apply (processValue_objects lines i {| root := root st; stack := stack1 |});
    assumption.
Qed.

Lemma peek_noItems (lines : list str) (i : nat) (ind : Z) :
  Forall (fun l => startsWith (lit "- ") (trim l) = false) lines ->
  peekNextArray lines i ind = false.
Proof.
  intros H. unfold peekNextArray.
  destruct (nth_error lines (S i)) as [l|] eqn:E; [|reflexivity].
  apply nth_error_In in E. rewrite Forall_forall in H.
  rewrite (H _ E). apply andb_false_r.
Qed.

Lemma convertLoop_objects (lines todo : list str) :
  Forall (fun l => startsWith (lit "- ") (trim l) = false) lines ->
  Forall (fun l => quoteFree l = true
                   /\ startsWith (lit "- ") (trim l) = false) todo ->
  forall i st, objectFrames st -> noThrow (convertLoop lines todo i st).
Proof.
  intros HL. induction 1 as [|line todo [Q D] _ IH]; intros i st Inv;
    [exact I|].
  cbn [convertLoop]. unfold processLine.
  pose proof (processContent_objects lines i (searchNonSpace line) (trim line)
                st (trim_forallb _ _ Q) D
                (fun ind => peek_noItems lines i ind HL) Inv) as K.
  destruct (processContent lines i (searchNonSpace line) (trim line) st)
    as [st'| |]; cbn [bind noThrow keepsObjects] in *; auto.
Qed.

(** X26: [convertToJson] throws nothing but [Failed to convert to JSON].
    It never throws on a text without double quotes and without lines of
    array items (lines whose content starts with a dash and a space): the
    exceptions of the parser come from a double-quoted key that is not a
    JSON string and from properties of an Array.  Both make it throw: a
    key that is a double quote, a backslash, the letter q and a double
    quote, and the field [length: -1] below an item of the root Array. *)
Theorem convertToJson_throws (t : str) :
  (forall m, convertToJson t = Throw m -> m = lit "Failed to convert to JSON")
  /\ (quoteFree t = true -> noItemLines t = true ->
      forall m, convertToJson t <> Throw m)
  /\ convertToJson (DQUOTE :: BSLASH :: lit "q" ++ DQUOTE :: lit ": 1")
     = Throw (lit "Failed to convert to JSON")
  /\ convertToJson (lit "- 1" ++ LF :: lit "length: -1")
     = Throw (lit "Failed to convert to JSON").
Proof.
  split; [|split; [|split; vm_compute; reflexivity]].
  - unfold convertToJson, rethrow. intros m.
    match goal with |- match ?b with _ => _ end = _ -> _ => destruct b end;
      congruence.
  - intros Q D m. unfold convertToJson, nonBlankLines.
    set (lines := filter nonBlank (splitLines t)).
    assert (F : Forall (fun l => quoteFree l = true
                                 /\ startsWith (lit "- ") (trim l) = false)
                       lines).
    { pose proof (splitLines_forallb _ t Q) as F.
      unfold noItemLines in D. rewrite forallb_forall in D.
      rewrite Forall_forall in *. intros l Hl. apply filter_In in Hl.
      destruct Hl as [Hl _]. split; [apply F, Hl|].
      apply negb_true_iff, D, Hl. }
    assert (G : Forall (fun l => startsWith (lit "- ") (trim l) = false) lines)
      by (revert F; apply Forall_impl; tauto).
    destruct lines as [|l ls] eqn:E; [discriminate|].
    rewrite <- E in *. unfold parseLines.
    pose proof (convertLoop_objects lines lines G F 0%nat
                  {| root := VObj []; stack := [] |}) as N.
    destruct (convertLoop _ _ _ _); cbn [bind rethrow]; try discriminate.
    exfalso. apply N. split; [cbn [root]; eauto|]. split; constructor.
Qed.

(** ** The parser sees a line through its indentation and its content *)

Lemma parseLines_lex (la lb : list str) :
  map lexLine la = map lexLine lb -> parseLines la = parseLines lb.
Proof.
  intros H. unfold parseLines.
  rewrite (convertLoop_congr la lb la lb); [reflexivity|].
  assert (P : forall i ind, peekNextArray la i ind = peekNextArray lb i ind)
    by (intros i ind; rewrite !peekNextArray_lex, H; reflexivity).
  assert (G : forall ta tb, map lexLine ta = map lexLine tb ->
              Forall2 (fun l l' => forall i st,
                         processLine la i l st = processLine lb i l' st) ta tb).
  { induction ta as [|a ta IH]; intros [|b tb] E; try discriminate E;
      constructor.
    - cbn [map] in E. injection E as E1 E2 _. intros i st.
      unfold processLine. rewrite E1, E2. apply processContent_ext, P.
    - apply IH. cbn [map] in E. injection E as _ _ E. exact E. }
  apply G, H.
Qed.

Lemma convertToJson_lex (a b : str) :
  map lexLine (nonBlankLines a) = map lexLine (nonBlankLines b) ->
  convertToJson a = convertToJson b.
Proof.
  intros H. unfold convertToJson. rewrite (parseLines_lex _ _ H).
  destruct (nonBlankLines a) as [|la0 la], (nonBlankLines b) as [|lb0 lb];
    try discriminate H; reflexivity.
Qed.

(** X27: [convertToJson] reads a text only through the indentation and the
    trimmed content of its lines that are not blank: two texts whose lines
    agree on these two give the same result, or the same error.  Blank
    lines, spaces at the end of a line and the kind of white space that
    indents a line do not matter. *)
Theorem convertToJson_reads_indent_and_content (a b : str) :
  map lexLine (nonBlankLines a) = map lexLine (nonBlankLines b) ->
  convertToJson a = convertToJson b.
Proof. exact (convertToJson_lex a b). Qed.

Lemma convertToJson_reads_indent_and_content_witness :
  convertToJson (lit "a:   " ++ LF :: LF :: lit "  b: [1,2] ")
  = convertToJson (lit "a:" ++ LF :: "009"%char :: "009"%char :: lit "b: [1,2]").
Proof.
  apply convertToJson_reads_indent_and_content. vm_compute. reflexivity.
Defined.

(** ** The earlier serializer on nested objects *)

(** The strings both serializers write alike: a word, a text that is no
    word with dots, or a text that reads as a number. *)
Definition alikeString (s : str) : bool :=
  testWord s || negb (testWordDot s) || negb (isNaN (NumberOf s)).

(** Scalars and non-empty objects of them, with strings written alike. *)
Fixpoint objectsOnly (v : Value) : bool :=
  match v with
  | VStr s => alikeString s
  | VArr _ => false
  | VObj fields =>
      match fields with
      | [] => false
      | _ => forallb (fun kv => objectsOnly (snd kv)) fields
      end
  | _ => true
  end.

Lemma testWord_testWordDot (s : str) :
  testWord s = true -> testWordDot s = true.
Proof.
  unfold testWord, testWordDot. intros H. apply andb_true_iff in H.
  destruct H as [N W]. rewrite N. cbn [andb].
  revert W. apply forallb_impl. intros c Hc. unfold isWordOrDot.
  rewrite Hc. reflexivity.
Qed.

Lemma legacy_string (s : str) (n : nat) :
  Legacy.toToon (VStr s) n = toToon (VStr s) n <-> alikeString s = true.
Proof.
  cbn [Legacy.toToon toToon]. unfold alikeString.
  destruct (str_eqb s (lit "true")) eqn:E1.
  { apply str_eqb_eq in E1. subst s. split; reflexivity. }
  destruct (str_eqb s (lit "false")) eqn:E2.
  { apply str_eqb_eq in E2. subst s. split; reflexivity. }
  destruct (str_eqb s (lit "null")) eqn:E3.
  { apply str_eqb_eq in E3. subst s. split; reflexivity. }
  destruct (isNaN (NumberOf s)) eqn:E4; cbn [orb negb];
    [|rewrite !orb_true_r; split; reflexivity].
  rewrite orb_false_r.
  destruct (testWord s) eqn:W.
  - rewrite (testWord_testWordDot s W). split; reflexivity.
  - destruct (testWordDot s) eqn:D; cbn [orb negb].
    + split; [|discriminate]. intros H. destruct (quoteJSONString_neq s H).
    + split; reflexivity.
Qed.

Lemma legacy_scalar (v : Value) (n : nat) :
  isObjectLike v = false -> objectsOnly v = true ->
  Legacy.toToon v n = toToon v n.
Proof.
  destruct v as [| b | x | s | items | fields]; intros H A;
    try discriminate H; try reflexivity.
  apply legacy_string, A.
Qed.

(** One element of the [map] over the keys of an object. *)
Definition legacyField (indentLevel : nat) (field : str * Value) : str :=
  let indent := repeatStr (lit "  ") indentLevel in
  let '(key, value) := field in
  match value with
  | VArr _ | VObj _ =>
      indent ++ formattedKey key ++ lit ":" ++ [LF]
      ++ Legacy.toToon value (S indentLevel)
  | _ => indent ++ formattedKey key ++ lit ": " ++ Legacy.toToon value 0
  end.

Lemma legacy_object (fields : list (str * Value)) (n : nat) :
  fields <> [] ->
  Legacy.toToon (VObj fields) n = join [LF] (map (legacyField n) fields).
Proof.
  intros Hne. destruct fields as [|f fields]; [congruence|].
  reflexivity.
Qed.

Lemma legacy_field_rendered (n : nat) (key : str) (value : Value) :
  objectsOnly value = true ->
  (forall m, Rendered (Legacy.toToon value m) (toonLines value m)) ->
  Rendered (legacyField n (key, value)) (fieldLines n (key, value)).
Proof.
  intros A IH. unfold legacyField, fieldLines. rewrite repeatStr_spaces.
  set (k := (2 * n)%nat).
  assert (One : forall c, clean c = true ->
                Rendered (spaces k ++ formattedKey key ++ lit ": " ++ c)
                         [(k, formattedKey key ++ lit ": " ++ c)]).
  { intros c Hc. apply clean_parts in Hc. destruct Hc as (_ & E & L).
    apply Rendered_single, clean_key_content.
    - apply endsClean_app, E.
    - rewrite notLF_app, L. reflexivity. }
  destruct value as [| b | x | s | vitems | vfields];
    try (rewrite legacy_scalar by (reflexivity || exact A);
         apply One, scalar_clean; reflexivity).
  - discriminate A.
  - destruct vfields as [|f0 vfields]; [discriminate A|].
    replace (spaces k ++ formattedKey key ++ lit ":" ++ [LF]
             ++ Legacy.toToon (VObj (f0 :: vfields)) (S n))
      with ((spaces k ++ formattedKey key ++ lit ":")
            ++ LF :: Legacy.toToon (VObj (f0 :: vfields)) (S n))
      by (rewrite <- !app_assoc; reflexivity).
    apply (Rendered_app _ _ [_]); [|apply IH].
    apply Rendered_single, clean_key_content; reflexivity.
Qed.

(** On these values the earlier serializer writes the lines of the current
    one, without the spaces at their ends. *)
Lemma legacy_rendered (v : Value) :
  objectsOnly v = true ->
  forall n, Rendered (Legacy.toToon v n) (toonLines v n).
Proof.
  induction v as [| b | x | s | items IH | fields IH] using Value_nested_ind;
    intros A n;
    try (rewrite legacy_scalar by (reflexivity || exact A);
         apply toToon_rendered).
  - discriminate A.
  - destruct fields as [|f0 fields]; [discriminate A|].
    rewrite legacy_object, toonLines_object by discriminate.
    rewrite flat_map_concat_map. apply Rendered_join; [|discriminate].
    apply Forall2_map_both.
    cbn [objectsOnly] in A. rewrite forallb_forall in A.
    rewrite Forall_forall in IH |- *. intros [key value] Hin.
    apply legacy_field_rendered.
    + apply (A _ Hin).
    + intros m. apply (IH _ Hin), (A _ Hin).
Qed.

Lemma objectsOnly_noEmptyObjectItem (v : Value) :
  objectsOnly v = true -> noEmptyObjectItem v = true.
Proof.
  induction v as [| b | x | s | items IH | fields IH] using Value_nested_ind;
    intros A; try reflexivity; [discriminate A|].
  destruct fields as [|f0 fields]; [discriminate A|].
  cbn [objectsOnly] in A. cbn [noEmptyObjectItem].
  rewrite forallb_forall in A |- *. rewrite Forall_forall in IH.
  intros [key w] Hin. apply (IH _ Hin), (A _ Hin).
Qed.

(** X28: the earlier serializer of the utilities file stays readable on
    nested objects.  For a value made of non-empty objects and scalars
    whose strings both versions quote alike, the text of the earlier
    [toToon] has the lines of the current one up to the spaces at their
    ends, so it passes [validateToon] when the value is an object,
    [convertToJson] gives on it what it gives on the current text, and
    that is the JSON text of the value when the value is in the class
    that is read back. *)
Theorem legacy_objects_compatible (v : Value) :
  objectsOnly v = true ->
  map lexLine (splitLines (Legacy.toToon v 0))
  = map lexLine (splitLines (toToon v 0))
  /\ (isBlock v = true -> validateToon (Legacy.toToon v 0) = true)
  /\ convertToJson (Legacy.toToon v 0) = convertToJson (toToon v 0)
  /\ (readBack v = true ->
      convertToJson (Legacy.toToon v 0) = Ok (JSON_stringify v)).
Proof.
  intros A.
  destruct (Rendered_lex _ _ (legacy_rendered v A 0)) as [L1 N1].
  destruct (Rendered_lex _ _ (toToon_rendered v 0)) as [L2 N2].
  assert (E : convertToJson (Legacy.toToon v 0) = convertToJson (toToon v 0)).
  { apply convertToJson_lex. unfold nonBlankLines.
    rewrite (filter_nonBlank _ N1), (filter_nonBlank _ N2), L1, L2.
    reflexivity. }
  split; [rewrite L1, L2; reflexivity|].
  split.
  - intros B. rewrite (validateToon_rendered _ _ (legacy_rendered v A 0)).
    apply (toonLines_ok v (objectsOnly_noEmptyObjectItem v A) 0), B.
  - split; [exact E|]. intros R. rewrite E. apply convertToJson_toToon, R.
Qed.

Lemma legacy_objects_compatible_witness :
  convertToJson
    (Legacy.toToon
       (VObj [(lit "name", VStr (lit "Ada Lovelace"));
              (lit "born", VObj [(lit "year", VNum (Finite 1815 0));
                                 (lit "place", VStr (lit "London"))])]) 0)
  = Ok (JSON_stringify
          (VObj [(lit "name", VStr (lit "Ada Lovelace"));
                 (lit "born", VObj [(lit "year", VNum (Finite 1815 0));
                                    (lit "place", VStr (lit "London"))])])).
Proof.
  apply legacy_objects_compatible; reflexivity.
Defined.

(** ** Lines that are neither fields nor items *)

(** A line without a colon whose content does not start an array item. *)
Definition plainLine (l : str) : bool :=
  negb (includes ":" l) && negb (startsWith (lit "- ") (trim l)).

Definition plainLines (text : str) : bool :=
  forallb plainLine (splitLines text).

Lemma includes_trim (c : ascii) (s : str) :
  includes c s = false -> includes c (trim s) = false.
Proof.
  intros H.
  assert (F : forall t, includes c t = false
                        <-> forallb (fun x => negb (Ascii.eqb c x)) t = true).
  { induction t as [|x t IH]; [split; reflexivity|].
    cbn [includes existsb forallb]. fold (includes c t).
    destruct (Ascii.eqb c x); cbn [orb negb andb]; [split; discriminate|].
    exact IH. }
  apply F, trim_forallb, F, H.
Qed.

Lemma convertLoop_app (lines a b : list str) :
  forall i st,
    convertLoop lines (a ++ b) i st
    = let* st' := convertLoop lines a i st in
      convertLoop lines b (i + length a) st'.
Proof.
  induction a as [|l a IH]; intros i st.
  - cbn [app convertLoop bind length]. rewrite Nat.add_0_r. reflexivity.
  - cbn [app convertLoop length].
    destruct (processLine lines i l st) as [st1| |]; cbn [bind];
      try reflexivity.
    rewrite IH. replace (S i + length a)%nat with (i + S (length a))%nat by lia.
    reflexivity.
Qed.

Lemma plain_step (lines : list str) (i : nat) (l : str) (st : pstate) :
  plainLine l = true ->
  exists stack', processLine lines i l st
                 = Ok {| root := root st; stack := stack' |}.
Proof.
  intros H. unfold plainLine in H. apply andb_true_iff in H.
  destruct H as [C D]. apply negb_true_iff in C, D.
  unfold processLine, processContent. rewrite D.
  rewrite (indexOf_absent _ _ (includes_trim _ _ C)).
  change (-1 =? -1) with true. cbv beta iota. eauto.
Qed.

Lemma plain_loop (lines J : list str) :
  forallb plainLine J = true ->
  forall i st, exists stack',
    convertLoop lines J i st = Ok {| root := root st; stack := stack' |}.
Proof.
  induction J as [|l J IH]; intros H i st.
  - exists (stack st). destruct st; reflexivity.
  - cbn [forallb] in H. apply andb_true_iff in H. destruct H as [Hl HJ].
    destruct (plain_step lines i l st Hl) as [s1 E1].
    cbn [convertLoop]. rewrite E1. cbn [bind].
    destruct (IH HJ (S i) {| root := root st; stack := s1 |}) as [s2 E2].
    exists s2. exact E2.
Qed.

Lemma peek_plain (L J : list str) (i : nat) (ind : Z) :
  forallb plainLine J = true ->
  peekNextArray (L ++ J) i ind = peekNextArray L i ind.
Proof.
  intros H. unfold peekNextArray.
  destruct (Nat.lt_ge_cases (S i) (length L)) as [Lt | Ge].
  - rewrite nth_error_app1 by exact Lt. reflexivity.
  - rewrite nth_error_app2 by exact Ge.
    rewrite (proj2 (nth_error_None L (S i)) Ge).
    destruct (nth_error J (S i - length L)) as [l|] eqn:E; [|reflexivity].
    apply nth_error_In in E. rewrite forallb_forall in H.
    specialize (H _ E). unfold plainLine in H. apply andb_true_iff in H.
    destruct H as [_ D]. apply negb_true_iff in D. rewrite D.
    apply andb_false_r.
Qed.

Lemma parseLines_plain (L J : list str) :
  forallb plainLine J = true -> parseLines (L ++ J) = parseLines L.
Proof.
  intros H. unfold parseLines. rewrite convertLoop_app.
  rewrite (convertLoop_congr (L ++ J) L L L).
  - destruct (convertLoop L L 0 {| root := VObj []; stack := [] |})
      as [st1| |]; cbn [bind]; try reflexivity.
    destruct (plain_loop (L ++ J) J H (0 + length L) st1) as [s2 E].
    rewrite E. reflexivity.
  - apply Forall2_refl. intros l i st. unfold processLine.
    apply processContent_ext. intros ind. apply peek_plain, H.
Qed.

Lemma nonBlank_plain (text : str) :
  plainLines text = true -> forallb plainLine (nonBlankLines text) = true.
Proof.
  unfold plainLines, nonBlankLines. intros H. apply forallb_forall.
  intros l Hin. apply filter_In in Hin. rewrite forallb_forall in H.
  apply H, Hin.
Qed.

Lemma convertToJson_plain (junk : str) :
  plainLines junk = true -> convertToJson junk = Ok (lit "{}").
Proof.
  intros H. apply nonBlank_plain in H. unfold convertToJson.
  destruct (nonBlankLines junk) as [|l J] eqn:E; [reflexivity|].
  pose proof (parseLines_plain [] (l :: J) H) as P. cbn [app] in P.
  rewrite P. reflexivity.
Qed.

Lemma convertToJson_trailing_plain (text junk : str) :
  plainLines junk = true ->
  convertToJson (text ++ LF :: junk) = convertToJson text.
Proof.
  intros H. apply nonBlank_plain in H. unfold convertToJson.
  rewrite nonBlankLines_app, (parseLines_plain _ _ H).
  destruct (nonBlankLines text) as [|l L]; [|reflexivity].
  cbn [app]. destruct (nonBlankLines junk); reflexivity.
Qed.

(** X29: lines without a colon that do not start with a dash are dropped
    without an error.  A text made of such lines only is converted to the
    empty object, and such lines at the end of a text do not change what
    [convertToJson] returns for the text before them. *)
Theorem convertToJson_drops_plain_lines (junk : str) :
  plainLines junk = true ->
  convertToJson junk = Ok (lit "{}")
  /\ forall text, convertToJson (text ++ LF :: junk) = convertToJson text.
Proof.
  intros H. split; [apply convertToJson_plain, H|].
  intros text. apply convertToJson_trailing_plain, H.
Qed.

Lemma convertToJson_drops_plain_lines_witness :
  convertToJson (lit "a: 1" ++ LF :: lit "just some words" ++ LF :: lit "[1, 2]")
  = convertToJson (lit "a: 1").
Proof.
  apply (proj2 (convertToJson_drops_plain_lines
                  (lit "just some words" ++ LF :: lit "[1, 2]") eq_refl)).
Defined.

(** ** Arrays of scalars in the earlier format *)

Definition colonFree (v : Value) : bool :=
  match v with
  | VStr s => negb (includes ":" s)
  | _ => true
  end.

Lemma digit_not_dash (c : ascii) :
  isDigit c = true -> Ascii.eqb "-" c = false /\ Ascii.eqb " " c = false.
Proof.
  destruct c as [[] [] [] [] [] [] [] []]; vm_compute; intros H;
    try discriminate H; split; reflexivity.
Qed.

Lemma number_not_dash (x : number) (tail : str) :
  startsWith (lit "- ") (numberToString x ++ tail) = false.
Proof.
  destruct x as [m scale | negative]; [|destruct negative; reflexivity].
  unfold numberToString.
  destruct (Z.eqb_spec m 0) as [->|Hm]; [reflexivity|].
  assert (B : forall c body, isDigit c = true ->
            startsWith (lit "- ")
              (((if m <? 0 then lit "-" else []) ++ c :: body) ++ tail) = false).
  { intros c body Hc. destruct (digit_not_dash c Hc) as [D1 D2].
    destruct (m <? 0); cbn [lit list_ascii_of_string app startsWith].
    - rewrite D2. apply andb_false_r.
    - rewrite D1. reflexivity. }
  assert (Hds : forallb isDigit (stripTrailingZeros (decimal (Z.abs m))) = true)
    by (apply stripTrailingZeros_forallb, decimal_digits; lia).
  assert (Hne : stripTrailingZeros (decimal (Z.abs m)) <> [])
    by (apply stripTrailingZeros_decimal_nonempty; lia).
  destruct (stripTrailingZeros (decimal (Z.abs m))) as [|d rest];
    [congruence|].
  cbn [forallb] in Hds. apply andb_true_iff in Hds. destruct Hds as [Hd _].
  set (n := len (decimal (Z.abs m)) - Z.of_nat scale).
  destruct ((len (d :: rest) <=? n) && (n <=? 21)).
  { cbn [app]. apply B, Hd. }
  destruct ((0 <? n) && (n <=? 21)) eqn:E.
  { apply andb_true_iff in E. destruct E as [E _]. apply Z.ltb_lt in E.
    destruct (Z.to_nat n) as [|k] eqn:K; [lia|].
    cbn [firstn app]. apply B, Hd. }
  destruct ((-6 <? n) && (n <=? 0)).
  { cbn [lit list_ascii_of_string app]. apply B. reflexivity. }
  destruct rest; cbn [lit list_ascii_of_string app]; apply B, Hd.
Qed.

(** The text of a scalar in the earlier format: a token or a quoted
    string, that does not start an array item. *)
Lemma legacy_scalar_text (v : Value) :
  isObjectLike v = false ->
  isText (Legacy.toToon v 0)
  /\ (colonFree v = true -> includes ":" (Legacy.toToon v 0) = false)
  /\ forall tail, startsWith (lit "- ") (Legacy.toToon v 0 ++ tail) = false.
Proof.
  destruct v as [| b | x | s | items | fields]; intros H; try discriminate H.
  - split; [left; reflexivity|]. split; reflexivity.
  - split; [left; destruct b; reflexivity|].
    split; [intros _|intros tail]; destruct b; reflexivity.
  - split; [left; apply numberToString_token|].
    split; [intros _; apply token_no_colon, numberToString_token|].
    apply number_not_dash.
  - assert (Q : isText (quoteJSONString s)
                /\ (colonFree (VStr s) = true ->
                    includes ":" (quoteJSONString s) = false)
                /\ forall tail,
                     startsWith (lit "- ") (quoteJSONString s ++ tail) = false).
    { split; [right; eauto|]. split; [|reflexivity].
      intros C. apply quoted_no_colon, negb_true_iff, C. }
    cbn [Legacy.toToon].
    destruct (str_eqb s (lit "true") || str_eqb s (lit "false")
              || str_eqb s (lit "null") || negb (isNaN (NumberOf s)));
      [exact Q|].
    destruct (testWord s) eqn:W; [|exact Q].
    split; [left; apply testWord_token, W|].
    split; [intros _; apply token_no_colon, testWord_token, W|].
    intros tail. apply word_not_dash, W.
Qed.

Lemma includes_join (c : ascii) (sep : str) (l : list str) :
  includes c sep = false -> Forall (fun x => includes c x = false) l ->
  includes c (join sep l) = false.
Proof.
  intros Hs H. induction H as [|x l Hx Hl IH]; [reflexivity|].
  destruct l as [|y l]; [exact Hx|].
  change (join sep (x :: y :: l)) with (x ++ sep ++ join sep (y :: l)).
  rewrite !includes_app, Hx, Hs, IH. reflexivity.
Qed.

Lemma legacy_simple_level (items : list Value) (n : nat) :
  isSimple items = true ->
  Legacy.toToon (VArr items) n = Legacy.toToon (VArr items) 0.
Proof.
  intros Hs. destruct items as [|x items]; [reflexivity|].
  cbn [Legacy.toToon]. rewrite Hs. reflexivity.
Qed.

(** The earlier text of an array of scalars is one line that is neither a
    field nor an item. *)
Lemma legacy_simple_plain (items : list Value) :
  isSimple items = true -> forallb colonFree items = true ->
  plainLines (Legacy.toToon (VArr items) 0) = true.
Proof.
  intros Hs Hc. destruct items as [|x items]; [reflexivity|].
  cbn [Legacy.toToon]. rewrite Hs.
  set (texts := map (fun item => Legacy.toToon item 0) (x :: items)).
  unfold isSimple in Hs. rewrite forallb_forall in Hs, Hc.
  assert (Hclean : clean (join (lit " ") texts) = true).
  { apply join_clean; [discriminate | reflexivity |].
    apply Forall_map, Forall_forall. intros v Hv.
    apply text_clean, legacy_scalar_text, negb_true_iff, Hs, Hv. }
  assert (Hcolon : includes ":" (join (lit " ") texts) = false).
  { apply includes_join; [reflexivity|].
    apply Forall_map, Forall_forall. intros v Hv.
    apply (legacy_scalar_text v); [apply negb_true_iff, Hs, Hv | apply Hc, Hv]. }
  assert (Hdash : startsWith (lit "- ") (join (lit " ") texts) = false).
  { destruct (legacy_scalar_text x) as (_ & _ & D);
      [apply negb_true_iff, Hs; left; reflexivity|].
    unfold texts. cbn [map]. destruct items as [|y items].
    - cbn [map join]. rewrite <- (app_nil_r (Legacy.toToon x 0)). apply D.
    - apply D. }
  unfold plainLines. apply clean_parts in Hclean as P.
  destruct P as (_ & _ & L). rewrite (splitLines_notLF _ L).
  cbn [forallb]. unfold plainLine.
  rewrite Hcolon, (trim_clean _ Hclean), Hdash. reflexivity.
Qed.

(** A field line without a value, alone in the text. *)
Lemma convertToJson_header (key : str) :
  flatKeyOk key = true ->
  convertToJson (formattedKey key ++ lit ":")
  = Ok (JSON_stringify (VObj [(key, VObj [])])).
Proof.
  intros Hk. unfold flatKeyOk in Hk. apply andb_true_iff in Hk.
  destruct Hk as [Hc Hp]. apply negb_true_iff in Hc, Hp.
  destruct (formattedKey_facts key Hc) as (C1 & C2 & C3 & C4).
  set (line := formattedKey key ++ lit ":").
  assert (Hclean : clean line = true)
    by (apply clean_key_content; reflexivity).
  apply clean_parts in Hclean as P. destruct P as (S & _ & L).
  assert (Hlex : lexLine line = (0, line)).
  { pose proof (lexLine_line 0 0 line Hclean) as X.
    cbn [spaces repeat app] in X. rewrite app_nil_r in X. exact X. }
  unfold convertToJson, nonBlankLines. rewrite (splitLines_notLF _ L).
  cbn [filter]. unfold nonBlank. rewrite (trim_clean _ Hclean).
  rewrite (clean_not_nil _ Hclean). cbn [negb].
  unfold parseLines. cbn [convertLoop]. unfold processLine.
  injection Hlex as E1 E2. rewrite E1, E2.
  unfold line at 2. change (formattedKey key ++ lit ":")
    with (formattedKey key ++ lit ":" ++ []).
  rewrite processContent_field by (exact C1 || apply C3).
  unfold fieldStep. rewrite (trim_clean _ C2), C4.
  cbn [bind popFrames root stack top obj rootFrame].
  change (trim []) with (@nil ascii). rewrite processValue_header.
  cbn [root stack map nextIsArray nth_error].
  rewrite (assign_object (VObj []) [] [] key (VObj []) eq_refl Hp).
  cbn [bind root setAt]. rewrite objPut_nil. reflexivity.
Qed.

(** X30: the earlier format loses arrays of scalars.  The earlier [toToon]
    joins the items of such an array by spaces on one line; when no string
    item holds a colon, [convertToJson] drops that line: a top-level array
    comes back as the empty object, and an object with one field holding
    the array comes back with an empty object as the value of the
    field. *)
Theorem legacy_arrays_of_scalars_lost (items : list Value) :
  isSimple items = true -> forallb colonFree items = true ->
  convertToJson (Legacy.toToon (VArr items) 0) = Ok (lit "{}")
  /\ forall key, flatKeyOk key = true ->
       convertToJson (Legacy.toToon (VObj [(key, VArr items)]) 0)
       = Ok (JSON_stringify (VObj [(key, VObj [])])).
Proof.
  intros Hs Hc. pose proof (legacy_simple_plain items Hs Hc) as P.
  split; [apply convertToJson_plain, P|].
  intros key Hk.
  change (Legacy.toToon (VObj [(key, VArr items)]) 0)
    with (formattedKey key ++ lit ":" ++ [LF] ++ Legacy.toToon (VArr items) 1).
  rewrite (legacy_simple_level items 1 Hs).
  change (formattedKey key ++ lit ":" ++ [LF] ++ Legacy.toToon (VArr items) 0)
    with (formattedKey key ++ lit ":" ++ LF :: Legacy.toToon (VArr items) 0).
  replace (formattedKey key ++ lit ":" ++ LF :: Legacy.toToon (VArr items) 0)
    with ((formattedKey key ++ lit ":") ++ LF :: Legacy.toToon (VArr items) 0)
    by (rewrite <- app_assoc; reflexivity).
  rewrite (convertToJson_trailing_plain _ _ P).
  apply convertToJson_header, Hk.
Qed.

Lemma legacy_arrays_of_scalars_lost_witness :
  convertToJson
    (Legacy.toToon (VObj [(lit "tags", VArr [VStr (lit "a"); VNum (Finite 2 0)])]) 0)
  = Ok (JSON_stringify (VObj [(lit "tags", VObj [])])).
Proof.
  apply (proj2 (legacy_arrays_of_scalars_lost
                  [VStr (lit "a"); VNum (Finite 2 0)] eq_refl eq_refl)).
  reflexivity.
Defined.
